(** * DSA switch trees, binding version 2 (net/dsa/dsa2.c)

    A shallow embedding of the switch-tree registry, the port classifier,
    the topology resolver, the protocol negotiator, the activator and the
    registration entry points of [dsa2.c], followed by the properties the
    specification states about them.

    Kernel objects live in a store addressed by pointers; a C function that
    reads or writes them is a computation in the monad [M], which fails
    where the C code would dereference an invalid pointer or index an array
    out of bounds. *)

From Stdlib Require Import ZArith Lia String Eqdep_dec.
From stdpp Require Import base option list gmap strings.

Local Open Scope Z_scope.
Local Open Scope string_scope.

(** ** Constants of the headers *)

(** Modelled from the spec: the capacity constants of [include/net/dsa.h]
    (the "fixed-capacity slot arrays bounded by a maximum switch/port
    count") and the "unreachable" routing-table default. *)
Definition DSA_MAX_SWITCHES : nat := 4.
Definition DSA_MAX_PORTS : nat := 12.
Definition DSA_RTABLE_NONE : Z := -1.

(** errno values used by the file. *)
Definition ENOMEM : Z := 12.
Definition EBUSY : Z := 16.
Definition ENODEV : Z := 19.
Definition EINVAL : Z := 22.
Definition ENODATA : Z := 61.
Definition EOVERFLOW : Z := 75.
Definition EPROBE_DEFER : Z := 517.

(** A pointer is an address; [option ptr] adds NULL. *)
Definition ptr := nat.

(** ** Integer fields *)

(** Modelled from the spec: [struct dsa_switch] is declared in
    [include/net/dsa.h] and not in this file. Its port masks, the
    bitmasks of a fixed width of the spec, are [u32], and the entries of
    its routing table are [s8], as that header declares them. *)

(** A [u32]: an integer from 0 to 2^32 - 1. *)
Definition u32_ok (z : Z) : bool := ((0 <=? z) && (z <? 2 ^ 32))%Z.
Record u32 := { u32_val :> Z; u32_prf : u32_ok u32_val = true }.

(** The conversion of an integer to [u32], as an assignment to a [u32]
    field does it: the value modulo 2^32 (which is in range, so that the
    second branch is never taken). *)
Definition to_u32 (z : Z) : u32 :=
  match u32_ok (z mod 2 ^ 32) as b
        return u32_ok (z mod 2 ^ 32) = b -> u32 with
  | true => fun H => {| u32_val := z mod 2 ^ 32; u32_prf := H |}
  | false => fun _ => {| u32_val := 0; u32_prf := eq_refl |}
  end eq_refl.

(** The conversion of an integer to [s8], as an assignment to an [s8]
    field does it: the value modulo 2^8, from -128 to 127. *)
Definition to_s8 (z : Z) : Z := (z + 128) mod 256 - 128.

(** [BIT(index)] and [1 << index], as integers: the store into a port
    mask ([to_u32]) keeps the bits below 32. A shift by 32 or more, which C
    leaves undefined for an [int], has its mathematical value here, of
    which no bit reaches the mask. *)
Definition BIT (index : nat) : Z := Z.shiftl 1 (Z.of_nat index).

(** ** Device tree *)

(** What [dsa2.c] reads of a [struct device_node]: the targets of the
    "link" phandle list in order (as far as [of_parse_phandle] resolves
    them), the "ethernet" phandle, the "label" string, the cells of "reg"
    and of "dsa,member" (absent properties are [None]), the child named
    "ports" and the available children. *)
Record device_node := {
  dn_link : list ptr;
  dn_ethernet : option ptr;
  dn_label : option string;
  dn_reg : option (list nat);
  dn_dsa_member : option (list nat);
  dn_ports : option ptr;
  dn_children : list ptr
}.

(** [struct dsa_chip_data]: the flat platform-data tables. *)
Record dsa_chip_data := {
  cd_port_names : list (option string);
  cd_netdev : list (option ptr)
}.

(** [struct device]. *)
Record device := {
  platform_data : option dsa_chip_data;
  of_node : option ptr
}.

(** [struct dsa_switch_ops]: the chip driver, as the outcomes of its
    hooks. [ops_set_addr] is [None] when the hook is absent, [ops_phy_read]
    tells whether the PHY read hook is present. *)
Record dsa_switch_ops := {
  ops_setup : Z;
  ops_get_tag_protocol : Z;
  ops_set_addr : option Z;
  ops_phy_read : bool
}.

(** Result of [dsa_resolve_tag_protocol]: a handler set or an [ERR_PTR]. *)
Inductive tag_ops_ptr :=
| TagNull
| TagErr (err : Z)
| TagOps (ops : ptr).

(** The collaborators outside [dsa2.c], as oracles. *)
Record externals := {
  of_tree : ptr -> device_node;
  of_find_net_device_by_node : ptr -> option ptr;
  dsa_dev_to_net_device : option ptr -> option ptr;
  dsa_resolve_tag_protocol : Z -> tag_ops_ptr;
  dsa_switch_register_notifier : ptr -> Z;
  dsa_cpu_dsa_setup : ptr -> nat -> Z;
  dsa_slave_create : ptr -> nat -> string -> Z + ptr;
  dsa_cpu_port_ethtool_setup : ptr -> Z;
  devm_mdiobus_alloc : ptr -> option ptr;
  mdiobus_register : ptr -> Z;
  kzalloc : option ptr
}.

(** The phandle list of property [name] of node [np]. *)
Definition of_phandle_list (env : externals) (np : option ptr) (name : string)
  : list ptr :=
  match np with
  | None => []
  | Some n =>
      if String.eqb name "link" then dn_link (of_tree env n)
      else if String.eqb name "ethernet" then
             match dn_ethernet (of_tree env n) with
             | Some e => [e]
             | None => []
             end
      else []
  end.

Definition of_parse_phandle (env : externals) (np : option ptr)
  (name : string) (index : nat) : option ptr :=
  of_phandle_list env np name !! index.

(** [of_property_read_u32_index]: [-EINVAL] when the property does not
    exist, [-ENODATA] when it has no value, [-EOVERFLOW] when it is too
    short; the out parameter is written on success only. *)
Definition of_property_read_u32_index (cells : option (list nat))
  (index : nat) : Z + nat :=
  match cells with
  | None => inl (- EINVAL)
  | Some [] => inl (- ENODATA)
  | Some l =>
      match l !! index with
      | Some v => inr v
      | None => inl (- EOVERFLOW)
      end
  end.

(** ** Ports and their classes *)

Record dsa_port := {
  port_index : nat;
  port_dn : option ptr;
  port_name : option string;
  port_netdev : option ptr
}.

Definition dsa_port_is_valid (port : dsa_port) : bool :=
  bool_decide (is_Some (port_dn port)) || bool_decide (is_Some (port_name port)).

Definition dsa_port_is_dsa (env : externals) (port : dsa_port) : bool :=
  match port_name port with
  | Some name =>
      if String.eqb name "dsa" then true
      else bool_decide (is_Some (of_parse_phandle env (port_dn port) "link" 0))
  | None => bool_decide (is_Some (of_parse_phandle env (port_dn port) "link" 0))
  end.

Definition dsa_port_is_cpu (env : externals) (port : dsa_port) : bool :=
  match port_name port with
  | Some name =>
      if String.eqb name "cpu" then true
      else bool_decide (is_Some (of_parse_phandle env (port_dn port) "ethernet" 0))
  | None => bool_decide (is_Some (of_parse_phandle env (port_dn port) "ethernet" 0))
  end.

Inductive port_class := Invalid | DsaLink | Cpu | User.

(** The class of a port is the branch the port loops of [dsa_ds_apply] and
    [dsa_ds_unapply] take for it. *)
Definition classify (env : externals) (port : dsa_port) : port_class :=
  if negb (dsa_port_is_valid port) then Invalid
  else if dsa_port_is_dsa env port then DsaLink
  else if dsa_port_is_cpu env port then Cpu
  else User.

(** ** Switches, trees and the store *)

(** [struct dsa_switch]. The port masks are [u32]. An entry of [rtable] is
    an [s8], kept as the integer it stands for: the initialisation of the
    table ([DSA_RTABLE_NONE]) and the one assignment to an entry
    ([dsa_port_complete], through [to_s8]) store values from -128 to
    127. *)
Record dsa_switch := {
  ds_dev : ptr;
  ds_dst : option ptr;
  ds_index : nat;
  ds_cd : option dsa_chip_data;
  ds_ops : dsa_switch_ops;
  ds_master_netdev : option ptr;
  ds_rtable : list Z;
  ds_phys_mii_mask : u32;
  ds_slave_mii_bus : option ptr;
  ds_enabled_port_mask : u32;
  ds_cpu_port_mask : u32;
  ds_dsa_port_mask : u32;
  ds_ports : list dsa_port
}.

(** [ds->num_ports] is the length of the flexible array [ds->ports]. *)
Definition ds_num_ports (ds : dsa_switch) : nat := length (ds_ports ds).

(** A [struct list_head *]: the registry head [&dsa_switch_trees], the
    [list] member of a tree, or a poison value. *)
Inductive lh_ptr :=
| LHead
| LTree (dst : ptr)
| LPoison.

Record list_head := { lh_next : lh_ptr; lh_prev : lh_ptr }.

Record dsa_switch_tree := {
  dst_list : list_head;
  dst_tree : nat;
  dst_refcount : Z;
  dst_applied : bool;
  dst_master_netdev : option ptr;
  dst_rcv : option ptr;
  dst_tag_ops : tag_ops_ptr;
  dst_cpu_switch : option ptr;
  dst_cpu_port : nat;
  dst_ds : list (option ptr)
}.

(** The store: allocated trees, the switches of the drivers, the registry
    head and the [dsa_ptr] field of the network devices. *)
Record world := {
  w_trees : gmap ptr dsa_switch_tree;
  w_switches : gmap ptr dsa_switch;
  dsa_switch_trees : list_head;
  w_dsa_ptr : gmap ptr ptr
}.

#[global] Instance lh_ptr_eq_dec : EqDecision lh_ptr.
Proof. solve_decision. Defined.
#[global] Instance port_class_eq_dec : EqDecision port_class.
Proof. solve_decision. Defined.

(** Field updates. *)
Definition dst_with_list (l : list_head) (t : dsa_switch_tree) :=
  {| dst_list := l; dst_tree := dst_tree t; dst_refcount := dst_refcount t;
     dst_applied := dst_applied t; dst_master_netdev := dst_master_netdev t;
     dst_rcv := dst_rcv t; dst_tag_ops := dst_tag_ops t;
     dst_cpu_switch := dst_cpu_switch t; dst_cpu_port := dst_cpu_port t;
     dst_ds := dst_ds t |}.
Definition dst_with_tree (n : nat) (t : dsa_switch_tree) :=
  {| dst_list := dst_list t; dst_tree := n; dst_refcount := dst_refcount t;
     dst_applied := dst_applied t; dst_master_netdev := dst_master_netdev t;
     dst_rcv := dst_rcv t; dst_tag_ops := dst_tag_ops t;
     dst_cpu_switch := dst_cpu_switch t; dst_cpu_port := dst_cpu_port t;
     dst_ds := dst_ds t |}.
Definition dst_with_refcount (n : Z) (t : dsa_switch_tree) :=
  {| dst_list := dst_list t; dst_tree := dst_tree t; dst_refcount := n;
     dst_applied := dst_applied t; dst_master_netdev := dst_master_netdev t;
     dst_rcv := dst_rcv t; dst_tag_ops := dst_tag_ops t;
     dst_cpu_switch := dst_cpu_switch t; dst_cpu_port := dst_cpu_port t;
     dst_ds := dst_ds t |}.
Definition dst_with_applied (b : bool) (t : dsa_switch_tree) :=
  {| dst_list := dst_list t; dst_tree := dst_tree t; dst_refcount := dst_refcount t;
     dst_applied := b; dst_master_netdev := dst_master_netdev t;
     dst_rcv := dst_rcv t; dst_tag_ops := dst_tag_ops t;
     dst_cpu_switch := dst_cpu_switch t; dst_cpu_port := dst_cpu_port t;
     dst_ds := dst_ds t |}.
Definition dst_with_master_netdev (m : option ptr) (t : dsa_switch_tree) :=
  {| dst_list := dst_list t; dst_tree := dst_tree t; dst_refcount := dst_refcount t;
     dst_applied := dst_applied t; dst_master_netdev := m;
     dst_rcv := dst_rcv t; dst_tag_ops := dst_tag_ops t;
     dst_cpu_switch := dst_cpu_switch t; dst_cpu_port := dst_cpu_port t;
     dst_ds := dst_ds t |}.
Definition dst_with_rcv (r : option ptr) (t : dsa_switch_tree) :=
  {| dst_list := dst_list t; dst_tree := dst_tree t; dst_refcount := dst_refcount t;
     dst_applied := dst_applied t; dst_master_netdev := dst_master_netdev t;
     dst_rcv := r; dst_tag_ops := dst_tag_ops t;
     dst_cpu_switch := dst_cpu_switch t; dst_cpu_port := dst_cpu_port t;
     dst_ds := dst_ds t |}.
Definition dst_with_tag_ops (o : tag_ops_ptr) (t : dsa_switch_tree) :=
  {| dst_list := dst_list t; dst_tree := dst_tree t; dst_refcount := dst_refcount t;
     dst_applied := dst_applied t; dst_master_netdev := dst_master_netdev t;
     dst_rcv := dst_rcv t; dst_tag_ops := o;
     dst_cpu_switch := dst_cpu_switch t; dst_cpu_port := dst_cpu_port t;
     dst_ds := dst_ds t |}.
Definition dst_with_cpu (s : option ptr) (p : nat) (t : dsa_switch_tree) :=
  {| dst_list := dst_list t; dst_tree := dst_tree t; dst_refcount := dst_refcount t;
     dst_applied := dst_applied t; dst_master_netdev := dst_master_netdev t;
     dst_rcv := dst_rcv t; dst_tag_ops := dst_tag_ops t;
     dst_cpu_switch := s; dst_cpu_port := p;
     dst_ds := dst_ds t |}.
Definition dst_with_ds (l : list (option ptr)) (t : dsa_switch_tree) :=
  {| dst_list := dst_list t; dst_tree := dst_tree t; dst_refcount := dst_refcount t;
     dst_applied := dst_applied t; dst_master_netdev := dst_master_netdev t;
     dst_rcv := dst_rcv t; dst_tag_ops := dst_tag_ops t;
     dst_cpu_switch := dst_cpu_switch t; dst_cpu_port := dst_cpu_port t;
     dst_ds := l |}.

Definition ds_with_rtable (r : list Z) (s : dsa_switch) :=
  {| ds_dev := ds_dev s; ds_dst := ds_dst s; ds_index := ds_index s;
     ds_cd := ds_cd s; ds_ops := ds_ops s;
     ds_master_netdev := ds_master_netdev s; ds_rtable := r;
     ds_phys_mii_mask := ds_phys_mii_mask s;
     ds_slave_mii_bus := ds_slave_mii_bus s;
     ds_enabled_port_mask := ds_enabled_port_mask s;
     ds_cpu_port_mask := ds_cpu_port_mask s;
     ds_dsa_port_mask := ds_dsa_port_mask s; ds_ports := ds_ports s |}.
Definition ds_with_phys_mii_mask (m : u32) (s : dsa_switch) :=
  {| ds_dev := ds_dev s; ds_dst := ds_dst s; ds_index := ds_index s;
     ds_cd := ds_cd s; ds_ops := ds_ops s;
     ds_master_netdev := ds_master_netdev s; ds_rtable := ds_rtable s;
     ds_phys_mii_mask := m;
     ds_slave_mii_bus := ds_slave_mii_bus s;
     ds_enabled_port_mask := ds_enabled_port_mask s;
     ds_cpu_port_mask := ds_cpu_port_mask s;
     ds_dsa_port_mask := ds_dsa_port_mask s; ds_ports := ds_ports s |}.
Definition ds_with_slave_mii_bus (b : option ptr) (s : dsa_switch) :=
  {| ds_dev := ds_dev s; ds_dst := ds_dst s; ds_index := ds_index s;
     ds_cd := ds_cd s; ds_ops := ds_ops s;
     ds_master_netdev := ds_master_netdev s; ds_rtable := ds_rtable s;
     ds_phys_mii_mask := ds_phys_mii_mask s;
     ds_slave_mii_bus := b;
     ds_enabled_port_mask := ds_enabled_port_mask s;
     ds_cpu_port_mask := ds_cpu_port_mask s;
     ds_dsa_port_mask := ds_dsa_port_mask s; ds_ports := ds_ports s |}.
Definition ds_with_enabled_port_mask (m : u32) (s : dsa_switch) :=
  {| ds_dev := ds_dev s; ds_dst := ds_dst s; ds_index := ds_index s;
     ds_cd := ds_cd s; ds_ops := ds_ops s;
     ds_master_netdev := ds_master_netdev s; ds_rtable := ds_rtable s;
     ds_phys_mii_mask := ds_phys_mii_mask s;
     ds_slave_mii_bus := ds_slave_mii_bus s;
     ds_enabled_port_mask := m;
     ds_cpu_port_mask := ds_cpu_port_mask s;
     ds_dsa_port_mask := ds_dsa_port_mask s; ds_ports := ds_ports s |}.
Definition ds_with_cpu_port_mask (m : u32) (s : dsa_switch) :=
  {| ds_dev := ds_dev s; ds_dst := ds_dst s; ds_index := ds_index s;
     ds_cd := ds_cd s; ds_ops := ds_ops s;
     ds_master_netdev := ds_master_netdev s; ds_rtable := ds_rtable s;
     ds_phys_mii_mask := ds_phys_mii_mask s;
     ds_slave_mii_bus := ds_slave_mii_bus s;
     ds_enabled_port_mask := ds_enabled_port_mask s;
     ds_cpu_port_mask := m;
     ds_dsa_port_mask := ds_dsa_port_mask s; ds_ports := ds_ports s |}.
Definition ds_with_dsa_port_mask (m : u32) (s : dsa_switch) :=
  {| ds_dev := ds_dev s; ds_dst := ds_dst s; ds_index := ds_index s;
     ds_cd := ds_cd s; ds_ops := ds_ops s;
     ds_master_netdev := ds_master_netdev s; ds_rtable := ds_rtable s;
     ds_phys_mii_mask := ds_phys_mii_mask s;
     ds_slave_mii_bus := ds_slave_mii_bus s;
     ds_enabled_port_mask := ds_enabled_port_mask s;
     ds_cpu_port_mask := ds_cpu_port_mask s;
     ds_dsa_port_mask := m; ds_ports := ds_ports s |}.
Definition ds_with_ports (l : list dsa_port) (s : dsa_switch) :=
  {| ds_dev := ds_dev s; ds_dst := ds_dst s; ds_index := ds_index s;
     ds_cd := ds_cd s; ds_ops := ds_ops s;
     ds_master_netdev := ds_master_netdev s; ds_rtable := ds_rtable s;
     ds_phys_mii_mask := ds_phys_mii_mask s;
     ds_slave_mii_bus := ds_slave_mii_bus s;
     ds_enabled_port_mask := ds_enabled_port_mask s;
     ds_cpu_port_mask := ds_cpu_port_mask s;
     ds_dsa_port_mask := ds_dsa_port_mask s; ds_ports := l |}.
Definition ds_with_master_netdev (m : option ptr) (s : dsa_switch) :=
  {| ds_dev := ds_dev s; ds_dst := ds_dst s; ds_index := ds_index s;
     ds_cd := ds_cd s; ds_ops := ds_ops s;
     ds_master_netdev := m; ds_rtable := ds_rtable s;
     ds_phys_mii_mask := ds_phys_mii_mask s;
     ds_slave_mii_bus := ds_slave_mii_bus s;
     ds_enabled_port_mask := ds_enabled_port_mask s;
     ds_cpu_port_mask := ds_cpu_port_mask s;
     ds_dsa_port_mask := ds_dsa_port_mask s; ds_ports := ds_ports s |}.
(** [ds->dst = dst; ds->index = index; ds->cd = pdata]. *)
Definition ds_with_member (dst : option ptr) (index : nat)
  (cd : option dsa_chip_data) (s : dsa_switch) :=
  {| ds_dev := ds_dev s; ds_dst := dst; ds_index := index;
     ds_cd := cd; ds_ops := ds_ops s;
     ds_master_netdev := ds_master_netdev s; ds_rtable := ds_rtable s;
     ds_phys_mii_mask := ds_phys_mii_mask s;
     ds_slave_mii_bus := ds_slave_mii_bus s;
     ds_enabled_port_mask := ds_enabled_port_mask s;
     ds_cpu_port_mask := ds_cpu_port_mask s;
     ds_dsa_port_mask := ds_dsa_port_mask s; ds_ports := ds_ports s |}.

Definition port_with_dn (dn : option ptr) (p : dsa_port) :=
  {| port_index := port_index p; port_dn := dn; port_name := port_name p;
     port_netdev := port_netdev p |}.
Definition port_with_name (name : option string) (p : dsa_port) :=
  {| port_index := port_index p; port_dn := port_dn p; port_name := name;
     port_netdev := port_netdev p |}.
Definition port_with_netdev (nd : option ptr) (p : dsa_port) :=
  {| port_index := port_index p; port_dn := port_dn p;
     port_name := port_name p; port_netdev := nd |}.

Definition w_with_trees (m : gmap ptr dsa_switch_tree) (w : world) :=
  {| w_trees := m; w_switches := w_switches w;
     dsa_switch_trees := dsa_switch_trees w; w_dsa_ptr := w_dsa_ptr w |}.
Definition w_with_switches (m : gmap ptr dsa_switch) (w : world) :=
  {| w_trees := w_trees w; w_switches := m;
     dsa_switch_trees := dsa_switch_trees w; w_dsa_ptr := w_dsa_ptr w |}.
Definition w_with_head (l : list_head) (w : world) :=
  {| w_trees := w_trees w; w_switches := w_switches w;
     dsa_switch_trees := l; w_dsa_ptr := w_dsa_ptr w |}.
Definition w_with_dsa_ptr (m : gmap ptr ptr) (w : world) :=
  {| w_trees := w_trees w; w_switches := w_switches w;
     dsa_switch_trees := dsa_switch_trees w; w_dsa_ptr := m |}.

(** ** The store monad *)

(** A computation reads and writes the store and returns a value; [None]
    is a run the C code does not survive (invalid pointer, index out of
    bounds, a list walk that never comes back to its head). *)
Definition M (A : Type) : Type := world -> option (A * world).

Definition ret {A} (a : A) : M A := fun w => Some (a, w).
Definition bind {A B} (m : M A) (k : A -> M B) : M B :=
  fun w => match m w with
           | Some (a, w') => k a w'
           | None => None
           end.
Definition fault {A} : M A := fun _ => None.

Declare Scope dsa_scope.
Delimit Scope dsa_scope with dsa.
Notation "x <- m ;; k" := (bind m (fun x => k))
  (at level 100, m at next level, right associativity) : dsa_scope.
Notation "m ;;; k" := (bind m (fun _ => k))
  (at level 100, right associativity) : dsa_scope.
Local Open Scope dsa_scope.

(** [*p] for a tree, a switch and a list head. *)
Definition load_dst (p : ptr) : M dsa_switch_tree :=
  fun w => match w_trees w !! p with
           | Some t => Some (t, w)
           | None => None
           end.
Definition store_dst (p : ptr) (t : dsa_switch_tree) : M unit :=
  fun w => match w_trees w !! p with
           | Some _ => Some (tt, w_with_trees (<[p := t]> (w_trees w)) w)
           | None => None
           end.
Definition load_ds (p : ptr) : M dsa_switch :=
  fun w => match w_switches w !! p with
           | Some s => Some (s, w)
           | None => None
           end.
Definition store_ds (p : ptr) (s : dsa_switch) : M unit :=
  fun w => match w_switches w !! p with
           | Some _ => Some (tt, w_with_switches (<[p := s]> (w_switches w)) w)
           | None => None
           end.
Definition load_lh (a : lh_ptr) : M list_head :=
  match a with
  | LHead => fun w => Some (dsa_switch_trees w, w)
  | LTree p => t <- load_dst p ;; ret (dst_list t)
  | LPoison => fault
  end.
Definition store_lh (a : lh_ptr) (l : list_head) : M unit :=
  match a with
  | LHead => fun w => Some (tt, w_with_head l w)
  | LTree p => t <- load_dst p ;; store_dst p (dst_with_list l t)
  | LPoison => fault
  end.

(** [a[i]] and [a[i] = x] on a C array. *)
Definition array_get {A} (a : list A) (i : nat) : M A :=
  match a !! i with
  | Some x => ret x
  | None => fault
  end.
Definition array_set {A} (a : list A) (i : nat) (x : A) : M (list A) :=
  if decide (i < length a)%nat then ret (<[i := x]> a) else fault.

(** A [for] loop over the indices (or entries) [l]: the body either leaves
    the function with a value ([Some r], a [return]) or goes on to the next
    round ([None], the end of the body or a [continue]); [after] is the
    code behind the loop. *)
Fixpoint for_each {I R} (l : list I) (body : I -> M (option R))
  (after : M R) : M R :=
  match l with
  | [] => after
  | i :: l' =>
      r <- body i ;;
      match r with
      | Some v => ret v
      | None => for_each l' body after
      end
  end.

(** ** Reference counts and the registry list *)

Definition kref_init (p : ptr) : M unit :=
  t <- load_dst p ;; store_dst p (dst_with_refcount 1 t).

Definition kref_get (p : ptr) : M unit :=
  t <- load_dst p ;; store_dst p (dst_with_refcount (dst_refcount t + 1) t).

(** Drops one reference and calls [release] when the count reaches zero. *)
Definition kref_put (p : ptr) (release : ptr -> M unit) : M unit :=
  t <- load_dst p ;;
  store_dst p (dst_with_refcount (dst_refcount t - 1) t) ;;;
  if decide (dst_refcount t - 1 = 0) then release p else ret tt.

Definition set_next (a v : lh_ptr) : M unit :=
  l <- load_lh a ;; store_lh a {| lh_next := v; lh_prev := lh_prev l |}.
Definition set_prev (a v : lh_ptr) : M unit :=
  l <- load_lh a ;; store_lh a {| lh_next := lh_next l; lh_prev := v |}.

Definition INIT_LIST_HEAD (list : lh_ptr) : M unit :=
  set_next list list ;;; set_prev list list.

Definition __list_add (new prev next : lh_ptr) : M unit :=
  set_prev next new ;;;
  set_next new next ;;;
  set_prev new prev ;;;
  set_next prev new.

(** [list_add_tail(new, head)]: insert [new] before [head]. *)
Definition list_add_tail (new head : lh_ptr) : M unit :=
  h <- load_lh head ;; __list_add new (lh_prev h) head.

Definition __list_del (prev next : lh_ptr) : M unit :=
  set_prev next prev ;;; set_next prev next.

Definition list_del (entry : lh_ptr) : M unit :=
  e <- load_lh entry ;;
  __list_del (lh_prev e) (lh_next e) ;;;
  set_next entry LPoison ;;;
  set_prev entry LPoison.

Definition kfree (p : ptr) : M unit :=
  fun w => Some (tt, w_with_trees (delete p (w_trees w)) w).

(** The body of [list_for_each_entry] in [dsa_get_dst], from position
    [pos]. A walk that has seen more entries than there are trees has seen
    one twice and never reaches the head again: the fuel only cuts walks
    that do not end. *)
Fixpoint dsa_get_dst_walk (fuel : nat) (pos : lh_ptr) (tree : nat)
  : M (option ptr) :=
  match fuel with
  | O => fault
  | S fuel' =>
      match pos with
      | LHead => ret None
      | LPoison => fault
      | LTree p =>
          dst <- load_dst p ;;
          if decide (dst_tree dst = tree) then
            kref_get p ;;; ret (Some p)
          else dsa_get_dst_walk fuel' (lh_next (dst_list dst)) tree
      end
  end.

Definition dsa_get_dst (tree : nat) : M (option ptr) :=
  fun w =>
    (h <- load_lh LHead ;;
     dsa_get_dst_walk (S (size (w_trees w))) (lh_next h) tree) w.

Definition dsa_free_dst (dst : ptr) : M unit :=
  list_del (LTree dst) ;;; kfree dst.

Definition dsa_put_dst (dst : ptr) : M unit :=
  kref_put dst dsa_free_dst.

(** What [kzalloc] hands out: a tree with every field zero. *)
Definition zero_dst : dsa_switch_tree :=
  {| dst_list := {| lh_next := LPoison; lh_prev := LPoison |};
     dst_tree := 0; dst_refcount := 0; dst_applied := false;
     dst_master_netdev := None; dst_rcv := None; dst_tag_ops := TagNull;
     dst_cpu_switch := None; dst_cpu_port := 0;
     dst_ds := replicate DSA_MAX_SWITCHES None |}.

(** The allocator returns NULL or an address that is not in use. *)
Definition kzalloc_dst (env : externals) : M (option ptr) :=
  match kzalloc env with
  | None => ret None
  | Some p =>
      fun w => match w_trees w !! p with
               | Some _ => None
               | None =>
                   Some (Some p, w_with_trees (<[p := zero_dst]> (w_trees w)) w)
               end
  end.

Definition dsa_add_dst (env : externals) (tree : nat) : M (option ptr) :=
  a <- kzalloc_dst env ;;
  match a with
  | None => ret None
  | Some dst =>
      t <- load_dst dst ;;
      store_dst dst (dst_with_tree tree t) ;;;
      INIT_LIST_HEAD (LTree dst) ;;;
      list_add_tail LHead (LTree dst) ;;;
      kref_init dst ;;;
      ret (Some dst)
  end.

Definition dsa_dst_add_ds (dst ds : ptr) (index : nat) : M unit :=
  kref_get dst ;;;
  t <- load_dst dst ;;
  slots <- array_set (dst_ds t) index (Some ds) ;;
  store_dst dst (dst_with_ds slots t).

Definition dsa_dst_del_ds (dst ds : ptr) (index : nat) : M unit :=
  t <- load_dst dst ;;
  slots <- array_set (dst_ds t) index None ;;
  store_dst dst (dst_with_ds slots t) ;;;
  kref_put dst dsa_free_dst.

(** ** Topology resolver *)

Definition dsa_ds_find_port_dn (ds : dsa_switch) (port : option ptr) : bool :=
  existsb (fun p => bool_decide (port_dn p = port)) (ds_ports ds).

Definition dsa_dst_find_port_dn (dst : ptr) (port : option ptr)
  : M (option ptr) :=
  for_each (seq 0 DSA_MAX_SWITCHES)
    (fun index =>
       t <- load_dst dst ;;
       slot <- array_get (dst_ds t) index ;;
       match slot with
       | None => ret None
       | Some ds =>
           s <- load_ds ds ;;
           if dsa_ds_find_port_dn s port then ret (Some (Some ds))
           else ret None
       end)
    (ret None).

Definition dsa_port_complete (env : externals) (dst src_ds : ptr)
  (port : dsa_port) (src_port : nat) : M Z :=
  for_each (of_phandle_list env (port_dn port) "link")
    (fun link =>
       dst_ds <- dsa_dst_find_port_dn dst (Some link) ;;
       match dst_ds with
       | None => ret (Some 1)
       | Some d =>
           target <- load_ds d ;;
           src <- load_ds src_ds ;;
           rtable <- array_set (ds_rtable src) (ds_index target)
                       (to_s8 (Z.of_nat src_port)) ;;
           store_ds src_ds (ds_with_rtable rtable src) ;;;
           ret None
       end)
    (ret 0).

Definition dsa_ds_complete (env : externals) (dst ds : ptr) : M Z :=
  s0 <- load_ds ds ;;
  for_each (seq 0 (ds_num_ports s0))
    (fun index =>
       s <- load_ds ds ;;
       port <- array_get (ds_ports s) index ;;
       if negb (dsa_port_is_valid port) then ret None
       else if negb (dsa_port_is_dsa env port) then ret None
       else
         err <- dsa_port_complete env dst ds port index ;;
         if decide (err <> 0) then ret (Some err)
         else
           s' <- load_ds ds ;;
           store_ds ds (ds_with_dsa_port_mask
                          (to_u32 (Z.lor (ds_dsa_port_mask s') (BIT index)))
                          s') ;;;
           ret None)
    (ret 0).

Definition dsa_dst_complete (env : externals) (dst : ptr) : M Z :=
  for_each (seq 0 DSA_MAX_SWITCHES)
    (fun index =>
       t <- load_dst dst ;;
       slot <- array_get (dst_ds t) index ;;
       match slot with
       | None => ret None
       | Some ds =>
           err <- dsa_ds_complete env dst ds ;;
           if decide (err <> 0) then ret (Some err) else ret None
       end)
    (ret 0).

(** ** Activator: ports *)

Definition dsa_dsa_port_apply (env : externals) (port : dsa_port)
  (index : nat) (ds : ptr) : M Z :=
  let err := dsa_cpu_dsa_setup env ds index in
  if decide (err <> 0) then ret err else ret 0.

(** [dsa_cpu_dsa_destroy] leaves the store of this file alone. *)
Definition dsa_dsa_port_unapply (port : dsa_port) (index : nat) (ds : ptr)
  : M unit :=
  ret tt.

Definition dsa_cpu_port_apply (env : externals) (port : dsa_port)
  (index : nat) (ds : ptr) : M Z :=
  let err := dsa_cpu_dsa_setup env ds index in
  if decide (err <> 0) then ret err
  else
    s <- load_ds ds ;;
    store_ds ds (ds_with_cpu_port_mask
                   (to_u32 (Z.lor (ds_cpu_port_mask s) (BIT index))) s) ;;;
    ret 0.

Definition dsa_cpu_port_unapply (port : dsa_port) (index : nat) (ds : ptr)
  : M unit :=
  s <- load_ds ds ;;
  store_ds ds (ds_with_cpu_port_mask
                 (to_u32 (Z.land (ds_cpu_port_mask s) (Z.lnot (BIT index))))
                 s).

(** [ds->ports[index].netdev = nd]. *)
Definition set_port_netdev (ds : ptr) (index : nat) (nd : option ptr)
  : M unit :=
  s <- load_ds ds ;;
  p <- array_get (ds_ports s) index ;;
  ports <- array_set (ds_ports s) index (port_with_netdev nd p) ;;
  store_ds ds (ds_with_ports ports s).

(** The name [dsa_user_port_apply] asks an interface for: the "label" of
    the device node if the port has one, else the platform name, else
    "eth%d". *)
Definition dsa_user_port_name (env : externals) (port : dsa_port) : string :=
  let name := port_name port in
  let name := match port_dn port with
              | Some dn => dn_label (of_tree env dn)
              | None => name
              end in
  match name with
  | Some n => n
  | None => "eth%d"
  end.

(** [dsa_slave_create] stores the interface it creates in
    [ds->ports[index].netdev]. *)
Definition dsa_user_port_apply (env : externals) (port : dsa_port)
  (index : nat) (ds : ptr) : M Z :=
  let name := dsa_user_port_name env port in
  match dsa_slave_create env ds index name with
  | inr slave_dev => set_port_netdev ds index (Some slave_dev) ;;; ret 0
  | inl err =>
      if decide (err <> 0) then set_port_netdev ds index None ;;; ret err
      else ret 0
  end.

Definition dsa_user_port_unapply (port : dsa_port) (index : nat) (ds : ptr)
  : M unit :=
  s <- load_ds ds ;;
  p <- array_get (ds_ports s) index ;;
  match port_netdev p with
  | Some _ =>
      set_port_netdev ds index None ;;;
      s' <- load_ds ds ;;
      store_ds ds (ds_with_enabled_port_mask
                     (to_u32 (Z.land (ds_enabled_port_mask s')
                                (Z.lnot (BIT index)))) s')
  | None => ret tt
  end.

(** ** Activator: switches and trees *)

(** The port loop of [dsa_ds_apply]. *)
Definition dsa_ds_apply_ports (env : externals) (ds : ptr) : M Z :=
  s0 <- load_ds ds ;;
  for_each (seq 0 (ds_num_ports s0))
    (fun index =>
       s <- load_ds ds ;;
       port <- array_get (ds_ports s) index ;;
       if negb (dsa_port_is_valid port) then ret None
       else if dsa_port_is_dsa env port then
         err <- dsa_dsa_port_apply env port index ds ;;
         if decide (err <> 0) then ret (Some err) else ret None
       else if dsa_port_is_cpu env port then
         err <- dsa_cpu_port_apply env port index ds ;;
         if decide (err <> 0) then ret (Some err) else ret None
       else
         err <- dsa_user_port_apply env port index ds ;;
         ret None)
    (ret 0).

(** The secondary MDIO bus of [dsa_ds_apply]. *)
Definition dsa_ds_apply_mii_bus (env : externals) (ds : ptr) : M Z :=
  s <- load_ds ds ;;
  if bool_decide (ds_slave_mii_bus s = None) && ops_phy_read (ds_ops s) then
    let bus := devm_mdiobus_alloc env (ds_dev s) in
    store_ds ds (ds_with_slave_mii_bus bus s) ;;;
    match bus with
    | None => ret (- ENOMEM)
    | Some b =>
        let err := mdiobus_register env b in
        if decide (err < 0) then ret err else ret 0
    end
  else ret 0.

(** The chip-level steps of [dsa_ds_apply], up to the port loop: the
    value the function returns from one of them, or 0 when all succeed. *)
Definition dsa_ds_apply_setup (env : externals) (dst ds : ptr) : M Z :=
  s <- load_ds ds ;;
  store_ds ds (ds_with_phys_mii_mask (ds_enabled_port_mask s) s) ;;;
  let err := ops_setup (ds_ops s) in
  if decide (err < 0) then ret err
  else
    let err := dsa_switch_register_notifier env ds in
    if decide (err <> 0) then ret err
    else
      err <- match ops_set_addr (ds_ops s) with
             | Some e =>
                 t <- load_dst dst ;;
                 match dst_master_netdev t with
                 | Some _ => ret e
                 | None => fault
                 end
             | None => ret 0
             end ;;
      if decide (err < 0) then ret err
      else dsa_ds_apply_mii_bus env ds.

Definition dsa_ds_apply (env : externals) (dst ds : ptr) : M Z :=
  err <- dsa_ds_apply_setup env dst ds ;;
  if decide (err <> 0) then ret err
  else dsa_ds_apply_ports env ds.

Definition dsa_ds_unapply (env : externals) (dst ds : ptr) : M unit :=
  s0 <- load_ds ds ;;
  for_each (seq 0 (ds_num_ports s0))
    (fun index =>
       s <- load_ds ds ;;
       port <- array_get (ds_ports s) index ;;
       if negb (dsa_port_is_valid port) then ret None
       else if dsa_port_is_dsa env port then
         dsa_dsa_port_unapply port index ds ;;; ret None
       else if dsa_port_is_cpu env port then
         dsa_cpu_port_unapply port index ds ;;; ret None
       else
         dsa_user_port_unapply port index ds ;;; ret None)
    (ret tt).

(** [dst->master_netdev->dsa_ptr = v]. *)
Definition set_dsa_ptr (dst : ptr) (v : option ptr) : M unit :=
  t <- load_dst dst ;;
  match dst_master_netdev t with
  | None => fault
  | Some nd =>
      fun w =>
        Some (tt, w_with_dsa_ptr
                    (match v with
                     | Some p => <[nd := p]> (w_dsa_ptr w)
                     | None => delete nd (w_dsa_ptr w)
                     end) w)
  end.

Definition dsa_dst_apply (env : externals) (dst : ptr) : M Z :=
  for_each (seq 0 DSA_MAX_SWITCHES)
    (fun index =>
       t <- load_dst dst ;;
       slot <- array_get (dst_ds t) index ;;
       match slot with
       | None => ret None
       | Some ds =>
           err <- dsa_ds_apply env dst ds ;;
           if decide (err <> 0) then ret (Some err) else ret None
       end)
    (t <- load_dst dst ;;
     let err := match dst_cpu_switch t with
                | Some cpu => dsa_cpu_port_ethtool_setup env cpu
                | None => 0
                end in
     if decide (err <> 0) then ret err
     else
       set_dsa_ptr dst (Some dst) ;;;
       t' <- load_dst dst ;;
       store_dst dst (dst_with_applied true t') ;;;
       ret 0).

Definition dsa_dst_unapply (env : externals) (dst : ptr) : M unit :=
  t <- load_dst dst ;;
  if negb (dst_applied t) then ret tt
  else
    set_dsa_ptr dst None ;;;
    for_each (seq 0 DSA_MAX_SWITCHES)
      (fun index =>
         t <- load_dst dst ;;
         slot <- array_get (dst_ds t) index ;;
         match slot with
         | None => ret None
         | Some ds => dsa_ds_unapply env dst ds ;;; ret None
         end)
      (t' <- load_dst dst ;;
       store_dst dst (dst_with_applied false t')).

(** ** Protocol negotiator *)

Definition dsa_cpu_parse (env : externals) (port : dsa_port) (index : nat)
  (dst ds : ptr) : M Z :=
  s <- load_ds ds ;;
  found <- match port_dn port with
           | Some _ =>
               match of_parse_phandle env (port_dn port) "ethernet" 0 with
               | None => ret (inl (- EINVAL))
               | Some ethernet =>
                   ret (inr (of_find_net_device_by_node env ethernet))
               end
           | None =>
               match ds_cd s with
               | None => fault
               | Some cd =>
                   dev <- array_get (cd_netdev cd) index ;;
                   ret (inr (dsa_dev_to_net_device env dev))
               end
           end ;;
  match found with
  | inl err => ret err
  | inr None => ret (- EPROBE_DEFER)
  | inr (Some ethernet_dev) =>
      (if bool_decide (ds_master_netdev s = None) then
         store_ds ds (ds_with_master_netdev (Some ethernet_dev) s)
       else ret tt) ;;;
      t <- load_dst dst ;;
      (if bool_decide (dst_master_netdev t = None) then
         store_dst dst (dst_with_master_netdev (Some ethernet_dev) t)
       else ret tt) ;;;
      t <- load_dst dst ;;
      (if bool_decide (dst_cpu_switch t = None) then
         store_dst dst (dst_with_cpu (Some ds) index t)
       else ret tt) ;;;
      let tag_protocol := ops_get_tag_protocol (ds_ops s) in
      t <- load_dst dst ;;
      store_dst dst
        (dst_with_tag_ops (dsa_resolve_tag_protocol env tag_protocol) t) ;;;
      match dsa_resolve_tag_protocol env tag_protocol with
      | TagErr err => ret err
      | TagNull => fault
      | TagOps ops =>
          t <- load_dst dst ;;
          store_dst dst (dst_with_rcv (Some ops) t) ;;;
          ret 0
      end
  end.

Definition dsa_ds_parse (env : externals) (dst ds : ptr) : M Z :=
  s0 <- load_ds ds ;;
  for_each (seq 0 (ds_num_ports s0))
    (fun index =>
       s <- load_ds ds ;;
       port <- array_get (ds_ports s) index ;;
       if negb (dsa_port_is_valid port) then ret None
       else if dsa_port_is_cpu env port then
         err <- dsa_cpu_parse env port index dst ds ;;
         if decide (err <> 0) then ret (Some err) else ret None
       else ret None)
    (ret 0).

Definition dsa_dst_parse (env : externals) (dst : ptr) : M Z :=
  for_each (seq 0 DSA_MAX_SWITCHES)
    (fun index =>
       t <- load_dst dst ;;
       slot <- array_get (dst_ds t) index ;;
       match slot with
       | None => ret None
       | Some ds =>
           err <- dsa_ds_parse env dst ds ;;
           if decide (err <> 0) then ret (Some err) else ret None
       end)
    (t <- load_dst dst ;;
     match dst_master_netdev t with
     | None => ret (- EINVAL)
     | Some _ => ret 0
     end).

(** ** Configuration sources *)

(** [ds->enabled_port_mask |= 1 << index] unless the port is a CPU port. *)
Definition enable_unless_cpu (env : externals) (ds : ptr) (index : nat)
  : M unit :=
  s <- load_ds ds ;;
  port <- array_get (ds_ports s) index ;;
  if negb (dsa_port_is_cpu env port) then
    store_ds ds (ds_with_enabled_port_mask
                   (to_u32 (Z.lor (ds_enabled_port_mask s) (BIT index))) s)
  else ret tt.

Definition dsa_parse_ports_dn (env : externals) (ports ds : ptr) : M Z :=
  for_each (dn_children (of_tree env ports))
    (fun port =>
       match of_property_read_u32_index (dn_reg (of_tree env port)) 0 with
       | inl err => ret (Some err)
       | inr reg =>
           s <- load_ds ds ;;
           if decide (ds_num_ports s <= reg)%nat then ret (Some (- EINVAL))
           else
             p <- array_get (ds_ports s) reg ;;
             ports' <- array_set (ds_ports s) reg (port_with_dn (Some port) p) ;;
             store_ds ds (ds_with_ports ports' s) ;;;
             enable_unless_cpu env ds reg ;;;
             ret None
       end)
    (ret 0).

(** The loop of [dsa_parse_ports] with its local [valid_name_found]. *)
Fixpoint dsa_parse_ports_loop (env : externals) (cd : dsa_chip_data)
  (ds : ptr) (l : list nat) (valid_name_found : bool) : M bool :=
  match l with
  | [] => ret valid_name_found
  | i :: l' =>
      name <- array_get (cd_port_names cd) i ;;
      match name with
      | None => dsa_parse_ports_loop env cd ds l' valid_name_found
      | Some _ =>
          s <- load_ds ds ;;
          p <- array_get (ds_ports s) i ;;
          ports' <- array_set (ds_ports s) i (port_with_name name p) ;;
          store_ds ds (ds_with_ports ports' s) ;;;
          enable_unless_cpu env ds i ;;;
          dsa_parse_ports_loop env cd ds l' true
      end
  end.

Definition dsa_parse_ports (env : externals) (cd : option dsa_chip_data)
  (ds : ptr) : M Z :=
  match cd with
  | None => fault
  | Some cd =>
      valid_name_found <-
        dsa_parse_ports_loop env cd ds (seq 0 DSA_MAX_PORTS) false ;;
      if negb valid_name_found then ret (- EINVAL) else ret 0
  end.

(** [dsa_parse_member_dn] returns its error code and the out parameters
    [*tree] and [*index]. *)
Definition dsa_parse_member_dn (env : externals) (np : ptr)
  : Z * (nat * nat) :=
  match of_property_read_u32_index (dn_dsa_member (of_tree env np)) 0 with
  | inl err =>
      if decide (err = - EINVAL) then (0, (0%nat, 0%nat))
      else (err, (0%nat, 0%nat))
  | inr tree =>
      match of_property_read_u32_index (dn_dsa_member (of_tree env np)) 1 with
      | inl err => (err, (tree, 0%nat))
      | inr index =>
          if decide (DSA_MAX_SWITCHES <= index)%nat
          then (- EINVAL, (tree, index))
          else (0, (tree, index))
      end
  end.

Definition dsa_parse_member (pd : option dsa_chip_data) : Z * (nat * nat) :=
  match pd with
  | None => (- ENODEV, (0%nat, 0%nat))
  | Some _ => (0, (0%nat, 0%nat))
  end.

(** [dsa_get_ports]: the "ports" child or [ERR_PTR(-EINVAL)]. *)
Definition dsa_get_ports (env : externals) (np : ptr) : Z + ptr :=
  match dn_ports (of_tree env np) with
  | None => inl (- EINVAL)
  | Some ports => inr ports
  end.

(** ** Registration *)

(** The two exits of [_dsa_register_switch]. *)
Definition out (dst : ptr) (err : Z) : M Z :=
  dsa_put_dst dst ;;; ret err.

Definition out_del_dst (dst ds : ptr) (err : Z) : M Z :=
  s <- load_ds ds ;;
  dsa_dst_del_ds dst ds (ds_index s) ;;;
  out dst err.

(** Lines 656-676: member and port parsing in the device-tree or the
    platform-data mode; an error code or [(tree, index)]. *)
Definition dsa_register_parse (env : externals) (ds : ptr) (dev : device)
  : M (Z + nat * nat) :=
  match of_node dev with
  | Some np =>
      let '(err, member) := dsa_parse_member_dn env np in
      if decide (err <> 0) then ret (inl err)
      else
        match dsa_get_ports env np with
        | inl err => ret (inl err)
        | inr ports =>
            err <- dsa_parse_ports_dn env ports ds ;;
            if decide (err <> 0) then ret (inl err) else ret (inr member)
        end
  | None =>
      let '(err, member) := dsa_parse_member (platform_data dev) in
      if decide (err <> 0) then ret (inl err)
      else
        err <- dsa_parse_ports env (platform_data dev) ds ;;
        if decide (err <> 0) then ret (inl err) else ret (inr member)
  end.

(** Lines 678-683: the tree of that id, or a new one. *)
Definition dsa_register_tree (env : externals) (tree : nat) : M (option ptr) :=
  dst <- dsa_get_dst tree ;;
  match dst with
  | Some d => ret (Some d)
  | None => dsa_add_dst env tree
  end.

(** Lines 690-700: the switch takes its slot, its routing table is
    initialised and the tree is resolved. *)
Definition dsa_register_resolve (env : externals) (ds dst : ptr)
  (index : nat) (pdata : option dsa_chip_data) : M Z :=
  s <- load_ds ds ;;
  store_ds ds (ds_with_member (Some dst) index pdata s) ;;;
  for_each (seq 0 DSA_MAX_SWITCHES)
    (fun i =>
       s <- load_ds ds ;;
       rtable <- array_set (ds_rtable s) i DSA_RTABLE_NONE ;;
       store_ds ds (ds_with_rtable rtable s) ;;;
       ret None)
    (ret tt) ;;;
  dsa_dst_add_ds dst ds index ;;;
  dsa_dst_complete env dst.

(** Lines 701-739: what follows the verdict [err] of the resolver. *)
Definition dsa_register_finish (env : externals) (ds dst : ptr) (err : Z)
  : M Z :=
  if decide (err < 0) then out_del_dst dst ds err
  else if decide (err = 1) then out dst 0
  else
    t <- load_dst dst ;;
    if dst_applied t then ret (- EINVAL)
    else
      err <- dsa_dst_parse env dst ;;
      if decide (err <> 0) then
        if decide (err = - EPROBE_DEFER) then
          s <- load_ds ds ;;
          dsa_dst_del_ds dst ds (ds_index s) ;;;
          ret err
        else out_del_dst dst ds err
      else
        err <- dsa_dst_apply env dst ;;
        if decide (err <> 0) then
          dsa_dst_unapply env dst ;;;
          out_del_dst dst ds err
        else
          dsa_put_dst dst ;;;
          ret 0.

Definition _dsa_register_switch (env : externals) (ds : ptr) (dev : device)
  : M Z :=
  parsed <- dsa_register_parse env ds dev ;;
  match parsed with
  | inl err => ret err
  | inr (tree, index) =>
      dst <- dsa_register_tree env tree ;;
      match dst with
      | None => ret (- ENOMEM)
      | Some dst =>
          t <- load_dst dst ;;
          slot <- array_get (dst_ds t) index ;;
          match slot with
          | Some _ => out dst (- EBUSY)
          | None =>
              err <- dsa_register_resolve env ds dst index (platform_data dev) ;;
              dsa_register_finish env ds dst err
          end
      end
  end.


Definition _dsa_unregister_switch (env : externals) (ds : ptr) : M unit :=
  s <- load_ds ds ;;
  match ds_dst s with
  | None => fault
  | Some dst =>
      dsa_dst_unapply env dst ;;;
      s' <- load_ds ds ;;
      dsa_dst_del_ds dst ds (ds_index s')
  end.

Definition dsa_unregister_switch (env : externals) (ds : ptr) : M unit :=
  _dsa_unregister_switch env ds.

(** * Scenarios *)

(** Concrete device trees, drivers and stores on which the properties
    below are exercised. *)

Definition empty_node : device_node :=
  {| dn_link := []; dn_ethernet := None; dn_label := None; dn_reg := None;
     dn_dsa_member := None; dn_ports := None; dn_children := [] |}.

(** A port node: its "reg" cell, its "link" targets and its "ethernet"
    target. *)
Definition port_node (reg : nat) (link : list ptr) (ethernet : option ptr)
  : device_node :=
  {| dn_link := link; dn_ethernet := ethernet; dn_label := None;
     dn_reg := Some [reg]; dn_dsa_member := None; dn_ports := None;
     dn_children := [] |}.

(** A switch node with its "dsa,member" cells and its "ports" child, and
    the "ports" node with its children. *)
Definition switch_node (member : option (list nat)) (ports : ptr)
  : device_node :=
  {| dn_link := []; dn_ethernet := None; dn_label := None; dn_reg := None;
     dn_dsa_member := member; dn_ports := Some ports; dn_children := [] |}.
Definition ports_node (children : list ptr) : device_node :=
  {| dn_link := []; dn_ethernet := None; dn_label := None; dn_reg := None;
     dn_dsa_member := None; dn_ports := None; dn_children := children |}.

(** A driver whose hooks all succeed, with tag protocol [proto]. *)
Definition plain_ops (proto : Z) : dsa_switch_ops :=
  {| ops_setup := 0; ops_get_tag_protocol := proto; ops_set_addr := None;
     ops_phy_read := false |}.

(** Collaborators that all succeed over the device tree [dt]; the network
    device of node [n] is live when [live n]. *)
Definition plain_env (dt : ptr -> device_node) (live : ptr -> bool)
  (alloc : option ptr) : externals :=
  {| of_tree := dt;
     of_find_net_device_by_node := fun n => if live n then Some n else None;
     dsa_dev_to_net_device := fun d => d;
     dsa_resolve_tag_protocol := fun proto => TagOps (Z.to_nat proto);
     dsa_switch_register_notifier := fun _ => 0;
     dsa_cpu_dsa_setup := fun _ _ => 0;
     dsa_slave_create := fun ds index _ => inr (1000 + 100 * ds + index)%nat;
     dsa_cpu_port_ethtool_setup := fun _ => 0;
     devm_mdiobus_alloc := fun _ => None;
     mdiobus_register := fun _ => 0;
     kzalloc := alloc |}.

(** A port and a switch as [dsa_switch_alloc] leaves them. *)
Definition fresh_port (index : nat) : dsa_port :=
  {| port_index := index; port_dn := None; port_name := None;
     port_netdev := None |}.
Definition fresh_switch (ops : dsa_switch_ops) (n : nat) : dsa_switch :=
  {| ds_dev := 0%nat; ds_dst := None; ds_index := 0; ds_cd := None;
     ds_ops := ops; ds_master_netdev := None;
     ds_rtable := replicate DSA_MAX_SWITCHES 0; ds_phys_mii_mask := to_u32 0;
     ds_slave_mii_bus := None; ds_enabled_port_mask := to_u32 0;
     ds_cpu_port_mask := to_u32 0; ds_dsa_port_mask := to_u32 0;
     ds_ports := map fresh_port (seq 0 n) |}.

(** The store before any registration. *)
Definition boot_world (switches : gmap ptr dsa_switch) : world :=
  {| w_trees := ∅; w_switches := switches;
     dsa_switch_trees := {| lh_next := LHead; lh_prev := LHead |};
     w_dsa_ptr := ∅ |}.

(** A device tree with one switch node (100) that has no "dsa,member"
    property; its only port (node 102, reg 0) is a user port. *)
Definition memberless_dt (n : ptr) : device_node :=
  match n with
  | 100%nat => switch_node None 101%nat
  | 101%nat => ports_node [102%nat]
  | 102%nat => port_node 0 [] None
  | _ => empty_node
  end.
Definition memberless_env : externals :=
  plain_env memberless_dt (fun _ => false) (Some 50%nat).



(** The reference count of the tree at [p], [None] once it is freed. *)
Definition refcount (w : world) (p : ptr) : option Z :=
  dst_refcount <$> w_trees w !! p.

(** The slot [index] of the tree at [p]. *)
Definition slot (w : world) (p : ptr) (index : nat) : option (option ptr) :=
  t ← w_trees w !! p; dst_ds t !! index.


(** Three switches (10, 11, 12) with four ports each, as allocated. *)
Definition three_switches : gmap ptr dsa_switch :=
  <[10%nat := fresh_switch (plain_ops 1) 4]>
    (<[11%nat := fresh_switch (plain_ops 1) 4]>
       (<[12%nat := fresh_switch (plain_ops 1) 4]> ∅)).

(** ** Vocabulary of the resolver properties *)

(** A member in slot [slot] is well formed: its switch is in the store,
    its member index addresses a routing-table entry and its routing table
    has its declared size. *)
Definition member_ok (w : world) (slot : option ptr) : bool :=
  match slot with
  | None => true
  | Some ds =>
      match w_switches w !! ds with
      | Some s =>
          bool_decide (ds_index s < DSA_MAX_SWITCHES)%nat &&
          bool_decide (length (ds_rtable s) = DSA_MAX_SWITCHES)
      | None => false
      end
  end.

(** The tree at [dst] is in the store, its slot array has its declared
    size and its members are well formed. *)
Definition wf_tree (w : world) (dst : ptr) : bool :=
  match w_trees w !! dst with
  | Some t =>
      bool_decide (length (dst_ds t) = DSA_MAX_SWITCHES) &&
      forallb (member_ok w) (dst_ds t)
  | None => false
  end.

(** [ds] (with state [s]) is the member in slot [i] of the tree at [dst]. *)
Definition member_at (w : world) (dst : ptr) (i : nat) (ds : ptr)
  (s : dsa_switch) : Prop :=
  exists t, w_trees w !! dst = Some t /\ dst_ds t !! i = Some (Some ds) /\
            w_switches w !! ds = Some s.

(** The link reference [link] matches a port of a registered member. *)
Definition resolves (w : world) (dst : ptr) (link : ptr) : Prop :=
  exists i ds s, member_at w dst i ds s /\
                 dsa_ds_find_port_dn s (Some link) = true.

(** Every link reference of every DsaLink port of every member resolves. *)
Definition all_links_resolve (env : externals) (w : world) (dst : ptr)
  : Prop :=
  forall i ds s port link,
    member_at w dst i ds s ->
    port ∈ ds_ports s ->
    classify env port = DsaLink ->
    link ∈ of_phandle_list env (port_dn port) "link" ->
    resolves w dst link.

(** What a resolver run may change of a switch: its routing-table entries
    and its DSA port mask. *)
Definition resolver_frame_ds (s s' : dsa_switch) : Prop :=
  s' = ds_with_dsa_port_mask (ds_dsa_port_mask s')
         (ds_with_rtable (ds_rtable s') s) /\
  length (ds_rtable s') = length (ds_rtable s).

(** What a resolver run may change of the store. *)
Definition resolver_frame (w w' : world) : Prop :=
  w_trees w' = w_trees w /\
  dsa_switch_trees w' = dsa_switch_trees w /\
  w_dsa_ptr w' = w_dsa_ptr w /\
  forall p, option_Forall2 resolver_frame_ds
              (w_switches w !! p) (w_switches w' !! p).

(** The link references of the DsaLink ports of switch [s] all resolve. *)
Definition switch_links_resolve (env : externals) (w : world) (dst : ptr)
  (s : dsa_switch) : Prop :=
  forall port link,
    port ∈ ds_ports s ->
    classify env port = DsaLink ->
    link ∈ of_phandle_list env (port_dn port) "link" ->
    resolves w dst link.

(** A device tree for two registered switches with an absent third one:
    port 0 of the first switch (node 102) links to port 0 of the second
    (node 203), which links back; port 1 of the first switch (node 103)
    links to node 302, a port of a switch that has not registered. *)
Definition partial_dt (n : ptr) : device_node :=
  match n with
  | 102%nat => port_node 0 [203%nat] None
  | 103%nat => port_node 1 [302%nat] None
  | 203%nat => port_node 0 [102%nat] None
  | _ => empty_node
  end.
Definition partial_env : externals :=
  plain_env partial_dt (fun _ => false) None.

(** A registered switch: member [index] of the tree at 50, with an
    initialised routing table and the device nodes [dns] on its ports. *)
Definition member_switch (index : nat) (dns : list ptr) : dsa_switch :=
  {| ds_dev := 0%nat; ds_dst := Some 50%nat; ds_index := index;
     ds_cd := None; ds_ops := plain_ops 1; ds_master_netdev := None;
     ds_rtable := replicate DSA_MAX_SWITCHES DSA_RTABLE_NONE;
     ds_phys_mii_mask := to_u32 0; ds_slave_mii_bus := None;
     ds_enabled_port_mask := to_u32 0; ds_cpu_port_mask := to_u32 0;
     ds_dsa_port_mask := to_u32 0;
     ds_ports := imap (fun i dn => port_with_dn (Some dn) (fresh_port i)) dns |}.

(** A tree at 50 with id [tree], reference count [refs] and slots [slots],
    linked in the registry. *)
Definition member_tree (tree : nat) (refs : Z) (slots : list (option ptr))
  : dsa_switch_tree :=
  dst_with_ds slots
    (dst_with_refcount refs
       (dst_with_list {| lh_next := LHead; lh_prev := LHead |}
          (dst_with_tree tree zero_dst))).

(** The store in which both switches hold their slots and the resolver is
    about to run. *)
Definition partial_world : world :=
  {| w_trees :=
       {[ 50%nat := member_tree 0 3 [Some 10%nat; Some 11%nat; None; None] ]};
     w_switches :=
       <[10%nat := member_switch 0 [102%nat; 103%nat]]>
         {[ 11%nat := member_switch 1 [203%nat] ]};
     dsa_switch_trees := {| lh_next := LTree 50%nat; lh_prev := LTree 50%nat |};
     w_dsa_ptr := ∅ |}.

(** ** Partial correctness *)

(** [wp m Q w]: if [m] returns from [w], its result and final store
    satisfy [Q]. *)
Definition wp {A} (m : M A) (Q : A -> world -> Prop) (w : world) : Prop :=
  match m w with
  | Some (a, w') => Q a w'
  | None => True
  end.

(** The store a computation leaves behind. *)
Definition world_after {A} (m : M A) (w : world) : world :=
  match m w with
  | Some (_, w') => w'
  | None => w
  end.

(** Two switches with no link between them: the first (node 100, member
    [0 0]) has a CPU port (node 102, reg 0) whose master (node 900) is
    live; the second (node 200, member [0 1]) has one user port (node 203,
    reg 0). Each is complete on its own, yet both name tree 0. *)
Definition disjoint_dt (n : ptr) : device_node :=
  match n with
  | 100%nat => switch_node (Some [0; 0]%nat) 101%nat
  | 101%nat => ports_node [102%nat]
  | 102%nat => port_node 0 [] (Some 900%nat)
  | 200%nat => switch_node (Some [0; 1]%nat) 201%nat
  | 201%nat => ports_node [203%nat]
  | 203%nat => port_node 0 [] None
  | _ => empty_node
  end.
Definition disjoint_env : externals :=
  plain_env disjoint_dt (fun n => bool_decide (n = 900%nat)) (Some 50%nat).
Definition device_100 : device :=
  {| platform_data := None; of_node := Some 100%nat |}.
Definition device_200 : device :=
  {| platform_data := None; of_node := Some 200%nat |}.

(** The first switch has registered and its tree is applied. *)
Definition disjoint_world : world :=
  world_after (_dsa_register_switch disjoint_env 10%nat device_100)
    (boot_world three_switches).
(** The stages of the registration of the second switch. *)
Definition disjoint_world_parsed : world :=
  world_after (dsa_register_parse disjoint_env 11%nat device_200)
    disjoint_world.
Definition disjoint_world_tree : world :=
  world_after (dsa_register_tree disjoint_env 0) disjoint_world_parsed.
Definition disjoint_world_resolved : world :=
  world_after (dsa_register_resolve disjoint_env 11%nat 50%nat 1 None)
    disjoint_world_tree.

(** The two-switch fabric of the specification: switches (tree 1, index
    0) and (tree 1, index 1); port 2 of switch 0 (node 102) links to port
    0 of switch 1 (node 203), which links back; port 3 of switch 1 (node
    204) is the CPU port, with master node 900. *)
Definition fabric_dt (n : ptr) : device_node :=
  match n with
  | 100%nat => switch_node (Some [1; 0]%nat) 101%nat
  | 101%nat => ports_node [102%nat]
  | 102%nat => port_node 2 [203%nat] None
  | 200%nat => switch_node (Some [1; 1]%nat) 201%nat
  | 201%nat => ports_node [203%nat; 204%nat]
  | 203%nat => port_node 0 [102%nat] None
  | 204%nat => port_node 3 [] (Some 900%nat)
  | _ => empty_node
  end.
(** The master device is live, or not yet. *)
Definition fabric_env : externals :=
  plain_env fabric_dt (fun n => bool_decide (n = 900%nat)) (Some 50%nat).
Definition fabric_env_early : externals :=
  plain_env fabric_dt (fun _ => false) (Some 50%nat).

(** Switch 0 (at 10) has registered; the tree waits for switch 1. *)
Definition fabric_world_pending : world :=
  world_after (_dsa_register_switch fabric_env 10%nat device_100)
    (boot_world three_switches).
(** Switch 1 (at 11) has then tried to register before the master device
    was live. *)
Definition fabric_world_deferred : world :=
  world_after (_dsa_register_switch fabric_env_early 11%nat device_200)
    fabric_world_pending.

(** ** Vocabulary of the activator properties *)

(** The interface a user port holds after [dsa_user_port_apply]: the one
    [dsa_slave_create] made, none if the creation failed. *)
Definition user_port_outcome (env : externals) (ds : ptr) (index : nat)
  (port : dsa_port) : option ptr :=
  match dsa_slave_create env ds index (dsa_user_port_name env port) with
  | inr slave_dev => Some slave_dev
  | inl err => if decide (err <> 0) then None else port_netdev port
  end.

(** An uplink port: DsaLink or Cpu. *)
Definition is_uplink (env : externals) (port : dsa_port) : Prop :=
  classify env port = DsaLink \/ classify env port = Cpu.

(** The uplink-setup step fails on port [i] of [ports]. *)
Definition uplink_fails (env : externals) (ds : ptr) (ports : list dsa_port)
  (i : nat) : Prop :=
  exists port, ports !! i = Some port /\ is_uplink env port /\
               dsa_cpu_dsa_setup env ds i <> 0.

(** A single switch with user ports 0, 1 and 3 (nodes 102, 103, 105) and
    CPU port 2 (node 104, master node 900). *)
Definition mixed_dt (n : ptr) : device_node :=
  match n with
  | 100%nat => switch_node (Some [0; 0]%nat) 101%nat
  | 101%nat => ports_node [102%nat; 103%nat; 104%nat; 105%nat]
  | 102%nat => port_node 0 [] None
  | 103%nat => port_node 1 [] None
  | 104%nat => port_node 2 [] (Some 900%nat)
  | 105%nat => port_node 3 [] None
  | _ => empty_node
  end.
(** Every collaborator succeeds, except that the interface of port 1
    cannot be created. *)
Definition mixed_env : externals :=
  let env := plain_env mixed_dt (fun n => bool_decide (n = 900%nat))
               (Some 50%nat) in
  {| of_tree := of_tree env;
     of_find_net_device_by_node := of_find_net_device_by_node env;
     dsa_dev_to_net_device := dsa_dev_to_net_device env;
     dsa_resolve_tag_protocol := dsa_resolve_tag_protocol env;
     dsa_switch_register_notifier := dsa_switch_register_notifier env;
     dsa_cpu_dsa_setup := dsa_cpu_dsa_setup env;
     dsa_slave_create := fun ds index name =>
       if bool_decide (index = 1%nat) then inl (- ENOMEM)
       else dsa_slave_create env ds index name;
     dsa_cpu_port_ethtool_setup := dsa_cpu_port_ethtool_setup env;
     devm_mdiobus_alloc := devm_mdiobus_alloc env;
     mdiobus_register := mdiobus_register env;
     kzalloc := kzalloc env |}.
(** The same, except that the uplink setup of port 2 fails. *)
Definition mixed_env_uplink : externals :=
  let env := plain_env mixed_dt (fun n => bool_decide (n = 900%nat))
               (Some 50%nat) in
  {| of_tree := of_tree env;
     of_find_net_device_by_node := of_find_net_device_by_node env;
     dsa_dev_to_net_device := dsa_dev_to_net_device env;
     dsa_resolve_tag_protocol := dsa_resolve_tag_protocol env;
     dsa_switch_register_notifier := dsa_switch_register_notifier env;
     dsa_cpu_dsa_setup := fun ds index =>
       if bool_decide (index = 2%nat) then - EINVAL else 0;
     dsa_slave_create := dsa_slave_create env;
     dsa_cpu_port_ethtool_setup := dsa_cpu_port_ethtool_setup env;
     devm_mdiobus_alloc := devm_mdiobus_alloc env;
     mdiobus_register := mdiobus_register env;
     kzalloc := kzalloc env |}.

(** The store once the switch (at 10) holds slot 0 of its tree (at 50),
    the tree is negotiated, and the activator is about to run. *)
Definition mixed_world : world :=
  {| w_trees :=
       {[ 50%nat :=
            dst_with_master_netdev (Some 900%nat)
              (dst_with_cpu (Some 10%nat) 2
                 (member_tree 0 2 [Some 10%nat; None; None; None])) ]};
     w_switches :=
       {[ 10%nat :=
            ds_with_enabled_port_mask (to_u32 11)
              (member_switch 0 [102%nat; 103%nat; 104%nat; 105%nat]) ]};
     dsa_switch_trees := {| lh_next := LTree 50%nat; lh_prev := LTree 50%nat |};
     w_dsa_ptr := ∅ |}.

(** ** Vocabulary of the negotiator properties *)

(** What the negotiator elects and records on a tree: the CPU switch, the
    CPU port and the tag-protocol handler set. *)
Definition election : Type := option ptr * nat * tag_ops_ptr.
Definition election_of (t : dsa_switch_tree) : election :=
  (dst_cpu_switch t, dst_cpu_port t, dst_tag_ops t).

(** The effect of one CPU port (port [index] of the switch at [ds], whose
    driver reports tag protocol [proto]) on the election. *)
Definition elect (env : externals) (e : election) (cpu : ptr * Z * nat)
  : election :=
  let '(ds, proto, index) := cpu in
  let '(sw, port, _) := e in
  (match sw with
   | None => (Some ds, index)
   | Some _ => (sw, port)
   end, dsa_resolve_tag_protocol env proto).

(** The ports of [s] that the negotiator treats as CPU ports, by index. *)
Definition cpu_indices (env : externals) (s : dsa_switch) : list nat :=
  List.filter
    (fun i => match ds_ports s !! i with
              | Some port => dsa_port_is_valid port && dsa_port_is_cpu env port
              | None => false
              end)
    (seq 0 (ds_num_ports s)).

(** The CPU ports of the members in [slots], in slot order and then port
    order, each with its switch and the tag protocol of its driver. *)
Definition tree_cpu_ports (env : externals) (w : world)
  (slots : list (option ptr)) : list (ptr * Z * nat) :=
  concat
    (map (fun slot =>
            match slot with
            | Some ds =>
                match w_switches w !! ds with
                | Some s =>
                    map (fun i => (ds, ops_get_tag_protocol (ds_ops s), i))
                      (cpu_indices env s)
                | None => []
                end
            | None => []
            end) slots).

(** What a negotiation leaves of the store as it is: the ports and the
    driver of every switch, the slots of every tree. *)
Definition negotiator_frame (w w' : world) : Prop :=
  (forall p, option_Forall2
               (fun s s' => ds_ports s' = ds_ports s /\ ds_ops s' = ds_ops s)
               (w_switches w !! p) (w_switches w' !! p)) /\
  (forall p, option_Forall2 (fun t t' => dst_ds t' = dst_ds t)
               (w_trees w !! p) (w_trees w' !! p)).

(** Two linked switches that both have a CPU port: switch 0 (node 100)
    has CPU port 0 (node 102) and DSA port 1 (node 103, linked to node
    204); switch 1 (node 200) has CPU port 0 (node 203) and DSA port 1
    (node 204, linked to node 103). Both CPU ports lead to master 900. *)
Definition dual_cpu_dt (n : ptr) : device_node :=
  match n with
  | 100%nat => switch_node (Some [0; 0]%nat) 101%nat
  | 101%nat => ports_node [102%nat; 103%nat]
  | 102%nat => port_node 0 [] (Some 900%nat)
  | 103%nat => port_node 1 [204%nat] None
  | 200%nat => switch_node (Some [0; 1]%nat) 201%nat
  | 201%nat => ports_node [203%nat; 204%nat]
  | 203%nat => port_node 0 [] (Some 900%nat)
  | 204%nat => port_node 1 [103%nat] None
  | _ => empty_node
  end.
Definition dual_cpu_env : externals :=
  plain_env dual_cpu_dt (fun n => bool_decide (n = 900%nat)) (Some 50%nat).
(** The driver of the switch at 10 reports tag protocol 1, the driver of
    the switch at 11 tag protocol 2. *)
Definition dual_cpu_switches : gmap ptr dsa_switch :=
  <[10%nat := fresh_switch (plain_ops 1) 4]>
    {[ 11%nat := fresh_switch (plain_ops 2) 4 ]}.
(** Switch 0 has registered; then switch 1 has. *)
Definition dual_cpu_world_pending : world :=
  world_after (_dsa_register_switch dual_cpu_env 10%nat device_100)
    (boot_world dual_cpu_switches).
Definition dual_cpu_world : world :=
  world_after (_dsa_register_switch dual_cpu_env 11%nat device_200)
    dual_cpu_world_pending.
(** The store of the second registration when the negotiator starts. *)
Definition dual_cpu_world_resolved : world :=
  world_after (dsa_register_resolve dual_cpu_env 11%nat 50%nat 1 None)
    (world_after (dsa_register_tree dual_cpu_env 0)
       (world_after (dsa_register_parse dual_cpu_env 11%nat device_200)
          dual_cpu_world_pending)).

(** ** Vocabulary of the apply/unapply properties *)

(** What classification reads of a port. *)
Definition descriptor (port : dsa_port) : option ptr * option string :=
  (port_dn port, port_name port).

(** Port [i] of [s] is a Cpu port; port [i] of [s] is a user port that
    holds an interface. *)
Definition is_cpu_port (env : externals) (s : dsa_switch) (i : nat) : bool :=
  match ds_ports s !! i with
  | Some port => bool_decide (classify env port = Cpu)
  | None => false
  end.
Definition holds_interface (env : externals) (s : dsa_switch) (i : nat)
  : bool :=
  match ds_ports s !! i with
  | Some port =>
      bool_decide (classify env port = User) &&
      bool_decide (is_Some (port_netdev port))
  | None => false
  end.

(** What [dsa_ds_unapply] does to port [i] of a switch, on the switch. *)
Definition unapply_port (env : externals) (s : dsa_switch) (i : nat)
  : dsa_switch :=
  match ds_ports s !! i with
  | None => s
  | Some port =>
      match classify env port with
      | Invalid | DsaLink => s
      | Cpu =>
          ds_with_cpu_port_mask
            (to_u32 (Z.land (ds_cpu_port_mask s) (Z.lnot (BIT i)))) s
      | User =>
          match port_netdev port with
          | Some _ =>
              let s' := ds_with_ports
                          (<[i := port_with_netdev None port]> (ds_ports s)) s in
              ds_with_enabled_port_mask
                (to_u32 (Z.land (ds_enabled_port_mask s') (Z.lnot (BIT i))))
                s'
          | None => s
          end
      end
  end.

(** The switch after [dsa_ds_unapply]. *)
Definition unapplied (env : externals) (s : dsa_switch) : dsa_switch :=
  foldl (unapply_port env) s (seq 0 (ds_num_ports s)).

(** [*ds = s]. *)
Definition put_ds (ds : ptr) (s : dsa_switch) (w : world) : world :=
  w_with_switches (<[ds := s]> (w_switches w)) w.

(** What an apply leaves of a switch: the routing table, the enabled
    mask, the descriptors of the ports and the CPU mask bits of the ports
    that are not Cpu ports. *)
Definition apply_frame_ds (env : externals) (s s' : dsa_switch) : Prop :=
  ds_rtable s' = ds_rtable s /\
  ds_enabled_port_mask s' = ds_enabled_port_mask s /\
  map descriptor (ds_ports s') = map descriptor (ds_ports s) /\
  forall i, is_cpu_port env s i = false ->
    Z.testbit (ds_cpu_port_mask s') (Z.of_nat i) =
    Z.testbit (ds_cpu_port_mask s) (Z.of_nat i).

(** What an apply leaves of the store: the above of every switch, and the
    slots of every tree. *)
Definition apply_frame (env : externals) (w w' : world) : Prop :=
  (forall p, option_Forall2 (apply_frame_ds env)
               (w_switches w !! p) (w_switches w' !! p)) /\
  (forall p, option_Forall2 (fun t t' => dst_ds t' = dst_ds t)
               (w_trees w !! p) (w_trees w' !! p)).

(** Every collaborator succeeds on the switch of [mixed_dt]. *)
Definition mixed_plain_env : externals :=
  plain_env mixed_dt (fun n => bool_decide (n = 900%nat)) (Some 50%nat).
(** The tree of [mixed_world] applied, and then unapplied. *)
Definition mixed_world_applied : world :=
  world_after (dsa_dst_apply mixed_plain_env 50%nat) mixed_world.
Definition mixed_world_unapplied : world :=
  world_after (dsa_dst_unapply mixed_plain_env 50%nat) mixed_world_applied.

(** ** Vocabulary of the order properties *)

(** Three switches of tree 0 and an absent fourth: port 0 of the switch in
    slot 1 (node 102) links to port 0 of the switch in slot 2 (node 203);
    port 1 of the switch in slot 2 (node 204) and port 0 of the switch in
    slot 0 (node 302) link to nodes 402 and 403, ports of a switch that
    has not registered. No link leads back. *)
Definition chain_dt (n : ptr) : device_node :=
  match n with
  | 100%nat => switch_node (Some [0; 1]%nat) 101%nat
  | 101%nat => ports_node [102%nat]
  | 102%nat => port_node 0 [203%nat] None
  | 200%nat => switch_node (Some [0; 2]%nat) 201%nat
  | 201%nat => ports_node [203%nat; 204%nat]
  | 203%nat => port_node 0 [] None
  | 204%nat => port_node 1 [402%nat] None
  | 300%nat => switch_node (Some [0; 0]%nat) 301%nat
  | 301%nat => ports_node [302%nat]
  | 302%nat => port_node 0 [403%nat] None
  | _ => empty_node
  end.
Definition chain_env : externals :=
  plain_env chain_dt (fun _ => false) (Some 50%nat).
Definition device_300 : device :=
  {| platform_data := None; of_node := Some 300%nat |}.

(** The switch of slot 1 (at 10) has registered; then the switches of
    slot 2 (at 11) and of slot 0 (at 12) register, in either order. *)
Definition chain_world : world :=
  world_after (_dsa_register_switch chain_env 10%nat device_100)
    (boot_world three_switches).
Definition chain_world_2_then_0 : world :=
  world_after (_dsa_register_switch chain_env 12%nat device_300)
    (world_after (_dsa_register_switch chain_env 11%nat device_200)
       chain_world).
Definition chain_world_0_then_2 : world :=
  world_after (_dsa_register_switch chain_env 11%nat device_200)
    (world_after (_dsa_register_switch chain_env 12%nat device_300)
       chain_world).

(** The member [dsa_dst_find_port_dn] returns for the node [link]: the
    switch of the first slot that has a port with that node. *)
Definition owner (w : world) (link : ptr) (slot : option ptr) : option ptr :=
  match slot with
  | Some ds =>
      match w_switches w !! ds with
      | Some s => if dsa_ds_find_port_dn s (Some link) then Some ds else None
      | None => None
      end
  | None => None
  end.
Definition target (w : world) (dst : ptr) (link : ptr) : option ptr :=
  match w_trees w !! dst with
  | Some t => head (omap (owner w link) (dst_ds t))
  | None => None
  end.

(** The routing-table write [dsa_port_complete] does for the reference
    [link] of port [idx], as (entry, value); none if [link] matches no
    member. *)
Definition link_write (w : world) (dst : ptr) (idx : nat) (link : ptr)
  : option (nat * Z) :=
  match target w dst link with
  | Some d =>
      match w_switches w !! d with
      | Some s => Some (ds_index s, to_s8 (Z.of_nat idx))
      | None => None
      end
  | None => None
  end.

(** The writes of the references of a port, of port [idx] of a switch as
    [dsa_ds_complete] takes it, and of all the ports of a switch, in the
    order of the loops. *)
Definition port_writes (env : externals) (w : world) (dst : ptr)
  (port : dsa_port) (idx : nat) : list (nat * Z) :=
  omap (link_write w dst idx) (of_phandle_list env (port_dn port) "link").
Definition port_part (env : externals) (w : world) (dst : ptr)
  (s : dsa_switch) (idx : nat) : list (nat * Z) :=
  match ds_ports s !! idx with
  | Some port =>
      if negb (dsa_port_is_valid port) then []
      else if negb (dsa_port_is_dsa env port) then []
      else port_writes env w dst port idx
  | None => []
  end.
Definition ds_writes (env : externals) (w : world) (dst : ptr)
  (s : dsa_switch) : list (nat * Z) :=
  flat_map (port_part env w dst s) (seq 0 (ds_num_ports s)).

(** A routing table after a sequence of writes. *)
Definition apply_writes (ws : list (nat * Z)) (rt : list Z) : list Z :=
  foldl (fun rt kv => <[kv.1 := kv.2]> rt) rt ws.

(** What the writes depend on: the slots of the tree, and the ports and
    the member index of every switch. *)
Definition same_switch_topology (s s' : dsa_switch) : Prop :=
  ds_ports s' = ds_ports s /\ ds_index s' = ds_index s.
Definition same_topology (dst : ptr) (w w' : world) : Prop :=
  dst_ds <$> w_trees w' !! dst = dst_ds <$> w_trees w !! dst /\
  forall p, option_Forall2 same_switch_topology
              (w_switches w !! p) (w_switches w' !! p).

(** No port node belongs to two switches of the store. *)
Definition port_nodes (s : dsa_switch) : list ptr :=
  omap port_dn (ds_ports s).
Definition ports_disjoint (w : world) : bool :=
  let l := map_to_list (w_switches w) in
  forallb
    (fun ps =>
       forallb
         (fun qs =>
            bool_decide (ps.1 = qs.1) ||
            forallb (fun n => negb (bool_decide (n ∈ port_nodes qs.2)))
              (port_nodes ps.2))
         l)
    l.

(** Lines 690-699 on the store: the switch [ds] has its member fields and
    an empty routing table, and holds slot [index] of the tree. *)
Definition registered (dst : ptr) (index : nat)
  (pdata : option dsa_chip_data) (s : dsa_switch) : dsa_switch :=
  ds_with_rtable (replicate DSA_MAX_SWITCHES DSA_RTABLE_NONE)
    (ds_with_member (Some dst) index pdata s).
Definition joined (dst ds : ptr) (index : nat)
  (pdata : option dsa_chip_data) (w : world) : world :=
  match w_switches w !! ds, w_trees w !! dst with
  | Some s, Some t =>
      w_with_trees
        (<[dst := dst_with_ds (<[index := Some ds]> (dst_ds t))
                    (dst_with_refcount (dst_refcount t + 1) t)]> (w_trees w))
        (put_ds ds (registered dst index pdata s) w)
  | _, _ => w
  end.

(** The slots of the tree at [dst], and its members. *)
Definition slots (w : world) (dst : ptr) : list (option ptr) :=
  match w_trees w !! dst with
  | Some t => dst_ds t
  | None => []
  end.
Definition members (w : world) (dst : ptr) : list ptr := omap id (slots w dst).

(** Every port node of the store belongs to one switch. *)
Definition unique_owner (w : world) : Prop :=
  forall p q s s' link,
    w_switches w !! p = Some s -> w_switches w !! q = Some s' ->
    dsa_ds_find_port_dn s (Some link) = true ->
    dsa_ds_find_port_dn s' (Some link) = true ->
    p = q.

(** The switch [ds] can take slot [index] of the tree at [dst]: the tree
    is well formed and has each member once, the slot is free, and [ds]
    is a switch of the store, with a routing table of the declared size,
    that is not a member yet. *)
Definition can_join (w : world) (dst ds : ptr) (index : nat) : Prop :=
  wf_tree w dst = true /\
  NoDup (members w dst) /\
  slots w dst !! index = Some None /\
  (ds ∉ members w dst) /\
  exists s, w_switches w !! ds = Some s /\
            length (ds_rtable s) = DSA_MAX_SWITCHES.

(** What a resolver run has written when it has gone through the members
    [done]: the writes of each of them, in full. *)
Definition written (env : externals) (w : world) (dst : ptr)
  (done : list ptr) (p : ptr) (s s' : dsa_switch) : Prop :=
  same_switch_topology s s' /\
  ds_rtable s' =
    if bool_decide (p ∈ done)
    then apply_writes (ds_writes env w dst s) (ds_rtable s)
    else ds_rtable s.

(** The registration of [ds] from the store [w] gets to the resolver: its
    member and its ports parse, its tree is found or created at [dst] and
    slot [index] of that tree is free. [j] is the store in which lines
    690-700 then start. *)
Definition reaches_resolver (env : externals) (ds : ptr) (dev : device)
  (dst : ptr) (index : nat) (w j : world) : Prop :=
  exists tree w1,
    dsa_register_parse env ds dev w = Some (inr (tree, index), w1) /\
    dsa_register_tree env tree w1 = Some (Some dst, j) /\
    slot j dst index = Some None.

(** The routing table of the switch at [p]. *)
Definition rtable_of (w : world) (p : ptr) : option (list Z) :=
  ds_rtable <$> w_switches w !! p.

(** A computation that leaves every routing table as it is in [w0]. *)
Definition same_rtables (w0 w : world) : Prop :=
  forall p, rtable_of w p = rtable_of w0 p.

(** A computation that leaves the switches alone. *)
Definition keeps_switches {A} (m : M A) : Prop :=
  forall w, wp m (fun _ w' => w_switches w' = w_switches w) w.

(** A computation that reads and writes the switch [ds] and nothing else
    of the store: from two stores with the same [ds] it returns the same
    value and leaves the same [ds], or fails in both. *)
Definition local_ds {A} (ds : ptr) (m : M A) : Prop :=
  forall w1 w2 s,
    w_switches w1 !! ds = Some s -> w_switches w2 !! ds = Some s ->
    match m w1, m w2 with
    | Some (r1, w1'), Some (r2, w2') =>
        r1 = r2 /\
        exists s', w1' = put_ds ds s' w1 /\ w2' = put_ds ds s' w2
    | None, None => True
    | _, _ => False
    end.

(** A computation that stores nothing but the switch [ds], which is in
    the store if it is stored. *)
Definition stores_ds {A} (ds : ptr) (m : M A) : Prop :=
  forall w r w', m w = Some (r, w') ->
    w' = w \/ (is_Some (w_switches w !! ds) /\ exists s', w' = put_ds ds s' w).

(** The switch [s] at [p], in the store [J] in which the resolver of a
    second registration starts, against the switch [sb] it was before any
    resolver ran: the same ports and member index, and a routing table
    that differs at most in entries that a run on [J] writes, and not at
    all if [p] is no member. *)
Definition near (env : externals) (J : world) (dst p : ptr)
  (sb s : dsa_switch) : Prop :=
  same_switch_topology sb s /\
  length (ds_rtable s) = length (ds_rtable sb) /\
  (forall k, k ∉ map fst (ds_writes env J dst s) ->
     ds_rtable s !! k = ds_rtable sb !! k) /\
  (p ∉ members J dst -> ds_rtable s = ds_rtable sb).

(** The store in which the resolver stage of the registration of [ds]
    starts, for a switch of tree [tree]; the store the resolver stage
    leaves for slot [index] of the tree at 50, and the store after the
    release that ends a registration with an incomplete tree. *)
Definition resolver_store (env : externals) (ds : ptr) (dev : device)
  (tree : nat) (w : world) : world :=
  world_after (dsa_register_tree env tree)
    (world_after (dsa_register_parse env ds dev) w).
Definition resolved_store (env : externals) (ds : ptr) (dev : device)
  (tree index : nat) (w : world) : world :=
  world_after (dsa_register_resolve env ds 50%nat index (platform_data dev))
    (resolver_store env ds dev tree w).
Definition pending_store (env : externals) (ds : ptr) (dev : device)
  (tree index : nat) (w : world) : world :=
  world_after (dsa_put_dst 50%nat) (resolved_store env ds dev tree index w).

(** Two switches of tree 0: the switch in slot 0 (node 100) has one user
    port (node 102) and no link; port 0 of the switch in slot 1 (node 203)
    links to node 102, and its port 1 (node 204) is a CPU port that leads
    to the live master 900. *)
Definition spur_dt (n : ptr) : device_node :=
  match n with
  | 100%nat => switch_node (Some [0; 0]%nat) 101%nat
  | 101%nat => ports_node [102%nat]
  | 102%nat => port_node 0 [] None
  | 200%nat => switch_node (Some [0; 1]%nat) 201%nat
  | 201%nat => ports_node [203%nat; 204%nat]
  | 203%nat => port_node 0 [102%nat] None
  | 204%nat => port_node 1 [] (Some 900%nat)
  | _ => empty_node
  end.
Definition spur_env : externals :=
  plain_env spur_dt (fun n => bool_decide (n = 900%nat)) (Some 50%nat).
(** The switch of slot 0 (at 10) registers and then the switch of slot 1
    (at 11), or the other way round. *)
Definition spur_world_0 : world :=
  world_after (_dsa_register_switch spur_env 10%nat device_100)
    (boot_world three_switches).
Definition spur_world_0_then_1 : world :=
  world_after (_dsa_register_switch spur_env 11%nat device_200) spur_world_0.
Definition spur_world_1 : world :=
  world_after (_dsa_register_switch spur_env 11%nat device_200)
    (boot_world three_switches).
Definition spur_world_1_then_0 : world :=
  world_after (_dsa_register_switch spur_env 10%nat device_100) spur_world_1.

(** ** Vocabulary of the resolver's progress *)

(** The references of [links] before the first that matches no member:
    the rounds the loop of [dsa_port_complete] gets through. *)
Fixpoint before_miss (w : world) (dst : ptr) (links : list ptr) : list ptr :=
  match links with
  | [] => []
  | link :: rest =>
      match target w dst link with
      | Some _ => link :: before_miss w dst rest
      | None => []
      end
  end.

(** Port [idx] of [s] is a DSA port as [dsa_ds_complete] takes it. *)
Definition is_dsa_port (env : externals) (s : dsa_switch) (idx : nat) : bool :=
  match ds_ports s !! idx with
  | Some port => dsa_port_is_valid port && dsa_port_is_dsa env port
  | None => false
  end.

(** Port [idx] of [s] is a DSA port with a reference that matches no
    member: [dsa_port_complete] returns 1 on it. *)
Definition port_misses (env : externals) (w : world) (dst : ptr)
  (s : dsa_switch) (idx : nat) : bool :=
  match ds_ports s !! idx with
  | Some port =>
      dsa_port_is_valid port && dsa_port_is_dsa env port &&
      negb (bool_decide
              (before_miss w dst (of_phandle_list env (port_dn port) "link") =
               of_phandle_list env (port_dn port) "link"))
  | None => false
  end.

(** The port of [s] at which [dsa_ds_complete] returns 1: the first one
    with a reference that matches no member. *)
Definition stuck_port (env : externals) (w : world) (dst : ptr)
  (s : dsa_switch) : option nat :=
  List.find (port_misses env w dst s) (seq 0 (ds_num_ports s)).

(** The writes [dsa_ds_complete] has done on [s] when it returns: those of
    every reference before the first that matches no member. *)
Definition writes_done (env : externals) (w : world) (dst : ptr)
  (s : dsa_switch) : list (nat * Z) :=
  match stuck_port env w dst s with
  | None => ds_writes env w dst s
  | Some k =>
      (flat_map (port_part env w dst s) (seq 0 k) ++
       match ds_ports s !! k with
       | Some port =>
           omap (link_write w dst k)
             (before_miss w dst (of_phandle_list env (port_dn port) "link"))
       | None => []
       end)%list
  end.

(** The ports whose bit [dsa_ds_complete] has set in the DSA port mask of
    [s] when it returns: the DSA ports before the one it returns 1 on. *)
Definition marks_done (env : externals) (w : world) (dst : ptr)
  (s : dsa_switch) : list nat :=
  List.filter (is_dsa_port env s)
    (seq 0 (match stuck_port env w dst s with
            | Some k => k
            | None => ds_num_ports s
            end)).

(** A mask after [mask |= BIT(i)] for each [i] of [marks]. *)
Definition set_marks (marks : list nat) (m : u32) : u32 :=
  foldl (fun (m : u32) (i : nat) => to_u32 (Z.lor m (BIT i))) m marks.

(** The switch [s] when [dsa_ds_complete] has returned from it. *)
Definition resolved (env : externals) (w : world) (dst : ptr)
  (s : dsa_switch) : dsa_switch :=
  ds_with_dsa_port_mask
    (set_marks (marks_done env w dst s) (ds_dsa_port_mask s))
    (ds_with_rtable (apply_writes (writes_done env w dst s) (ds_rtable s)) s).

(** The members [dsa_dst_complete] gets to, in slot order: those up to
    and including the first on which [dsa_ds_complete] returns 1. *)
Fixpoint visited_slots (env : externals) (w : world) (dst : ptr)
  (slots : list (option ptr)) : list ptr :=
  match slots with
  | [] => []
  | None :: rest => visited_slots env w dst rest
  | Some ds :: rest =>
      match w_switches w !! ds with
      | Some s =>
          match stuck_port env w dst s with
          | None => ds :: visited_slots env w dst rest
          | Some _ => [ds]
          end
      | None => [ds]
      end
  end.
Definition visited (env : externals) (w : world) (dst : ptr) : list ptr :=
  visited_slots env w dst (slots w dst).

(** ** Vocabulary of the registry properties *)

(** The trees the walk of [dsa_get_dst] meets from position [pos], in
    order, before it is back at the head. *)
Fixpoint registry_chain (w : world) (pos : lh_ptr) (l : list ptr) : Prop :=
  match l with
  | [] => pos = LHead
  | p :: l' =>
      pos = LTree p /\
      exists t, w_trees w !! p = Some t /\
                registry_chain w (lh_next (dst_list t)) l'
  end.

(** The registry holds the trees [l], in this order. *)
Definition registry (w : world) (l : list ptr) : Prop :=
  registry_chain w (lh_next (dsa_switch_trees w)) l.

(** The tree at [p] has id [tree]. *)
Definition has_id (w : world) (tree : nat) (p : ptr) : bool :=
  match w_trees w !! p with
  | Some t => bool_decide (dst_tree t = tree)
  | None => false
  end.

(** The store with one more reference to the tree at [p]. *)
Definition hold (p : ptr) (w : world) : world :=
  match w_trees w !! p with
  | Some t =>
      w_with_trees
        (<[p := dst_with_refcount (dst_refcount t + 1) t]> (w_trees w)) w
  | None => w
  end.

(** What [dsa_get_dst] returns on a registry with the trees [l]. *)
Definition found (w : world) (tree : nat) (l : list ptr)
  : option ptr * world :=
  match List.find (has_id w tree) l with
  | Some p => (Some p, hold p w)
  | None => (None, w)
  end.

(** The registry head with no entry. *)
Definition empty_head : list_head := {| lh_next := LHead; lh_prev := LHead |}.

(** The collaborators of [fabric_env] with an allocator that hands out
    address 51. *)
Definition fabric_env_next : externals :=
  plain_env fabric_dt (fun n => bool_decide (n = 900%nat)) (Some 51%nat).
(** The collaborators of [fabric_env] with an allocator that fails. *)
Definition fabric_env_oom : externals :=
  plain_env fabric_dt (fun n => bool_decide (n = 900%nat)) None.
(** A "ports" node (101) whose second child names port 7, for a switch
    with four ports. *)
Definition overrun_dt (n : ptr) : device_node :=
  match n with
  | 101%nat => ports_node [102%nat; 103%nat]
  | 102%nat => port_node 0 [] None
  | 103%nat => port_node 7 [] None
  | _ => empty_node
  end.
Definition overrun_env : externals :=
  plain_env overrun_dt (fun _ => false) (Some 50%nat).

(** Platform data with no port name, and with the one name "lan" for
    port 5. *)
Definition unnamed_cd : dsa_chip_data :=
  {| cd_port_names := replicate DSA_MAX_PORTS None;
     cd_netdev := replicate DSA_MAX_PORTS None |}.
Definition overrun_cd : dsa_chip_data :=
  {| cd_port_names := <[5%nat := Some "lan"]> (replicate DSA_MAX_PORTS None);
     cd_netdev := replicate DSA_MAX_PORTS None |}.
(** The store of the second registration of [dual_cpu_dt] when the
    resolver starts: the switch at 11 has taken slot 1. *)
Definition dual_cpu_world_joined : world :=
  joined 50%nat 11%nat 1 None
    (world_after (dsa_register_tree dual_cpu_env 0)
       (world_after (dsa_register_parse dual_cpu_env 11%nat device_200)
          dual_cpu_world_pending)).
(** [fabric_world_pending] after a second tree (id 2, at 51) was made. *)
Definition fabric_world_second : world :=
  world_after (dsa_add_dst fabric_env_next 2) fabric_world_pending.
(** A device with neither a device node nor platform data; a switch
    node (100) whose "dsa,member" names slot 9; a switch node (100) with
    no "ports" child. *)
Definition bare_device : device :=
  {| platform_data := None; of_node := None |}.
Definition far_member_dt (n : ptr) : device_node :=
  match n with
  | 100%nat => switch_node (Some [0; 9]%nat) 101%nat
  | _ => empty_node
  end.
Definition no_ports_dt (n : ptr) : device_node :=
  match n with
  | 100%nat =>
      {| dn_link := []; dn_ethernet := None; dn_label := None;
         dn_reg := None; dn_dsa_member := Some [0; 0]%nat; dn_ports := None;
         dn_children := [] |}
  | _ => empty_node
  end.


(** ** Vocabulary of the configuration properties *)

(** The first cell of "reg" of the port node [c], as
    [of_property_read_u32] reads it. *)
Definition child_reg (env : externals) (c : ptr) : Z + nat :=
  of_property_read_u32_index (dn_reg (of_tree env c)) 0.

(** The "reg" cells that the nodes [l] have. *)
Definition child_regs (env : externals) (l : list ptr) : list nat :=
  omap (fun c => match child_reg env c with
                 | inr r => Some r
                 | inl _ => None
                 end) l.

(** What one round of [dsa_parse_ports_dn] records on the switch for the
    node [c]: the node as [ports[reg].dn], and the bit of the port in the
    enabled mask unless the port is then a CPU port. *)
Definition record_child (env : externals) (s : dsa_switch) (c : ptr)
  : dsa_switch :=
  match child_reg env c with
  | inl _ => s
  | inr reg =>
      match ds_ports s !! reg with
      | None => s
      | Some p =>
          let s1 :=
            ds_with_ports (<[reg := port_with_dn (Some c) p]> (ds_ports s)) s in
          if negb (dsa_port_is_cpu env (port_with_dn (Some c) p))
          then ds_with_enabled_port_mask
                 (to_u32 (Z.lor (ds_enabled_port_mask s1) (BIT reg))) s1
          else s1
      end
  end.

(** The node [c] names a port of a switch with [n] ports. *)
Definition child_ok (env : externals) (n : nat) (c : ptr) : Prop :=
  exists reg, child_reg env c = inr reg /\ (reg < n)%nat.

(** ** Vocabulary of the routing properties *)

(** Port [idx] of the switch [s] is a DSA port with a reference to a port
    of the member with index [k]. *)
Definition routes (env : externals) (w : world) (dst : ptr) (s : dsa_switch)
  (k idx : nat) : Prop :=
  exists port link d sd,
    ds_ports s !! idx = Some port /\
    classify env port = DsaLink /\
    link ∈ of_phandle_list env (port_dn port) "link" /\
    target w dst link = Some d /\
    w_switches w !! d = Some sd /\
    ds_index sd = k.

(** ** Vocabulary of the activator properties, continued *)

(** A computation from [w0] to [w] has left the trees and the [dsa_ptr]
    fields alone. *)
Definition keeps_trees (w0 w : world) : Prop :=
  w_trees w = w_trees w0 /\ w_dsa_ptr w = w_dsa_ptr w0.

(** * Properties *)

(** ** Integer fields *)

Lemma u32_range (m : u32) : 0 <= m < 2 ^ 32.
Proof.
  destruct m as [z H]. simpl. unfold u32_ok in H.
  apply andb_prop in H as [H1 H2].
  apply Z.leb_le in H1. apply Z.ltb_lt in H2. lia.
Qed.

Lemma u32_eq (a b : u32) : u32_val a = u32_val b -> a = b.
Proof.
  destruct a as [a Ha], b as [b Hb]. simpl. intros ->. f_equal.
  apply UIP_dec. apply Bool.bool_dec.
Qed.

Lemma to_u32_val z : u32_val (to_u32 z) = z mod 2 ^ 32.
Proof.
  unfold to_u32.
  generalize (eq_refl (u32_ok (z mod 2 ^ 32))).
  generalize (u32_ok (z mod 2 ^ 32)) at 2 3.
  intros [|] H; [reflexivity|].
  exfalso. unfold u32_ok in H.
  pose proof (Z.mod_pos_bound z (2 ^ 32) ltac:(lia)) as Hb.
  apply andb_false_iff in H as [H|H].
  - apply Z.leb_gt in H. lia.
  - apply Z.ltb_ge in H. lia.
Qed.

Lemma to_u32_id (m : u32) : to_u32 m = m.
Proof.
  apply u32_eq. rewrite to_u32_val. apply Z.mod_small. apply u32_range.
Qed.

Lemma u32_testbit_high (m : u32) i : 32 <= i -> Z.testbit m i = false.
Proof.
  intros Hi. pose proof (u32_range m) as Hr.
  destruct (decide (u32_val m = 0)) as [->|Hne]; [apply Z.bits_0|].
  apply Z.bits_above_log2; [lia|].
  apply Z.log2_lt_pow2; [lia|].
  eapply Z.lt_le_trans; [apply Hr|]. apply Z.pow_le_mono_r; lia.
Qed.

(** The bits of a value stored in a mask: those below 32. *)
Lemma to_u32_testbit z i :
  0 <= i -> Z.testbit (to_u32 z) i = Z.testbit z i && bool_decide (i < 32).
Proof.
  intros Hi. rewrite to_u32_val.
  destruct (decide (i < 32)) as [Hlt|Hge].
  - rewrite bool_decide_eq_true_2 by exact Hlt. rewrite andb_true_r.
    apply Z.mod_pow2_bits_low. lia.
  - rewrite bool_decide_eq_false_2 by exact Hge. rewrite andb_false_r.
    apply Z.mod_pow2_bits_high. lia.
Qed.

Lemma to_s8_range z : -128 <= to_s8 z <= 127.
Proof.
  unfold to_s8. pose proof (Z.mod_pos_bound (z + 128) 256 ltac:(lia)). lia.
Qed.

Lemma to_s8_small z : -128 <= z <= 127 -> to_s8 z = z.
Proof. intros H. unfold to_s8. rewrite Z.mod_small by lia. lia. Qed.

(** ** Port classifier *)

Lemma dsa_port_is_dsa_spec env port :
  dsa_port_is_dsa env port = true <->
  port_name port = Some "dsa" \/
  is_Some (of_parse_phandle env (port_dn port) "link" 0).
Proof.
  unfold dsa_port_is_dsa.
  destruct (port_name port) as [name|] eqn:Hn.
  - destruct (String.eqb name "dsa") eqn:He.
    + apply String.eqb_eq in He. subst. intuition.
    + apply String.eqb_neq in He. rewrite bool_decide_eq_true.
      split; [auto|]. intros [H|H]; [congruence|done].
  - rewrite bool_decide_eq_true. split; [auto|]. intros [H|H]; [congruence|done].
Qed.

Lemma dsa_port_is_cpu_spec env port :
  dsa_port_is_cpu env port = true <->
  port_name port = Some "cpu" \/
  is_Some (of_parse_phandle env (port_dn port) "ethernet" 0).
Proof.
  unfold dsa_port_is_cpu.
  destruct (port_name port) as [name|] eqn:Hn.
  - destruct (String.eqb name "cpu") eqn:He.
    + apply String.eqb_eq in He. subst. intuition.
    + apply String.eqb_neq in He. rewrite bool_decide_eq_true.
      split; [auto|]. intros [H|H]; [congruence|done].
  - rewrite bool_decide_eq_true. split; [auto|]. intros [H|H]; [congruence|done].
Qed.

Lemma dsa_port_is_valid_spec port :
  dsa_port_is_valid port = false <->
  port_dn port = None /\ port_name port = None.
Proof.
  unfold dsa_port_is_valid.
  destruct (port_dn port), (port_name port); simpl; split; intros H;
    try done; try (destruct H; done).
Qed.

Lemma dsa_port_is_dsa_valid env port :
  dsa_port_is_dsa env port = true -> dsa_port_is_valid port = true.
Proof.
  rewrite dsa_port_is_dsa_spec. unfold dsa_port_is_valid, of_parse_phandle.
  intros [H|[l H]].
  - rewrite H. simpl. apply orb_true_r.
  - destruct (port_dn port); [done|]. simpl in H. done.
Qed.

Lemma dsa_port_is_cpu_valid env port :
  dsa_port_is_cpu env port = true -> dsa_port_is_valid port = true.
Proof.
  rewrite dsa_port_is_cpu_spec. unfold dsa_port_is_valid, of_parse_phandle.
  intros [H|[l H]].
  - rewrite H. simpl. apply orb_true_r.
  - destruct (port_dn port); [done|]. simpl in H. done.
Qed.

(** C6: classification is a function of the port descriptor alone (it
    takes no store and returns exactly one of the four classes): Invalid
    when the port has neither a device node nor a name; DsaLink when the
    name is "dsa" or the node carries a resolvable "link" reference; Cpu
    when (not being DsaLink) the name is "cpu" or the node carries a
    resolvable "ethernet" reference; User otherwise. The clauses are read
    in this order, as the port loops test them. *)
Theorem classify_spec env port :
  let no_descriptor := port_dn port = None /\ port_name port = None in
  let dsa_descriptor :=
    port_name port = Some "dsa" \/
    is_Some (of_parse_phandle env (port_dn port) "link" 0) in
  let cpu_descriptor :=
    port_name port = Some "cpu" \/
    is_Some (of_parse_phandle env (port_dn port) "ethernet" 0) in
  (classify env port = Invalid <-> no_descriptor) /\
  (classify env port = DsaLink <-> dsa_descriptor) /\
  (classify env port = Cpu <-> ~ dsa_descriptor /\ cpu_descriptor) /\
  (classify env port = User <->
     ~ no_descriptor /\ ~ dsa_descriptor /\ ~ cpu_descriptor).
Proof.
  intros no_descriptor dsa_descriptor cpu_descriptor.
  subst no_descriptor dsa_descriptor cpu_descriptor.
  rewrite <- dsa_port_is_valid_spec, <- dsa_port_is_dsa_spec,
    <- dsa_port_is_cpu_spec.
  unfold classify.
  pose proof (dsa_port_is_dsa_valid env port) as Hd.
  pose proof (dsa_port_is_cpu_valid env port) as Hc.
  destruct (dsa_port_is_valid port), (dsa_port_is_dsa env port),
    (dsa_port_is_cpu env port); simpl; intuition congruence.
Qed.

(** ** Member parsing *)

(** C10: in device-tree mode a switch node without any "dsa,member"
    property is not rejected: member parsing succeeds with tree id 0 and
    member index 0, and registration goes on from there with the slot
    (tree 0, index 0). *)
Theorem dsa_parse_member_dn_absent env ds dev np :
  of_node dev = Some np ->
  dn_dsa_member (of_tree env np) = None ->
  dsa_parse_member_dn env np = (0, (0%nat, 0%nat)) /\
  forall w,
    dsa_register_parse env ds dev w =
    match dsa_get_ports env np with
    | inl err => Some (inl err, w)
    | inr ports =>
        (err <- dsa_parse_ports_dn env ports ds ;;
         if decide (err <> 0) then ret (inl err)
         else ret (inr (0%nat, 0%nat))) w
    end.
Proof.
  intros Hnp Hm.
  assert (Hp : dsa_parse_member_dn env np = (0, (0%nat, 0%nat))).
  { unfold dsa_parse_member_dn. rewrite Hm. simpl.
    destruct (decide (- EINVAL = - EINVAL)); congruence. }
  split; [exact Hp|].
  intros w. unfold dsa_register_parse. rewrite Hnp, Hp.
  destruct (decide (0 <> 0)); [congruence|].
  destruct (dsa_get_ports env np); reflexivity.
Qed.

Lemma dsa_parse_member_dn_absent_witness :
  dsa_parse_member_dn memberless_env 100%nat = (0, (0%nat, 0%nat)) /\
  forall w,
    dsa_register_parse memberless_env 10%nat
      {| platform_data := None; of_node := Some 100%nat |} w =
    match dsa_get_ports memberless_env 100%nat with
    | inl err => Some (inl err, w)
    | inr ports =>
        (err <- dsa_parse_ports_dn memberless_env ports 10%nat ;;
         if decide (err <> 0) then ret (inl err)
         else ret (inr (0%nat, 0%nat))) w
    end.
Proof.
  apply (dsa_parse_member_dn_absent memberless_env 10%nat
           {| platform_data := None; of_node := Some 100%nat |} 100%nat);
    reflexivity.
Defined.

(** ** The store monad: running a computation *)

Lemma bind_Some {A B} (m : M A) (k : A -> M B) w a w1 :
  m w = Some (a, w1) -> bind m k w = k a w1.
Proof. unfold bind. intros ->. reflexivity. Qed.

Lemma bind_inv {A B} (m : M A) (k : A -> M B) w b w' :
  bind m k w = Some (b, w') ->
  exists a w1, m w = Some (a, w1) /\ k a w1 = Some (b, w').
Proof.
  unfold bind. destruct (m w) as [[a w1]|]; [|discriminate].
  intros H. exists a, w1. auto.
Qed.

Lemma load_dst_Some p t w :
  w_trees w !! p = Some t -> load_dst p w = Some (t, w).
Proof. unfold load_dst. intros ->. reflexivity. Qed.

Lemma load_dst_inv p t w w' :
  load_dst p w = Some (t, w') -> w' = w /\ w_trees w !! p = Some t.
Proof.
  unfold load_dst. destruct (w_trees w !! p); [|discriminate].
  intros [= -> ->]. auto.
Qed.

Lemma store_dst_Some p t t' w :
  w_trees w !! p = Some t ->
  store_dst p t' w = Some (tt, w_with_trees (<[p := t']> (w_trees w)) w).
Proof. unfold store_dst. intros ->. reflexivity. Qed.

Lemma store_dst_inv p t' w u w' :
  store_dst p t' w = Some (u, w') ->
  is_Some (w_trees w !! p) /\ w' = w_with_trees (<[p := t']> (w_trees w)) w.
Proof.
  unfold store_dst. destruct (w_trees w !! p) eqn:E; [|discriminate].
  intros [= <- <-]. eauto.
Qed.

Lemma load_ds_Some p s w :
  w_switches w !! p = Some s -> load_ds p w = Some (s, w).
Proof. unfold load_ds. intros ->. reflexivity. Qed.

Lemma load_ds_inv p s w w' :
  load_ds p w = Some (s, w') -> w' = w /\ w_switches w !! p = Some s.
Proof.
  unfold load_ds. destruct (w_switches w !! p); [|discriminate].
  intros [= -> ->]. auto.
Qed.

Lemma store_ds_Some p s s' w :
  w_switches w !! p = Some s ->
  store_ds p s' w = Some (tt, w_with_switches (<[p := s']> (w_switches w)) w).
Proof. unfold store_ds. intros ->. reflexivity. Qed.

Lemma store_ds_inv p s' w u w' :
  store_ds p s' w = Some (u, w') ->
  is_Some (w_switches w !! p) /\
  w' = w_with_switches (<[p := s']> (w_switches w)) w.
Proof.
  unfold store_ds. destruct (w_switches w !! p) eqn:E; [|discriminate].
  intros [= <- <-]. eauto.
Qed.

Lemma array_get_Some {A} (a : list A) i x w :
  a !! i = Some x -> array_get a i w = Some (x, w).
Proof. unfold array_get. intros ->. reflexivity. Qed.

Lemma array_get_inv {A} (a : list A) i x w w' :
  array_get a i w = Some (x, w') -> w' = w /\ a !! i = Some x.
Proof.
  unfold array_get. destruct (a !! i); [|discriminate].
  intros [= -> ->]. auto.
Qed.

Lemma array_set_Some {A} (a : list A) i x w :
  (i < length a)%nat -> array_set a i x w = Some (<[i := x]> a, w).
Proof. unfold array_set. intros H. destruct (decide _); [reflexivity|lia]. Qed.

Lemma array_set_inv {A} (a : list A) i x r w w' :
  array_set a i x w = Some (r, w') ->
  w' = w /\ (i < length a)%nat /\ r = <[i := x]> a.
Proof.
  unfold array_set. destruct (decide _); [|discriminate].
  intros [= <- <-]. auto.
Qed.

Lemma bind_assoc {A B C} (m : M A) (k : A -> M B) (k' : B -> M C) w :
  bind (bind m k) k' w = bind m (fun a => bind (k a) k') w.
Proof. unfold bind. destruct (m w) as [[a w1]|]; reflexivity. Qed.

(** Run the next load, store or array access of the goal with the facts
    at hand. *)
Ltac mrun :=
  repeat first
    [ rewrite bind_assoc
    | erewrite (bind_Some (load_dst _)) by (apply load_dst_Some; eassumption)
    | erewrite (bind_Some (store_dst _ _)) by (eapply store_dst_Some; eassumption)
    | erewrite (bind_Some (load_ds _)) by (apply load_ds_Some; eassumption)
    | erewrite (bind_Some (store_ds _ _)) by (eapply store_ds_Some; eassumption)
    | erewrite (bind_Some (array_get _ _)) by (apply array_get_Some; eassumption)
    | erewrite (bind_Some (array_set _ _ _)) by (apply array_set_Some; assumption)
    | erewrite (bind_Some (ret _)) by reflexivity ].

(** ** Tree registry *)

Lemma kref_get_Some p t w :
  w_trees w !! p = Some t ->
  kref_get p w =
  Some (tt, w_with_trees
              (<[p := dst_with_refcount (dst_refcount t + 1) t]> (w_trees w)) w).
Proof. intros H. unfold kref_get. mrun. eapply store_dst_Some; eassumption. Qed.

Lemma w_with_trees_twice m1 m2 w :
  w_with_trees m2 (w_with_trees m1 w) = w_with_trees m2 w.
Proof. reflexivity. Qed.

Lemma dsa_dst_add_ds_Some dst ds index t w :
  w_trees w !! dst = Some t ->
  (index < length (dst_ds t))%nat ->
  dsa_dst_add_ds dst ds index w =
  Some (tt, w_with_trees
              (<[dst := dst_with_ds (<[index := Some ds]> (dst_ds t))
                          (dst_with_refcount (dst_refcount t + 1) t)]>
                 (w_trees w)) w).
Proof.
  intros H Hi. unfold dsa_dst_add_ds.
  rewrite (bind_Some _ _ _ _ _ (kref_get_Some _ _ _ H)).
  set (t1 := dst_with_refcount (dst_refcount t + 1) t).
  set (w1 := w_with_trees _ w).
  assert (H1 : w_trees w1 !! dst = Some t1) by apply lookup_insert_eq.
  assert (Hi1 : (index < length (dst_ds t1))%nat) by exact Hi.
  mrun. erewrite store_dst_Some by eassumption.
  subst w1. simpl. rewrite insert_insert_eq. reflexivity.
Qed.

(** [dsa_dst_del_ds] while other references remain. *)
Lemma dsa_dst_del_ds_Some dst ds index t w :
  w_trees w !! dst = Some t ->
  (index < length (dst_ds t))%nat ->
  dst_refcount t - 1 <> 0 ->
  dsa_dst_del_ds dst ds index w =
  Some (tt, w_with_trees
              (<[dst := dst_with_refcount (dst_refcount t - 1)
                          (dst_with_ds (<[index := None]> (dst_ds t)) t)]>
                 (w_trees w)) w).
Proof.
  intros H Hi Hc. unfold dsa_dst_del_ds. mrun.
  set (t1 := dst_with_ds _ t).
  set (w1 := w_with_trees _ w).
  assert (H1 : w_trees w1 !! dst = Some t1) by apply lookup_insert_eq.
  unfold kref_put. mrun.
  change (dst_refcount t1) with (dst_refcount t).
  destruct (decide (dst_refcount t - 1 = 0)); [contradiction|].
  unfold ret. subst w1. simpl. rewrite insert_insert_eq. reflexivity.
Qed.

(** The tree [dsa_add_dst] builds for id [tree]. *)
Lemma dsa_add_dst_Some env tree p w :
  kzalloc env = Some p ->
  w_trees w !! p = None ->
  dsa_add_dst env tree w =
  Some (Some p,
        w_with_head {| lh_next := LTree p; lh_prev := LTree p |}
          (w_with_trees
             (<[p := dst_with_refcount 1
                       (dst_with_list {| lh_next := LHead; lh_prev := LHead |}
                          (dst_with_tree tree zero_dst))]> (w_trees w)) w)).
Proof.
  intros Hk Hp. unfold dsa_add_dst, kzalloc_dst. rewrite Hk.
  unfold bind at 1. rewrite Hp.
  unfold INIT_LIST_HEAD, list_add_tail, __list_add, kref_init, set_next,
    set_prev, load_lh, store_lh, bind, load_dst, store_dst, ret. simpl.
  repeat (rewrite lookup_insert_eq; simpl).
  rewrite !insert_insert_eq. reflexivity.
Qed.

(** Dropping the last reference of a tree that [dsa_add_dst] linked. *)
Lemma dsa_put_dst_last p t w :
  w_trees w !! p = Some t ->
  dst_refcount t = 1 ->
  dst_list t = {| lh_next := LHead; lh_prev := LHead |} ->
  dsa_put_dst p w =
  Some (tt, w_with_head {| lh_next := LHead; lh_prev := LHead |}
              (w_with_trees (delete p (w_trees w)) w)).
Proof.
  intros Hp Hc Hl. unfold dsa_put_dst, kref_put. mrun. rewrite Hc.
  destruct (decide (1 - 1 = 0)); [|lia].
  unfold dsa_free_dst, list_del, __list_del, set_next, set_prev, load_lh,
    store_lh, kfree, bind, load_dst, store_dst, ret. simpl.
  repeat (rewrite lookup_insert_eq; simpl). rewrite Hl. simpl.
  repeat (rewrite lookup_insert_eq; simpl).
  rewrite !insert_insert_eq, delete_insert_eq. reflexivity.
Qed.

Lemma dsa_put_dst_Some p t w :
  w_trees w !! p = Some t ->
  dst_refcount t - 1 <> 0 ->
  dsa_put_dst p w =
  Some (tt, w_with_trees
              (<[p := dst_with_refcount (dst_refcount t - 1) t]> (w_trees w)) w).
Proof.
  intros Hp Hc. unfold dsa_put_dst, kref_put. mrun.
  destruct (decide (dst_refcount t - 1 = 0)); [contradiction|]. reflexivity.
Qed.




(** ** Loops *)

(** A rule for [for_each] with an invariant over what has been iterated:
    every round either re-establishes the invariant or leaves with the
    postcondition, and the loop returns. *)
Lemma for_each_hoare {I R} (Inv : list I -> world -> Prop)
  (Post : R -> world -> Prop) (l : list I) (body : I -> M (option R))
  (after : M R) :
  (forall pre i post w, l = (pre ++ i :: post)%list -> Inv pre w ->
     exists r w', body i w = Some (r, w') /\
       match r with
       | None => Inv (pre ++ [i])%list w'
       | Some v => Post v w'
       end) ->
  (forall w, Inv l w -> exists v w', after w = Some (v, w') /\ Post v w') ->
  forall w, Inv [] w ->
    exists v w', for_each l body after w = Some (v, w') /\ Post v w'.
Proof.
  intros Hbody Hafter.
  assert (G : forall rest pre w, l = (pre ++ rest)%list -> Inv pre w ->
            exists v w', for_each rest body after w = Some (v, w') /\ Post v w').
  { induction rest as [|i rest IH]; intros pre w Hl Hinv.
    - rewrite app_nil_r in Hl. subst pre. apply Hafter. exact Hinv.
    - destruct (Hbody pre i rest w Hl Hinv) as (r & w' & Hb & Hr).
      simpl. rewrite (bind_Some _ _ _ _ _ Hb). destruct r as [v|].
      + exists v, w'. auto.
      + apply (IH (pre ++ [i])%list); [|exact Hr].
        rewrite <- app_assoc. exact Hl. }
  intros w Hinv. apply (G l [] w); auto.
Qed.

(** ** Resolver: the frame of a run *)

Lemma resolver_frame_ds_refl s : resolver_frame_ds s s.
Proof. split; [destruct s; reflexivity|reflexivity]. Qed.

Lemma resolver_frame_ds_trans s1 s2 s3 :
  resolver_frame_ds s1 s2 -> resolver_frame_ds s2 s3 -> resolver_frame_ds s1 s3.
Proof.
  intros [H1 L1] [H2 L2]. split; [|congruence].
  rewrite H2. rewrite H1. reflexivity.
Qed.

Lemma resolver_frame_refl w : resolver_frame w w.
Proof.
  repeat split. intros p. destruct (w_switches w !! p); constructor.
  apply resolver_frame_ds_refl.
Qed.

Lemma resolver_frame_trans w1 w2 w3 :
  resolver_frame w1 w2 -> resolver_frame w2 w3 -> resolver_frame w1 w3.
Proof.
  intros (A1 & B1 & C1 & D1) (A2 & B2 & C2 & D2).
  repeat split; try congruence.
  intros p. specialize (D1 p). specialize (D2 p).
  destruct D1 as [s1 s2 H12|]; inversion D2 as [s2' s3 H23|]; subst;
    constructor.
  eapply resolver_frame_ds_trans; eassumption.
Qed.

(** Storing a switch that differs from the stored one by the routing
    table and the DSA port mask stays in the frame. *)
Lemma resolver_frame_store w p s s' :
  w_switches w !! p = Some s ->
  resolver_frame_ds s s' ->
  resolver_frame w (w_with_switches (<[p := s']> (w_switches w)) w).
Proof.
  intros Hp Hs. repeat split. intros q. simpl.
  destruct (decide (p = q)) as [->|Hne].
  - rewrite lookup_insert_eq, Hp. constructor. exact Hs.
  - rewrite lookup_insert_ne by exact Hne.
    destruct (w_switches w !! q); constructor. apply resolver_frame_ds_refl.
Qed.

Lemma resolver_frame_lookup w w' p s :
  resolver_frame w w' -> w_switches w !! p = Some s ->
  exists s', w_switches w' !! p = Some s' /\ resolver_frame_ds s s'.
Proof.
  intros (_ & _ & _ & D) Hp. specialize (D p). rewrite Hp in D.
  inversion D as [? s' Hs|]; subst. eauto.
Qed.

Lemma resolver_frame_lookup_inv w w' p s' :
  resolver_frame w w' -> w_switches w' !! p = Some s' ->
  exists s, w_switches w !! p = Some s /\ resolver_frame_ds s s'.
Proof.
  intros (_ & _ & _ & D) Hp. specialize (D p). rewrite Hp in D.
  inversion D as [s ? Hs|]; subst. eauto.
Qed.

Lemma resolver_frame_ds_ports s s' :
  resolver_frame_ds s s' -> ds_ports s' = ds_ports s.
Proof. intros [-> _]. reflexivity. Qed.

Lemma resolver_frame_ds_index s s' :
  resolver_frame_ds s s' -> ds_index s' = ds_index s.
Proof. intros [-> _]. reflexivity. Qed.

Lemma resolver_frame_ds_find s s' port :
  resolver_frame_ds s s' ->
  dsa_ds_find_port_dn s' port = dsa_ds_find_port_dn s port.
Proof.
  intros H. unfold dsa_ds_find_port_dn.
  rewrite (resolver_frame_ds_ports _ _ H). reflexivity.
Qed.

Lemma resolver_frame_member_at w w' dst i ds s :
  resolver_frame w w' -> member_at w dst i ds s ->
  exists s', member_at w' dst i ds s' /\ resolver_frame_ds s s'.
Proof.
  intros Hf (t & Ht & Hi & Hs).
  destruct (resolver_frame_lookup _ _ _ _ Hf Hs) as (s' & Hs' & Hss).
  exists s'. split; [|exact Hss].
  exists t. destruct Hf as (-> & _). auto.
Qed.

Lemma resolver_frame_member_at_inv w w' dst i ds s' :
  resolver_frame w w' -> member_at w' dst i ds s' ->
  exists s, member_at w dst i ds s /\ resolver_frame_ds s s'.
Proof.
  intros Hf (t & Ht & Hi & Hs).
  destruct (resolver_frame_lookup_inv _ _ _ _ Hf Hs) as (s & Hs0 & Hss).
  exists s. split; [|exact Hss].
  exists t. destruct Hf as (E & _). rewrite <- E. auto.
Qed.

Lemma resolver_frame_resolves w w' dst link :
  resolver_frame w w' -> resolves w dst link <-> resolves w' dst link.
Proof.
  intros Hf. split.
  - intros (i & ds & s & Hm & Hfind).
    destruct (resolver_frame_member_at _ _ _ _ _ _ Hf Hm) as (s' & Hm' & Hss).
    exists i, ds, s'. split; [exact Hm'|].
    rewrite (resolver_frame_ds_find _ _ _ Hss). exact Hfind.
  - intros (i & ds & s' & Hm & Hfind).
    destruct (resolver_frame_member_at_inv _ _ _ _ _ _ Hf Hm) as (s & Hm0 & Hss).
    exists i, ds, s. split; [exact Hm0|].
    rewrite <- (resolver_frame_ds_find _ _ _ Hss). exact Hfind.
Qed.

Lemma seq_split n pre i post :
  seq 0 n = (pre ++ i :: post)%list -> i = length pre /\ (i < n)%nat.
Proof.
  intros H.
  assert (Hl : seq 0 n !! length pre = Some i).
  { rewrite H. rewrite lookup_app_r by lia. rewrite Nat.sub_diag. reflexivity. }
  apply lookup_seq in Hl. lia.
Qed.

Lemma seq_split_elem n pre i post j :
  seq 0 n = (pre ++ i :: post)%list -> j ∈ pre -> (j < i)%nat.
Proof.
  intros H Hj. apply list_elem_of_lookup in Hj as [k Hk].
  assert (Hl : seq 0 n !! k = Some j).
  { rewrite H. rewrite lookup_app_l; [exact Hk|]. eapply lookup_lt_Some, Hk. }
  apply lookup_seq in Hl.
  pose proof (lookup_lt_Some _ _ _ Hk).
  destruct (seq_split _ _ _ _ H). lia.
Qed.

(** ** Resolver: well-formed trees *)

Lemma member_ok_Some w ds :
  member_ok w (Some ds) = true ->
  exists s, w_switches w !! ds = Some s /\
            (ds_index s < DSA_MAX_SWITCHES)%nat /\
            length (ds_rtable s) = DSA_MAX_SWITCHES.
Proof.
  unfold member_ok. destruct (w_switches w !! ds) as [s|]; [|discriminate].
  rewrite andb_true_iff, !bool_decide_eq_true. intros [H1 H2]. eauto.
Qed.

Lemma wf_tree_inv w dst :
  wf_tree w dst = true ->
  exists t, w_trees w !! dst = Some t /\
            length (dst_ds t) = DSA_MAX_SWITCHES /\
            forall i ds, dst_ds t !! i = Some (Some ds) ->
              exists s, w_switches w !! ds = Some s /\
                        (ds_index s < DSA_MAX_SWITCHES)%nat /\
                        length (ds_rtable s) = DSA_MAX_SWITCHES.
Proof.
  unfold wf_tree. destruct (w_trees w !! dst) as [t|]; [|discriminate].
  rewrite andb_true_iff, bool_decide_eq_true. intros [Hlen Hall].
  exists t. split; [reflexivity|]. split; [exact Hlen|].
  intros i ds Hi. apply member_ok_Some.
  apply Is_true_true. apply Is_true_true in Hall.
  apply forallb_True in Hall.
  apply (Forall_lookup_1 _ _ _ _ Hall Hi).
Qed.

Lemma wf_tree_intro w dst t :
  w_trees w !! dst = Some t ->
  length (dst_ds t) = DSA_MAX_SWITCHES ->
  (forall i ds, dst_ds t !! i = Some (Some ds) ->
     exists s, w_switches w !! ds = Some s /\
               (ds_index s < DSA_MAX_SWITCHES)%nat /\
               length (ds_rtable s) = DSA_MAX_SWITCHES) ->
  wf_tree w dst = true.
Proof.
  intros Ht Hlen Hall. unfold wf_tree. rewrite Ht.
  rewrite andb_true_iff, bool_decide_eq_true. split; [exact Hlen|].
  apply Is_true_true. apply forallb_True. apply Forall_lookup.
  intros i [ds|] Hi; [|done].
  destruct (Hall i ds Hi) as (s & Hs & H1 & H2).
  apply Is_true_true. unfold member_ok. rewrite Hs.
  rewrite andb_true_iff, !bool_decide_eq_true. auto.
Qed.

Lemma wf_tree_frame w w' dst :
  resolver_frame w w' -> wf_tree w dst = true -> wf_tree w' dst = true.
Proof.
  intros Hf Hwf. destruct (wf_tree_inv _ _ Hwf) as (t & Ht & Hlen & Hall).
  apply (wf_tree_intro _ _ t); [|exact Hlen|].
  - destruct Hf as (-> & _). exact Ht.
  - intros i ds Hi. destruct (Hall i ds Hi) as (s & Hs & H1 & H2).
    destruct (resolver_frame_lookup _ _ _ _ Hf Hs) as (s' & Hs' & Hss).
    exists s'. split; [exact Hs'|].
    rewrite (resolver_frame_ds_index _ _ Hss). destruct Hss as [_ ->]. auto.
Qed.

(** ** Resolver: looking a link target up *)

(** [dsa_dst_find_port_dn] leaves the store alone and finds a member that
    has the port exactly when the reference resolves. *)
Lemma dsa_dst_find_port_dn_spec w dst link :
  wf_tree w dst = true ->
  exists r, dsa_dst_find_port_dn dst (Some link) w = Some (r, w) /\
    match r with
    | Some d => exists i s, member_at w dst i d s /\
                            dsa_ds_find_port_dn s (Some link) = true
    | None => ~ resolves w dst link
    end.
Proof.
  intros Hwf. destruct (wf_tree_inv _ _ Hwf) as (t & Ht & Hlen & Hall).
  unfold dsa_dst_find_port_dn.
  destruct (for_each_hoare
    (fun pre w' => w' = w /\
       forall i d s, i ∈ pre -> member_at w dst i d s ->
                     dsa_ds_find_port_dn s (Some link) = false)
    (fun (r : option ptr) w' => w' = w /\
       match r with
       | Some d => exists i s, member_at w dst i d s /\
                               dsa_ds_find_port_dn s (Some link) = true
       | None => ~ resolves w dst link
       end)
    (seq 0 DSA_MAX_SWITCHES)
    (fun index =>
       t <- load_dst dst ;;
       slot <- array_get (dst_ds t) index ;;
       match slot with
       | None => ret None
       | Some ds =>
           s <- load_ds ds ;;
           if dsa_ds_find_port_dn s (Some link) then ret (Some (Some ds))
           else ret None
       end)
    (ret None)) with (w := w) as (r & w' & Hrun & -> & Hr).
  - intros pre i post w1 Hsplit [-> Hinv].
    destruct (seq_split _ _ _ _ Hsplit) as [Hi Hlt].
    destruct (lookup_lt_is_Some_2 (dst_ds t) i) as [slot Hslot]; [lia|].
    mrun. destruct slot as [ds|].
    + destruct (Hall i ds Hslot) as (s & Hs & _). mrun.
      destruct (dsa_ds_find_port_dn s (Some link)) eqn:Hfind.
      * eexists _, _. split; [reflexivity|]. split; [reflexivity|].
        exists i, s. split; [|exact Hfind]. exists t. auto.
      * eexists _, _. split; [reflexivity|]. split; [reflexivity|].
        intros j d s' Hj Hm. apply elem_of_app in Hj as [Hj|Hj].
        -- eapply Hinv; eassumption.
        -- apply list_elem_of_singleton in Hj. subst j.
           destruct Hm as (t' & Ht' & Hi' & Hs').
           assert (t' = t) by congruence. subst t'.
           assert (d = ds) by congruence. subst d.
           assert (s' = s) by congruence. subst s'. exact Hfind.
    + eexists _, _. split; [reflexivity|]. split; [reflexivity|].
      intros j d s' Hj Hm. apply elem_of_app in Hj as [Hj|Hj].
      * eapply Hinv; eassumption.
      * apply list_elem_of_singleton in Hj. subst j.
        destruct Hm as (t' & Ht' & Hi' & Hs'). congruence.
  - intros w1 [-> Hinv]. eexists _, _. split; [reflexivity|].
    split; [reflexivity|].
    intros (i & ds & s & Hm & Hfind).
    assert (Hi : i ∈ seq 0 DSA_MAX_SWITCHES).
    { apply elem_of_seq. destruct Hm as (t' & Ht' & Hi' & _).
      assert (t' = t) by congruence. subst t'.
      apply lookup_lt_Some in Hi'. lia. }
    rewrite (Hinv i ds s Hi Hm) in Hfind. discriminate.
  - split; [reflexivity|]. intros i d s Hi. inversion Hi.
  - exists r. auto.
Qed.

(** ** Resolver: the verdict *)

Lemma classify_DsaLink env port :
  classify env port = DsaLink <->
  dsa_port_is_valid port = true /\ dsa_port_is_dsa env port = true.
Proof.
  unfold classify.
  destruct (dsa_port_is_valid port), (dsa_port_is_dsa env port),
    (dsa_port_is_cpu env port); simpl; intuition congruence.
Qed.

(** The link references of [port] all resolve. *)
Lemma dsa_port_complete_spec env w dst src i0 s0 port src_port :
  wf_tree w dst = true ->
  member_at w dst i0 src s0 ->
  exists r w',
    dsa_port_complete env dst src port src_port w = Some (r, w') /\
    resolver_frame w w' /\
    (r = 0 /\ Forall (resolves w dst) (of_phandle_list env (port_dn port) "link")
     \/ r = 1 /\
        ~ Forall (resolves w dst) (of_phandle_list env (port_dn port) "link")).
Proof.
  intros Hwf Hsrc. unfold dsa_port_complete.
  set (links := of_phandle_list env (port_dn port) "link").
  apply (for_each_hoare
    (fun pre w' => resolver_frame w w' /\ Forall (resolves w dst) pre)
    (fun r w' => resolver_frame w w' /\
       (r = 0 /\ Forall (resolves w dst) links \/
        r = 1 /\ ~ Forall (resolves w dst) links))).
  - intros pre link post w1 Hsplit [Hf Hpre].
    pose proof (wf_tree_frame _ _ _ Hf Hwf) as Hwf1.
    destruct (dsa_dst_find_port_dn_spec w1 dst link Hwf1) as (r & Hfind & Hr).
    rewrite (bind_Some _ _ _ _ _ Hfind). destruct r as [d|].
    + destruct Hr as (i & sd & Hm & Hhas).
      destruct (wf_tree_inv _ _ Hwf1) as (t & Ht & Hlen & Hall).
      destruct Hm as (t' & Ht' & Hi & Hsd).
      assert (t' = t) by congruence. subst t'.
      destruct (Hall i d Hi) as (sd' & Hsd' & Hidx & _).
      assert (sd' = sd) by congruence. subst sd'.
      destruct (resolver_frame_member_at _ _ _ _ _ _ Hf Hsrc)
        as (s1 & (t1 & Ht1 & Hi1 & Hs1) & Hss).
      assert (t1 = t) by congruence. subst t1.
      destruct (Hall i0 src Hi1) as (s1' & Hs1' & _ & Hrt).
      assert (s1' = s1) by congruence. subst s1'.
      assert (Hlt : (ds_index sd < length (ds_rtable s1))%nat) by lia.
      mrun.
      eexists _, _. split; [reflexivity|]. split.
      * eapply resolver_frame_trans; [exact Hf|].
        eapply resolver_frame_store; [exact Hs1|].
        split; [destruct s1; reflexivity|]. simpl. apply length_insert.
      * apply Forall_app. split; [exact Hpre|]. constructor; [|constructor].
        apply (resolver_frame_resolves _ _ _ _ Hf).
        exists i, d, sd. split; [|exact Hhas]. exists t. auto.
    + eexists _, _. split; [reflexivity|]. split; [exact Hf|].
      right. split; [reflexivity|]. intros Hall. apply Hr.
      apply (resolver_frame_resolves _ _ _ _ Hf).
      rewrite Forall_forall in Hall. apply Hall. subst links. rewrite Hsplit.
      apply elem_of_app. right. apply elem_of_cons. auto.
  - intros w1 [Hf Hall]. eexists _, _. split; [reflexivity|].
    split; [exact Hf|]. left. auto.
  - split; [apply resolver_frame_refl|constructor].
Qed.

Lemma dsa_ds_complete_spec env w dst ds i0 s0 :
  wf_tree w dst = true ->
  member_at w dst i0 ds s0 ->
  exists r w',
    dsa_ds_complete env dst ds w = Some (r, w') /\
    resolver_frame w w' /\
    (r = 0 /\ switch_links_resolve env w dst s0 \/
     r = 1 /\ ~ switch_links_resolve env w dst s0).
Proof.
  intros Hwf Hsrc. unfold dsa_ds_complete.
  assert (Hs0 : w_switches w !! ds = Some s0) by (destruct Hsrc as (? & ? & ? & ?); done).
  mrun.
  apply (for_each_hoare
    (fun pre w' => resolver_frame w w' /\
       forall j port link, j ∈ pre -> ds_ports s0 !! j = Some port ->
         classify env port = DsaLink ->
         link ∈ of_phandle_list env (port_dn port) "link" ->
         resolves w dst link)
    (fun r w' => resolver_frame w w' /\
       (r = 0 /\ switch_links_resolve env w dst s0 \/
        r = 1 /\ ~ switch_links_resolve env w dst s0))).
  - intros pre index post w1 Hsplit [Hf Hpre].
    destruct (seq_split _ _ _ _ Hsplit) as [Hi Hlt].
    pose proof (wf_tree_frame _ _ _ Hf Hwf) as Hwf1.
    destruct (resolver_frame_member_at _ _ _ _ _ _ Hf Hsrc) as (s1 & Hm1 & Hss).
    assert (Hs1 : w_switches w1 !! ds = Some s1) by (destruct Hm1 as (? & ? & ? & ?); done).
    pose proof (resolver_frame_ds_ports _ _ Hss) as Hports.
    destruct (lookup_lt_is_Some_2 (ds_ports s0) index) as [port Hport];
      [exact Hlt|].
    assert (Hport1 : ds_ports s1 !! index = Some port) by (rewrite Hports; exact Hport).
    assert (Hext :
              (classify env port = DsaLink ->
               forall link, link ∈ of_phandle_list env (port_dn port) "link" ->
                            resolves w dst link) ->
              forall j port' link, j ∈ (pre ++ [index])%list ->
                ds_ports s0 !! j = Some port' ->
                classify env port' = DsaLink ->
                link ∈ of_phandle_list env (port_dn port') "link" ->
                resolves w dst link).
    { intros Hnew j port' link Hj Hp' Hc Hl.
      apply elem_of_app in Hj as [Hj|Hj].
      - eapply Hpre; eassumption.
      - apply list_elem_of_singleton in Hj. subst j.
        assert (port' = port) by congruence. subst port'. auto. }
    mrun.
    destruct (dsa_port_is_valid port) eqn:Hvalid; simpl.
    2:{ eexists _, _. split; [reflexivity|]. split; [exact Hf|].
        apply Hext. intros Hc. apply classify_DsaLink in Hc. destruct Hc; congruence. }
    destruct (dsa_port_is_dsa env port) eqn:Hdsa; simpl.
    2:{ eexists _, _. split; [reflexivity|]. split; [exact Hf|].
        apply Hext. intros Hc. apply classify_DsaLink in Hc. destruct Hc; congruence. }
    destruct (dsa_port_complete_spec env w1 dst ds i0 s1 port index Hwf1 Hm1)
      as (r & w2 & Hrun & Hf2 & Hr).
    rewrite (bind_Some _ _ _ _ _ Hrun).
    destruct Hr as [[-> Hall]|[-> Hnot]].
    + destruct (decide (0 <> 0)); [congruence|].
      destruct (resolver_frame_lookup _ _ _ _ Hf2 Hs1) as (s2 & Hs2 & Hss2).
      mrun. eexists _, _. split; [reflexivity|]. split.
      * eapply resolver_frame_trans; [exact Hf|].
        eapply resolver_frame_trans; [exact Hf2|].
        eapply resolver_frame_store; [exact Hs2|].
        split; [destruct s2; reflexivity|reflexivity].
      * apply Hext. intros _ link Hl.
        apply (resolver_frame_resolves _ _ _ _ Hf).
        rewrite Forall_forall in Hall. auto.
    + destruct (decide (1 <> 0)); [|lia].
      eexists _, _. split; [reflexivity|]. split.
      * eapply resolver_frame_trans; eassumption.
      * right. split; [reflexivity|]. intros Hall. apply Hnot.
        apply Forall_forall. intros link Hl.
        apply (resolver_frame_resolves _ _ _ _ Hf).
        apply (Hall port link); [|apply classify_DsaLink; auto|exact Hl].
        eapply list_elem_of_lookup_2. exact Hport.
  - intros w1 [Hf Hall]. eexists _, _. split; [reflexivity|].
    split; [exact Hf|]. left. split; [reflexivity|].
    intros port link Hp Hc Hl.
    apply list_elem_of_lookup in Hp as [j Hj].
    apply (Hall j port link); auto.
    apply elem_of_seq. apply lookup_lt_Some in Hj. unfold ds_num_ports. lia.
  - split; [apply resolver_frame_refl|]. intros j port link Hj. inversion Hj.
Qed.

Lemma switch_links_resolve_frame env w w' dst s s' :
  resolver_frame w w' -> resolver_frame_ds s s' ->
  switch_links_resolve env w dst s <-> switch_links_resolve env w' dst s'.
Proof.
  intros Hf Hss. unfold switch_links_resolve.
  rewrite (resolver_frame_ds_ports _ _ Hss).
  split; intros H port link Hp Hc Hl;
    apply (resolver_frame_resolves _ _ _ _ Hf); eauto.
Qed.

Lemma all_links_resolve_members env w dst :
  all_links_resolve env w dst <->
  forall i ds s, member_at w dst i ds s -> switch_links_resolve env w dst s.
Proof.
  unfold all_links_resolve, switch_links_resolve. split.
  - intros H i ds s Hm port link Hp Hc Hl. eapply H; eassumption.
  - intros H i ds s port link Hm Hp Hc Hl. eapply H; eassumption.
Qed.

(** The resolver returns on every well-formed tree, with verdict 0
    (Complete) exactly when every link reference of every DsaLink port of
    every member resolves and verdict 1 (Incomplete) otherwise; it changes
    routing tables and DSA port masks only. *)
Lemma dsa_dst_complete_spec env w dst :
  wf_tree w dst = true ->
  exists r w',
    dsa_dst_complete env dst w = Some (r, w') /\
    resolver_frame w w' /\
    (r = 0 /\ all_links_resolve env w dst \/
     r = 1 /\ ~ all_links_resolve env w dst).
Proof.
  intros Hwf. destruct (wf_tree_inv _ _ Hwf) as (t & Ht & Hlen & Hmem).
  unfold dsa_dst_complete.
  apply (for_each_hoare
    (fun pre w' => resolver_frame w w' /\
       forall i ds s, i ∈ pre -> member_at w dst i ds s ->
                      switch_links_resolve env w dst s)
    (fun r w' => resolver_frame w w' /\
       (r = 0 /\ all_links_resolve env w dst \/
        r = 1 /\ ~ all_links_resolve env w dst))).
  - intros pre index post w1 Hsplit [Hf Hpre].
    destruct (seq_split _ _ _ _ Hsplit) as [Hi Hlt].
    pose proof (wf_tree_frame _ _ _ Hf Hwf) as Hwf1.
    assert (Ht1 : w_trees w1 !! dst = Some t) by (destruct Hf as (-> & _); exact Ht).
    destruct (lookup_lt_is_Some_2 (dst_ds t) index) as [slot Hslot]; [lia|].
    mrun. destruct slot as [ds|].
    + destruct (Hmem index ds Hslot) as (s & Hs & _).
      assert (Hm : member_at w dst index ds s) by (exists t; auto).
      destruct (resolver_frame_member_at _ _ _ _ _ _ Hf Hm) as (s1 & Hm1 & Hss).
      destruct (dsa_ds_complete_spec env w1 dst ds index s1 Hwf1 Hm1)
        as (r & w2 & Hrun & Hf2 & Hr).
      rewrite (bind_Some _ _ _ _ _ Hrun).
      destruct Hr as [[-> Hall]|[-> Hnot]].
      * destruct (decide (0 <> 0)); [congruence|].
        eexists _, _. split; [reflexivity|]. split.
        -- eapply resolver_frame_trans; eassumption.
        -- intros j d sd Hj Hmd. apply elem_of_app in Hj as [Hj|Hj].
           ++ eapply Hpre; eassumption.
           ++ apply list_elem_of_singleton in Hj. subst j.
              destruct Hmd as (t' & Ht' & Hi' & Hsd).
              assert (t' = t) by congruence. subst t'.
              assert (d = ds) by congruence. subst d.
              assert (sd = s) by congruence. subst sd.
              apply (switch_links_resolve_frame env w w1 dst s s1 Hf Hss).
              exact Hall.
      * destruct (decide (1 <> 0)); [|lia].
        eexists _, _. split; [reflexivity|]. split.
        -- eapply resolver_frame_trans; eassumption.
        -- right. split; [reflexivity|]. intros Hall. apply Hnot.
           apply (switch_links_resolve_frame env w w1 dst s s1 Hf Hss).
           eapply (proj1 (all_links_resolve_members env w dst) Hall). exact Hm.
    + eexists _, _. split; [reflexivity|]. split; [exact Hf|].
      intros j d sd Hj Hmd. apply elem_of_app in Hj as [Hj|Hj].
      * eapply Hpre; eassumption.
      * apply list_elem_of_singleton in Hj. subst j.
        destruct Hmd as (t' & Ht' & Hi' & Hsd). congruence.
  - intros w1 [Hf Hall]. eexists _, _. split; [reflexivity|].
    split; [exact Hf|]. left. split; [reflexivity|].
    apply all_links_resolve_members. intros i ds s Hm. eapply Hall; [|exact Hm].
    apply elem_of_seq. destruct Hm as (t' & Ht' & Hi' & _).
    assert (t' = t) by congruence. subst t'.
    apply lookup_lt_Some in Hi'. lia.
  - split; [apply resolver_frame_refl|]. intros i ds s Hi. inversion Hi.
Qed.

(** ** Partial correctness rules *)

Lemma wp_elim {A} (m : M A) Q w a w' :
  wp m Q w -> m w = Some (a, w') -> Q a w'.
Proof. unfold wp. intros H E. rewrite E in H. exact H. Qed.

Lemma wp_intro {A} (m : M A) (Q : A -> world -> Prop) w :
  (forall a w', m w = Some (a, w') -> Q a w') -> wp m Q w.
Proof. unfold wp. intros H. destruct (m w) as [[a w']|]; auto. Qed.

Lemma wp_mono {A} (m : M A) (Q Q' : A -> world -> Prop) w :
  wp m Q w -> (forall a w', Q a w' -> Q' a w') -> wp m Q' w.
Proof. unfold wp. destruct (m w) as [[a w']|]; auto. Qed.

Lemma wp_ret {A} (a : A) (Q : A -> world -> Prop) w : Q a w -> wp (ret a) Q w.
Proof. intros H. exact H. Qed.

Lemma wp_fault {A} (Q : A -> world -> Prop) w : wp fault Q w.
Proof. exact I. Qed.

Lemma wp_bind {A B} (m : M A) (k : A -> M B) Q w :
  wp m (fun a w' => wp (k a) Q w') w -> wp (bind m k) Q w.
Proof. unfold wp, bind. destruct (m w) as [[a w']|]; auto. Qed.

Lemma wp_load_dst p (Q : dsa_switch_tree -> world -> Prop) w :
  (forall t, w_trees w !! p = Some t -> Q t w) -> wp (load_dst p) Q w.
Proof. unfold wp, load_dst. destruct (w_trees w !! p); auto. Qed.

Lemma wp_store_dst p t (Q : unit -> world -> Prop) w :
  (forall t0, w_trees w !! p = Some t0 ->
     Q tt (w_with_trees (<[p := t]> (w_trees w)) w)) ->
  wp (store_dst p t) Q w.
Proof. unfold wp, store_dst. destruct (w_trees w !! p); eauto. Qed.

Lemma wp_load_ds p (Q : dsa_switch -> world -> Prop) w :
  (forall s, w_switches w !! p = Some s -> Q s w) -> wp (load_ds p) Q w.
Proof. unfold wp, load_ds. destruct (w_switches w !! p); auto. Qed.

Lemma wp_store_ds p s (Q : unit -> world -> Prop) w :
  (forall s0, w_switches w !! p = Some s0 ->
     Q tt (w_with_switches (<[p := s]> (w_switches w)) w)) ->
  wp (store_ds p s) Q w.
Proof. unfold wp, store_ds. destruct (w_switches w !! p); eauto. Qed.

Lemma wp_array_get {A} (a : list A) i (Q : A -> world -> Prop) w :
  (forall x, a !! i = Some x -> Q x w) -> wp (array_get a i) Q w.
Proof. unfold wp, array_get. destruct (a !! i); simpl; auto. Qed.

Lemma wp_array_set {A} (a : list A) i x (Q : list A -> world -> Prop) w :
  ((i < length a)%nat -> Q (<[i := x]> a) w) -> wp (array_set a i x) Q w.
Proof. unfold wp, array_set. destruct (decide _); simpl; auto. Qed.

Lemma wp_for_each {I R} (Inv : world -> Prop) (l : list I)
  (body : I -> M (option R)) (after : M R) (Q : R -> world -> Prop) w :
  Inv w ->
  (forall i w, i ∈ l -> Inv w ->
     wp (body i) (fun r w' => match r with
                              | None => Inv w'
                              | Some v => Q v w'
                              end) w) ->
  (forall w, Inv w -> wp after Q w) ->
  wp (for_each l body after) Q w.
Proof.
  intros Hinv Hbody Hafter. revert w Hinv.
  induction l as [|i l IH]; intros w Hinv; simpl.
  - apply Hafter. exact Hinv.
  - apply wp_bind. eapply wp_mono.
    + apply Hbody; [apply elem_of_cons; auto|exact Hinv].
    + intros [v|] w' H; simpl in H.
      * exact H.
      * apply IH; [|exact H].
        intros j w0 Hj. apply Hbody. apply elem_of_cons. auto.
Qed.

(** One step of a partial-correctness proof. *)
Ltac wp_step :=
  lazymatch goal with
  | |- wp (bind _ _) _ _ => apply wp_bind
  | |- wp (ret _) _ _ => apply wp_ret
  | |- wp fault _ _ => apply wp_fault
  | |- wp (load_dst _) _ _ => apply wp_load_dst; intros ? ?
  | |- wp (store_dst _ _) _ _ => apply wp_store_dst; intros ? ?
  | |- wp (load_ds _) _ _ => apply wp_load_ds; intros ? ?
  | |- wp (store_ds _ _) _ _ => apply wp_store_ds; intros ? ?
  | |- wp (array_get _ _) _ _ => apply wp_array_get; intros ? ?
  | |- wp (array_set _ _ _) _ _ => apply wp_array_set; intros ?
  | |- wp (if ?b then _ else _) _ _ => destruct b eqn:?
  | |- wp (match ?x with _ => _ end) _ _ => destruct x eqn:?
  end.
Ltac wp_steps := repeat wp_step.

(** ** Computations that leave the trees alone *)

Lemma dsa_dst_find_port_dn_trees dst port w0 w :
  w_trees w = w_trees w0 ->
  wp (dsa_dst_find_port_dn dst port) (fun _ w' => w_trees w' = w_trees w0) w.
Proof.
  intros H. unfold dsa_dst_find_port_dn.
  apply (wp_for_each (fun w' => w_trees w' = w_trees w0)); [exact H| |].
  - intros i w1 _ H1. wp_steps; assumption.
  - intros w1 H1. wp_steps. assumption.
Qed.

Lemma dsa_port_complete_trees env dst src port src_port w0 w :
  w_trees w = w_trees w0 ->
  wp (dsa_port_complete env dst src port src_port)
     (fun _ w' => w_trees w' = w_trees w0) w.
Proof.
  intros H. unfold dsa_port_complete.
  apply (wp_for_each (fun w' => w_trees w' = w_trees w0)); [exact H| |].
  - intros link w1 _ H1. wp_step.
    eapply wp_mono; [apply (dsa_dst_find_port_dn_trees _ _ w0); exact H1|].
    intros r w2 Hkeep. simpl. wp_steps; assumption.
  - intros w1 H1. wp_steps. assumption.
Qed.

Lemma dsa_ds_complete_trees env dst ds w0 w :
  w_trees w = w_trees w0 ->
  wp (dsa_ds_complete env dst ds) (fun _ w' => w_trees w' = w_trees w0) w.
Proof.
  intros H. unfold dsa_ds_complete. wp_steps.
  apply (wp_for_each (fun w' => w_trees w' = w_trees w0)); [exact H| |].
  - intros i w1 _ H1. wp_steps; try assumption.
    eapply wp_mono; [apply (dsa_port_complete_trees _ _ _ _ _ w0); exact H1|].
    intros r w2 Hkeep. simpl. wp_steps; assumption.
  - intros w1 H1. wp_steps. assumption.
Qed.

Lemma dsa_dst_complete_trees env dst w0 w :
  w_trees w = w_trees w0 ->
  wp (dsa_dst_complete env dst) (fun _ w' => w_trees w' = w_trees w0) w.
Proof.
  intros H. unfold dsa_dst_complete.
  apply (wp_for_each (fun w' => w_trees w' = w_trees w0)); [exact H| |].
  - intros i w1 _ H1. wp_steps; try assumption.
    eapply wp_mono; [apply (dsa_ds_complete_trees _ _ _ w0); exact H1|].
    intros r w2 Hkeep. simpl. wp_steps; assumption.
  - intros w1 H1. wp_steps. assumption.
Qed.

Lemma enable_unless_cpu_trees env ds index w0 w :
  w_trees w = w_trees w0 ->
  wp (enable_unless_cpu env ds index) (fun _ w' => w_trees w' = w_trees w0) w.
Proof. intros H. unfold enable_unless_cpu. wp_steps; assumption. Qed.

Lemma dsa_parse_ports_dn_trees env ports ds w0 w :
  w_trees w = w_trees w0 ->
  wp (dsa_parse_ports_dn env ports ds) (fun _ w' => w_trees w' = w_trees w0) w.
Proof.
  intros H. unfold dsa_parse_ports_dn.
  apply (wp_for_each (fun w' => w_trees w' = w_trees w0)); [exact H| |].
  - intros i w1 _ H1. wp_steps; try assumption.
    eapply wp_mono; [apply (enable_unless_cpu_trees _ _ _ w0); exact H1|].
    intros r w2 Hkeep. simpl. wp_steps; assumption.
  - intros w1 H1. wp_steps. assumption.
Qed.

Lemma dsa_parse_ports_loop_trees env cd ds l : forall found w0 w,
  w_trees w = w_trees w0 ->
  wp (dsa_parse_ports_loop env cd ds l found)
     (fun _ w' => w_trees w' = w_trees w0) w.
Proof.
  induction l as [|i l IH]; intros found w0 w H; simpl.
  - wp_steps. assumption.
  - wp_steps.
    + eapply wp_mono; [apply (enable_unless_cpu_trees _ _ _ w0); exact H|].
      intros r w2 Hkeep. simpl. apply IH. exact Hkeep.
    + apply IH. exact H.
Qed.

Lemma dsa_register_parse_trees env ds dev w r w' :
  dsa_register_parse env ds dev w = Some (r, w') -> w_trees w' = w_trees w.
Proof.
  intros Hrun.
  apply (wp_elim (dsa_register_parse env ds dev)
           (fun _ w' => w_trees w' = w_trees w) w r w'); [|exact Hrun].
  unfold dsa_register_parse.
  destruct (of_node dev) as [np|].
  - destruct (dsa_parse_member_dn env np) as [err member].
    wp_steps; try reflexivity.
    eapply wp_mono; [apply (dsa_parse_ports_dn_trees _ _ _ w); reflexivity|].
    intros e w2 Hkeep. simpl. wp_steps; assumption.
  - destruct (dsa_parse_member (platform_data dev)) as [err member].
    wp_steps; try reflexivity.
    unfold dsa_parse_ports. wp_steps.
    eapply wp_mono; [apply (dsa_parse_ports_loop_trees _ _ _ _ _ w); reflexivity|].
    intros e w2 Hkeep. simpl. wp_steps; assumption.
Qed.

(** ** Registry: what a run tells about the trees *)

Lemma dsa_get_dst_walk_inv tree fuel : forall pos w r w',
  dsa_get_dst_walk fuel pos tree w = Some (r, w') ->
  match r with
  | None => w' = w
  | Some p =>
      exists t, w_trees w !! p = Some t /\ dst_tree t = tree /\
        w' = w_with_trees
               (<[p := dst_with_refcount (dst_refcount t + 1) t]> (w_trees w)) w
  end.
Proof.
  induction fuel as [|fuel IH]; intros pos w r w' H; [discriminate|].
  simpl in H. destruct pos as [|p|]; [| |discriminate].
  - injection H as <- <-. reflexivity.
  - apply bind_inv in H as (t & w1 & Hl & H).
    apply load_dst_inv in Hl as [-> Ht].
    destruct (decide (dst_tree t = tree)) as [Heq|Hne].
    + rewrite (bind_Some _ _ _ _ _ (kref_get_Some _ _ _ Ht)) in H.
      injection H as <- <-. exists t. auto.
    + apply IH in H. exact H.
Qed.

Lemma dsa_get_dst_inv tree w r w' :
  dsa_get_dst tree w = Some (r, w') ->
  match r with
  | None => w' = w
  | Some p =>
      exists t, w_trees w !! p = Some t /\ dst_tree t = tree /\
        w' = w_with_trees
               (<[p := dst_with_refcount (dst_refcount t + 1) t]> (w_trees w)) w
  end.
Proof. unfold dsa_get_dst, bind, load_lh. apply dsa_get_dst_walk_inv. Qed.

Lemma dsa_add_dst_inv env tree w p w' :
  dsa_add_dst env tree w = Some (Some p, w') ->
  w_trees w !! p = None /\
  w_trees w' =
    <[p := dst_with_refcount 1
             (dst_with_list {| lh_next := LHead; lh_prev := LHead |}
                (dst_with_tree tree zero_dst))]> (w_trees w).
Proof.
  intros H. unfold dsa_add_dst, kzalloc_dst in H.
  destruct (kzalloc env) as [q|] eqn:Hk.
  - destruct (w_trees w !! q) eqn:Hq.
    + unfold bind in H. rewrite Hq in H. discriminate.
    + assert (H' := dsa_add_dst_Some env tree q w Hk Hq).
      unfold dsa_add_dst, kzalloc_dst in H'. rewrite Hk in H'.
      rewrite H' in H. injection H as <- <-. auto.
  - discriminate.
Qed.

(** The tree of a registering switch was either found, and its reference
    count raised, or it is new. *)
Lemma dsa_register_tree_inv env tree w p w' :
  dsa_register_tree env tree w = Some (Some p, w') ->
  (exists t, w_trees w !! p = Some t /\
     w_trees w' = <[p := dst_with_refcount (dst_refcount t + 1) t]> (w_trees w))
  \/
  (w_trees w !! p = None /\
   w_trees w' =
     <[p := dst_with_refcount 1
              (dst_with_list {| lh_next := LHead; lh_prev := LHead |}
                 (dst_with_tree tree zero_dst))]> (w_trees w)).
Proof.
  intros H. unfold dsa_register_tree in H.
  apply bind_inv in H as (r & w1 & Hg & H).
  apply dsa_get_dst_inv in Hg. destruct r as [q|].
  - injection H as <- <-. left.
    destruct Hg as (t & Ht & _ & ->). exists t. auto.
  - subst w1. right. eapply dsa_add_dst_inv. exact H.
Qed.

Lemma dsa_dst_add_ds_inv dst ds index w u w' :
  dsa_dst_add_ds dst ds index w = Some (u, w') ->
  exists t, w_trees w !! dst = Some t /\ (index < length (dst_ds t))%nat /\
    w' = w_with_trees
           (<[dst := dst_with_ds (<[index := Some ds]> (dst_ds t))
                       (dst_with_refcount (dst_refcount t + 1) t)]>
              (w_trees w)) w.
Proof.
  intros H. destruct (w_trees w !! dst) as [t|] eqn:Ht.
  - destruct (decide (index < length (dst_ds t))%nat) as [Hi|Hi].
    + rewrite (dsa_dst_add_ds_Some _ _ _ t) in H by auto.
      injection H as <- <-. eauto.
    + unfold dsa_dst_add_ds in H.
      rewrite (bind_Some _ _ _ _ _ (kref_get_Some _ _ _ Ht)) in H.
      unfold bind, load_dst, array_set in H. simpl in H.
      rewrite lookup_insert_eq in H. simpl in H.
      destruct (decide _); [contradiction|discriminate].
  - unfold dsa_dst_add_ds, kref_get, bind, load_dst in H.
    rewrite Ht in H. discriminate.
Qed.

(** The initialisation loop of the routing table. *)
Lemma rtable_init_trees ds w0 w :
  w_trees w = w_trees w0 ->
  wp (for_each (seq 0 DSA_MAX_SWITCHES)
        (fun i =>
           s <- load_ds ds ;;
           rtable <- array_set (ds_rtable s) i DSA_RTABLE_NONE ;;
           store_ds ds (ds_with_rtable rtable s) ;;;
           ret (@None unit))
        (ret tt))
     (fun _ w' => w_trees w' = w_trees w0) w.
Proof.
  intros H.
  apply (wp_for_each (fun w' => w_trees w' = w_trees w0)); [exact H| |].
  - intros i w1 _ H1. wp_steps. exact H1.
  - intros w1 H1. wp_steps. exact H1.
Qed.

(** The resolution stage of a registration takes the slot and one
    reference, and changes nothing else of the trees. *)
Lemma dsa_register_resolve_trees env ds dst index pd w r w' :
  dsa_register_resolve env ds dst index pd w = Some (r, w') ->
  exists t, w_trees w !! dst = Some t /\ (index < length (dst_ds t))%nat /\
    w_trees w' =
      <[dst := dst_with_ds (<[index := Some ds]> (dst_ds t))
                 (dst_with_refcount (dst_refcount t + 1) t)]> (w_trees w).
Proof.
  intros H. unfold dsa_register_resolve in H.
  apply bind_inv in H as (s & w1 & Hl & H).
  apply load_ds_inv in Hl as [-> Hs].
  apply bind_inv in H as (u & w2 & Hst & H).
  apply store_ds_inv in Hst as [_ ->].
  apply bind_inv in H as (u2 & w3 & Hinit & H).
  assert (H3 : w_trees w3 = w_trees w).
  { refine (wp_elim _ (fun _ w' => w_trees w' = w_trees w) _ _ _ _ Hinit).
    apply rtable_init_trees. reflexivity. }
  apply bind_inv in H as (u3 & w4 & Hadd & H).
  apply dsa_dst_add_ds_inv in Hadd as (t & Ht & Hi & ->).
  exists t. rewrite H3 in Ht. split; [exact Ht|]. split; [exact Hi|].
  rewrite <- H3.
  apply (wp_elim _ _ _ _ _ (dsa_dst_complete_trees env dst _ _ eq_refl) H).
Qed.

(** ** Registration: disjoint trees *)

(** C9: if, during register, resolution returns Complete while the tree
    is already marked applied, register fails with -EINVAL and undoes
    nothing: the store it returns is the one the resolver left, the new
    switch is in its slot, and both references the attempt took on the
    tree (the transient one and the member's) are still counted. *)
Theorem register_disjoint_keeps_registration env ds dev w tree index w1 dst
  w2 w3 :
  dsa_register_parse env ds dev w = Some (inr (tree, index), w1) ->
  dsa_register_tree env tree w1 = Some (Some dst, w2) ->
  slot w2 dst index = Some None ->
  dsa_register_resolve env ds dst index (platform_data dev) w2 = Some (0, w3) ->
  dst_applied <$> w_trees w3 !! dst = Some true ->
  _dsa_register_switch env ds dev w = Some (- EINVAL, w3) /\
  slot w3 dst index = Some (Some ds) /\
  exists c, refcount w dst = Some c /\ refcount w3 dst = Some (c + 2).
Proof.
  intros Hparse Htree Hslot Hres Happ.
  pose proof (dsa_register_parse_trees _ _ _ _ _ _ Hparse) as Hk1.
  destruct (dsa_register_resolve_trees _ _ _ _ _ _ _ _ Hres)
    as (t2 & Ht2 & Hi & Hk3).
  assert (Ht3 : w_trees w3 !! dst =
                Some (dst_with_ds (<[index := Some ds]> (dst_ds t2))
                        (dst_with_refcount (dst_refcount t2 + 1) t2))).
  { rewrite Hk3. apply lookup_insert_eq. }
  split; [|split].
  - unfold _dsa_register_switch.
    rewrite (bind_Some _ _ _ _ _ Hparse). cbv beta iota.
    rewrite (bind_Some _ _ _ _ _ Htree). cbv beta iota.
    unfold slot in Hslot. rewrite Ht2 in Hslot. simpl in Hslot.
    mrun. cbv beta iota. rewrite (bind_Some _ _ _ _ _ Hres).
    unfold dsa_register_finish.
    destruct (decide (0 < 0)); [lia|]. destruct (decide (0 = 1)); [lia|].
    mrun. rewrite Ht3 in Happ. simpl in Happ. injection Happ as Happ.
    cbn [dst_applied dst_with_ds dst_with_refcount]. rewrite Happ.
    reflexivity.
  - unfold slot. rewrite Ht3. simpl. apply list_lookup_insert_eq. exact Hi.
  - rewrite Ht3 in Happ. simpl in Happ. injection Happ as Happ.
    destruct (dsa_register_tree_inv _ _ _ _ _ Htree)
      as [(t1 & Ht1 & Hk2)|[_ Hk2]].
    + exists (dst_refcount t1). unfold refcount.
      rewrite <- Hk1, Ht1, Ht3. simpl. split; [reflexivity|].
      rewrite Hk2, lookup_insert_eq in Ht2. injection Ht2 as <-. simpl.
      f_equal. lia.
    + rewrite Hk2, lookup_insert_eq in Ht2. injection Ht2 as <-.
      discriminate.
Qed.

Lemma register_disjoint_keeps_registration_witness :
  _dsa_register_switch disjoint_env 11%nat device_200 disjoint_world =
    Some (- EINVAL, disjoint_world_resolved) /\
  slot disjoint_world_resolved 50%nat 1 = Some (Some 11%nat) /\
  exists c, refcount disjoint_world 50%nat = Some c /\
            refcount disjoint_world_resolved 50%nat = Some (c + 2).
Proof.
  apply (register_disjoint_keeps_registration disjoint_env 11%nat device_200
           disjoint_world 0%nat 1%nat disjoint_world_parsed 50%nat
           disjoint_world_tree disjoint_world_resolved).
  - vm_compute. reflexivity.
  - vm_compute. reflexivity.
  - vm_compute. reflexivity.
  - vm_compute. reflexivity.
  - vm_compute. reflexivity.
Defined.

(** ** Registration: a deferred negotiation *)

(** C2, the code at the failing input: switch 1 registers while the
    master device is not live yet. The negotiator defers, register returns
    -EPROBE_DEFER and the slot of switch 1 is vacated, but the reference
    count of the tree, 1 before the call, is 2 after it: the transient
    reference of the attempt is never released. *)
Lemma register_defer_leaks_reference :
  refcount fabric_world_pending 50%nat = Some 1 /\
  slot fabric_world_pending 50%nat 1 = Some None /\
  _dsa_register_switch fabric_env_early 11%nat device_200 fabric_world_pending
    = Some (- EPROBE_DEFER, fabric_world_deferred) /\
  slot fabric_world_deferred 50%nat 1 = Some None /\
  refcount fabric_world_deferred 50%nat = Some 2.
Proof.
  split; [vm_compute; reflexivity|].
  split; [vm_compute; reflexivity|].
  split; [vm_compute; reflexivity|].
  split; vm_compute; reflexivity.
Qed.

(** The retry after the deferred attempt succeeds and applies the tree,
    with one reference more than the same registration counts when no
    attempt was deferred before it. *)
Lemma register_retry_after_defer :
  (exists w, _dsa_register_switch fabric_env 11%nat device_200
               fabric_world_deferred = Some (0, w) /\
             dst_applied <$> w_trees w !! 50%nat = Some true /\
             refcount w 50%nat = Some 3) /\
  (exists w, _dsa_register_switch fabric_env 11%nat device_200
               fabric_world_pending = Some (0, w) /\
             dst_applied <$> w_trees w !! 50%nat = Some true /\
             refcount w 50%nat = Some 2).
Proof.
  split; eexists; (split; [vm_compute; reflexivity|]);
    (split; [vm_compute; reflexivity|]); vm_compute; reflexivity.
Qed.

(** ** Activator: the port loop of a switch *)

Lemma classify_cases env port :
  match classify env port with
  | Invalid => dsa_port_is_valid port = false
  | DsaLink => dsa_port_is_valid port = true /\ dsa_port_is_dsa env port = true
  | Cpu => dsa_port_is_valid port = true /\ dsa_port_is_dsa env port = false /\
           dsa_port_is_cpu env port = true
  | User => dsa_port_is_valid port = true /\ dsa_port_is_dsa env port = false /\
            dsa_port_is_cpu env port = false
  end.
Proof.
  unfold classify.
  destruct (dsa_port_is_valid port), (dsa_port_is_dsa env port),
    (dsa_port_is_cpu env port); simpl; auto.
Qed.

Lemma set_port_netdev_Some ds index nd s port w :
  w_switches w !! ds = Some s ->
  ds_ports s !! index = Some port ->
  set_port_netdev ds index nd w =
  Some (tt, w_with_switches
              (<[ds := ds_with_ports
                         (<[index := port_with_netdev nd port]> (ds_ports s)) s]>
                 (w_switches w)) w).
Proof.
  intros Hs Hp. unfold set_port_netdev.
  pose proof (lookup_lt_Some _ _ _ Hp) as Hlt.
  mrun. eapply store_ds_Some. eassumption.
Qed.

Lemma dsa_dsa_port_apply_run env port index ds w :
  dsa_dsa_port_apply env port index ds w =
  Some (dsa_cpu_dsa_setup env ds index, w).
Proof.
  unfold dsa_dsa_port_apply.
  destruct (decide (dsa_cpu_dsa_setup env ds index <> 0)) as [H|H].
  - reflexivity.
  - apply dec_stable in H. rewrite H. reflexivity.
Qed.

Lemma dsa_cpu_port_apply_fail env port index ds w :
  dsa_cpu_dsa_setup env ds index <> 0 ->
  dsa_cpu_port_apply env port index ds w =
  Some (dsa_cpu_dsa_setup env ds index, w).
Proof.
  intros H. unfold dsa_cpu_port_apply. destruct (decide _); [|contradiction].
  reflexivity.
Qed.

Lemma dsa_cpu_port_apply_ok env port index ds s w :
  w_switches w !! ds = Some s ->
  dsa_cpu_dsa_setup env ds index = 0 ->
  dsa_cpu_port_apply env port index ds w =
  Some (0, w_with_switches
             (<[ds := ds_with_cpu_port_mask
                        (to_u32 (Z.lor (ds_cpu_port_mask s) (BIT index))) s]>
                (w_switches w)) w).
Proof.
  intros Hs H. unfold dsa_cpu_port_apply. rewrite H.
  destruct (decide (0 <> 0)); [congruence|]. mrun. reflexivity.
Qed.

(** The port loop either applies every port and returns 0, no uplink
    setup having failed, and then every user port holds what its
    materialization gave; or it returns the error of the first uplink
    port whose setup fails and leaves the ports behind it alone. *)
Lemma dsa_ds_apply_ports_spec env ds w s :
  w_switches w !! ds = Some s ->
  exists r w' s',
    dsa_ds_apply_ports env ds w = Some (r, w') /\
    w_switches w' !! ds = Some s' /\
    ((r = 0 /\
      (forall j, ~ uplink_fails env ds (ds_ports s) j) /\
      (forall j port, ds_ports s !! j = Some port ->
         classify env port = User ->
         exists port', ds_ports s' !! j = Some port' /\
                       port_netdev port' = user_port_outcome env ds j port))
     \/
     (exists i, uplink_fails env ds (ds_ports s) i /\
        r = dsa_cpu_dsa_setup env ds i /\
        (forall j, (j < i)%nat -> ~ uplink_fails env ds (ds_ports s) j) /\
        (forall j, (i < j)%nat -> ds_ports s' !! j = ds_ports s !! j))).
Proof.
  intros Hs. unfold dsa_ds_apply_ports. mrun.
  set (Post := fun (r : Z) (w' : world) =>
    exists s', w_switches w' !! ds = Some s' /\
    ((r = 0 /\
      (forall j, ~ uplink_fails env ds (ds_ports s) j) /\
      (forall j port, ds_ports s !! j = Some port ->
         classify env port = User ->
         exists port', ds_ports s' !! j = Some port' /\
                       port_netdev port' = user_port_outcome env ds j port))
     \/
     (exists i, uplink_fails env ds (ds_ports s) i /\
        r = dsa_cpu_dsa_setup env ds i /\
        (forall j, (j < i)%nat -> ~ uplink_fails env ds (ds_ports s) j) /\
        (forall j, (i < j)%nat -> ds_ports s' !! j = ds_ports s !! j)))).
  set (Inv := fun (pre : list nat) (w' : world) =>
    exists s', w_switches w' !! ds = Some s' /\
      (forall j, (j < length pre)%nat -> ~ uplink_fails env ds (ds_ports s) j) /\
      (forall j port, (j < length pre)%nat -> ds_ports s !! j = Some port ->
         classify env port = User ->
         exists port', ds_ports s' !! j = Some port' /\
                       port_netdev port' = user_port_outcome env ds j port) /\
      (forall j, (length pre <= j)%nat -> ds_ports s' !! j = ds_ports s !! j)).
  assert (Hgoal : exists r w', for_each (seq 0 (ds_num_ports s))
      (fun index =>
         s <- load_ds ds ;;
         port <- array_get (ds_ports s) index ;;
         if negb (dsa_port_is_valid port) then ret None
         else if dsa_port_is_dsa env port then
           err <- dsa_dsa_port_apply env port index ds ;;
           if decide (err <> 0) then ret (Some err) else ret None
         else if dsa_port_is_cpu env port then
           err <- dsa_cpu_port_apply env port index ds ;;
           if decide (err <> 0) then ret (Some err) else ret None
         else
           err <- dsa_user_port_apply env port index ds ;;
           ret None)
      (ret 0) w = Some (r, w') /\ Post r w').
  2:{ destruct Hgoal as (r & w' & Hrun & s' & Hs' & Hpost).
      exists r, w', s'. auto. }
  apply (for_each_hoare Inv Post).
  - intros pre i post w1 Hsplit (s1 & Hs1 & Hok & Huser & Hrest).
    destruct (seq_split _ _ _ _ Hsplit) as [Hi Hlt].
    destruct (lookup_lt_is_Some_2 (ds_ports s) i) as [port Hport]; [exact Hlt|].
    assert (Hport1 : ds_ports s1 !! i = Some port).
    { rewrite Hrest by lia. exact Hport. }
    assert (Hlen : length (pre ++ [i])%list = S i).
    { rewrite length_app. simpl. lia. }
    (* what the next invariant needs when port [i] leaves the other ports alone *)
    assert (Hnext : forall w2 s2,
              w_switches w2 !! ds = Some s2 ->
              ~ uplink_fails env ds (ds_ports s) i ->
              (classify env port = User ->
               exists port', ds_ports s2 !! i = Some port' /\
                 port_netdev port' = user_port_outcome env ds i port) ->
              (forall j, j <> i -> ds_ports s2 !! j = ds_ports s1 !! j) ->
              Inv (pre ++ [i])%list w2).
    { intros w2 s2 Hs2 Hnf Hu Hother. exists s2. split; [exact Hs2|].
      rewrite Hlen. split; [|split].
      - intros j Hj. destruct (decide (j = i)) as [->|Hne]; [exact Hnf|].
        apply Hok. lia.
      - intros j port0 Hj Hp0 Hc. destruct (decide (j = i)) as [->|Hne].
        + assert (port0 = port) by congruence. subst port0. auto.
        + rewrite Hother by exact Hne. apply Huser; [lia|exact Hp0|exact Hc].
      - intros j Hj. rewrite Hother by lia. apply Hrest. lia. }
    pose proof (classify_cases env port) as Hclass.
    mrun. destruct (classify env port) eqn:Hc.
    + (* invalid *)
      rewrite Hclass. simpl. eexists _, _. split; [reflexivity|].
      apply (Hnext w1 s1 Hs1); [|discriminate|reflexivity].
      intros (p & Hp & [Hu|Hu] & _); congruence.
    + (* DSA link *)
      destruct Hclass as [-> ->]. simpl.
      rewrite (bind_Some _ _ _ _ _ (dsa_dsa_port_apply_run env port i ds w1)).
      destruct (decide (dsa_cpu_dsa_setup env ds i <> 0)) as [Hfail|Hok0].
      * eexists _, _. split; [reflexivity|].
        exists s1. split; [exact Hs1|]. right. exists i.
        split; [exists port; unfold is_uplink; auto|].
        split; [reflexivity|]. split.
        -- intros j Hj. apply Hok. lia.
        -- intros j Hj. apply Hrest. lia.
      * eexists _, _. split; [reflexivity|].
        apply (Hnext w1 s1 Hs1); [|discriminate|reflexivity].
        intros (p & Hp & _ & Hne). contradiction.
    + (* CPU *)
      destruct Hclass as (-> & -> & ->). simpl.
      destruct (decide (dsa_cpu_dsa_setup env ds i <> 0)) as [Hfail|Hok0].
      * rewrite (bind_Some _ _ _ _ _
                   (dsa_cpu_port_apply_fail env port i ds w1 Hfail)).
        destruct (decide _); [|contradiction].
        eexists _, _. split; [reflexivity|].
        exists s1. split; [exact Hs1|]. right. exists i.
        split; [exists port; unfold is_uplink; auto|].
        split; [reflexivity|]. split.
        -- intros j Hj. apply Hok. lia.
        -- intros j Hj. apply Hrest. lia.
      * apply dec_stable in Hok0.
        rewrite (bind_Some _ _ _ _ _
                   (dsa_cpu_port_apply_ok env port i ds s1 w1 Hs1 Hok0)).
        destruct (decide (0 <> 0)); [congruence|].
        eexists _, _. split; [reflexivity|].
        eapply Hnext; [apply lookup_insert_eq| |discriminate|reflexivity].
        intros (p & Hp & _ & Hne). contradiction.
    + (* user *)
      destruct Hclass as (-> & -> & ->). simpl.
      assert (Hnf : ~ uplink_fails env ds (ds_ports s) i).
      { intros (p & Hp & [Hu|Hu] & _); congruence. }
      unfold dsa_user_port_apply.
      destruct (dsa_slave_create env ds i (dsa_user_port_name env port))
        as [err|slave_dev] eqn:Hcreate.
      * destruct (decide (err <> 0)) as [Hfail|Hzero].
        -- rewrite (bind_Some _ _ _ _ _
                      (bind_Some _ _ _ _ _
                         (set_port_netdev_Some ds i None s1 port w1 Hs1 Hport1))).
           eexists _, _. split; [reflexivity|].
           eapply Hnext; [apply lookup_insert_eq|exact Hnf| |].
           ++ intros _. eexists. split.
              ** simpl. apply list_lookup_insert_eq. eapply lookup_lt_Some, Hport1.
              ** unfold user_port_outcome. rewrite Hcreate.
                 destruct (decide _); [reflexivity|contradiction].
           ++ intros j Hne. simpl. apply list_lookup_insert_ne. auto.
        -- mrun. eexists _, _. split; [reflexivity|].
           apply (Hnext w1 s1 Hs1); [exact Hnf| |reflexivity].
           intros _. exists port. split; [exact Hport1|].
           unfold user_port_outcome. rewrite Hcreate.
           destruct (decide _); [contradiction|reflexivity].
      * rewrite (bind_Some _ _ _ _ _
                   (bind_Some _ _ _ _ _
                      (set_port_netdev_Some ds i (Some slave_dev) s1 port w1
                         Hs1 Hport1))).
        eexists _, _. split; [reflexivity|].
        eapply Hnext; [apply lookup_insert_eq|exact Hnf| |].
        -- intros _. eexists. split.
           ++ simpl. apply list_lookup_insert_eq. eapply lookup_lt_Some, Hport1.
           ++ unfold user_port_outcome. rewrite Hcreate. reflexivity.
        -- intros j Hne. simpl. apply list_lookup_insert_ne. auto.
  - intros w1 (s1 & Hs1 & Hok & Huser & Hrest).
    eexists _, _. split; [reflexivity|]. exists s1. split; [exact Hs1|].
    left. split; [reflexivity|]. rewrite length_seq in Hok, Huser. split.
    + intros j Hbad. destruct (decide (j < ds_num_ports s)%nat) as [Hj|Hj].
      * exact (Hok j Hj Hbad).
      * destruct Hbad as (p & Hp & _). apply lookup_lt_Some in Hp.
        unfold ds_num_ports in Hj. lia.
    + intros j port Hp Hc. apply Huser; [|exact Hp|exact Hc].
      apply lookup_lt_Some in Hp. exact Hp.
  - exists s. split; [exact Hs|]. simpl. split; [intros j Hj; lia|].
    split; [intros j port Hj; lia|]. reflexivity.
Qed.

(** C8: apply of a single switch, once its chip-level steps have
    succeeded. User ports are tolerated: if no uplink setup fails, the
    apply returns success whatever the materializations do; every user
    port is visited and holds the interface created for it, or none when
    its creation failed. Uplink ports are not: the first DsaLink or Cpu
    port whose setup fails ends the apply with that error, and the ports
    behind it are not applied. *)
Theorem dsa_ds_apply_fault_tolerance env dst ds w w1 s :
  dsa_ds_apply_setup env dst ds w = Some (0, w1) ->
  w_switches w1 !! ds = Some s ->
  ((forall i, ~ uplink_fails env ds (ds_ports s) i) ->
   exists w' s',
     dsa_ds_apply env dst ds w = Some (0, w') /\
     w_switches w' !! ds = Some s' /\
     forall i port, ds_ports s !! i = Some port ->
       classify env port = User ->
       exists port', ds_ports s' !! i = Some port' /\
                     port_netdev port' = user_port_outcome env ds i port)
  /\
  (forall i, uplink_fails env ds (ds_ports s) i ->
     (forall j, (j < i)%nat -> ~ uplink_fails env ds (ds_ports s) j) ->
     exists w' s',
       dsa_ds_apply env dst ds w = Some (dsa_cpu_dsa_setup env ds i, w') /\
       dsa_cpu_dsa_setup env ds i <> 0 /\
       w_switches w' !! ds = Some s' /\
       forall j, (i < j)%nat -> ds_ports s' !! j = ds_ports s !! j).
Proof.
  intros Hsetup Hs.
  destruct (dsa_ds_apply_ports_spec env ds w1 s Hs)
    as (r & w' & s' & Hrun & Hs' & Hcases).
  assert (Happly : dsa_ds_apply env dst ds w = Some (r, w')).
  { unfold dsa_ds_apply. rewrite (bind_Some _ _ _ _ _ Hsetup).
    destruct (decide (0 <> 0)); [congruence|]. exact Hrun. }
  split.
  - intros Hnone. exists w', s'.
    destruct Hcases as [(-> & _ & Huser)|(i & Hbad & _)].
    + auto.
    + destruct (Hnone i Hbad).
  - intros i Hbad Hfirst. exists w', s'.
    destruct Hcases as [(_ & Hnone & _)|(i' & Hbad' & -> & Hfirst' & Hrest)].
    + destruct (Hnone i Hbad).
    + assert (i' = i).
      { destruct (Nat.lt_trichotomy i' i) as [Hlt|[Heq|Hgt]]; [|exact Heq|].
        - destruct (Hfirst i' Hlt Hbad').
        - destruct (Hfirst' i Hgt Hbad). }
      subst i'. split; [exact Happly|].
      split; [destruct Hbad as (p & _ & _ & Hne); exact Hne|].
      split; [exact Hs'|exact Hrest].
Qed.

Lemma dsa_ds_apply_fault_tolerance_witness :
  let s := ds_with_phys_mii_mask (to_u32 11)
             (ds_with_enabled_port_mask (to_u32 11)
                (member_switch 0 [102%nat; 103%nat; 104%nat; 105%nat])) in
  (exists w' s',
     dsa_ds_apply mixed_env 50%nat 10%nat mixed_world = Some (0, w') /\
     w_switches w' !! 10%nat = Some s' /\
     forall i port, ds_ports s !! i = Some port ->
       classify mixed_env port = User ->
       exists port', ds_ports s' !! i = Some port' /\
                     port_netdev port' = user_port_outcome mixed_env 10%nat i port)
  /\
  (exists w' s',
     dsa_ds_apply mixed_env_uplink 50%nat 10%nat mixed_world =
       Some (dsa_cpu_dsa_setup mixed_env_uplink 10%nat 2, w') /\
     dsa_cpu_dsa_setup mixed_env_uplink 10%nat 2 <> 0 /\
     w_switches w' !! 10%nat = Some s' /\
     forall j, (2 < j)%nat -> ds_ports s' !! j = ds_ports s !! j).
Proof.
  intros s. split.
  - apply (proj1 (dsa_ds_apply_fault_tolerance mixed_env 50%nat 10%nat
                    mixed_world
                    (world_after (dsa_ds_apply_setup mixed_env 50%nat 10%nat)
                       mixed_world) s
                    ltac:(vm_compute; reflexivity)
                    ltac:(vm_compute; reflexivity))).
    intros i (port & _ & _ & Hne). apply Hne. reflexivity.
  - apply (proj2 (dsa_ds_apply_fault_tolerance mixed_env_uplink 50%nat 10%nat
                    mixed_world
                    (world_after
                       (dsa_ds_apply_setup mixed_env_uplink 50%nat 10%nat)
                       mixed_world) s
                    ltac:(vm_compute; reflexivity)
                    ltac:(vm_compute; reflexivity)) 2%nat).
    + eexists. split; [reflexivity|]. split; [right; vm_compute; reflexivity|].
      vm_compute. discriminate.
    + intros j Hj (port & _ & _ & Hne). apply Hne.
      destruct j as [|[|j]]; [reflexivity|reflexivity|lia].
Defined.

(** The two sides of C8 on a switch with user ports 0, 1, 3 and CPU port
    2. When the interface of port 1 cannot be created, the apply succeeds,
    port 1 is left without an interface and port 3, behind it, gets its
    own. When the uplink setup of port 2 fails, the apply fails with that
    error and port 3 is never applied. *)
Example dsa_ds_apply_asymmetry :
  (exists w', dsa_ds_apply mixed_env 50%nat 10%nat mixed_world = Some (0, w') /\
     (map port_netdev <$> (ds_ports <$> w_switches w' !! 10%nat)) =
       Some [Some 2000%nat; None; None; Some 2003%nat]) /\
  (exists w', dsa_ds_apply mixed_env_uplink 50%nat 10%nat mixed_world =
                Some (- EINVAL, w') /\
     (map port_netdev <$> (ds_ports <$> w_switches w' !! 10%nat)) =
       Some [Some 2000%nat; Some 2001%nat; None; None]).
Proof.
  split; eexists; (split; [vm_compute; reflexivity|]); vm_compute; reflexivity.
Qed.

(** ** Negotiator *)

Lemma wp_for_each_prefix {I R} (Inv : list I -> world -> Prop) (l : list I)
  (body : I -> M (option R)) (after : M R) (Q : R -> world -> Prop) w :
  Inv [] w ->
  (forall pre i post w, l = (pre ++ i :: post)%list -> Inv pre w ->
     wp (body i) (fun r w' => match r with
                              | None => Inv (pre ++ [i])%list w'
                              | Some v => Q v w'
                              end) w) ->
  (forall w, Inv l w -> wp after Q w) ->
  wp (for_each l body after) Q w.
Proof.
  intros Hinv Hbody Hafter.
  assert (G : forall rest pre w, l = (pre ++ rest)%list -> Inv pre w ->
                wp (for_each rest body after) Q w).
  { induction rest as [|i rest IH]; intros pre w0 Hl H0; simpl.
    - rewrite app_nil_r in Hl. subst pre. apply Hafter. exact H0.
    - apply wp_bind. eapply wp_mono; [apply (Hbody pre i rest); assumption|].
      intros [v|] w1 H1; simpl in H1; [exact H1|].
      apply (IH (pre ++ [i])%list); [|exact H1].
      rewrite <- app_assoc. exact Hl. }
  apply (G l []); auto.
Qed.

Lemma negotiator_frame_refl w : negotiator_frame w w.
Proof.
  split; intros p.
  - destruct (w_switches w !! p); constructor. auto.
  - destruct (w_trees w !! p); constructor. auto.
Qed.

Lemma negotiator_frame_trans w1 w2 w3 :
  negotiator_frame w1 w2 -> negotiator_frame w2 w3 -> negotiator_frame w1 w3.
Proof.
  intros [A1 B1] [A2 B2]. split; intros p.
  - specialize (A1 p). specialize (A2 p).
    destruct A1 as [s1 s2 [H1 H1']|]; inversion A2 as [? s3 [H2 H2']|]; subst;
      constructor. split; congruence.
  - specialize (B1 p). specialize (B2 p).
    destruct B1 as [t1 t2 H1|]; inversion B2 as [? t3 H2|]; subst; constructor.
    congruence.
Qed.

Lemma negotiator_frame_store_ds w p s s' :
  w_switches w !! p = Some s ->
  ds_ports s' = ds_ports s -> ds_ops s' = ds_ops s ->
  negotiator_frame w (w_with_switches (<[p := s']> (w_switches w)) w).
Proof.
  intros Hp H1 H2. split; intros q; simpl.
  - destruct (decide (p = q)) as [->|Hne].
    + rewrite lookup_insert_eq, Hp. constructor. auto.
    + rewrite lookup_insert_ne by exact Hne.
      destruct (w_switches w !! q); constructor. auto.
  - destruct (w_trees w !! q); constructor. auto.
Qed.

Lemma negotiator_frame_store_dst w p t t' :
  w_trees w !! p = Some t ->
  dst_ds t' = dst_ds t ->
  negotiator_frame w (w_with_trees (<[p := t']> (w_trees w)) w).
Proof.
  intros Hp H1. split; intros q; simpl.
  - destruct (w_switches w !! q); constructor. auto.
  - destruct (decide (p = q)) as [->|Hne].
    + rewrite lookup_insert_eq, Hp. constructor. auto.
    + rewrite lookup_insert_ne by exact Hne.
      destruct (w_trees w !! q); constructor. auto.
Qed.

Lemma negotiator_frame_switch w w' p s :
  negotiator_frame w w' -> w_switches w !! p = Some s ->
  exists s', w_switches w' !! p = Some s' /\
             ds_ports s' = ds_ports s /\ ds_ops s' = ds_ops s.
Proof.
  intros [A _] Hp. specialize (A p). rewrite Hp in A.
  inversion A as [? s' Hs|]; subst. eauto.
Qed.

Lemma negotiator_frame_switch_inv w w' p s' :
  negotiator_frame w w' -> w_switches w' !! p = Some s' ->
  exists s, w_switches w !! p = Some s /\
            ds_ports s' = ds_ports s /\ ds_ops s' = ds_ops s.
Proof.
  intros [A _] Hp. specialize (A p). rewrite Hp in A.
  inversion A as [s ? Hs|]; subst. eauto.
Qed.

Lemma negotiator_frame_tree w w' p t :
  negotiator_frame w w' -> w_trees w !! p = Some t ->
  exists t', w_trees w' !! p = Some t' /\ dst_ds t' = dst_ds t.
Proof.
  intros [_ B] Hp. specialize (B p). rewrite Hp in B.
  inversion B as [? t' Ht|]; subst. eauto.
Qed.

Lemma negotiator_frame_tree_inv w w' p t' :
  negotiator_frame w w' -> w_trees w' !! p = Some t' ->
  exists t, w_trees w !! p = Some t /\ dst_ds t' = dst_ds t.
Proof.
  intros [_ B] Hp. specialize (B p). rewrite Hp in B.
  inversion B as [t ? Ht|]; subst. eauto.
Qed.

Lemma option_Forall2_insert {A} (R : A -> A -> Prop) (m m' : gmap ptr A)
  p x x' :
  m !! p = Some x -> R x x' ->
  (forall q, option_Forall2 R (m !! q) (m' !! q)) ->
  forall q, option_Forall2 R (m !! q) (<[p := x']> m' !! q).
Proof.
  intros Hp HR H q. destruct (decide (p = q)) as [->|Hne].
  - rewrite lookup_insert_eq, Hp. constructor. exact HR.
  - rewrite lookup_insert_ne by exact Hne. apply H.
Qed.

Lemma option_Forall2_same {A} (R : A -> A -> Prop) (m : gmap ptr A) :
  (forall x, R x x) -> forall q, option_Forall2 R (m !! q) (m !! q).
Proof. intros HR q. destruct (m !! q); constructor. apply HR. Qed.

(** Turn the tests of the goal's hypotheses into propositions. *)
Ltac bool_hyps :=
  repeat match goal with
         | H : bool_decide _ = true |- _ => apply bool_decide_eq_true in H
         | H : bool_decide _ = false |- _ => apply bool_decide_eq_false in H
         end.

(** A CPU port that parses elects itself if no CPU switch is elected yet,
    and records the handler set of its own driver. *)
Lemma dsa_cpu_parse_wp env port index dst ds w0 w s t :
  negotiator_frame w0 w ->
  w_switches w !! ds = Some s ->
  w_trees w !! dst = Some t ->
  wp (dsa_cpu_parse env port index dst ds)
     (fun r w' => r = 0 ->
        negotiator_frame w0 w' /\
        exists t', w_trees w' !! dst = Some t' /\
          election_of t' =
          elect env (election_of t)
            (ds, ops_get_tag_protocol (ds_ops s), index)) w.
Proof.
  intros Hf Hs Ht. unfold dsa_cpu_parse.
  wp_steps.
  all: try (intros Hr; exfalso; unfold EINVAL, EPROBE_DEFER in Hr; lia).
  all: simpl in *; simplify_map_eq.
  all: intros _; split;
    [ eapply negotiator_frame_trans; [exact Hf|];
      split; intros q; simpl; rewrite ?insert_insert_eq;
      first [ eapply option_Forall2_insert; [eassumption|simpl; auto|]
            | idtac ];
      apply option_Forall2_same; auto
    | eexists; split; [reflexivity|];
      bool_hyps; unfold election_of; simpl;
      destruct (dst_cpu_switch t) eqn:?; try congruence;
      simpl; congruence ].
Qed.

Lemma tree_cpu_ports_app env w l1 l2 :
  tree_cpu_ports env w (l1 ++ l2)%list =
  (tree_cpu_ports env w l1 ++ tree_cpu_ports env w l2)%list.
Proof. unfold tree_cpu_ports. rewrite map_app, concat_app. reflexivity. Qed.

(** The CPU ports of one switch are taken in port order. *)
Lemma dsa_ds_parse_wp env dst ds w0 w t :
  negotiator_frame w0 w ->
  w_trees w !! dst = Some t ->
  wp (dsa_ds_parse env dst ds)
     (fun r w' => r = 0 ->
        negotiator_frame w0 w' /\
        exists t', w_trees w' !! dst = Some t' /\
          election_of t' =
          foldl (elect env) (election_of t) (tree_cpu_ports env w0 [Some ds])) w.
Proof.
  intros Hf Ht. unfold dsa_ds_parse.
  apply wp_bind, wp_load_ds. intros s Hs.
  destruct (negotiator_frame_switch_inv _ _ _ _ Hf Hs) as (s0 & Hs0 & Hp0 & Ho0).
  set (mk := fun i : nat => (ds, ops_get_tag_protocol (ds_ops s0), i)).
  set (f := fun i : nat =>
              match ds_ports s0 !! i with
              | Some port => dsa_port_is_valid port && dsa_port_is_cpu env port
              | None => false
              end).
  assert (Hcpus : tree_cpu_ports env w0 [Some ds] =
                  map mk (List.filter f (seq 0 (ds_num_ports s0)))).
  { unfold tree_cpu_ports. simpl. rewrite Hs0, app_nil_r. reflexivity. }
  rewrite Hcpus.
  assert (Hn : ds_num_ports s = ds_num_ports s0).
  { unfold ds_num_ports. rewrite Hp0. reflexivity. }
  rewrite Hn.
  apply (wp_for_each_prefix
    (fun pre w' =>
       negotiator_frame w0 w' /\
       exists t', w_trees w' !! dst = Some t' /\
         election_of t' =
         foldl (elect env) (election_of t) (map mk (List.filter f pre)))).
  - split; [exact Hf|]. exists t. auto.
  - intros pre i post w1 Hsplit (Hf1 & t1 & Ht1 & He1).
    assert (Hstay : f i = false ->
              negotiator_frame w0 w1 /\
              exists t', w_trees w1 !! dst = Some t' /\
                election_of t' =
                foldl (elect env) (election_of t)
                  (map mk (List.filter f (pre ++ [i])%list))).
    { intros Hfi. split; [exact Hf1|]. exists t1. split; [exact Ht1|].
      rewrite List.filter_app. simpl. rewrite Hfi, app_nil_r. exact He1. }
    apply wp_bind, wp_load_ds. intros s1 Hs1.
    destruct (negotiator_frame_switch_inv _ _ _ _ Hf1 Hs1)
      as (s0' & Hs0' & Hp1 & Ho1).
    assert (s0' = s0) by congruence. subst s0'.
    apply wp_bind, wp_array_get. intros port Hport. rewrite Hp1 in Hport.
    assert (Hfi : f i = dsa_port_is_valid port && dsa_port_is_cpu env port).
    { unfold f. rewrite Hport. reflexivity. }
    destruct (dsa_port_is_valid port) eqn:Hvalid; simpl.
    2:{ apply wp_ret. apply Hstay. rewrite Hfi. reflexivity. }
    destruct (dsa_port_is_cpu env port) eqn:Hcpu.
    2:{ apply wp_ret. apply Hstay. rewrite Hfi. reflexivity. }
    apply wp_bind.
    eapply wp_mono; [apply (dsa_cpu_parse_wp env port i dst ds w0 w1 s1 t1);
                     assumption|].
    intros r w2 Hpost. simpl.
    destruct (decide (r <> 0)) as [Hr|Hr]; apply wp_ret.
    + intros Hr0. exfalso. congruence.
    + apply dec_stable in Hr.
      destruct (Hpost Hr) as (Hf2 & t2 & Ht2 & He2).
      split; [exact Hf2|]. exists t2. split; [exact Ht2|].
      rewrite List.filter_app. simpl. rewrite Hfi. simpl.
      rewrite map_app, foldl_app. simpl. rewrite <- He1, He2.
      unfold mk. rewrite Ho1. reflexivity.
  - intros w1 (Hf1 & t1 & Ht1 & He1). apply wp_ret. intros _.
    split; [exact Hf1|]. exists t1. auto.
Qed.

(** The CPU ports of a tree are taken in slot order. *)
Lemma dsa_dst_parse_wp env dst w t :
  w_trees w !! dst = Some t ->
  wp (dsa_dst_parse env dst)
     (fun r w' => r = 0 ->
        negotiator_frame w w' /\
        exists t', w_trees w' !! dst = Some t' /\
          election_of t' =
          foldl (elect env) (election_of t)
            (tree_cpu_ports env w (take DSA_MAX_SWITCHES (dst_ds t)))) w.
Proof.
  intros Ht. unfold dsa_dst_parse.
  apply (wp_for_each_prefix
    (fun pre w' =>
       negotiator_frame w w' /\
       exists t', w_trees w' !! dst = Some t' /\
         election_of t' =
         foldl (elect env) (election_of t)
           (tree_cpu_ports env w (take (length pre) (dst_ds t))))).
  - split; [apply negotiator_frame_refl|]. exists t. auto.
  - intros pre i post w1 Hsplit (Hf1 & t1 & Ht1 & He1).
    destruct (seq_split _ _ _ _ Hsplit) as [Hi Hlt].
    apply wp_bind, wp_load_dst. intros t1' Ht1'.
    assert (t1' = t1) by congruence. subst t1'.
    destruct (negotiator_frame_tree_inv _ _ _ _ Hf1 Ht1) as (t0 & Ht0 & Hds).
    assert (t0 = t) by congruence. subst t0.
    apply wp_bind, wp_array_get. intros slot Hslot. rewrite Hds in Hslot.
    assert (Htake : take (length (pre ++ [i])%list) (dst_ds t) =
                    (take (length pre) (dst_ds t) ++ [slot])%list).
    { rewrite length_app. simpl. rewrite Nat.add_1_r, <- Hi.
      apply take_S_r. exact Hslot. }
    destruct slot as [ds|].
    + apply wp_bind.
      eapply wp_mono; [apply (dsa_ds_parse_wp env dst ds w w1 t1); assumption|].
      intros r w2 Hpost. simpl.
      destruct (decide (r <> 0)) as [Hr|Hr]; apply wp_ret.
      * intros Hr0. exfalso. congruence.
      * apply dec_stable in Hr.
        destruct (Hpost Hr) as (Hf2 & t2 & Ht2 & He2).
        split; [exact Hf2|]. exists t2. split; [exact Ht2|].
        rewrite Htake, tree_cpu_ports_app, foldl_app, <- He1. exact He2.
    + apply wp_ret. split; [exact Hf1|]. exists t1. split; [exact Ht1|].
      rewrite Htake, tree_cpu_ports_app, foldl_app, <- He1. reflexivity.
  - intros w1 (Hf1 & t1 & Ht1 & He1).
    apply wp_bind, wp_load_dst. intros t1' Ht1'.
    assert (t1' = t1) by congruence. subst t1'.
    rewrite length_seq in He1.
    destruct (dst_master_netdev t1); apply wp_ret; intros Hr.
    + split; [exact Hf1|]. exists t1. auto.
    + exfalso. unfold EINVAL in Hr. lia.
Qed.

Lemma foldl_elect_elected env cpus : forall sw port tag,
  exists tag',
    foldl (elect env) (Some sw, port, tag) cpus = (Some sw, port, tag').
Proof.
  induction cpus as [|[[ds proto] i] cpus IH]; intros sw port tag; simpl.
  - eauto.
  - apply IH.
Qed.

Lemma foldl_elect_first env ds proto i cpus port tag :
  exists tag',
    foldl (elect env) (None, port, tag) ((ds, proto, i) :: cpus) =
    (Some ds, i, tag').
Proof. simpl. apply foldl_elect_elected. Qed.

Lemma foldl_elect_last env cpus e ds proto i :
  last cpus = Some (ds, proto, i) ->
  (foldl (elect env) e cpus).2 = dsa_resolve_tag_protocol env proto.
Proof.
  destruct cpus as [|c cpus _] using rev_ind; [discriminate|].
  rewrite last_snoc. intros [= ->]. rewrite foldl_app. simpl.
  destruct (foldl (elect env) e cpus) as [[sw port] tag]. reflexivity.
Qed.

(** C7 (as amended): in a negotiation that succeeds, the CPU ports of the
    tree are taken in slot order and, within a switch, in port order. If
    no CPU switch was elected before, the first of them becomes the CPU
    switch and CPU port of the tree. The handler set recorded on the tree
    is the one requested from the driver of the switch that owns the last
    of them, which is the elected switch only if no later CPU port
    belongs to another switch. *)
Theorem dsa_dst_parse_election env dst w w' t :
  dsa_dst_parse env dst w = Some (0, w') ->
  w_trees w !! dst = Some t ->
  let cpus := tree_cpu_ports env w (take DSA_MAX_SWITCHES (dst_ds t)) in
  exists t',
    w_trees w' !! dst = Some t' /\
    (dst_cpu_switch t = None ->
     forall ds proto i rest, cpus = (ds, proto, i) :: rest ->
       dst_cpu_switch t' = Some ds /\ dst_cpu_port t' = i) /\
    (forall ds proto i, last cpus = Some (ds, proto, i) ->
       dst_tag_ops t' = dsa_resolve_tag_protocol env proto).
Proof.
  intros Hrun Ht cpus.
  destruct (wp_elim _ _ _ _ _ (dsa_dst_parse_wp env dst w t Ht) Hrun eq_refl)
    as (_ & t' & Ht' & He).
  exists t'. split; [exact Ht'|]. fold cpus in He. split.
  - intros Hnone ds proto i rest Hcpus. rewrite Hcpus in He.
    unfold election_of in He at 2. rewrite Hnone in He.
    destruct (foldl_elect_first env ds proto i rest (dst_cpu_port t)
                (dst_tag_ops t)) as (tag' & Hfold).
    rewrite Hfold in He. injection He as -> -> _. auto.
  - intros ds proto i Hlast.
    rewrite <- (foldl_elect_last env cpus (election_of t) ds proto i Hlast).
    rewrite <- He. reflexivity.
Qed.

Lemma dsa_dst_parse_election_witness :
  exists t',
    w_trees (world_after (dsa_dst_parse dual_cpu_env 50%nat)
               dual_cpu_world_resolved) !! 50%nat = Some t' /\
    dst_cpu_switch t' = Some 10%nat /\
    dst_cpu_port t' = 0%nat /\
    dst_tag_ops t' = dsa_resolve_tag_protocol dual_cpu_env 2.
Proof.
  destruct (dsa_dst_parse_election dual_cpu_env 50%nat dual_cpu_world_resolved
              (world_after (dsa_dst_parse dual_cpu_env 50%nat)
                 dual_cpu_world_resolved)
              (dst_with_ds [Some 10%nat; Some 11%nat; None; None]
                 (member_tree 0 3 [None; None; None; None]))
              ltac:(vm_compute; reflexivity) ltac:(vm_compute; reflexivity))
    as (t' & Ht' & Hfirst & Hlast).
  exists t'. split; [exact Ht'|].
  destruct (Hfirst eq_refl 10%nat 1 0%nat [(11%nat, 2, 0%nat)]
              ltac:(vm_compute; reflexivity)) as [Hsw Hport].
  split; [exact Hsw|]. split; [exact Hport|].
  apply (Hlast 11%nat 2 0%nat). vm_compute. reflexivity.
Defined.

(** C7, the claim as stated fails on a tree with a CPU port on each of
    two switches whose drivers report different tag protocols: the switch
    in slot 0 (at 10) is elected with its port 0, but the handler set
    recorded on the tree is the one of the driver of the switch in slot 1
    (at 11), not the one requested from the driver of the elected
    switch. *)
Lemma tag_ops_not_of_elected_switch :
  exists t s,
    w_trees dual_cpu_world !! 50%nat = Some t /\
    w_switches dual_cpu_world !! 10%nat = Some s /\
    dst_applied t = true /\
    dst_cpu_switch t = Some 10%nat /\
    dst_cpu_port t = 0%nat /\
    dst_tag_ops t = TagOps 2%nat /\
    dsa_resolve_tag_protocol dual_cpu_env (ops_get_tag_protocol (ds_ops s)) =
      TagOps 1%nat.
Proof.
  do 2 eexists.
  split; [vm_compute; reflexivity|].
  split; [vm_compute; reflexivity|].
  split; [vm_compute; reflexivity|].
  split; [vm_compute; reflexivity|].
  split; [vm_compute; reflexivity|].
  split; vm_compute; reflexivity.
Qed.

(** ** Activator: what an apply leaves as it is *)

Lemma classify_descriptor env port port' :
  descriptor port' = descriptor port -> classify env port' = classify env port.
Proof.
  unfold descriptor. intros [= Hdn Hname].
  unfold classify, dsa_port_is_valid, dsa_port_is_dsa, dsa_port_is_cpu.
  rewrite Hdn, Hname. reflexivity.
Qed.

Lemma descriptors_lookup (l l' : list dsa_port) i port :
  map descriptor l' = map descriptor l -> l !! i = Some port ->
  exists port', l' !! i = Some port' /\ descriptor port' = descriptor port.
Proof.
  intros Hmap Hi.
  assert (H : map descriptor l' !! i = Some (descriptor port)).
  { rewrite Hmap, list_lookup_fmap, Hi. reflexivity. }
  rewrite list_lookup_fmap in H.
  destruct (l' !! i) as [port'|]; simpl in H; [|discriminate].
  exists port'. split; [reflexivity|]. unfold descriptor in *. congruence.
Qed.

Lemma is_cpu_port_descriptors env s s' i :
  map descriptor (ds_ports s') = map descriptor (ds_ports s) ->
  is_cpu_port env s' i = is_cpu_port env s i.
Proof.
  intros Hmap. unfold is_cpu_port.
  destruct (ds_ports s !! i) as [port|] eqn:Hi.
  - destruct (descriptors_lookup _ _ _ _ Hmap Hi) as (port' & -> & Hd).
    rewrite (classify_descriptor env _ _ Hd). reflexivity.
  - destruct (ds_ports s' !! i) as [port'|] eqn:Hi'; [|reflexivity].
    destruct (descriptors_lookup _ _ _ _ (eq_sym Hmap) Hi') as (port & Hp & _).
    congruence.
Qed.

Lemma apply_frame_ds_refl env s : apply_frame_ds env s s.
Proof. repeat split. Qed.

Lemma apply_frame_ds_trans env s1 s2 s3 :
  apply_frame_ds env s1 s2 -> apply_frame_ds env s2 s3 ->
  apply_frame_ds env s1 s3.
Proof.
  intros (A1 & B1 & C1 & D1) (A2 & B2 & C2 & D2).
  split; [congruence|]. split; [congruence|]. split; [congruence|].
  intros i Hi. rewrite D2, D1; [reflexivity|exact Hi|].
  rewrite (is_cpu_port_descriptors env s1 s2 i C1). exact Hi.
Qed.

Lemma apply_frame_refl env w : apply_frame env w w.
Proof.
  split; apply option_Forall2_same; [apply apply_frame_ds_refl|auto].
Qed.

Lemma apply_frame_trans env w1 w2 w3 :
  apply_frame env w1 w2 -> apply_frame env w2 w3 -> apply_frame env w1 w3.
Proof.
  intros [A1 B1] [A2 B2]. split; intros p.
  - specialize (A1 p). specialize (A2 p).
    destruct A1 as [s1 s2 H1|]; inversion A2 as [? s3 H2|]; subst; constructor.
    eapply apply_frame_ds_trans; eassumption.
  - specialize (B1 p). specialize (B2 p).
    destruct B1 as [t1 t2 H1|]; inversion B2 as [? t3 H2|]; subst; constructor.
    congruence.
Qed.

(** A store to a switch that stays in the frame of that switch. *)
Lemma apply_frame_put_ds env w0 w ds s s' :
  apply_frame env w0 w ->
  w_switches w !! ds = Some s ->
  apply_frame_ds env s s' ->
  apply_frame env w0 (w_with_switches (<[ds := s']> (w_switches w)) w).
Proof.
  intros Hf Hs Hss. eapply apply_frame_trans; [exact Hf|].
  split; simpl.
  - eapply option_Forall2_insert; [exact Hs|exact Hss|].
    apply option_Forall2_same. apply apply_frame_ds_refl.
  - apply option_Forall2_same. auto.
Qed.

(** A store to a tree that keeps its slots. *)
Lemma apply_frame_put_dst env w0 w dst t t' :
  apply_frame env w0 w ->
  w_trees w !! dst = Some t ->
  dst_ds t' = dst_ds t ->
  apply_frame env w0 (w_with_trees (<[dst := t']> (w_trees w)) w).
Proof.
  intros Hf Ht Htt. eapply apply_frame_trans; [exact Hf|].
  split; simpl.
  - apply option_Forall2_same. apply apply_frame_ds_refl.
  - eapply option_Forall2_insert; [exact Ht|exact Htt|].
    apply option_Forall2_same. auto.
Qed.

Lemma BIT_testbit i j :
  Z.testbit (BIT i) (Z.of_nat j) = bool_decide (i = j).
Proof.
  unfold BIT. rewrite Z.shiftl_1_l.
  destruct (decide (i = j)) as [->|Hne].
  - rewrite Z.pow2_bits_true by lia. symmetry. apply bool_decide_eq_true. auto.
  - rewrite Z.pow2_bits_false by lia. symmetry. apply bool_decide_eq_false. auto.
Qed.

Lemma set_bit_testbit m i j :
  Z.testbit (Z.lor m (BIT i)) (Z.of_nat j) =
  Z.testbit m (Z.of_nat j) || bool_decide (i = j).
Proof. rewrite Z.lor_spec, BIT_testbit. reflexivity. Qed.

Lemma clear_bit_testbit m i j :
  Z.testbit (Z.land m (Z.lnot (BIT i))) (Z.of_nat j) =
  Z.testbit m (Z.of_nat j) && negb (bool_decide (i = j)).
Proof.
  rewrite Z.land_spec, Z.lnot_spec by lia. rewrite BIT_testbit. reflexivity.
Qed.

(** The same on a port mask: the store keeps the bits below 32, where a
    mask has all its bits. *)
Lemma set_mask_bit_testbit (m : u32) i j :
  Z.testbit (to_u32 (Z.lor m (BIT i))) (Z.of_nat j) =
  Z.testbit m (Z.of_nat j) ||
  (bool_decide (i = j) && bool_decide (j < 32)%nat).
Proof.
  rewrite to_u32_testbit by lia. rewrite set_bit_testbit.
  destruct (decide (j < 32)%nat) as [Hlt|Hge].
  - rewrite (bool_decide_eq_true_2 (Z.of_nat j < 32)) by lia.
    rewrite (bool_decide_eq_true_2 (j < 32)%nat) by exact Hlt.
    rewrite !andb_true_r. reflexivity.
  - rewrite (bool_decide_eq_false_2 (Z.of_nat j < 32)) by lia.
    rewrite (bool_decide_eq_false_2 (j < 32)%nat) by exact Hge.
    rewrite !andb_false_r, orb_false_r. symmetry.
    apply u32_testbit_high. lia.
Qed.

Lemma clear_mask_bit_testbit (m : u32) i j :
  Z.testbit (to_u32 (Z.land m (Z.lnot (BIT i)))) (Z.of_nat j) =
  Z.testbit m (Z.of_nat j) && negb (bool_decide (i = j)).
Proof.
  rewrite to_u32_testbit by lia. rewrite clear_bit_testbit.
  destruct (decide (Z.of_nat j < 32)) as [Hlt|Hge].
  - rewrite (bool_decide_eq_true_2 (Z.of_nat j < 32)) by exact Hlt.
    apply andb_true_r.
  - rewrite (bool_decide_eq_false_2 (Z.of_nat j < 32)) by exact Hge.
    rewrite (u32_testbit_high m) by lia. reflexivity.
Qed.

Lemma set_port_netdev_frame env ds index nd w0 w :
  apply_frame env w0 w ->
  wp (set_port_netdev ds index nd) (fun _ w' => apply_frame env w0 w') w.
Proof.
  intros Hf. unfold set_port_netdev.
  apply wp_bind, wp_load_ds. intros s Hs.
  apply wp_bind, wp_array_get. intros p Hp.
  apply wp_bind, wp_array_set. intros Hlt.
  apply wp_store_ds. intros _ _.
  eapply apply_frame_put_ds; [exact Hf|exact Hs|].
  split; [reflexivity|]. split; [reflexivity|]. split; [|reflexivity].
  simpl. change (map descriptor) with (fmap (M := list) descriptor).
  rewrite list_fmap_insert. apply list_insert_id.
  rewrite list_lookup_fmap, Hp. reflexivity.
Qed.

Lemma dsa_user_port_apply_frame env port index ds w0 w :
  apply_frame env w0 w ->
  wp (dsa_user_port_apply env port index ds)
     (fun _ w' => apply_frame env w0 w') w.
Proof.
  intros Hf. unfold dsa_user_port_apply.
  destruct (dsa_slave_create env ds index (dsa_user_port_name env port))
    as [err|slave_dev].
  - destruct (decide (err <> 0)).
    + apply wp_bind. eapply wp_mono; [apply set_port_netdev_frame; exact Hf|].
      intros u w1 H1. apply wp_ret. exact H1.
    + apply wp_ret. exact Hf.
  - apply wp_bind. eapply wp_mono; [apply set_port_netdev_frame; exact Hf|].
    intros u w1 H1. apply wp_ret. exact H1.
Qed.

Lemma dsa_cpu_port_apply_frame env port index ds w0 w :
  apply_frame env w0 w ->
  (forall s, w_switches w !! ds = Some s -> is_cpu_port env s index = true) ->
  wp (dsa_cpu_port_apply env port index ds)
     (fun _ w' => apply_frame env w0 w') w.
Proof.
  intros Hf Hcpu. unfold dsa_cpu_port_apply.
  destruct (decide (dsa_cpu_dsa_setup env ds index <> 0)).
  - apply wp_ret. exact Hf.
  - apply wp_bind, wp_load_ds. intros s Hs.
    apply wp_bind, wp_store_ds. intros _ _. apply wp_ret.
    eapply apply_frame_put_ds; [exact Hf|exact Hs|].
    split; [reflexivity|]. split; [reflexivity|]. split; [reflexivity|].
    intros j Hj. simpl. rewrite set_mask_bit_testbit.
    destruct (decide (index = j)) as [->|Hne].
    + rewrite (Hcpu s Hs) in Hj. discriminate.
    + rewrite (bool_decide_eq_false_2 (index = j)) by exact Hne.
      apply orb_false_r.
Qed.

Lemma dsa_ds_apply_ports_frame env ds w0 w :
  apply_frame env w0 w ->
  wp (dsa_ds_apply_ports env ds) (fun _ w' => apply_frame env w0 w') w.
Proof.
  intros Hf. unfold dsa_ds_apply_ports.
  apply wp_bind, wp_load_ds. intros s0 Hs0.
  apply (wp_for_each (fun w' => apply_frame env w0 w')); [exact Hf| |].
  - intros i w1 _ H1.
    apply wp_bind, wp_load_ds. intros s Hs.
    apply wp_bind, wp_array_get. intros port Hport.
    pose proof (classify_cases env port) as Hclass.
    destruct (classify env port) eqn:Hc.
    + rewrite Hclass. simpl. apply wp_ret. exact H1.
    + destruct Hclass as [-> ->]. simpl. apply wp_bind.
      apply wp_intro. intros err w2 Hrun.
      rewrite dsa_dsa_port_apply_run in Hrun. injection Hrun as <- <-.
      destruct (decide _); apply wp_ret; exact H1.
    + destruct Hclass as (-> & -> & ->). simpl. apply wp_bind.
      eapply wp_mono.
      * apply dsa_cpu_port_apply_frame; [exact H1|].
        intros s' Hs'. unfold is_cpu_port.
        assert (s' = s) by congruence. subst s'. rewrite Hport, Hc.
        apply bool_decide_eq_true. reflexivity.
      * intros err w2 H2. simpl. destruct (decide _); apply wp_ret; exact H2.
    + destruct Hclass as (-> & -> & ->). simpl. apply wp_bind.
      eapply wp_mono; [apply dsa_user_port_apply_frame; exact H1|].
      intros err w2 H2. apply wp_ret. exact H2.
  - intros w1 H1. apply wp_ret. exact H1.
Qed.

Lemma dsa_ds_apply_mii_bus_frame env ds w0 w :
  apply_frame env w0 w ->
  wp (dsa_ds_apply_mii_bus env ds) (fun _ w' => apply_frame env w0 w') w.
Proof.
  intros Hf. unfold dsa_ds_apply_mii_bus.
  apply wp_bind, wp_load_ds. intros s Hs.
  destruct (_ && _).
  - apply wp_bind, wp_store_ds. intros _ _.
    assert (Hf' : apply_frame env w0
              (w_with_switches
                 (<[ds := ds_with_slave_mii_bus (devm_mdiobus_alloc env (ds_dev s)) s]>
                    (w_switches w)) w)).
    { eapply apply_frame_put_ds; [exact Hf|exact Hs|]. repeat split. }
    destruct (devm_mdiobus_alloc env (ds_dev s)); [|apply wp_ret; exact Hf'].
    destruct (decide _); apply wp_ret; exact Hf'.
  - apply wp_ret. exact Hf.
Qed.

Lemma dsa_ds_apply_setup_frame env dst ds w0 w :
  apply_frame env w0 w ->
  wp (dsa_ds_apply_setup env dst ds) (fun _ w' => apply_frame env w0 w') w.
Proof.
  intros Hf. unfold dsa_ds_apply_setup.
  apply wp_bind, wp_load_ds. intros s Hs.
  apply wp_bind, wp_store_ds. intros _ _.
  assert (Hf' : apply_frame env w0
            (w_with_switches
               (<[ds := ds_with_phys_mii_mask (ds_enabled_port_mask s) s]>
                  (w_switches w)) w)).
  { eapply apply_frame_put_ds; [exact Hf|exact Hs|]. repeat split. }
  destruct (decide _); [apply wp_ret; exact Hf'|].
  destruct (decide _); [apply wp_ret; exact Hf'|].
  apply wp_bind.
  apply (wp_mono _ (fun _ w' => apply_frame env w0 w')).
  - destruct (ops_set_addr (ds_ops s)); [|apply wp_ret; exact Hf'].
    apply wp_bind, wp_load_dst. intros t Ht.
    destruct (dst_master_netdev t); [apply wp_ret; exact Hf'|apply wp_fault].
  - intros err w1 H1. simpl.
    destruct (decide _); [apply wp_ret; exact H1|].
    apply dsa_ds_apply_mii_bus_frame. exact H1.
Qed.

Lemma dsa_ds_apply_frame env dst ds w0 w :
  apply_frame env w0 w ->
  wp (dsa_ds_apply env dst ds) (fun _ w' => apply_frame env w0 w') w.
Proof.
  intros Hf. unfold dsa_ds_apply. apply wp_bind.
  eapply wp_mono; [apply dsa_ds_apply_setup_frame; exact Hf|].
  intros err w1 H1. simpl.
  destruct (decide _); [apply wp_ret; exact H1|].
  apply dsa_ds_apply_ports_frame. exact H1.
Qed.

Lemma set_dsa_ptr_frame env dst v w0 w :
  apply_frame env w0 w ->
  wp (set_dsa_ptr dst v) (fun _ w' => apply_frame env w0 w') w.
Proof.
  intros Hf. unfold set_dsa_ptr.
  apply wp_bind, wp_load_dst. intros t Ht.
  destruct (dst_master_netdev t); [|apply wp_fault].
  unfold wp. exact Hf.
Qed.

(** An apply, whatever it returns, changes no routing table, no enabled
    mask, no port descriptor and no slot, and changes a CPU mask at the
    bits of Cpu ports only. *)
Lemma dsa_dst_apply_frame env dst w :
  wp (dsa_dst_apply env dst) (fun _ w' => apply_frame env w w') w.
Proof.
  unfold dsa_dst_apply.
  apply (wp_for_each (fun w' => apply_frame env w w'));
    [apply apply_frame_refl| |].
  - intros i w1 _ H1.
    apply wp_bind, wp_load_dst. intros t Ht.
    apply wp_bind, wp_array_get. intros slot Hslot.
    destruct slot as [ds|]; [|apply wp_ret; exact H1].
    apply wp_bind.
    eapply wp_mono; [apply dsa_ds_apply_frame; exact H1|].
    intros err w2 H2. simpl. destruct (decide _); apply wp_ret; exact H2.
  - intros w1 H1.
    apply wp_bind, wp_load_dst. intros t Ht.
    destruct (decide _); [apply wp_ret; exact H1|].
    apply wp_bind.
    eapply wp_mono; [apply set_dsa_ptr_frame; exact H1|].
    intros u w2 H2. simpl.
    apply wp_bind, wp_load_dst. intros t2 Ht2.
    apply wp_bind, wp_store_dst. intros _ _. apply wp_ret.
    eapply apply_frame_put_dst; [exact H2|exact Ht2|reflexivity].
Qed.

(** ** Activator: what an unapply does to a switch *)

Lemma put_ds_id ds s w : w_switches w !! ds = Some s -> put_ds ds s w = w.
Proof.
  intros H. unfold put_ds, w_with_switches. rewrite (insert_id _ _ _ H).
  destruct w; reflexivity.
Qed.

Lemma put_ds_put_ds ds s1 s2 w :
  put_ds ds s2 (put_ds ds s1 w) = put_ds ds s2 w.
Proof. unfold put_ds, w_with_switches. simpl. rewrite insert_insert_eq. reflexivity. Qed.

Lemma put_ds_lookup ds s w : w_switches (put_ds ds s w) !! ds = Some s.
Proof. apply lookup_insert_eq. Qed.

Lemma unapply_port_length env s i :
  length (ds_ports (unapply_port env s i)) = length (ds_ports s).
Proof.
  unfold unapply_port. destruct (ds_ports s !! i) as [port|]; [|reflexivity].
  destruct (classify env port); try reflexivity.
  destruct (port_netdev port); [|reflexivity]. simpl. apply length_insert.
Qed.

(** One round of the port loop of [dsa_ds_unapply]. *)
Lemma dsa_ds_unapply_round env ds i s w :
  w_switches w !! ds = Some s ->
  (i < length (ds_ports s))%nat ->
  (s <- load_ds ds ;;
   port <- array_get (ds_ports s) i ;;
   if negb (dsa_port_is_valid port) then ret None
   else if dsa_port_is_dsa env port then
     dsa_dsa_port_unapply port i ds ;;; ret None
   else if dsa_port_is_cpu env port then
     dsa_cpu_port_unapply port i ds ;;; ret None
   else
     dsa_user_port_unapply port i ds ;;; ret (@None unit)) w =
  Some (None, put_ds ds (unapply_port env s i) w).
Proof.
  intros Hs Hi.
  destruct (lookup_lt_is_Some_2 (ds_ports s) i Hi) as [port Hport].
  mrun. unfold unapply_port. rewrite Hport.
  pose proof (classify_cases env port) as Hclass.
  destruct (classify env port).
  - rewrite Hclass. simpl. rewrite (put_ds_id _ _ _ Hs). reflexivity.
  - destruct Hclass as [-> ->]. simpl. rewrite (put_ds_id _ _ _ Hs).
    reflexivity.
  - destruct Hclass as (-> & -> & ->). simpl.
    unfold dsa_cpu_port_unapply. mrun. reflexivity.
  - destruct Hclass as (-> & -> & ->). simpl.
    unfold dsa_user_port_unapply. mrun.
    destruct (port_netdev port).
    + rewrite bind_assoc.
      rewrite (bind_Some _ _ _ _ _
                 (set_port_netdev_Some ds i None s port w Hs Hport)).
      unfold bind, load_ds, store_ds, ret. simpl.
      rewrite lookup_insert_eq. simpl. rewrite lookup_insert_eq.
      unfold put_ds, w_with_switches. simpl.
      rewrite insert_insert_eq. reflexivity.
    + rewrite (put_ds_id _ _ _ Hs). reflexivity.
Qed.

Lemma dsa_ds_unapply_loop env ds l : forall s w,
  w_switches w !! ds = Some s ->
  Forall (fun i => (i < length (ds_ports s))%nat) l ->
  for_each l
    (fun index =>
       s <- load_ds ds ;;
       port <- array_get (ds_ports s) index ;;
       if negb (dsa_port_is_valid port) then ret None
       else if dsa_port_is_dsa env port then
         dsa_dsa_port_unapply port index ds ;;; ret None
       else if dsa_port_is_cpu env port then
         dsa_cpu_port_unapply port index ds ;;; ret None
       else
         dsa_user_port_unapply port index ds ;;; ret None)
    (ret tt) w =
  Some (tt, put_ds ds (foldl (unapply_port env) s l) w).
Proof.
  induction l as [|i l IH]; intros s w Hs Hall.
  - simpl. rewrite (put_ds_id _ _ _ Hs). reflexivity.
  - inversion Hall as [|? ? Hi Hrest]; subst. simpl for_each.
    rewrite (bind_Some _ _ _ _ _ (dsa_ds_unapply_round env ds i s w Hs Hi)).
    rewrite (IH (unapply_port env s i) _ (put_ds_lookup _ _ _)).
    + rewrite put_ds_put_ds. reflexivity.
    + eapply Forall_impl; [exact Hrest|]. intros j Hj. simpl in Hj.
      rewrite unapply_port_length. exact Hj.
Qed.

(** [dsa_ds_unapply] returns on every switch of the store and changes
    that switch only. *)
Lemma dsa_ds_unapply_run env dst ds s w :
  w_switches w !! ds = Some s ->
  dsa_ds_unapply env dst ds w = Some (tt, put_ds ds (unapplied env s) w).
Proof.
  intros Hs. unfold dsa_ds_unapply. mrun.
  apply dsa_ds_unapply_loop; [exact Hs|].
  apply Forall_forall. intros i Hi. apply elem_of_seq in Hi.
  unfold ds_num_ports in Hi. lia.
Qed.

Lemma bool_decide_lt_S i k :
  bool_decide (i < S k)%nat = bool_decide (i < k)%nat || bool_decide (k = i).
Proof.
  destruct (decide (i < k)%nat), (decide (k = i)).
  - rewrite !bool_decide_eq_true_2 by lia. reflexivity.
  - rewrite (bool_decide_eq_true_2 (i < S k)%nat) by lia.
    rewrite (bool_decide_eq_true_2 (i < k)%nat) by lia. reflexivity.
  - rewrite (bool_decide_eq_true_2 (i < S k)%nat) by lia.
    rewrite (bool_decide_eq_false_2 (i < k)%nat) by lia.
    rewrite (bool_decide_eq_true_2 (k = i)) by lia. reflexivity.
  - rewrite !bool_decide_eq_false_2 by lia. reflexivity.
Qed.

(** The switch after the first [k] rounds of the port loop of
    [dsa_ds_unapply]. *)
Lemma unapplied_upto env s k :
  (k <= ds_num_ports s)%nat ->
  let s' := foldl (unapply_port env) s (seq 0 k) in
  ds_rtable s' = ds_rtable s /\
  (forall j, (k <= j)%nat -> ds_ports s' !! j = ds_ports s !! j) /\
  (forall i, Z.testbit (ds_cpu_port_mask s') (Z.of_nat i) =
             Z.testbit (ds_cpu_port_mask s) (Z.of_nat i) &&
             negb (bool_decide (i < k)%nat && is_cpu_port env s i)) /\
  (forall i, Z.testbit (ds_enabled_port_mask s') (Z.of_nat i) =
             Z.testbit (ds_enabled_port_mask s) (Z.of_nat i) &&
             negb (bool_decide (i < k)%nat && holds_interface env s i)).
Proof.
  induction k as [|k IH]; intros Hk.
  - split; [reflexivity|]. split; [reflexivity|].
    split; intros i; rewrite (bool_decide_eq_false_2 (i < 0)%nat) by lia;
      simpl; rewrite andb_true_r; reflexivity.
  - rewrite seq_S, foldl_app. simpl.
    destruct IH as (Hrt & Hports & Hcpu & Hen); [lia|].
    set (s' := foldl (unapply_port env) s (seq 0 k)) in *.
    destruct (lookup_lt_is_Some_2 (ds_ports s) k) as [port Hport];
      [unfold ds_num_ports in Hk; lia|].
    assert (Hport' : ds_ports s' !! k = Some port).
    { rewrite Hports by lia. exact Hport. }
    assert (Hiscpu : is_cpu_port env s k = bool_decide (classify env port = Cpu)).
    { unfold is_cpu_port. rewrite Hport. reflexivity. }
    assert (Hholds : holds_interface env s k =
                     bool_decide (classify env port = User) &&
                     bool_decide (is_Some (port_netdev port))).
    { unfold holds_interface. rewrite Hport. reflexivity. }
    (* what is to show when round [k] leaves a mask alone *)
    assert (Hsame : forall (m m0 : Z) (flag : nat -> bool),
              flag k = false ->
              (forall i, Z.testbit m (Z.of_nat i) =
                         Z.testbit m0 (Z.of_nat i) &&
                         negb (bool_decide (i < k)%nat && flag i)) ->
              forall i, Z.testbit m (Z.of_nat i) =
                        Z.testbit m0 (Z.of_nat i) &&
                        negb (bool_decide (i < S k)%nat && flag i)).
    { intros m m0 flag Hflag H i. rewrite H, bool_decide_lt_S.
      destruct (decide (k = i)) as [<-|Hne].
      - rewrite Hflag, !andb_false_r. reflexivity.
      - rewrite (bool_decide_eq_false_2 (k = i)) by exact Hne.
        rewrite orb_false_r. reflexivity. }
    (* and when it clears bit [k] *)
    assert (Hclear : forall (m m0 : u32) (flag : nat -> bool),
              flag k = true ->
              (forall i, Z.testbit m (Z.of_nat i) =
                         Z.testbit m0 (Z.of_nat i) &&
                         negb (bool_decide (i < k)%nat && flag i)) ->
              forall i,
                Z.testbit (to_u32 (Z.land m (Z.lnot (BIT k)))) (Z.of_nat i) =
                Z.testbit m0 (Z.of_nat i) &&
                negb (bool_decide (i < S k)%nat && flag i)).
    { intros m m0 flag Hflag H i.
      rewrite clear_mask_bit_testbit, H, bool_decide_lt_S.
      destruct (decide (k = i)) as [<-|Hne].
      - rewrite (bool_decide_eq_true_2 (k = k)) by reflexivity.
        rewrite Hflag, orb_true_r. simpl. rewrite !andb_false_r. reflexivity.
      - rewrite (bool_decide_eq_false_2 (k = i)) by exact Hne.
        rewrite orb_false_r. simpl. rewrite andb_true_r. reflexivity. }
    unfold unapply_port. rewrite Hport'.
    destruct (classify env port) eqn:Hc.
    + split; [exact Hrt|]. split; [intros j Hj; apply Hports; lia|].
      split; apply Hsame; auto.
    + split; [exact Hrt|]. split; [intros j Hj; apply Hports; lia|].
      split; apply Hsame; auto.
    + simpl. split; [exact Hrt|]. split; [intros j Hj; apply Hports; lia|].
      split.
      * apply Hclear; [|exact Hcpu]. rewrite Hiscpu.
        apply bool_decide_eq_true_2. reflexivity.
      * apply Hsame; auto.
    + destruct (port_netdev port) as [nd|] eqn:Hnd; simpl.
      * split; [exact Hrt|]. split.
        -- intros j Hj. rewrite list_lookup_insert_ne by lia. apply Hports. lia.
        -- split.
           ++ apply Hsame; auto.
           ++ apply Hclear; [|exact Hen]. rewrite Hholds.
              rewrite (bool_decide_eq_true_2 (User = User)) by reflexivity.
              apply bool_decide_eq_true_2. eauto.
      * split; [exact Hrt|]. split; [intros j Hj; apply Hports; lia|].
        split; apply Hsame; auto.
Qed.

(** An unapplied switch: its routing table is as before, its CPU mask
    has lost the bits of its Cpu ports, and its enabled mask has lost the
    bits of the user ports that held an interface. *)
Lemma unapplied_spec env s :
  ds_rtable (unapplied env s) = ds_rtable s /\
  (forall i, Z.testbit (ds_cpu_port_mask (unapplied env s)) (Z.of_nat i) =
             Z.testbit (ds_cpu_port_mask s) (Z.of_nat i) &&
             negb (is_cpu_port env s i)) /\
  (forall i, Z.testbit (ds_enabled_port_mask (unapplied env s)) (Z.of_nat i) =
             Z.testbit (ds_enabled_port_mask s) (Z.of_nat i) &&
             negb (holds_interface env s i)).
Proof.
  destruct (unapplied_upto env s (ds_num_ports s) (le_n _))
    as (Hrt & _ & Hcpu & Hen).
  split; [exact Hrt|].
  split; intros i.
  - unfold unapplied. rewrite Hcpu.
    destruct (decide (i < ds_num_ports s)%nat) as [Hi|Hi].
    + rewrite bool_decide_eq_true_2 by exact Hi. reflexivity.
    + rewrite bool_decide_eq_false_2 by exact Hi. unfold is_cpu_port.
      rewrite lookup_ge_None_2 by (unfold ds_num_ports in Hi; lia).
      reflexivity.
  - unfold unapplied. rewrite Hen.
    destruct (decide (i < ds_num_ports s)%nat) as [Hi|Hi].
    + rewrite bool_decide_eq_true_2 by exact Hi. reflexivity.
    + rewrite bool_decide_eq_false_2 by exact Hi. unfold holds_interface.
      rewrite lookup_ge_None_2 by (unfold ds_num_ports in Hi; lia).
      reflexivity.
Qed.

(** ** Activator: unapply of a tree *)

Lemma dsa_dst_unapply_not_applied env dst w t :
  w_trees w !! dst = Some t -> dst_applied t = false ->
  dsa_dst_unapply env dst w = Some (tt, w).
Proof.
  intros Ht Ha. unfold dsa_dst_unapply. mrun. rewrite Ha. reflexivity.
Qed.

Lemma dsa_ds_unapply_wp env dst ds w :
  wp (dsa_ds_unapply env dst ds)
     (fun _ w' => exists s, w_switches w !! ds = Some s /\
                            w' = put_ds ds (unapplied env s) w) w.
Proof.
  apply wp_intro. intros u w' Hrun.
  destruct (w_switches w !! ds) as [s|] eqn:Hs.
  - rewrite (dsa_ds_unapply_run env dst ds s w Hs) in Hrun.
    injection Hrun as <-. eauto.
  - unfold dsa_ds_unapply, bind, load_ds in Hrun. rewrite Hs in Hrun.
    discriminate.
Qed.

(** An unapply of an applied tree whose slots hold different switches:
    every member is unapplied, nothing else of the switches changes, and
    the tree is no longer applied. *)
Lemma dsa_dst_unapply_spec env dst w t :
  w_trees w !! dst = Some t ->
  dst_applied t = true ->
  length (dst_ds t) = DSA_MAX_SWITCHES ->
  NoDup (omap id (dst_ds t)) ->
  wp (dsa_dst_unapply env dst)
     (fun _ w' =>
        w_trees w' = <[dst := dst_with_applied false t]> (w_trees w) /\
        forall p, w_switches w' !! p =
                  if bool_decide (p ∈ omap id (dst_ds t))
                  then unapplied env <$> w_switches w !! p
                  else w_switches w !! p) w.
Proof.
  intros Ht Ha Hlen Hnodup. unfold dsa_dst_unapply.
  apply wp_bind, wp_load_dst. intros t' Ht'.
  assert (t' = t) by congruence. subst t'. rewrite Ha. cbn [negb].
  apply wp_bind. unfold set_dsa_ptr.
  apply wp_bind, wp_load_dst. intros t'' Ht''.
  assert (t'' = t) by congruence. subst t''.
  destruct (dst_master_netdev t) as [nd|]; [|apply wp_fault].
  apply wp_intro. intros u wA Hrun. injection Hrun as <- <-.
  apply (wp_for_each_prefix
    (fun pre w' =>
       w_trees w' = w_trees w /\
       forall p, w_switches w' !! p =
                 if bool_decide (p ∈ omap id (take (length pre) (dst_ds t)))
                 then unapplied env <$> w_switches w !! p
                 else w_switches w !! p)).
  - split; [reflexivity|]. intros p. cbn [length take omap].
    rewrite bool_decide_eq_false_2; [reflexivity|]. intros H. inversion H.
  - intros pre j post w1 Hsplit [Htrees Hsw].
    destruct (seq_split _ _ _ _ Hsplit) as [Hj Hlt].
    apply wp_bind, wp_load_dst. intros t' Ht1. rewrite Htrees in Ht1.
    assert (t' = t) by congruence. subst t'.
    apply wp_bind, wp_array_get. intros slot Hslot.
    assert (Htake : take (length (pre ++ [j])%list) (dst_ds t) =
                    (take (length pre) (dst_ds t) ++ [slot])%list).
    { rewrite length_app. simpl. rewrite Nat.add_1_r, <- Hj.
      apply take_S_r. exact Hslot. }
    destruct slot as [ds|].
    + apply wp_bind. eapply wp_mono; [apply dsa_ds_unapply_wp|].
      intros u w2 (s & Hs & ->). apply wp_ret.
      assert (Hfresh : ds ∉ omap id (take (length pre) (dst_ds t))).
      { rewrite <- (take_drop_middle _ _ _ Hslot) in Hnodup.
        rewrite omap_app in Hnodup. simpl in Hnodup.
        apply NoDup_app in Hnodup as (_ & Hdisj & _).
        rewrite <- Hj. intros Hin. apply (Hdisj ds Hin).
        apply elem_of_cons. auto. }
      assert (Hs0 : w_switches w !! ds = Some s).
      { rewrite <- Hs, Hsw. rewrite bool_decide_eq_false_2 by exact Hfresh.
        reflexivity. }
      split; [exact Htrees|]. intros p. rewrite Htake, omap_app. simpl.
      destruct (decide (p = ds)) as [->|Hne].
      * rewrite lookup_insert_eq, Hs0.
        rewrite bool_decide_eq_true_2; [reflexivity|].
        apply elem_of_app. right. apply list_elem_of_singleton. reflexivity.
      * rewrite lookup_insert_ne by auto. rewrite Hsw.
        destruct (decide (p ∈ omap id (take (length pre) (dst_ds t)))) as [Hin|Hin].
        -- rewrite !bool_decide_eq_true_2; [reflexivity| |exact Hin].
           apply elem_of_app. auto.
        -- rewrite !bool_decide_eq_false_2; [reflexivity| |exact Hin].
           intros H. apply elem_of_app in H as [H|H]; [auto|].
           apply list_elem_of_singleton in H. auto.
    + apply wp_ret. split; [exact Htrees|]. intros p.
      rewrite Htake, omap_app. simpl. rewrite app_nil_r. apply Hsw.
  - intros w1 [Htrees Hsw].
    apply wp_bind, wp_load_dst. intros t' Ht1. rewrite Htrees in Ht1.
    assert (t' = t) by congruence. subst t'.
    apply wp_store_dst. intros _ _. simpl. split.
    + rewrite Htrees. reflexivity.
    + intros p. rewrite Hsw. rewrite length_seq.
      rewrite take_ge by lia. reflexivity.
Qed.

(** After an unapply the tree is not applied. *)
Lemma dsa_dst_unapply_clears env dst w :
  wp (dsa_dst_unapply env dst)
     (fun _ w' => exists t', w_trees w' !! dst = Some t' /\
                             dst_applied t' = false) w.
Proof.
  unfold dsa_dst_unapply.
  apply wp_bind, wp_load_dst. intros t Ht.
  destruct (dst_applied t) eqn:Ha; cbn [negb].
  - apply wp_bind. apply (wp_mono _ (fun _ _ => True)).
    { unfold wp. destruct (set_dsa_ptr dst None w) as [[u w1]|]; exact I. }
    intros u w1 _.
    apply (wp_for_each (fun _ => True)); [exact I| |].
    + intros i w2 _ _. apply wp_bind, wp_load_dst. intros t2 _.
      apply wp_bind, wp_array_get. intros slot _.
      destruct slot as [ds|]; [|apply wp_ret; exact I].
      apply wp_bind. apply wp_intro. intros u' w3 _. apply wp_ret. exact I.
    + intros w2 _. apply wp_bind, wp_load_dst. intros t2 Ht2.
      apply wp_store_dst. intros _ _. eexists. simpl.
      rewrite lookup_insert_eq. split; reflexivity.
  - apply wp_ret. eauto.
Qed.

(** An apply that succeeds marks the tree applied. *)
Lemma dsa_dst_apply_marks env dst w :
  wp (dsa_dst_apply env dst)
     (fun r w' => r = 0 ->
        exists t', w_trees w' !! dst = Some t' /\ dst_applied t' = true) w.
Proof.
  unfold dsa_dst_apply.
  apply (wp_for_each (fun _ => True)); [exact I| |].
  - intros i w1 _ _.
    apply wp_bind, wp_load_dst. intros t Ht.
    apply wp_bind, wp_array_get. intros slot Hslot.
    destruct slot as [ds|]; [|apply wp_ret; exact I].
    apply wp_bind. apply wp_intro. intros err w2 _.
    destruct (decide (err <> 0)); apply wp_ret; [|exact I].
    intros H. contradiction.
  - intros w1 _.
    apply wp_bind, wp_load_dst. intros t Ht.
    destruct (decide _) as [Hne|Heq]; [apply wp_ret; intros H; contradiction|].
    apply wp_bind. apply wp_intro. intros u w2 _.
    apply wp_bind, wp_load_dst. intros t2 Ht2.
    apply wp_bind, wp_store_dst. intros _ _. apply wp_ret. intros _.
    eexists. simpl. rewrite lookup_insert_eq. split; reflexivity.
Qed.

(** C3 (as amended): an apply that succeeds followed by an unapply leaves
    every routing table as it was before the apply. Of every member switch
    it leaves a CPU mask bit as it was before the apply unless the port is
    a Cpu port, whose bit is clear, and an enabled mask bit as it was
    before the apply unless the port is a user port whose interface the
    apply created (or found), whose bit is clear. A second unapply changes
    nothing, as does any unapply of a tree that is not applied. *)
Theorem apply_unapply env dst w w1 w2 t :
  w_trees w !! dst = Some t ->
  length (dst_ds t) = DSA_MAX_SWITCHES ->
  NoDup (omap id (dst_ds t)) ->
  dsa_dst_apply env dst w = Some (0, w1) ->
  dsa_dst_unapply env dst w1 = Some (tt, w2) ->
  (forall p, ds_rtable <$> w_switches w2 !! p =
             ds_rtable <$> w_switches w !! p) /\
  (forall j ds s,
     dst_ds t !! j = Some (Some ds) -> w_switches w !! ds = Some s ->
     exists s1 s2,
       w_switches w1 !! ds = Some s1 /\ w_switches w2 !! ds = Some s2 /\
       forall i,
         Z.testbit (ds_cpu_port_mask s2) (Z.of_nat i) =
           Z.testbit (ds_cpu_port_mask s) (Z.of_nat i) &&
           negb (is_cpu_port env s i) /\
         Z.testbit (ds_enabled_port_mask s2) (Z.of_nat i) =
           Z.testbit (ds_enabled_port_mask s) (Z.of_nat i) &&
           negb (holds_interface env s1 i)) /\
  dsa_dst_unapply env dst w2 = Some (tt, w2) /\
  (forall w0 t0, w_trees w0 !! dst = Some t0 -> dst_applied t0 = false ->
     dsa_dst_unapply env dst w0 = Some (tt, w0)).
Proof.
  intros Ht Hlen Hnodup Happly Hunapply.
  pose proof (wp_elim _ _ _ _ _ (dsa_dst_apply_frame env dst w) Happly)
    as [Hsw Htr].
  destruct (wp_elim _ _ _ _ _ (dsa_dst_apply_marks env dst w) Happly eq_refl)
    as (t1 & Ht1 & Ha1).
  assert (Hslots : dst_ds t1 = dst_ds t).
  { pose proof (Htr dst) as H. rewrite Ht, Ht1 in H.
    inversion H; subst. assumption. }
  rewrite <- Hslots in Hlen, Hnodup.
  destruct (wp_elim _ _ _ _ _
              (dsa_dst_unapply_spec env dst w1 t1 Ht1 Ha1 Hlen Hnodup)
              Hunapply) as [Htr2 Hsw2].
  rewrite Hslots in Hsw2.
  split; [|split; [|split]].
  - intros p. rewrite Hsw2. pose proof (Hsw p) as H.
    destruct (bool_decide _).
    + inversion H as [s s1 Hf|]; subst; simpl; [|reflexivity].
      destruct Hf as (Hr & _). rewrite (proj1 (unapplied_spec env s1)), Hr.
      reflexivity.
    + inversion H as [s s1 Hf|]; subst; simpl; [|reflexivity].
      destruct Hf as (Hr & _). rewrite Hr. reflexivity.
  - intros j ds s Hj Hs. pose proof (Hsw ds) as H. rewrite Hs in H.
    inversion H as [s0 s1 Hf Hs0 Hs1|]; subst.
    destruct Hf as (_ & Hen & Hdesc & Hcpu).
    exists s1, (unapplied env s1). split; [reflexivity|]. split.
    { rewrite Hsw2, <- Hs1. rewrite bool_decide_eq_true_2; [reflexivity|].
      apply (list_elem_of_omap id). exists (Some ds). split; [|reflexivity].
      eapply list_elem_of_lookup_2. exact Hj. }
    destruct (unapplied_spec env s1) as (_ & Hc & He).
    intros i. split.
    + rewrite Hc, (is_cpu_port_descriptors env s s1 i Hdesc).
      destruct (is_cpu_port env s i) eqn:Hi.
      * rewrite !andb_false_r. reflexivity.
      * rewrite (Hcpu i Hi). reflexivity.
    + rewrite He, Hen. reflexivity.
  - apply (dsa_dst_unapply_not_applied env dst w2 (dst_with_applied false t1)).
    + rewrite Htr2. apply lookup_insert_eq.
    + reflexivity.
  - intros w0 t0. apply dsa_dst_unapply_not_applied.
Qed.

Lemma apply_unapply_witness :
  (forall p, ds_rtable <$> w_switches mixed_world_unapplied !! p =
             ds_rtable <$> w_switches mixed_world !! p) /\
  dsa_dst_unapply mixed_plain_env 50%nat mixed_world_unapplied =
    Some (tt, mixed_world_unapplied).
Proof.
  destruct (apply_unapply mixed_plain_env 50%nat mixed_world
              mixed_world_applied mixed_world_unapplied
              (dst_with_master_netdev (Some 900%nat)
                 (dst_with_cpu (Some 10%nat) 2
                    (member_tree 0 2 [Some 10%nat; None; None; None])))
              ltac:(vm_compute; reflexivity)
              ltac:(vm_compute; reflexivity)
              ltac:(apply NoDup_singleton)
              ltac:(vm_compute; reflexivity)
              ltac:(vm_compute; reflexivity)) as (Hr & _ & Hi & _).
  split; [exact Hr|exact Hi].
Defined.

(** C3, the claim as stated fails: the enabled mask of the switch of
    [mixed_world] has the bits of user ports 0, 1 and 3 before the apply;
    the apply creates their interfaces and the unapply clears the three
    bits with them. *)
Lemma apply_unapply_clears_enabled_bits :
  dsa_dst_apply mixed_plain_env 50%nat mixed_world =
    Some (0, mixed_world_applied) /\
  dsa_dst_unapply mixed_plain_env 50%nat mixed_world_applied =
    Some (tt, mixed_world_unapplied) /\
  ds_enabled_port_mask <$> w_switches mixed_world !! 10%nat =
    Some (to_u32 11) /\
  ds_enabled_port_mask <$> w_switches mixed_world_unapplied !! 10%nat =
    Some (to_u32 0).
Proof.
  split; [vm_compute; reflexivity|].
  split; [vm_compute; reflexivity|].
  split; vm_compute; reflexivity.
Qed.

(** ** Order of registration *)

Lemma apply_writes_app ws ws' rt :
  apply_writes (ws ++ ws')%list rt = apply_writes ws' (apply_writes ws rt).
Proof. apply foldl_app. Qed.

Lemma apply_writes_length ws rt : length (apply_writes ws rt) = length rt.
Proof.
  revert rt. induction ws as [|kv ws IH]; intros rt; [reflexivity|].
  simpl. rewrite IH. apply length_insert.
Qed.

Lemma apply_writes_outside ws rt k :
  k ∉ map fst ws -> apply_writes ws rt !! k = rt !! k.
Proof.
  revert rt. induction ws as [|[j v] ws IH]; intros rt Hk; [reflexivity|].
  simpl in *. apply not_elem_of_cons in Hk as [Hne Hk].
  rewrite IH by exact Hk. apply list_lookup_insert_ne. auto.
Qed.

(** Two tables that agree outside the entries a sequence of writes sets
    are the same after it. *)
Lemma apply_writes_agree ws rt rt' :
  length rt = length rt' ->
  (forall k, k ∉ map fst ws -> rt !! k = rt' !! k) ->
  apply_writes ws rt = apply_writes ws rt'.
Proof.
  revert rt rt'. induction ws as [|[j v] ws IH]; intros rt rt' Hlen Hag.
  - simpl. apply list_eq. intros k. apply Hag. apply not_elem_of_nil.
  - simpl. apply IH.
    + rewrite !length_insert. exact Hlen.
    + intros k Hk. destruct (decide (k = j)) as [->|Hne].
      * destruct (decide (j < length rt)%nat) as [Hlt|Hge].
        -- rewrite !list_lookup_insert_eq by lia. reflexivity.
        -- rewrite !list_insert_ge by lia.
           rewrite !lookup_ge_None_2 by lia. reflexivity.
      * rewrite !list_lookup_insert_ne by auto. apply Hag.
        simpl. apply not_elem_of_cons. auto.
Qed.

Lemma same_topology_refl dst w : same_topology dst w w.
Proof.
  split; [reflexivity|]. intros p.
  destruct (w_switches w !! p); constructor. split; reflexivity.
Qed.

Lemma same_topology_sym dst w w' :
  same_topology dst w w' -> same_topology dst w' w.
Proof.
  intros [Ht Hs]. split; [symmetry; exact Ht|]. intros p.
  destruct (Hs p) as [s s' [Hp Hi]|]; constructor. split; congruence.
Qed.

Lemma same_topology_trans dst w1 w2 w3 :
  same_topology dst w1 w2 -> same_topology dst w2 w3 ->
  same_topology dst w1 w3.
Proof.
  intros [Ht Hs] [Ht' Hs']. split; [congruence|]. intros p.
  pose proof (Hs p) as H. pose proof (Hs' p) as H'.
  destruct H as [s s' [Hp Hi]|]; inversion H' as [s2 s3 [Hp' Hi']|];
    subst; constructor.
  split; congruence.
Qed.

Lemma resolver_frame_same_topology dst w w' :
  resolver_frame w w' -> same_topology dst w w'.
Proof.
  intros (Ht & _ & _ & Hs). split; [rewrite Ht; reflexivity|]. intros p.
  destruct (Hs p) as [s s' [Heq _]|]; constructor.
  rewrite Heq. split; reflexivity.
Qed.

Lemma owner_same_topology dst w w' link slot :
  same_topology dst w w' -> owner w' link slot = owner w link slot.
Proof.
  intros [_ Hs]. destruct slot as [ds|]; [|reflexivity]. simpl.
  destruct (Hs ds) as [s s' [Hp _]|]; [|reflexivity].
  unfold dsa_ds_find_port_dn. rewrite Hp. reflexivity.
Qed.

Lemma target_same_topology dst w w' link :
  same_topology dst w w' -> target w' dst link = target w dst link.
Proof.
  intros Hsame. pose proof Hsame as [Ht _]. unfold target.
  destruct (w_trees w !! dst) as [t|], (w_trees w' !! dst) as [t'|];
    simpl in Ht; try discriminate; [|reflexivity].
  injection Ht as ->. f_equal. apply list_omap_ext. apply Forall2_same_length_lookup_2; [reflexivity|].
  intros i slot slot' H1 H2. assert (slot' = slot) by congruence. subst.
  apply (owner_same_topology dst). exact Hsame.
Qed.

Lemma link_write_same_topology dst w w' idx link :
  same_topology dst w w' -> link_write w' dst idx link = link_write w dst idx link.
Proof.
  intros Hsame. unfold link_write.
  rewrite (target_same_topology dst w w') by exact Hsame.
  destruct (target w dst link) as [d|]; [|reflexivity].
  destruct Hsame as [_ Hs].
  destruct (Hs d) as [s s' [_ Hi]|]; [|reflexivity]. rewrite Hi. reflexivity.
Qed.

Lemma port_writes_same_topology env dst w w' port idx :
  same_topology dst w w' ->
  port_writes env w' dst port idx = port_writes env w dst port idx.
Proof.
  intros Hsame. unfold port_writes. apply list_omap_ext.
  apply Forall2_same_length_lookup_2; [reflexivity|].
  intros i link link' H1 H2. assert (link' = link) by congruence. subst.
  apply link_write_same_topology. exact Hsame.
Qed.

Lemma ds_writes_same_topology env dst w w' s s' :
  same_topology dst w w' -> ds_ports s' = ds_ports s ->
  ds_writes env w' dst s' = ds_writes env w dst s.
Proof.
  intros Hsame Hp. unfold ds_writes, ds_num_ports, port_part. rewrite Hp.
  apply flat_map_ext. intros idx.
  destruct (ds_ports s !! idx) as [port|]; [|reflexivity].
  rewrite (port_writes_same_topology env dst w w') by exact Hsame.
  reflexivity.
Qed.

Lemma has_port_nodes s link :
  dsa_ds_find_port_dn s (Some link) = true <-> link ∈ port_nodes s.
Proof.
  unfold dsa_ds_find_port_dn, port_nodes. rewrite existsb_exists.
  rewrite list_elem_of_omap. split.
  - intros (port & Hin & Hdn). exists port.
    apply bool_decide_eq_true in Hdn. split; [|exact Hdn].
    apply list_elem_of_In. exact Hin.
  - intros (port & Hin & Hdn). exists port. split.
    + apply list_elem_of_In. exact Hin.
    + apply bool_decide_eq_true. exact Hdn.
Qed.

Lemma ports_disjoint_spec w : ports_disjoint w = true -> unique_owner w.
Proof.
  unfold ports_disjoint. intros Hd p q s s' link Hp Hq Hl Hl'.
  rewrite forallb_forall in Hd.
  specialize (Hd (p, s)). rewrite forallb_forall in Hd.
  assert (Hin : forall k (v : dsa_switch),
            w_switches w !! k = Some v ->
            In (k, v) (map_to_list (w_switches w))).
  { intros k v H. apply list_elem_of_In, elem_of_map_to_list. exact H. }
  specialize (Hd (Hin p s Hp) (q, s') (Hin q s' Hq)). simpl in Hd.
  apply orb_true_iff in Hd as [Hd|Hd].
  - apply bool_decide_eq_true in Hd. exact Hd.
  - rewrite forallb_forall in Hd.
    apply has_port_nodes in Hl, Hl'.
    specialize (Hd link (proj1 (list_elem_of_In _ _) Hl)).
    apply negb_true_iff, bool_decide_eq_false in Hd. contradiction.
Qed.

Lemma owner_Some w link slot d :
  owner w link slot = Some d <->
  slot = Some d /\
  exists s, w_switches w !! d = Some s /\
            dsa_ds_find_port_dn s (Some link) = true.
Proof.
  unfold owner. split.
  - destruct slot as [ds|]; [|discriminate].
    destruct (w_switches w !! ds) as [s|] eqn:Hs; [|discriminate].
    destruct (dsa_ds_find_port_dn s (Some link)) eqn:Hf; [|discriminate].
    intros [= ->]. split; [reflexivity|]. exists s. auto.
  - intros (-> & s & Hs & Hf). rewrite Hs, Hf. reflexivity.
Qed.

(** The member found for a node is a member that has a port with it. *)
Lemma target_Some w dst link d :
  target w dst link = Some d ->
  exists t i s, w_trees w !! dst = Some t /\ dst_ds t !! i = Some (Some d) /\
                w_switches w !! d = Some s /\
                dsa_ds_find_port_dn s (Some link) = true.
Proof.
  unfold target. destruct (w_trees w !! dst) as [t|]; [|discriminate].
  intros H. apply head_Some in H as [l' H].
  assert (Hin : d ∈ omap (owner w link) (dst_ds t)).
  { rewrite H. apply elem_of_cons. auto. }
  apply list_elem_of_omap in Hin as (slot & Hslot & Ho).
  apply owner_Some in Ho as (-> & s & Hs & Hf).
  apply list_elem_of_lookup_1 in Hslot as [i Hi].
  exists t, i, s. auto.
Qed.

(** Where no port node belongs to two switches, it is the only one. *)
Lemma target_member w dst t i d s link :
  unique_owner w ->
  w_trees w !! dst = Some t -> dst_ds t !! i = Some (Some d) ->
  w_switches w !! d = Some s ->
  dsa_ds_find_port_dn s (Some link) = true ->
  target w dst link = Some d.
Proof.
  intros Hd Ht Hi Hs Hf.
  assert (Hin : d ∈ omap (owner w link) (dst_ds t)).
  { apply list_elem_of_omap. exists (Some d). split.
    - eapply list_elem_of_lookup_2. exact Hi.
    - apply owner_Some. eauto. }
  destruct (target w dst link) as [d'|] eqn:Htg.
  - destruct (target_Some _ _ _ _ Htg) as (t' & i' & s' & _ & _ & Hs' & Hf').
    f_equal. eapply Hd; eauto.
  - unfold target in Htg. rewrite Ht in Htg. apply head_None in Htg.
    rewrite Htg in Hin. inversion Hin.
Qed.

(** [dsa_dst_find_port_dn] changes nothing and returns [target]. *)
Lemma dsa_dst_find_port_dn_target w dst link t :
  w_trees w !! dst = Some t ->
  length (dst_ds t) = DSA_MAX_SWITCHES ->
  wp (dsa_dst_find_port_dn dst (Some link))
     (fun r w' => w' = w /\ r = target w dst link) w.
Proof.
  intros Ht Hlen. unfold dsa_dst_find_port_dn.
  apply (wp_for_each_prefix
    (fun pre w' => w' = w /\
       omap (owner w link) (take (length pre) (dst_ds t)) = [])).
  - split; reflexivity.
  - intros pre j post w1 Hsplit [-> Hnone].
    destruct (seq_split _ _ _ _ Hsplit) as [Hj Hlt].
    apply wp_bind, wp_load_dst. intros t' Ht'.
    assert (t' = t) by congruence. subst t'.
    apply wp_bind, wp_array_get. intros slot Hslot.
    assert (Htake : take (length (pre ++ [j])%list) (dst_ds t) =
                    (take (length pre) (dst_ds t) ++ [slot])%list).
    { rewrite length_app. simpl. rewrite Nat.add_1_r, <- Hj.
      apply take_S_r. exact Hslot. }
    assert (Hhead : forall d, owner w link slot = Some d ->
                              target w dst link = Some d).
    { intros d Ho. unfold target. rewrite Ht.
      rewrite <- (take_drop_middle _ _ _ Hslot), omap_app.
      rewrite Hj, Hnone. simpl. rewrite Ho. reflexivity. }
    assert (Hnext : owner w link slot = None ->
                    omap (owner w link)
                      (take (length (pre ++ [j])%list) (dst_ds t)) = []).
    { intros Ho. rewrite Htake, omap_app, Hnone. simpl. rewrite Ho.
      reflexivity. }
    destruct slot as [ds|].
    + apply wp_bind, wp_load_ds. intros s Hs.
      simpl in Hhead, Hnext. rewrite Hs in Hhead, Hnext.
      destruct (dsa_ds_find_port_dn s (Some link)); apply wp_ret.
      * split; [reflexivity|]. symmetry. apply Hhead. reflexivity.
      * split; [reflexivity|]. apply Hnext. reflexivity.
    + apply wp_ret. split; [reflexivity|]. apply Hnext. reflexivity.
  - intros w1 [-> Hnone]. apply wp_ret. split; [reflexivity|].
    rewrite length_seq, take_ge in Hnone by lia.
    unfold target. rewrite Ht, Hnone. reflexivity.
Qed.

Lemma same_topology_put_ds dst w p s s' :
  w_switches w !! p = Some s ->
  ds_ports s' = ds_ports s -> ds_index s' = ds_index s ->
  same_topology dst w (put_ds p s' w).
Proof.
  intros Hs Hp Hi. split; [reflexivity|]. simpl.
  apply (option_Forall2_insert _ _ _ _ s); [exact Hs|split; assumption|].
  apply option_Forall2_same. intros x. split; reflexivity.
Qed.

(** [dsa_port_complete] does the writes of the references of the port in
    order, all of them if it returns 0. *)
Lemma dsa_port_complete_writes env w dst src s t port idx :
  w_trees w !! dst = Some t ->
  length (dst_ds t) = DSA_MAX_SWITCHES ->
  w_switches w !! src = Some s ->
  wp (dsa_port_complete env dst src port idx)
     (fun r w' => exists ws ws',
        port_writes env w dst port idx = (ws ++ ws')%list /\
        w' = put_ds src
               (ds_with_rtable (apply_writes ws (ds_rtable s)) s) w /\
        (r = 0 -> ws' = [])) w.
Proof.
  intros Ht Hlen Hs. unfold dsa_port_complete, port_writes.
  apply (wp_for_each_prefix
    (fun pre w' =>
       w' = put_ds src
              (ds_with_rtable
                 (apply_writes (omap (link_write w dst idx) pre) (ds_rtable s))
                 s) w)).
  - simpl. symmetry. apply put_ds_id. rewrite Hs. f_equal.
    destruct s; reflexivity.
  - intros pre link post w1 Hsplit Hw1.
    assert (Hsame : same_topology dst w w1).
    { rewrite Hw1. apply (same_topology_put_ds dst w src s); auto. }
    assert (Ht1 : w_trees w1 !! dst = Some t) by (rewrite Hw1; exact Ht).
    apply wp_bind.
    eapply wp_mono; [apply (dsa_dst_find_port_dn_target w1 dst link t Ht1 Hlen)|].
    intros r w2 [-> ->]. rewrite (target_same_topology dst w w1) by exact Hsame.
    destruct (target w dst link) as [d|] eqn:Htg.
    + apply wp_bind, wp_load_ds. intros sd1 Hsd1.
      apply wp_bind, wp_load_ds. intros s1 Hs1.
      apply wp_bind, wp_array_set. intros Hrange.
      apply wp_bind, wp_store_ds. intros s1' _. apply wp_ret.
      rewrite Hw1 in Hs1. rewrite put_ds_lookup in Hs1.
      injection Hs1 as <-.
      assert (Hlw : link_write w dst idx link =
                    Some (ds_index sd1, to_s8 (Z.of_nat idx))).
      { unfold link_write. rewrite Htg. destruct Hsame as [_ Hsw].
        pose proof (Hsw d) as H. rewrite Hsd1 in H.
        inversion H as [sd sd' [_ Hi]|]; subst. rewrite Hi. reflexivity. }
      rewrite omap_app. simpl. rewrite Hlw. simpl.
      rewrite apply_writes_app. simpl.
      rewrite Hw1. unfold put_ds. simpl. rewrite insert_insert_eq.
      reflexivity.
    + apply wp_ret. exists (omap (link_write w dst idx) pre),
        (omap (link_write w dst idx) (link :: post)).
      split; [rewrite Hsplit; apply omap_app|].
      split; [exact Hw1|]. intros H. discriminate.
  - intros w1 Hw1. apply wp_ret.
    exists (omap (link_write w dst idx)
              (of_phandle_list env (port_dn port) "link")), [].
    split; [symmetry; apply app_nil_r|]. split; [exact Hw1|]. reflexivity.
Qed.

(** [dsa_ds_complete] does the writes of the ports of the switch in
    order, all of them if it returns 0. *)
Lemma dsa_ds_complete_writes env w dst ds s t :
  w_trees w !! dst = Some t ->
  length (dst_ds t) = DSA_MAX_SWITCHES ->
  w_switches w !! ds = Some s ->
  wp (dsa_ds_complete env dst ds)
     (fun r w' => exists ws ws' m,
        ds_writes env w dst s = (ws ++ ws')%list /\
        w' = put_ds ds
               (ds_with_dsa_port_mask m
                  (ds_with_rtable (apply_writes ws (ds_rtable s)) s)) w /\
        (r = 0 -> ws' = [])) w.
Proof.
  intros Ht Hlen Hs. unfold dsa_ds_complete, ds_writes.
  apply wp_bind, wp_load_ds. intros s0 Hs0.
  assert (s0 = s) by congruence. subst s0.
  apply (wp_for_each_prefix
    (fun pre w' => exists m,
       w' = put_ds ds
              (ds_with_dsa_port_mask m
                 (ds_with_rtable
                    (apply_writes (flat_map (port_part env w dst s) pre)
                       (ds_rtable s)) s)) w)).
  - exists (ds_dsa_port_mask s). simpl. symmetry. apply put_ds_id.
    rewrite Hs. f_equal. destruct s; reflexivity.
  - intros pre i post w1 Hsplit [m Hw1].
    assert (Hsame : same_topology dst w w1).
    { rewrite Hw1. apply (same_topology_put_ds dst w ds s); auto. }
    assert (Ht1 : w_trees w1 !! dst = Some t) by (rewrite Hw1; exact Ht).
    apply wp_bind, wp_load_ds. intros s1 Hs1.
    pose proof Hs1 as Hs1'. rewrite Hw1, put_ds_lookup in Hs1'.
    injection Hs1' as Hs1'.
    apply wp_bind, wp_array_get. intros port Hport.
    assert (Hport' : ds_ports s !! i = Some port).
    { rewrite <- Hs1' in Hport. exact Hport. }
    assert (Hpart : port_part env w dst s i =
                    if negb (dsa_port_is_valid port) then []
                    else if negb (dsa_port_is_dsa env port) then []
                    else port_writes env w dst port i).
    { unfold port_part. rewrite Hport'. reflexivity. }
    assert (Hskip : port_part env w dst s i = [] ->
              exists m0,
                w1 = put_ds ds
                       (ds_with_dsa_port_mask m0
                          (ds_with_rtable
                             (apply_writes
                                (flat_map (port_part env w dst s)
                                   (pre ++ [i])%list) (ds_rtable s)) s)) w).
    { intros Hnil. exists m. rewrite flat_map_app. simpl.
      rewrite Hnil. rewrite !app_nil_r. exact Hw1. }
    destruct (negb (dsa_port_is_valid port)) eqn:Hvalid;
      [apply wp_ret; apply Hskip; exact Hpart|].
    destruct (negb (dsa_port_is_dsa env port)) eqn:Hdsa;
      [apply wp_ret; apply Hskip; exact Hpart|].
    apply wp_bind.
    eapply wp_mono;
      [apply (dsa_port_complete_writes env w1 dst ds s1 t port i Ht1 Hlen Hs1)|].
    intros err w2 (ws & ws' & Hws & Hw2 & Hfull).
    rewrite (port_writes_same_topology env dst w w1) in Hws by exact Hsame.
    assert (Hw2' : w2 = put_ds ds
                     (ds_with_dsa_port_mask m
                        (ds_with_rtable
                           (apply_writes
                              (flat_map (port_part env w dst s) pre ++ ws)%list
                              (ds_rtable s)) s)) w).
    { rewrite Hw2, Hw1, <- Hs1'. rewrite put_ds_put_ds.
      rewrite apply_writes_app. reflexivity. }
    destruct (decide (err <> 0)) as [Hne|Heq].
    + apply wp_ret.
      exists (flat_map (port_part env w dst s) pre ++ ws)%list,
        (ws' ++ flat_map (port_part env w dst s) post)%list, m.
      split.
      { rewrite Hsplit, flat_map_app. simpl. rewrite Hpart, Hws.
        rewrite <- !app_assoc. reflexivity. }
      split; [exact Hw2'|]. intros H. contradiction.
    + assert (err = 0) by lia. subst err. rewrite (Hfull eq_refl) in Hws.
      rewrite app_nil_r in Hws.
      apply wp_bind, wp_load_ds. intros s2 Hs2.
      apply wp_bind, wp_store_ds. intros s2' _. apply wp_ret.
      rewrite Hw2', put_ds_lookup in Hs2. injection Hs2 as <-.
      exists (to_u32 (Z.lor m (BIT i))).
      rewrite flat_map_app. simpl. rewrite Hpart, Hws, app_nil_r.
      rewrite Hw2'. unfold put_ds. simpl. rewrite insert_insert_eq.
      reflexivity.
  - intros w1 [m Hw1]. apply wp_ret.
    exists (flat_map (port_part env w dst s) (seq 0 (ds_num_ports s))), [], m.
    split; [symmetry; apply app_nil_r|]. split; [exact Hw1|]. reflexivity.
Qed.

(** [dsa_dst_complete] does, on each switch, a prefix of the writes of
    the switch: none on a switch that is not a member, all of them on
    every member if it returns 0. *)
Lemma dsa_dst_complete_writes env w dst t :
  w_trees w !! dst = Some t ->
  length (dst_ds t) = DSA_MAX_SWITCHES ->
  NoDup (omap id (dst_ds t)) ->
  wp (dsa_dst_complete env dst)
     (fun r w' => forall p s, w_switches w !! p = Some s ->
        exists s' ws ws',
          w_switches w' !! p = Some s' /\
          ds_writes env w dst s = (ws ++ ws')%list /\
          ds_rtable s' = apply_writes ws (ds_rtable s) /\
          (p ∉ omap id (dst_ds t) -> ws = []) /\
          (r = 0 -> p ∈ omap id (dst_ds t) -> ws' = [])) w.
Proof.
  intros Ht Hlen Hnodup. unfold dsa_dst_complete.
  apply (wp_for_each_prefix
    (fun pre w' =>
       w_trees w' = w_trees w /\
       forall p, option_Forall2
                   (written env w dst
                      (omap id (take (length pre) (dst_ds t))) p)
                   (w_switches w !! p) (w_switches w' !! p))).
  - split; [reflexivity|]. intros p.
    destruct (w_switches w !! p); constructor.
    split; [split; reflexivity|]. cbn [length take omap].
    rewrite bool_decide_eq_false_2; [reflexivity|]. apply not_elem_of_nil.
  - intros pre j post w1 Hsplit [Htrees Hsw].
    destruct (seq_split _ _ _ _ Hsplit) as [Hj Hlt].
    assert (Hsame : same_topology dst w w1).
    { split; [rewrite Htrees; reflexivity|]. intros p.
      destruct (Hsw p) as [s s' [Htop _]|]; constructor. exact Htop. }
    assert (Ht1 : w_trees w1 !! dst = Some t) by (rewrite Htrees; exact Ht).
    apply wp_bind, wp_load_dst. intros t' Ht'.
    assert (t' = t) by congruence. subst t'.
    apply wp_bind, wp_array_get. intros slot Hslot.
    assert (Htake : take (length (pre ++ [j])%list) (dst_ds t) =
                    (take (length pre) (dst_ds t) ++ [slot])%list).
    { rewrite length_app. simpl. rewrite Nat.add_1_r, <- Hj.
      apply take_S_r. exact Hslot. }
    destruct slot as [ds|].
    + assert (Hfresh : ds ∉ omap id (take (length pre) (dst_ds t))).
      { rewrite <- (take_drop_middle _ _ _ Hslot) in Hnodup.
        rewrite omap_app in Hnodup. simpl in Hnodup.
        apply NoDup_app in Hnodup as (_ & Hdisj & _).
        rewrite <- Hj. intros Hin. apply (Hdisj ds Hin).
        apply elem_of_cons. auto. }
      assert (Hmember : ds ∈ omap id (dst_ds t)).
      { apply (list_elem_of_omap id). exists (Some ds).
        split; [|reflexivity]. eapply list_elem_of_lookup_2. exact Hslot. }
      apply wp_bind. apply wp_intro. intros err w2 Hrun.
      destruct (w_switches w1 !! ds) as [s1|] eqn:Hs1.
      2:{ unfold dsa_ds_complete, bind, load_ds in Hrun.
          rewrite Hs1 in Hrun. discriminate. }
      pose proof (Hsw ds) as Hds. rewrite Hs1 in Hds.
      inversion Hds as [s s1' [Htop Hrt] Hs|]; subst s1'. symmetry in Hs.
      pose proof (wp_elim _ _ _ _ _
                    (dsa_ds_complete_writes env w1 dst ds s1 t Ht1 Hlen Hs1)
                    Hrun) as (ws & ws' & m & Hws & Hw2 & Hfull).
      rewrite bool_decide_eq_false_2 in Hrt by exact Hfresh.
      rewrite (ds_writes_same_topology env dst w w1 s s1) in Hws
        by (try exact Hsame; apply Htop).
      assert (Hother : forall p, p <> ds ->
                w_switches w2 !! p = w_switches w1 !! p).
      { intros p Hne. rewrite Hw2. simpl. apply lookup_insert_ne. auto. }
      destruct (decide (err <> 0)) as [Hne|Heq]; apply wp_ret.
      * intros p s0 Hs0. destruct (decide (p = ds)) as [->|Hp].
        -- assert (s0 = s) by congruence. subst s0.
           eexists _, ws, ws'. split; [rewrite Hw2; apply put_ds_lookup|].
           split; [exact Hws|]. split; [simpl; rewrite Hrt; reflexivity|].
           split; [intros H; contradiction|]. intros H. contradiction.
        -- rewrite (Hother p Hp). pose proof (Hsw p) as Hp1.
           rewrite Hs0 in Hp1. inversion Hp1 as [s0' s1' [_ Hrt1]|]; subst.
           destruct (bool_decide _) eqn:Hdone.
           ++ exists s1', (ds_writes env w dst s0), [].
              split; [reflexivity|]. split; [symmetry; apply app_nil_r|].
              split; [exact Hrt1|]. split; [|reflexivity].
              intros Hout. exfalso. apply Hout.
              apply bool_decide_eq_true in Hdone.
              apply list_elem_of_omap in Hdone as (x & Hx & Hid).
              apply (list_elem_of_omap id). exists x. split; [|exact Hid].
              eapply subseteq_take. exact Hx.
           ++ exists s1', [], (ds_writes env w dst s0).
              split; [reflexivity|]. split; [reflexivity|].
              split; [exact Hrt1|]. split; [reflexivity|].
              intros H. contradiction.
      * assert (err = 0) by lia. subst err.
        rewrite (Hfull eq_refl), app_nil_r in Hws.
        split; [rewrite Hw2; exact Htrees|]. intros p.
        rewrite Htake, omap_app. simpl.
        destruct (decide (p = ds)) as [->|Hp].
        -- rewrite Hs, Hw2, put_ds_lookup. constructor.
           split; [split; simpl; apply Htop|].
           rewrite bool_decide_eq_true_2.
           ++ simpl. rewrite Hrt, Hws. reflexivity.
           ++ apply elem_of_app. right. apply list_elem_of_singleton.
              reflexivity.
        -- rewrite (Hother p Hp).
           destruct (Hsw p) as [s0 s1' [Htop0 Hrt0]|]; constructor.
           split; [exact Htop0|]. rewrite Hrt0.
           destruct (decide (p ∈ omap id (take (length pre) (dst_ds t))))
             as [Hin|Hin].
           ++ rewrite !bool_decide_eq_true_2; [reflexivity| |exact Hin].
              apply elem_of_app. auto.
           ++ rewrite !bool_decide_eq_false_2; [reflexivity| |exact Hin].
              intros H. apply elem_of_app in H as [H|H]; [auto|].
              apply list_elem_of_singleton in H. auto.
    + apply wp_ret. split; [exact Htrees|]. intros p.
      rewrite Htake, omap_app. simpl. rewrite app_nil_r. apply Hsw.
  - intros w1 [Htrees Hsw]. apply wp_ret. intros p s Hs.
    pose proof (Hsw p) as Hp. rewrite Hs in Hp.
    inversion Hp as [s0 s' [_ Hrt]|]; subst.
    rewrite length_seq, take_ge in Hrt by lia.
    destruct (bool_decide _) eqn:Hmem.
    + exists s', (ds_writes env w dst s), [].
      split; [reflexivity|]. split; [symmetry; apply app_nil_r|].
      split; [exact Hrt|]. split; [|reflexivity].
      intros Hout. apply bool_decide_eq_true in Hmem. contradiction.
    + exists s', [], (ds_writes env w dst s).
      split; [reflexivity|]. split; [reflexivity|].
      split; [exact Hrt|]. split; [reflexivity|].
      intros _ Hin. apply bool_decide_eq_false in Hmem. contradiction.
Qed.

(** ** Resolver: how far a run gets *)

Lemma find_all_false {A} (f : A -> bool) (l : list A) :
  (forall x, x ∈ l -> f x = false) -> List.find f l = None.
Proof.
  induction l as [|x l IH]; intros H; [reflexivity|]. simpl.
  rewrite (H x) by (apply elem_of_cons; auto).
  apply IH. intros y Hy. apply H. apply elem_of_cons. auto.
Qed.

Lemma find_first {A} (f : A -> bool) (l1 l2 : list A) x :
  (forall y, y ∈ l1 -> f y = false) -> f x = true ->
  List.find f (l1 ++ x :: l2)%list = Some x.
Proof.
  induction l1 as [|y l1 IH]; intros H Hx; simpl; [rewrite Hx; reflexivity|].
  rewrite (H y) by (apply elem_of_cons; auto).
  apply IH; [|exact Hx]. intros z Hz. apply H. apply elem_of_cons. auto.
Qed.

Lemma apply_writes_idem ws rt :
  apply_writes ws (apply_writes ws rt) = apply_writes ws rt.
Proof.
  apply apply_writes_agree; [apply apply_writes_length|].
  intros k Hk. apply apply_writes_outside. exact Hk.
Qed.

Lemma before_miss_app w dst pre rest :
  Forall (fun link => is_Some (target w dst link)) pre ->
  before_miss w dst (pre ++ rest) = (pre ++ before_miss w dst rest)%list.
Proof.
  induction pre as [|link pre IH]; intros H; [reflexivity|].
  apply Forall_cons in H as [[d Hd] H]. simpl. rewrite Hd.
  rewrite IH by exact H. reflexivity.
Qed.

Lemma before_miss_all w dst links :
  before_miss w dst links = links <->
  Forall (fun link => is_Some (target w dst link)) links.
Proof.
  induction links as [|link links IH]; simpl.
  - split; [constructor|reflexivity].
  - destruct (target w dst link) as [d|] eqn:Hd.
    + split.
      * intros [= H]. constructor; [eauto|]. apply IH. exact H.
      * intros H. apply Forall_cons in H as [_ H]. f_equal. apply IH. exact H.
    + split; [discriminate|]. intros H. apply Forall_cons in H as [Hd' _].
      inversion Hd' as [d' Hd'']. congruence.
Qed.

Lemma before_miss_same_topology dst w w' links :
  same_topology dst w w' -> before_miss w' dst links = before_miss w dst links.
Proof.
  intros H. induction links as [|link links IH]; [reflexivity|]. simpl.
  rewrite (target_same_topology dst w w') by exact H. rewrite IH.
  reflexivity.
Qed.

Lemma dsa_port_complete_done env w dst src s t port idx :
  w_trees w !! dst = Some t ->
  length (dst_ds t) = DSA_MAX_SWITCHES ->
  w_switches w !! src = Some s ->
  wp (dsa_port_complete env dst src port idx)
     (fun r w' =>
        w' = put_ds src
               (ds_with_rtable
                  (apply_writes
                     (omap (link_write w dst idx)
                        (before_miss w dst
                           (of_phandle_list env (port_dn port) "link")))
                     (ds_rtable s)) s) w /\
        r = if bool_decide
                 (before_miss w dst
                    (of_phandle_list env (port_dn port) "link") =
                  of_phandle_list env (port_dn port) "link")
            then 0 else 1) w.
Proof.
  intros Ht Hlen Hs. unfold dsa_port_complete.
  set (links := of_phandle_list env (port_dn port) "link").
  apply (wp_for_each_prefix
    (fun pre w' =>
       Forall (fun link => is_Some (target w dst link)) pre /\
       w' = put_ds src
              (ds_with_rtable
                 (apply_writes (omap (link_write w dst idx) pre) (ds_rtable s))
                 s) w)).
  - split; [constructor|]. simpl. symmetry. apply put_ds_id. rewrite Hs.
    f_equal. destruct s; reflexivity.
  - intros pre link post w1 Hsplit [Hpre Hw1].
    assert (Hsame : same_topology dst w w1).
    { rewrite Hw1. apply (same_topology_put_ds dst w src s); auto. }
    assert (Ht1 : w_trees w1 !! dst = Some t) by (rewrite Hw1; exact Ht).
    apply wp_bind.
    eapply wp_mono; [apply (dsa_dst_find_port_dn_target w1 dst link t Ht1 Hlen)|].
    intros r w2 [-> ->]. rewrite (target_same_topology dst w w1) by exact Hsame.
    destruct (target w dst link) as [d|] eqn:Htg.
    + apply wp_bind, wp_load_ds. intros sd1 Hsd1.
      apply wp_bind, wp_load_ds. intros s1 Hs1.
      apply wp_bind, wp_array_set. intros Hrange.
      apply wp_bind, wp_store_ds. intros s1' _. apply wp_ret.
      rewrite Hw1 in Hs1. rewrite put_ds_lookup in Hs1.
      injection Hs1 as <-.
      assert (Hlw : link_write w dst idx link =
                    Some (ds_index sd1, to_s8 (Z.of_nat idx))).
      { unfold link_write. rewrite Htg. destruct Hsame as [_ Hsw].
        pose proof (Hsw d) as H. rewrite Hsd1 in H.
        inversion H as [sd sd' [_ Hi]|]; subst. rewrite Hi. reflexivity. }
      split.
      { apply Forall_app. split; [exact Hpre|].
        constructor; [rewrite Htg; eauto|constructor]. }
      rewrite omap_app. simpl. rewrite Hlw. simpl.
      rewrite apply_writes_app. simpl.
      rewrite Hw1. unfold put_ds. simpl. rewrite insert_insert_eq.
      reflexivity.
    + apply wp_ret.
      assert (Hbm : before_miss w dst links = pre).
      { rewrite Hsplit, before_miss_app by exact Hpre. simpl. rewrite Htg.
        apply app_nil_r. }
      rewrite Hbm. split; [exact Hw1|].
      rewrite bool_decide_eq_false_2; [reflexivity|].
      rewrite Hsplit. intros H. apply (f_equal length) in H.
      rewrite length_app in H. simpl in H. lia.
  - intros w1 [Hall Hw1]. apply wp_ret.
    apply before_miss_all in Hall. rewrite Hall.
    split; [exact Hw1|]. rewrite bool_decide_eq_true_2 by reflexivity.
    reflexivity.
Qed.

Lemma omap_link_write_same_topology dst w w' idx (links : list ptr) :
  same_topology dst w w' ->
  omap (link_write w' dst idx) links = omap (link_write w dst idx) links.
Proof.
  intros H. apply list_omap_ext.
  induction links as [|link links IH]; constructor; [|exact IH].
  apply (link_write_same_topology dst w w'). exact H.
Qed.

Lemma seq_prefix n pre i post :
  seq 0 n = (pre ++ i :: post)%list -> pre = seq 0 i.
Proof.
  intros H. destruct (seq_split _ _ _ _ H) as [Hi Hlt].
  assert (Ht : take i (seq 0 n) = pre).
  { rewrite H, Hi. apply take_app_length. }
  rewrite <- Ht, take_seq. f_equal. lia.
Qed.

Lemma filter_snoc {A} (f : A -> bool) l x :
  List.filter f (l ++ [x]) = (List.filter f l ++ if f x then [x] else [])%list.
Proof. rewrite List.filter_app. simpl. destruct (f x); reflexivity. Qed.

Lemma set_marks_snoc marks i m :
  set_marks (marks ++ [i]) m = to_u32 (Z.lor (set_marks marks m) (BIT i)).
Proof. unfold set_marks. rewrite foldl_app. reflexivity. Qed.

(** [dsa_ds_complete] gets through the ports before the first with a
    reference that matches no member, and through the references of that
    port before that one: it leaves their writes and the mask bits of
    the DSA ports it got through, and returns 1 if there is such a port,
    0 otherwise. *)
Lemma dsa_ds_complete_done env w dst ds s t :
  w_trees w !! dst = Some t ->
  length (dst_ds t) = DSA_MAX_SWITCHES ->
  w_switches w !! ds = Some s ->
  wp (dsa_ds_complete env dst ds)
     (fun r w' =>
        w' = put_ds ds (resolved env w dst s) w /\
        r = match stuck_port env w dst s with
            | Some _ => 1
            | None => 0
            end) w.
Proof.
  intros Ht Hlen Hs. unfold dsa_ds_complete.
  apply wp_bind, wp_load_ds. intros s0 Hs0.
  assert (s0 = s) by congruence. subst s0.
  apply (wp_for_each_prefix
    (fun pre w' =>
       (forall j, j ∈ pre -> port_misses env w dst s j = false) /\
       w' = put_ds ds
              (ds_with_dsa_port_mask
                 (set_marks (List.filter (is_dsa_port env s) pre)
                    (ds_dsa_port_mask s))
                 (ds_with_rtable
                    (apply_writes (flat_map (port_part env w dst s) pre)
                       (ds_rtable s)) s)) w)).
  - split; [intros j Hj; inversion Hj|]. simpl. symmetry. apply put_ds_id.
    rewrite Hs. f_equal. destruct s; reflexivity.
  - intros pre i post w1 Hsplit [Hpre Hw1].
    assert (Hsame : same_topology dst w w1).
    { rewrite Hw1. apply (same_topology_put_ds dst w ds s); auto. }
    assert (Ht1 : w_trees w1 !! dst = Some t) by (rewrite Hw1; exact Ht).
    apply wp_bind, wp_load_ds. intros s1 Hs1.
    pose proof Hs1 as Hs1'. rewrite Hw1, put_ds_lookup in Hs1'.
    injection Hs1' as Hs1'.
    apply wp_bind, wp_array_get. intros port Hport.
    assert (Hport' : ds_ports s !! i = Some port).
    { rewrite <- Hs1' in Hport. exact Hport. }
    set (links := of_phandle_list env (port_dn port) "link").
    assert (Hskip : dsa_port_is_valid port && dsa_port_is_dsa env port = false ->
              (forall j, j ∈ (pre ++ [i])%list ->
                 port_misses env w dst s j = false) /\
              w1 = put_ds ds
                     (ds_with_dsa_port_mask
                        (set_marks
                           (List.filter (is_dsa_port env s) (pre ++ [i]))
                           (ds_dsa_port_mask s))
                        (ds_with_rtable
                           (apply_writes
                              (flat_map (port_part env w dst s)
                                 (pre ++ [i])%list) (ds_rtable s)) s)) w).
    { intros Hno. split.
      - intros j Hj. apply elem_of_app in Hj as [Hj|Hj]; [auto|].
        apply list_elem_of_singleton in Hj. subst j.
        unfold port_misses. rewrite Hport', Hno. reflexivity.
      - rewrite filter_snoc, flat_map_app. simpl.
        assert (Hd : is_dsa_port env s i = false).
        { unfold is_dsa_port. rewrite Hport'. exact Hno. }
        assert (Hp : port_part env w dst s i = []).
        { unfold port_part. rewrite Hport'.
          destruct (dsa_port_is_valid port); simpl in Hno |- *;
            [rewrite Hno|]; reflexivity. }
        rewrite Hd, Hp, !app_nil_r. exact Hw1. }
    destruct (negb (dsa_port_is_valid port)) eqn:Hvalid.
    { apply wp_ret. apply Hskip. apply negb_true_iff in Hvalid.
      rewrite Hvalid. reflexivity. }
    destruct (negb (dsa_port_is_dsa env port)) eqn:Hdsa.
    { apply wp_ret. apply Hskip. apply negb_true_iff in Hdsa.
      rewrite Hdsa. apply andb_false_r. }
    apply negb_false_iff in Hvalid, Hdsa.
    assert (Hisdsa : is_dsa_port env s i = true).
    { unfold is_dsa_port. rewrite Hport', Hvalid, Hdsa. reflexivity. }
    assert (Hpart : port_part env w dst s i =
                    omap (link_write w dst i) links).
    { unfold port_part. rewrite Hport', Hvalid, Hdsa. reflexivity. }
    apply wp_bind.
    eapply wp_mono;
      [apply (dsa_port_complete_done env w1 dst ds s1 t port i Ht1 Hlen Hs1)|].
    fold links. intros err w2 [Hw2 Herr].
    rewrite (before_miss_same_topology dst w w1) in Hw2, Herr by exact Hsame.
    rewrite (omap_link_write_same_topology dst w w1) in Hw2 by exact Hsame.
    assert (Hw2' : w2 = put_ds ds
                     (ds_with_dsa_port_mask
                        (set_marks (List.filter (is_dsa_port env s) pre)
                           (ds_dsa_port_mask s))
                        (ds_with_rtable
                           (apply_writes
                              (flat_map (port_part env w dst s) pre ++
                               omap (link_write w dst i)
                                 (before_miss w dst links))%list
                              (ds_rtable s)) s)) w).
    { rewrite Hw2, Hw1, <- Hs1'. rewrite put_ds_put_ds.
      rewrite apply_writes_app. reflexivity. }
    destruct (bool_decide (before_miss w dst links = links)) eqn:Hall;
      subst err.
    + destruct (decide (0 <> 0)) as [Hne|_]; [contradiction|].
      apply bool_decide_eq_true in Hall. rewrite Hall in Hw2'.
      apply wp_bind, wp_load_ds. intros s2 Hs2.
      apply wp_bind, wp_store_ds. intros s2' _. apply wp_ret.
      rewrite Hw2', put_ds_lookup in Hs2. injection Hs2 as <-.
      split.
      * intros j Hj. apply elem_of_app in Hj as [Hj|Hj]; [auto|].
        apply list_elem_of_singleton in Hj. subst j.
        unfold port_misses. rewrite Hport'. fold links.
        rewrite bool_decide_eq_true_2 by exact Hall. apply andb_false_r.
      * rewrite filter_snoc, Hisdsa, set_marks_snoc, flat_map_app. simpl.
        rewrite Hpart, app_nil_r.
        rewrite Hw2'. unfold put_ds. simpl. rewrite insert_insert_eq.
        reflexivity.
    + destruct (decide (1 <> 0)) as [_|Heq]; [|exfalso; apply Heq; discriminate].
      apply wp_ret.
      apply bool_decide_eq_false in Hall.
      assert (Hmiss : port_misses env w dst s i = true).
      { unfold port_misses. rewrite Hport', Hvalid, Hdsa. fold links.
        rewrite bool_decide_eq_false_2 by exact Hall. reflexivity. }
      assert (Hstuck : stuck_port env w dst s = Some i).
      { unfold stuck_port. rewrite Hsplit. apply find_first; assumption. }
      pose proof (seq_prefix _ _ _ _ Hsplit) as Hseq.
      unfold resolved, writes_done, marks_done.
      rewrite Hstuck, Hport', <- Hseq. fold links.
      split; [exact Hw2'|reflexivity].
  - intros w1 [Hpre Hw1]. apply wp_ret.
    assert (Hstuck : stuck_port env w dst s = None).
    { unfold stuck_port. apply find_all_false. exact Hpre. }
    unfold resolved, writes_done, marks_done. rewrite Hstuck.
    split; [exact Hw1|reflexivity].
Qed.

(** What a run leaves of a switch depends on the ports of the switch and
    on the topology only. *)
Lemma port_part_ports env dst w w' s s' idx :
  same_topology dst w w' -> ds_ports s' = ds_ports s ->
  port_part env w' dst s' idx = port_part env w dst s idx.
Proof.
  intros Hw Hp. unfold port_part. rewrite Hp.
  destruct (ds_ports s !! idx) as [port|]; [|reflexivity].
  destruct (negb _); [reflexivity|]. destruct (negb _); [reflexivity|].
  apply port_writes_same_topology. exact Hw.
Qed.

Lemma port_misses_ports env dst w w' s s' idx :
  same_topology dst w w' -> ds_ports s' = ds_ports s ->
  port_misses env w' dst s' idx = port_misses env w dst s idx.
Proof.
  intros Hw Hp. unfold port_misses. rewrite Hp.
  destruct (ds_ports s !! idx) as [port|]; [|reflexivity].
  rewrite (before_miss_same_topology dst w w') by exact Hw. reflexivity.
Qed.

Lemma stuck_port_ports env dst w w' s s' :
  same_topology dst w w' -> ds_ports s' = ds_ports s ->
  stuck_port env w' dst s' = stuck_port env w dst s.
Proof.
  intros Hw Hp. unfold stuck_port, ds_num_ports. rewrite Hp.
  generalize (seq 0 (length (ds_ports s))). intros l.
  induction l as [|i l IH]; [reflexivity|]. simpl.
  rewrite (port_misses_ports env dst w w' s s') by assumption.
  rewrite IH. reflexivity.
Qed.

Lemma writes_done_ports env dst w w' s s' :
  same_topology dst w w' -> ds_ports s' = ds_ports s ->
  writes_done env w' dst s' = writes_done env w dst s.
Proof.
  intros Hw Hp. unfold writes_done.
  rewrite (stuck_port_ports env dst w w' s s') by assumption.
  destruct (stuck_port env w dst s) as [k|].
  - f_equal.
    + generalize (seq 0 k). intros l.
      induction l as [|i l IH]; [reflexivity|]. simpl.
      rewrite (port_part_ports env dst w w' s s') by assumption.
      rewrite IH. reflexivity.
    + rewrite Hp. destruct (ds_ports s !! k) as [port|]; [|reflexivity].
      rewrite (before_miss_same_topology dst w w') by exact Hw.
      apply omap_link_write_same_topology. exact Hw.
  - apply ds_writes_same_topology; assumption.
Qed.

Lemma marks_done_ports env dst w w' s s' :
  same_topology dst w w' -> ds_ports s' = ds_ports s ->
  marks_done env w' dst s' = marks_done env w dst s.
Proof.
  intros Hw Hp. unfold marks_done, ds_num_ports.
  rewrite (stuck_port_ports env dst w w' s s') by assumption. rewrite Hp.
  apply List.filter_ext. intros i. unfold is_dsa_port. rewrite Hp.
  reflexivity.
Qed.

Lemma set_marks_testbit marks (m : u32) j :
  Z.testbit (set_marks marks m) (Z.of_nat j) =
  Z.testbit m (Z.of_nat j) ||
  (bool_decide (j ∈ marks) && bool_decide (j < 32)%nat).
Proof.
  induction marks as [|i marks IH] using rev_ind.
  - unfold set_marks. cbn [foldl].
    rewrite (bool_decide_eq_false_2 (j ∈ [])) by apply not_elem_of_nil.
    symmetry. apply orb_false_r.
  - rewrite set_marks_snoc, set_mask_bit_testbit, IH.
    destruct (decide (i = j)) as [->|Hne].
    + rewrite (bool_decide_eq_true_2 (j = j)) by reflexivity.
      rewrite (bool_decide_eq_true_2 (j ∈ (marks ++ [j])%list))
        by (apply elem_of_app; right; apply list_elem_of_singleton;
            reflexivity).
      destruct (Z.testbit m (Z.of_nat j)), (bool_decide (j ∈ marks)),
        (bool_decide (j < 32)%nat); reflexivity.
    + rewrite (bool_decide_eq_false_2 (i = j)) by exact Hne.
      rewrite andb_false_l, orb_false_r. f_equal. f_equal.
      apply bool_decide_ext. rewrite elem_of_app, list_elem_of_singleton.
      split; [auto|]. intros [H|H]; [exact H|]. congruence.
Qed.

Lemma set_marks_idem marks m :
  set_marks marks (set_marks marks m) = set_marks marks m.
Proof.
  apply u32_eq. apply Z.bits_inj'. intros n Hn.
  rewrite <- (Z2Nat.id n) by exact Hn. rewrite !set_marks_testbit.
  destruct (Z.testbit m _), (bool_decide _), (bool_decide _); reflexivity.
Qed.

(** A second run of [dsa_ds_complete] on a switch changes nothing. *)
Lemma resolved_idem env w dst s :
  resolved env w dst (resolved env w dst s) = resolved env w dst s.
Proof.
  unfold resolved at 1.
  rewrite (writes_done_ports env dst w w s (resolved env w dst s))
    by (try apply same_topology_refl; reflexivity).
  rewrite (marks_done_ports env dst w w s (resolved env w dst s))
    by (try apply same_topology_refl; reflexivity).
  unfold resolved. simpl. rewrite set_marks_idem, apply_writes_idem.
  reflexivity.
Qed.

Lemma resolved_ports env dst w w' s s' :
  same_topology dst w w' -> ds_ports s' = ds_ports s ->
  resolved env w' dst s' =
  ds_with_dsa_port_mask
    (set_marks (marks_done env w dst s) (ds_dsa_port_mask s'))
    (ds_with_rtable (apply_writes (writes_done env w dst s) (ds_rtable s')) s').
Proof.
  intros Hw Hp. unfold resolved.
  rewrite (writes_done_ports env dst w w' s s') by assumption.
  rewrite (marks_done_ports env dst w w' s s') by assumption.
  reflexivity.
Qed.

Lemma visited_slots_app env w dst pre rest :
  (forall ds, ds ∈ omap id pre ->
     exists s, w_switches w !! ds = Some s /\
               stuck_port env w dst s = None) ->
  visited_slots env w dst (pre ++ rest) =
  (omap id pre ++ visited_slots env w dst rest)%list.
Proof.
  induction pre as [|slot pre IH]; intros H; [reflexivity|].
  destruct slot as [ds|]; simpl.
  - destruct (H ds) as (s & Hs & Hst); [simpl; apply elem_of_cons; auto|].
    rewrite Hs, Hst. f_equal. apply IH. intros d Hd. apply H. simpl.
    apply elem_of_cons. auto.
  - apply IH. intros d Hd. apply H. exact Hd.
Qed.

(** [dsa_dst_complete] runs [dsa_ds_complete] on the members in slot
    order, up to and including the first on which it returns 1; it
    touches no other switch and takes nothing back. *)
Lemma dsa_dst_complete_done env w dst t :
  w_trees w !! dst = Some t ->
  length (dst_ds t) = DSA_MAX_SWITCHES ->
  wp (dsa_dst_complete env dst)
     (fun r w' =>
        forall p, w_switches w' !! p =
                  if bool_decide (p ∈ visited env w dst)
                  then resolved env w dst <$> w_switches w !! p
                  else w_switches w !! p) w.
Proof.
  intros Ht Hlen. unfold dsa_dst_complete, visited, slots. rewrite Ht.
  apply (wp_for_each_prefix
    (fun pre w' =>
       (forall ds, ds ∈ omap id (take (length pre) (dst_ds t)) ->
          exists s, w_switches w !! ds = Some s /\
                    stuck_port env w dst s = None) /\
       w_trees w' = w_trees w /\
       forall p, w_switches w' !! p =
                 if bool_decide (p ∈ omap id (take (length pre) (dst_ds t)))
                 then resolved env w dst <$> w_switches w !! p
                 else w_switches w !! p)).
  - cbn [length take omap]. split; [intros ds H; inversion H|].
    split; [reflexivity|]. intros p.
    rewrite bool_decide_eq_false_2 by apply not_elem_of_nil. reflexivity.
  - intros pre j post w1 Hsplit (Hthrough & Htrees & Hsw).
    destruct (seq_split _ _ _ _ Hsplit) as [Hj Hlt].
    assert (Hsame : same_topology dst w w1).
    { split; [rewrite Htrees; reflexivity|]. intros p. rewrite Hsw.
      destruct (w_switches w !! p) as [s|]; destruct (bool_decide _);
        constructor; split; reflexivity. }
    assert (Ht1 : w_trees w1 !! dst = Some t) by (rewrite Htrees; exact Ht).
    apply wp_bind, wp_load_dst. intros t' Ht'.
    assert (t' = t) by congruence. subst t'.
    apply wp_bind, wp_array_get. intros slot Hslot.
    assert (Htake : take (length (pre ++ [j])%list) (dst_ds t) =
                    (take (length pre) (dst_ds t) ++ [slot])%list).
    { rewrite length_app. simpl. rewrite Nat.add_1_r, <- Hj.
      apply take_S_r. exact Hslot. }
    assert (Hslots : dst_ds t =
                     (take (length pre) (dst_ds t) ++
                      slot :: drop (S j) (dst_ds t))%list).
    { rewrite <- Hj. symmetry. apply take_drop_middle. exact Hslot. }
    destruct slot as [ds|].
    + apply wp_bind. apply wp_intro. intros err w2 Hrun.
      destruct (w_switches w1 !! ds) as [s1|] eqn:Hs1.
      2:{ unfold dsa_ds_complete, bind, load_ds in Hrun.
          rewrite Hs1 in Hrun. discriminate. }
      destruct (w_switches w !! ds) as [s|] eqn:Hs.
      2:{ rewrite Hsw, Hs in Hs1. destruct (bool_decide _); discriminate. }
      pose proof (wp_elim _ _ _ _ _
                    (dsa_ds_complete_done env w1 dst ds s1 t Ht1 Hlen Hs1)
                    Hrun) as [Hw2 Herr].
      assert (Hports : ds_ports s1 = ds_ports s).
      { rewrite Hsw, Hs in Hs1.
        destruct (bool_decide _); injection Hs1 as <-; reflexivity. }
      rewrite (stuck_port_ports env dst w w1 s s1) in Herr by assumption.
      assert (Hres : resolved env w1 dst s1 = resolved env w dst s).
      { rewrite Hsw, Hs in Hs1.
        destruct (bool_decide _) eqn:Hdone; injection Hs1 as <-.
        - rewrite (resolved_ports env dst w w1 s (resolved env w dst s))
            by assumption.
          apply resolved_idem.
        - apply (resolved_ports env dst w w1 s s); [exact Hsame|reflexivity]. }
      rewrite Hres in Hw2.
      assert (Hnew : forall p,
                w_switches w2 !! p =
                if bool_decide
                     (p ∈ (omap id (take (length pre) (dst_ds t)) ++ [ds])%list)
                then resolved env w dst <$> w_switches w !! p
                else w_switches w !! p).
      { intros p. rewrite Hw2. destruct (decide (p = ds)) as [->|Hp].
        - rewrite put_ds_lookup, Hs.
          rewrite bool_decide_eq_true_2; [reflexivity|].
          apply elem_of_app. right. apply list_elem_of_singleton. reflexivity.
        - unfold put_ds. simpl. rewrite lookup_insert_ne by auto.
          rewrite Hsw. apply (f_equal (fun b : bool => if b then _ else _)).
          apply bool_decide_ext. rewrite elem_of_app, list_elem_of_singleton.
          split; [auto|]. intros [H|H]; [exact H|contradiction]. }
      destruct (stuck_port env w dst s) as [k|] eqn:Hstuck; subst err.
      * destruct (decide (1 <> 0)) as [_|Hz]; [|exfalso; apply Hz; discriminate].
        apply wp_ret. intros p. rewrite Hslots.
        rewrite (visited_slots_app env w dst _ _ Hthrough). simpl.
        rewrite Hs, Hstuck. apply Hnew.
      * destruct (decide (0 <> 0)) as [Hz|_]; [contradiction|].
        apply wp_ret. rewrite Htake, omap_app. simpl.
        split; [|split; [rewrite Hw2; exact Htrees|exact Hnew]].
        intros d Hd. apply elem_of_app in Hd as [Hd|Hd]; [auto|].
        apply list_elem_of_singleton in Hd. subst d. eauto.
    + apply wp_ret. rewrite Htake, omap_app. simpl. rewrite app_nil_r.
      auto.
  - intros w1 (Hthrough & Htrees & Hsw). apply wp_ret. intros p.
    rewrite length_seq, take_ge in Hthrough, Hsw by lia.
    pose proof (visited_slots_app env w dst (dst_ds t) [] Hthrough) as Hv.
    rewrite !app_nil_r in Hv. rewrite Hv. apply Hsw.
Qed.

(** C1 (as amended): on a well-formed tree the resolver returns Complete
    (0) if and only if, for every occupied slot and every valid DsaLink
    port, every link reference of that port matches a port of some
    registered member; if any reference fails to resolve it returns
    Incomplete (1). The run changes nothing but routing-table entries and
    DSA port mask bits of the switches, and it takes nothing back: each
    member up to and including the first with an unresolved reference
    ([visited]) has the writes of its references before that reference
    applied to its routing table ([writes_done]) and the bits of its DSA
    ports before the port of that reference set in its mask
    ([marks_done]); no other switch is touched. *)
Theorem dsa_dst_complete_verdict env w dst :
  wf_tree w dst = true ->
  exists r w',
    dsa_dst_complete env dst w = Some (r, w') /\
    (r = 0 \/ r = 1) /\
    (r = 0 <-> all_links_resolve env w dst) /\
    (r = 1 <-> ~ all_links_resolve env w dst) /\
    resolver_frame w w' /\
    forall p s, w_switches w !! p = Some s ->
      exists s',
        w_switches w' !! p = Some s' /\
        ds_rtable s' =
          (if bool_decide (p ∈ visited env w dst)
           then apply_writes (writes_done env w dst s) (ds_rtable s)
           else ds_rtable s) /\
        ds_dsa_port_mask s' =
          (if bool_decide (p ∈ visited env w dst)
           then set_marks (marks_done env w dst s) (ds_dsa_port_mask s)
           else ds_dsa_port_mask s).
Proof.
  intros Hwf.
  destruct (dsa_dst_complete_spec env w dst Hwf) as (r & w' & Hrun & Hf & Hr).
  destruct (wf_tree_inv _ _ Hwf) as (t & Ht & Hlen & _).
  pose proof (wp_elim _ _ _ _ _ (dsa_dst_complete_done env w dst t Ht Hlen)
                Hrun) as Hsw.
  exists r, w'. split; [exact Hrun|].
  assert (Hdone : forall p s, w_switches w !! p = Some s ->
            exists s',
              w_switches w' !! p = Some s' /\
              ds_rtable s' =
                (if bool_decide (p ∈ visited env w dst)
                 then apply_writes (writes_done env w dst s) (ds_rtable s)
                 else ds_rtable s) /\
              ds_dsa_port_mask s' =
                (if bool_decide (p ∈ visited env w dst)
                 then set_marks (marks_done env w dst s) (ds_dsa_port_mask s)
                 else ds_dsa_port_mask s)).
  { intros p s Hs. rewrite Hsw, Hs.
    destruct (bool_decide (p ∈ visited env w dst)); eexists;
      (split; [reflexivity|split; reflexivity]). }
  destruct Hr as [[-> Hall]|[-> Hnot]].
  - split; [auto|]. split; [tauto|]. split; [|split; [exact Hf|exact Hdone]].
    split; [discriminate|contradiction].
  - split; [auto|]. split; [|split; [tauto|split; [exact Hf|exact Hdone]]].
    split; [discriminate|contradiction].
Qed.

Lemma dsa_dst_complete_verdict_witness :
  exists r w',
    dsa_dst_complete partial_env 50%nat partial_world = Some (r, w') /\
    (r = 0 \/ r = 1) /\
    (r = 0 <-> all_links_resolve partial_env partial_world 50%nat) /\
    (r = 1 <-> ~ all_links_resolve partial_env partial_world 50%nat) /\
    resolver_frame partial_world w' /\
    forall p s, w_switches partial_world !! p = Some s ->
      exists s',
        w_switches w' !! p = Some s' /\
        ds_rtable s' =
          (if bool_decide (p ∈ visited partial_env partial_world 50%nat)
           then apply_writes (writes_done partial_env partial_world 50%nat s)
                  (ds_rtable s)
           else ds_rtable s) /\
        ds_dsa_port_mask s' =
          (if bool_decide (p ∈ visited partial_env partial_world 50%nat)
           then set_marks (marks_done partial_env partial_world 50%nat s)
                  (ds_dsa_port_mask s)
           else ds_dsa_port_mask s).
Proof.
  apply (dsa_dst_complete_verdict partial_env partial_world 50%nat).
  vm_compute. reflexivity.
Defined.

(** C1, the claim as stated fails: with the reference of port 0 of switch
    10 resolved (to member 1) and the reference of its port 1 unresolved,
    the resolver returns Incomplete, yet the routing-table entry and the
    DSA port mask bit it wrote for port 0 during that run are left
    behind. *)
Lemma dsa_dst_complete_leaves_partial_table :
  exists w',
    dsa_dst_complete partial_env 50%nat partial_world = Some (1, w') /\
    ds_rtable <$> w_switches partial_world !! 10%nat = Some [-1; -1; -1; -1] /\
    ds_dsa_port_mask <$> w_switches partial_world !! 10%nat =
      Some (to_u32 0) /\
    ds_rtable <$> w_switches w' !! 10%nat = Some [-1; 0; -1; -1] /\
    ds_dsa_port_mask <$> w_switches w' !! 10%nat = Some (to_u32 1).
Proof.
  eexists. split; [vm_compute; reflexivity|].
  repeat split; vm_compute; reflexivity.
Qed.

(** The loop of lines 693-694 empties the routing table. *)
Lemma rtable_init_run ds s w :
  w_switches w !! ds = Some s ->
  length (ds_rtable s) = DSA_MAX_SWITCHES ->
  for_each (seq 0 DSA_MAX_SWITCHES)
    (fun i =>
       s <- load_ds ds ;;
       rtable <- array_set (ds_rtable s) i DSA_RTABLE_NONE ;;
       store_ds ds (ds_with_rtable rtable s) ;;;
       ret (@None unit))
    (ret tt) w =
  Some (tt, put_ds ds
              (ds_with_rtable (replicate DSA_MAX_SWITCHES DSA_RTABLE_NONE) s)
              w).
Proof.
  intros Hs Hlen.
  pose (rt := fun n : nat =>
          (replicate n DSA_RTABLE_NONE ++ drop n (ds_rtable s))%list).
  destruct (for_each_hoare
    (fun pre w' => w' = put_ds ds (ds_with_rtable (rt (length pre)) s) w)
    (fun (_ : unit) w' =>
       w' = put_ds ds (ds_with_rtable (rt DSA_MAX_SWITCHES) s) w)
    (seq 0 DSA_MAX_SWITCHES)
    (fun i =>
       s <- load_ds ds ;;
       rtable <- array_set (ds_rtable s) i DSA_RTABLE_NONE ;;
       store_ds ds (ds_with_rtable rtable s) ;;;
       ret (@None unit))
    (ret tt)) with (w := w) as (v & w' & Hrun & Hw').
  - intros pre i post w1 Hsplit ->.
    destruct (seq_split _ _ _ _ Hsplit) as [Hi Hlt].
    pose proof (put_ds_lookup ds (ds_with_rtable (rt (length pre)) s) w) as H.
    assert (Hlen' : (i < length (ds_rtable
                                   (ds_with_rtable (rt (length pre)) s)))%nat).
    { simpl. unfold rt. rewrite length_app, length_replicate, length_drop.
      lia. }
    assert (Hrt : <[i := DSA_RTABLE_NONE]> (rt (length pre)) =
                  rt (length (pre ++ [i])%list)).
    { rewrite length_app. simpl. rewrite Nat.add_1_r, <- Hi. unfold rt.
      destruct (lookup_lt_is_Some_2 (ds_rtable s) i) as [x Hx]; [lia|].
      rewrite (drop_S _ _ _ Hx), replicate_S_end, <- app_assoc.
      rewrite insert_app_r_alt by (rewrite length_replicate; lia).
      rewrite length_replicate, Nat.sub_diag. reflexivity. }
    rewrite <- Hrt. clearbody rt.
    eexists None, _. split; [mrun; reflexivity|].
    unfold put_ds. simpl. rewrite insert_insert_eq. reflexivity.
  - intros w1 Hw1. exists tt, w1. split; [reflexivity|].
    rewrite Hw1, length_seq. reflexivity.
  - simpl. unfold rt. simpl. rewrite drop_0. symmetry. apply put_ds_id.
    rewrite Hs. f_equal. destruct s; reflexivity.
  - destruct v. rewrite Hrun, Hw'. unfold rt.
    rewrite drop_ge by lia. rewrite app_nil_r. reflexivity.
Qed.

(** Lines 690-700 are a resolver run on the store in which the switch has
    joined. *)
Lemma dsa_register_resolve_run env ds dst index pd w s t :
  w_switches w !! ds = Some s ->
  length (ds_rtable s) = DSA_MAX_SWITCHES ->
  w_trees w !! dst = Some t ->
  (index < length (dst_ds t))%nat ->
  dsa_register_resolve env ds dst index pd w =
  dsa_dst_complete env dst (joined dst ds index pd w).
Proof.
  intros Hs Hlen Ht Hi. unfold dsa_register_resolve.
  mrun. fold (put_ds ds (ds_with_member (Some dst) index pd s) w).
  erewrite (bind_Some (for_each _ _ _));
    [|apply (rtable_init_run ds (ds_with_member (Some dst) index pd s));
      [apply put_ds_lookup|exact Hlen]].
  rewrite put_ds_put_ds.
  erewrite (bind_Some (dsa_dst_add_ds _ _ _));
    [|apply (dsa_dst_add_ds_Some dst ds index t); [exact Ht|exact Hi]].
  unfold joined. rewrite Hs, Ht. reflexivity.
Qed.

Lemma unique_owner_ports w w' :
  (forall p s', w_switches w' !! p = Some s' ->
     exists s, w_switches w !! p = Some s /\ ds_ports s' = ds_ports s) ->
  unique_owner w -> unique_owner w'.
Proof.
  intros Hports Hu p q s s' link Hp Hq Hl Hl'.
  destruct (Hports p s Hp) as (s0 & Hp0 & Hps).
  destruct (Hports q s' Hq) as (s0' & Hq0 & Hqs).
  apply (Hu p q s0 s0' link Hp0 Hq0).
  - unfold dsa_ds_find_port_dn in *. rewrite <- Hps. exact Hl.
  - unfold dsa_ds_find_port_dn in *. rewrite <- Hqs. exact Hl'.
Qed.

Lemma joined_unfold dst ds i pd w s t :
  w_switches w !! ds = Some s -> w_trees w !! dst = Some t ->
  w_trees (joined dst ds i pd w) =
    <[dst := dst_with_ds (<[i := Some ds]> (dst_ds t))
               (dst_with_refcount (dst_refcount t + 1) t)]> (w_trees w) /\
  w_switches (joined dst ds i pd w) =
    <[ds := registered dst i pd s]> (w_switches w).
Proof. intros Hs Ht. unfold joined. rewrite Hs, Ht. split; reflexivity. Qed.

Lemma can_join_inv w dst ds i :
  can_join w dst ds i ->
  exists t s,
    w_trees w !! dst = Some t /\ slots w dst = dst_ds t /\
    length (dst_ds t) = DSA_MAX_SWITCHES /\ (i < DSA_MAX_SWITCHES)%nat /\
    w_switches w !! ds = Some s /\ length (ds_rtable s) = DSA_MAX_SWITCHES.
Proof.
  intros (Hwf & _ & Hfree & _ & s & Hs & Hlen).
  destruct (wf_tree_inv _ _ Hwf) as (t & Ht & Hlt & _).
  exists t, s. unfold slots in *. rewrite Ht in *.
  repeat split; try assumption.
  rewrite <- Hlt. eapply lookup_lt_Some. exact Hfree.
Qed.

Lemma slots_joined w dst ds i pd :
  can_join w dst ds i ->
  slots (joined dst ds i pd w) dst = <[i := Some ds]> (slots w dst).
Proof.
  intros Hj. destruct (can_join_inv _ _ _ _ Hj) as (t & s & Ht & Hsl & _ & _ & Hs & _).
  destruct (joined_unfold dst ds i pd w s t Hs Ht) as [Htr _].
  unfold slots. rewrite Htr, lookup_insert_eq, Ht. reflexivity.
Qed.

Lemma switches_joined w dst ds i pd s :
  can_join w dst ds i -> w_switches w !! ds = Some s ->
  w_switches (joined dst ds i pd w) =
    <[ds := registered dst i pd s]> (w_switches w).
Proof.
  intros Hj Hs. destruct (can_join_inv _ _ _ _ Hj) as (t & s' & Ht & _).
  apply (joined_unfold dst ds i pd w s t Hs Ht).
Qed.

Lemma omap_insert_free (l : list (option ptr)) i ds :
  l !! i = Some None ->
  omap id (<[i := Some ds]> l) ≡ₚ ds :: omap id l.
Proof.
  intros Hi. rewrite insert_take_drop by (eapply lookup_lt_Some; exact Hi).
  rewrite <- (take_drop_middle l i None Hi) at 3.
  rewrite !omap_app. simpl. symmetry. apply Permutation_middle.
Qed.

Lemma members_joined w dst ds i pd :
  can_join w dst ds i ->
  members (joined dst ds i pd w) dst ≡ₚ ds :: members w dst.
Proof.
  intros Hj. unfold members. rewrite slots_joined by exact Hj.
  apply omap_insert_free. apply Hj.
Qed.

Lemma wf_tree_joined w dst ds i pd :
  can_join w dst ds i -> wf_tree (joined dst ds i pd w) dst = true.
Proof.
  intros Hj.
  destruct (can_join_inv _ _ _ _ Hj) as (t & s & Ht & Hsl & Hlen & Hi & Hs & Hrt).
  destruct (joined_unfold dst ds i pd w s t Hs Ht) as [Htr Hsw].
  destruct Hj as (Hwf & _).
  destruct (wf_tree_inv _ _ Hwf) as (t' & Ht' & _ & Hok).
  assert (t' = t) by congruence. subst t'.
  eapply wf_tree_intro.
  - rewrite Htr. apply lookup_insert_eq.
  - simpl. rewrite length_insert. exact Hlen.
  - simpl. intros j d Hd. rewrite Hsw.
    destruct (decide (d = ds)) as [->|Hne].
    + rewrite lookup_insert_eq. eexists. split; [reflexivity|].
      simpl. split; [exact Hi|reflexivity].
    + rewrite lookup_insert_ne by auto.
      destruct (decide (j = i)) as [->|Hji].
      * rewrite list_lookup_insert_eq in Hd by lia. congruence.
      * rewrite list_lookup_insert_ne in Hd by auto. eapply Hok. exact Hd.
Qed.

Lemma member_at_same_topology dst w w' i ds s :
  same_topology dst w w' -> member_at w dst i ds s ->
  exists s', member_at w' dst i ds s' /\ ds_ports s' = ds_ports s.
Proof.
  intros [Htr Hsw] (t & Ht & Hi & Hs).
  rewrite Ht in Htr. destruct (w_trees w' !! dst) as [t'|] eqn:Ht';
    [|discriminate]. simpl in Htr. injection Htr as Htr.
  pose proof (Hsw ds) as H. rewrite Hs in H.
  inversion H as [s0 s' [Hp _] E1 E2|]; subst.
  exists s'. split; [|exact Hp]. exists t'. rewrite Htr. auto.
Qed.

Lemma resolves_same_topology dst w w' link :
  same_topology dst w w' -> resolves w dst link -> resolves w' dst link.
Proof.
  intros Hsame (i & ds & s & Hm & Hf).
  destruct (member_at_same_topology dst w w' i ds s Hsame Hm) as (s' & Hm' & Hp).
  exists i, ds, s'. split; [exact Hm'|].
  unfold dsa_ds_find_port_dn in *. rewrite Hp. exact Hf.
Qed.

Lemma all_links_resolve_same_topology env dst w w' :
  same_topology dst w w' ->
  all_links_resolve env w dst -> all_links_resolve env w' dst.
Proof.
  intros Hsame Hall i ds s' port link Hm Hport Hclass Hlink.
  destruct (member_at_same_topology dst w' w i ds s'
              (same_topology_sym _ _ _ Hsame) Hm) as (s & Hm0 & Hp).
  apply (resolves_same_topology dst w w' link Hsame).
  apply (Hall i ds s port link Hm0); [rewrite Hp|..]; assumption.
Qed.

(** Joining leaves the ports of every switch as they are. *)
Lemma unique_owner_joined w dst ds i pd :
  unique_owner w -> unique_owner (joined dst ds i pd w).
Proof.
  apply unique_owner_ports. intros p s'. unfold joined.
  destruct (w_switches w !! ds) as [s|] eqn:Hs; [|eauto].
  destruct (w_trees w !! dst) as [t|]; [|eauto]. simpl.
  destruct (decide (p = ds)) as [->|Hne].
  - rewrite lookup_insert_eq. intros [= <-]. exists s. auto.
  - rewrite lookup_insert_ne by auto. eauto.
Qed.

Lemma slots_same_topology dst w w' :
  same_topology dst w w' -> slots w' dst = slots w dst.
Proof.
  intros [Htr _]. unfold slots.
  destruct (w_trees w !! dst), (w_trees w' !! dst); simpl in Htr;
    congruence.
Qed.

Lemma writes_of_run env w dst r w' :
  wf_tree w dst = true -> NoDup (members w dst) ->
  dsa_dst_complete env dst w = Some (r, w') ->
  forall p s, w_switches w !! p = Some s ->
    exists s' ws ws',
      w_switches w' !! p = Some s' /\
      ds_writes env w dst s = (ws ++ ws')%list /\
      ds_rtable s' = apply_writes ws (ds_rtable s) /\
      (p ∉ members w dst -> ws = []) /\
      (r = 0 -> p ∈ members w dst -> ws' = []).
Proof.
  intros Hwf Hnd Hrun.
  destruct (wf_tree_inv _ _ Hwf) as (t & Ht & Hlen & _).
  unfold members, slots in *. rewrite Ht in *.
  exact (wp_elim _ _ _ _ _
           (dsa_dst_complete_writes env w dst t Ht Hlen Hnd) Hrun).
Qed.

(** ** Registry: computations that leave the switches alone *)

Lemma keeps_switches_elim {A} (m : M A) w r w' :
  keeps_switches m -> m w = Some (r, w') -> w_switches w' = w_switches w.
Proof. intros H Hrun. exact (wp_elim _ _ _ _ _ (H w) Hrun). Qed.

Lemma keeps_switches_ret {A} (a : A) : keeps_switches (ret a).
Proof. intros w. apply wp_ret. reflexivity. Qed.

Lemma keeps_switches_fault {A} : keeps_switches (@fault A).
Proof. intros w. apply wp_fault. Qed.

Lemma keeps_switches_bind {A B} (m : M A) (k : A -> M B) :
  keeps_switches m -> (forall a, keeps_switches (k a)) ->
  keeps_switches (bind m k).
Proof.
  intros Hm Hk w. apply wp_bind. eapply wp_mono; [apply Hm|].
  intros a w1 H1. simpl. eapply wp_mono; [apply Hk|].
  intros b w2 H2. simpl in *. congruence.
Qed.

Lemma keeps_switches_load_dst p : keeps_switches (load_dst p).
Proof. intros w. apply wp_load_dst. reflexivity. Qed.

Lemma keeps_switches_store_dst p t : keeps_switches (store_dst p t).
Proof. intros w. apply wp_store_dst. reflexivity. Qed.

Lemma keeps_switches_load_ds p : keeps_switches (load_ds p).
Proof. intros w. apply wp_load_ds. reflexivity. Qed.

Lemma keeps_switches_array_set {A} (a : list A) i x :
  keeps_switches (array_set a i x).
Proof. intros w. apply wp_array_set. reflexivity. Qed.

Lemma keeps_switches_load_lh a : keeps_switches (load_lh a).
Proof.
  destruct a as [|p|]; simpl.
  - intros w. apply wp_intro. intros l w' [= _ <-]. reflexivity.
  - apply keeps_switches_bind; [apply keeps_switches_load_dst|].
    intros t. apply keeps_switches_ret.
  - apply keeps_switches_fault.
Qed.

Lemma keeps_switches_store_lh a l : keeps_switches (store_lh a l).
Proof.
  destruct a as [|p|]; simpl.
  - intros w. apply wp_intro. intros u w' [= _ <-]. reflexivity.
  - apply keeps_switches_bind; [apply keeps_switches_load_dst|].
    intros t. apply keeps_switches_store_dst.
  - apply keeps_switches_fault.
Qed.

Lemma keeps_switches_kfree p : keeps_switches (kfree p).
Proof. intros w. apply wp_intro. intros u w' [= _ <-]. reflexivity. Qed.

(** The registry functions are built from the steps above. *)
Ltac keeps_switches :=
  repeat first
    [ apply keeps_switches_ret
    | apply keeps_switches_fault
    | apply keeps_switches_load_dst
    | apply keeps_switches_store_dst
    | apply keeps_switches_load_ds
    | apply keeps_switches_array_set
    | apply keeps_switches_load_lh
    | apply keeps_switches_store_lh
    | apply keeps_switches_kfree
    | apply keeps_switches_bind; [|intros ?]
    | match goal with
      | |- keeps_switches (if ?b then _ else _) => destruct b
      | |- keeps_switches (match ?x with _ => _ end) => destruct x
      end ].

Lemma keeps_switches_set_next a v : keeps_switches (set_next a v).
Proof. unfold set_next. keeps_switches. Qed.

Lemma keeps_switches_set_prev a v : keeps_switches (set_prev a v).
Proof. unfold set_prev. keeps_switches. Qed.

Lemma keeps_switches_list_del e : keeps_switches (list_del e).
Proof.
  unfold list_del, __list_del.
  repeat first [ apply keeps_switches_set_next | apply keeps_switches_set_prev
               | progress keeps_switches ].
Qed.

Lemma keeps_switches_put_dst dst : keeps_switches (dsa_put_dst dst).
Proof.
  unfold dsa_put_dst, kref_put, dsa_free_dst.
  repeat first [ apply keeps_switches_list_del | progress keeps_switches ].
Qed.

Lemma keeps_switches_del_ds dst ds index :
  keeps_switches (dsa_dst_del_ds dst ds index).
Proof.
  unfold dsa_dst_del_ds.
  repeat first [ apply keeps_switches_put_dst | progress keeps_switches ].
Qed.

Lemma keeps_switches_out dst err : keeps_switches (out dst err).
Proof.
  unfold out.
  repeat first [ apply keeps_switches_put_dst | progress keeps_switches ].
Qed.

Lemma keeps_switches_out_del_dst dst ds err :
  keeps_switches (out_del_dst dst ds err).
Proof.
  unfold out_del_dst.
  repeat first [ apply keeps_switches_del_ds | apply keeps_switches_out
               | progress keeps_switches ].
Qed.

Lemma keeps_switches_get_dst_walk tree fuel : forall pos,
  keeps_switches (dsa_get_dst_walk fuel pos tree).
Proof.
  induction fuel as [|fuel IH]; intros pos; simpl.
  - apply keeps_switches_fault.
  - destruct pos as [|p|]; [apply keeps_switches_ret| |apply keeps_switches_fault].
    apply keeps_switches_bind; [apply keeps_switches_load_dst|]. intros t.
    destruct (decide _); [|apply IH]. unfold kref_get. keeps_switches.
Qed.

Lemma keeps_switches_get_dst tree : keeps_switches (dsa_get_dst tree).
Proof.
  intros w. unfold dsa_get_dst.
  apply (keeps_switches_bind (load_lh LHead)
           (fun h => dsa_get_dst_walk (S (size (w_trees w))) (lh_next h) tree)).
  - apply keeps_switches_load_lh.
  - intros h. apply keeps_switches_get_dst_walk.
Qed.

Lemma keeps_switches_add_dst env tree : keeps_switches (dsa_add_dst env tree).
Proof.
  unfold dsa_add_dst. apply keeps_switches_bind.
  - unfold kzalloc_dst. destruct (kzalloc env) as [p|]; [|apply keeps_switches_ret].
    intros w. apply wp_intro. intros a w' H.
    destruct (w_trees w !! p); [discriminate|]. injection H as _ <-. reflexivity.
  - intros [dst|]; [|apply keeps_switches_ret].
    unfold INIT_LIST_HEAD, list_add_tail, __list_add, kref_init.
    repeat first [ apply keeps_switches_set_next | apply keeps_switches_set_prev
                 | progress keeps_switches ].
Qed.

Lemma keeps_switches_register_tree env tree :
  keeps_switches (dsa_register_tree env tree).
Proof.
  unfold dsa_register_tree. apply keeps_switches_bind.
  - apply keeps_switches_get_dst.
  - intros [d|]; [apply keeps_switches_ret|apply keeps_switches_add_dst].
Qed.

(** ** Configuration sources: parsing reads and writes one switch *)

Lemma local_ds_run {A} ds (m : M A) w1 w2 s r w1' :
  local_ds ds m ->
  w_switches w1 !! ds = Some s -> w_switches w2 !! ds = Some s ->
  m w1 = Some (r, w1') ->
  exists s', w1' = put_ds ds s' w1 /\ m w2 = Some (r, put_ds ds s' w2).
Proof.
  intros Hl H1 H2 Hrun. specialize (Hl w1 w2 s H1 H2). rewrite Hrun in Hl.
  destruct (m w2) as [[r2 w2']|]; [|contradiction].
  destruct Hl as (-> & s' & -> & ->). eauto.
Qed.

Lemma local_ds_pure {A} ds (o : option A) (m : M A) :
  (forall w, m w = match o with Some a => Some (a, w) | None => None end) ->
  local_ds ds m.
Proof.
  intros H w1 w2 s H1 H2. rewrite !H. destruct o as [a|]; [|exact I].
  split; [reflexivity|]. exists s. rewrite !put_ds_id by assumption. auto.
Qed.

Lemma local_ds_ret {A} ds (a : A) : local_ds ds (ret a).
Proof. apply (local_ds_pure ds (Some a)). reflexivity. Qed.

Lemma local_ds_fault {A} ds : local_ds ds (@fault A).
Proof. apply (local_ds_pure ds None). reflexivity. Qed.

Lemma local_ds_array_get {A} ds (a : list A) i : local_ds ds (array_get a i).
Proof.
  apply (local_ds_pure ds (a !! i)). intros w. unfold array_get.
  destruct (a !! i); reflexivity.
Qed.

Lemma local_ds_array_set {A} ds (a : list A) i x :
  local_ds ds (array_set a i x).
Proof.
  apply (local_ds_pure ds (if decide (i < length a)%nat
                           then Some (<[i := x]> a) else None)).
  intros w. unfold array_set. destruct (decide _); reflexivity.
Qed.

Lemma local_ds_load_ds ds : local_ds ds (load_ds ds).
Proof.
  intros w1 w2 s H1 H2. unfold load_ds. rewrite H1, H2.
  split; [reflexivity|]. exists s. rewrite !put_ds_id by assumption. auto.
Qed.

Lemma local_ds_store_ds ds s' : local_ds ds (store_ds ds s').
Proof.
  intros w1 w2 s H1 H2. unfold store_ds. rewrite H1, H2.
  split; [reflexivity|]. exists s'. auto.
Qed.

Lemma local_ds_bind {A B} ds (m : M A) (k : A -> M B) :
  local_ds ds m -> (forall a, local_ds ds (k a)) -> local_ds ds (bind m k).
Proof.
  intros Hm Hk w1 w2 s H1 H2. unfold bind.
  specialize (Hm w1 w2 s H1 H2).
  destruct (m w1) as [[a1 w1']|], (m w2) as [[a2 w2']|]; try contradiction;
    [|exact I].
  destruct Hm as (-> & s' & -> & ->).
  specialize (Hk a2 (put_ds ds s' w1) (put_ds ds s' w2) s'
                (put_ds_lookup _ _ _) (put_ds_lookup _ _ _)).
  destruct (k a2 (put_ds ds s' w1)) as [[b1 w1'']|],
           (k a2 (put_ds ds s' w2)) as [[b2 w2'']|]; try contradiction;
    [|exact I].
  destruct Hk as (-> & s'' & -> & ->). split; [reflexivity|].
  exists s''. rewrite !put_ds_put_ds. auto.
Qed.

Lemma local_ds_for_each {I R} ds (l : list I) (body : I -> M (option R))
  (after : M R) :
  (forall i, local_ds ds (body i)) -> local_ds ds after ->
  local_ds ds (for_each l body after).
Proof.
  intros Hbody Hafter. induction l as [|i l IH]; simpl; [exact Hafter|].
  apply local_ds_bind; [apply Hbody|].
  intros [v|]; [apply local_ds_ret|exact IH].
Qed.

Ltac local_ds :=
  repeat first
    [ apply local_ds_ret
    | apply local_ds_fault
    | apply local_ds_load_ds
    | apply local_ds_store_ds
    | apply local_ds_array_get
    | apply local_ds_array_set
    | apply local_ds_bind; [|intros ?]
    | apply local_ds_for_each; [intros ?|]
    | match goal with
      | |- local_ds _ (if ?b then _ else _) => destruct b
      | |- local_ds _ (match ?x with _ => _ end) => destruct x
      end ].

Lemma local_ds_enable_unless_cpu env ds index :
  local_ds ds (enable_unless_cpu env ds index).
Proof. unfold enable_unless_cpu. local_ds. Qed.

Lemma local_ds_parse_ports_dn env ports ds :
  local_ds ds (dsa_parse_ports_dn env ports ds).
Proof.
  unfold dsa_parse_ports_dn.
  repeat first [ apply local_ds_enable_unless_cpu | progress local_ds ].
Qed.

Lemma local_ds_parse_ports_loop env cd ds l : forall found,
  local_ds ds (dsa_parse_ports_loop env cd ds l found).
Proof.
  induction l as [|i l IH]; intros found; simpl.
  - apply local_ds_ret.
  - apply local_ds_bind; [apply local_ds_array_get|]. intros [name|]; [|apply IH].
    repeat first [ apply local_ds_enable_unless_cpu | apply IH
                 | progress local_ds ].
Qed.

Lemma local_ds_register_parse env ds dev :
  local_ds ds (dsa_register_parse env ds dev).
Proof.
  unfold dsa_register_parse, dsa_parse_ports.
  destruct (of_node dev) as [np|].
  - destruct (dsa_parse_member_dn env np) as [err member].
    repeat first [ apply local_ds_parse_ports_dn | progress local_ds ].
  - destruct (dsa_parse_member (platform_data dev)) as [err member].
    repeat first [ apply local_ds_parse_ports_loop | progress local_ds ].
Qed.

Lemma stores_ds_pure {A} ds (m : M A) :
  (forall w r w', m w = Some (r, w') -> w' = w) -> stores_ds ds m.
Proof. intros H w r w' Hrun. left. eapply H. exact Hrun. Qed.

Lemma stores_ds_ret {A} ds (a : A) : stores_ds ds (ret a).
Proof. apply stores_ds_pure. intros w r w' [= _ <-]. reflexivity. Qed.

Lemma stores_ds_fault {A} ds : stores_ds ds (@fault A).
Proof. apply stores_ds_pure. intros w r w' H. discriminate. Qed.

Lemma stores_ds_array_get {A} ds (a : list A) i : stores_ds ds (array_get a i).
Proof.
  apply stores_ds_pure. intros w r w' H. apply array_get_inv in H. tauto.
Qed.

Lemma stores_ds_array_set {A} ds (a : list A) i x :
  stores_ds ds (array_set a i x).
Proof.
  apply stores_ds_pure. intros w r w' H. apply array_set_inv in H. tauto.
Qed.

Lemma stores_ds_load_ds ds p : stores_ds ds (load_ds p).
Proof.
  apply stores_ds_pure. intros w r w' H. apply load_ds_inv in H. tauto.
Qed.

Lemma stores_ds_store_ds ds s' : stores_ds ds (store_ds ds s').
Proof.
  intros w r w' H. apply store_ds_inv in H as [Hs ->]. right. eauto.
Qed.

Lemma stores_ds_bind {A B} ds (m : M A) (k : A -> M B) :
  stores_ds ds m -> (forall a, stores_ds ds (k a)) -> stores_ds ds (bind m k).
Proof.
  intros Hm Hk w r w' H. apply bind_inv in H as (a & w1 & H1 & H2).
  apply Hm in H1. apply Hk in H2.
  destruct H1 as [->|(Hs & s1 & ->)]; [exact H2|].
  right. split; [exact Hs|].
  destruct H2 as [->|(_ & s2 & ->)]; [eauto|].
  exists s2. apply put_ds_put_ds.
Qed.

Lemma stores_ds_for_each {I R} ds (l : list I) (body : I -> M (option R))
  (after : M R) :
  (forall i, stores_ds ds (body i)) -> stores_ds ds after ->
  stores_ds ds (for_each l body after).
Proof.
  intros Hbody Hafter. induction l as [|i l IH]; simpl; [exact Hafter|].
  apply stores_ds_bind; [apply Hbody|].
  intros [v|]; [apply stores_ds_ret|exact IH].
Qed.

Ltac stores_ds :=
  repeat first
    [ apply stores_ds_ret
    | apply stores_ds_fault
    | apply stores_ds_load_ds
    | apply stores_ds_store_ds
    | apply stores_ds_array_get
    | apply stores_ds_array_set
    | apply stores_ds_bind; [|intros ?]
    | apply stores_ds_for_each; [intros ?|]
    | match goal with
      | |- stores_ds _ (if ?b then _ else _) => destruct b
      | |- stores_ds _ (match ?x with _ => _ end) => destruct x
      end ].

Lemma stores_ds_enable_unless_cpu env ds index :
  stores_ds ds (enable_unless_cpu env ds index).
Proof. unfold enable_unless_cpu. stores_ds. Qed.

Lemma stores_ds_parse_ports_dn env ports ds :
  stores_ds ds (dsa_parse_ports_dn env ports ds).
Proof.
  unfold dsa_parse_ports_dn.
  repeat first [ apply stores_ds_enable_unless_cpu | progress stores_ds ].
Qed.

Lemma stores_ds_parse_ports_loop env cd ds l : forall found,
  stores_ds ds (dsa_parse_ports_loop env cd ds l found).
Proof.
  induction l as [|i l IH]; intros found; simpl.
  - apply stores_ds_ret.
  - apply stores_ds_bind; [apply stores_ds_array_get|].
    intros [name|]; [|apply IH].
    repeat first [ apply stores_ds_enable_unless_cpu | apply IH
                 | progress stores_ds ].
Qed.

Lemma stores_ds_register_parse env ds dev :
  stores_ds ds (dsa_register_parse env ds dev).
Proof.
  unfold dsa_register_parse, dsa_parse_ports.
  destruct (of_node dev) as [np|].
  - destruct (dsa_parse_member_dn env np) as [err member].
    repeat first [ apply stores_ds_parse_ports_dn | progress stores_ds ].
  - destruct (dsa_parse_member (platform_data dev)) as [err member].
    repeat first [ apply stores_ds_parse_ports_loop | progress stores_ds ].
Qed.

(** Parsing the configuration of a switch that is in the store afterwards
    has stored that switch and nothing else. *)
Lemma dsa_register_parse_put env ds dev w r w' s' :
  dsa_register_parse env ds dev w = Some (r, w') ->
  w_switches w' !! ds = Some s' ->
  is_Some (w_switches w !! ds) /\ w' = put_ds ds s' w.
Proof.
  intros Hrun Hs'.
  destruct (stores_ds_register_parse env ds dev w r w' Hrun)
    as [->|(Hs & s1 & ->)].
  - split; [eauto|]. symmetry. apply put_ds_id. exact Hs'.
  - split; [exact Hs|]. rewrite put_ds_lookup in Hs'. congruence.
Qed.

(** The same parse from another store with the same switch. *)
Lemma dsa_register_parse_same env ds dev w1 w2 r s' :
  w_switches w2 !! ds = w_switches w1 !! ds ->
  is_Some (w_switches w1 !! ds) ->
  dsa_register_parse env ds dev w1 = Some (r, put_ds ds s' w1) ->
  dsa_register_parse env ds dev w2 = Some (r, put_ds ds s' w2).
Proof.
  intros Heq [s Hs] Hrun. rewrite Hs in Heq.
  destruct (local_ds_run ds _ w1 w2 s r _ (local_ds_register_parse env ds dev)
              Hs Heq Hrun) as (s2 & Hput & Hrun2).
  assert (s2 = s').
  { apply (f_equal (fun w => w_switches w !! ds)) in Hput.
    rewrite !put_ds_lookup in Hput. congruence. }
  subst s2. exact Hrun2.
Qed.

(** ** Registration: what follows the resolver keeps the routing tables *)

Lemma same_rtables_refl w : same_rtables w w.
Proof. intros p. reflexivity. Qed.

Lemma same_rtables_trans w1 w2 w3 :
  same_rtables w1 w2 -> same_rtables w2 w3 -> same_rtables w1 w3.
Proof. intros H1 H2 p. rewrite H2. apply H1. Qed.

Lemma same_rtables_switches w0 w w' :
  same_rtables w0 w -> w_switches w' = w_switches w -> same_rtables w0 w'.
Proof. intros H Hsw p. unfold rtable_of. rewrite Hsw. apply H. Qed.

Lemma same_rtables_store_ds w0 w q s0 s' :
  w_switches w !! q = Some s0 ->
  ds_rtable s' = ds_rtable s0 ->
  same_rtables w0 w ->
  same_rtables w0 (w_with_switches (<[q := s']> (w_switches w)) w).
Proof.
  intros Hq Hrt H p. rewrite <- (H p). unfold rtable_of. simpl.
  destruct (decide (p = q)) as [->|Hne].
  - rewrite lookup_insert_eq, Hq. simpl. congruence.
  - rewrite lookup_insert_ne by auto. reflexivity.
Qed.

Lemma same_rtables_store_dst w0 w q t :
  same_rtables w0 w ->
  same_rtables w0 (w_with_trees (<[q := t]> (w_trees w)) w).
Proof. intros H. exact H. Qed.

Lemma keeps_switches_rtables {A} (m : M A) w0 w :
  keeps_switches m -> same_rtables w0 w ->
  wp m (fun _ w' => same_rtables w0 w') w.
Proof.
  intros Hk H. eapply wp_mono; [apply Hk|].
  intros a w' Hsw. simpl in Hsw. eapply same_rtables_switches; eassumption.
Qed.

Ltac keeps_rtables :=
  repeat first
    [ assumption
    | apply same_rtables_store_dst
    | match goal with
      | H : _ = Some _ |- _ =>
          eapply (same_rtables_store_ds _ _ _ _ _ H); [reflexivity|]
      end ].

Lemma dsa_cpu_parse_rtables env port index dst ds w0 w :
  same_rtables w0 w ->
  wp (dsa_cpu_parse env port index dst ds) (fun _ w' => same_rtables w0 w') w.
Proof.
  intros H. unfold dsa_cpu_parse. wp_steps; keeps_rtables.
Qed.

Lemma dsa_ds_parse_rtables env dst ds w0 w :
  same_rtables w0 w ->
  wp (dsa_ds_parse env dst ds) (fun _ w' => same_rtables w0 w') w.
Proof.
  intros Ht. unfold dsa_ds_parse.
  apply wp_bind, wp_load_ds. intros s0 _.
  apply (wp_for_each (fun w' => same_rtables w0 w')); [exact Ht| |].
  - intros i w1 _ H1. apply wp_bind, wp_load_ds. intros s _.
    apply wp_bind, wp_array_get. intros port _.
    destruct (negb (dsa_port_is_valid port)); [apply wp_ret; exact H1|].
    destruct (dsa_port_is_cpu env port); [|apply wp_ret; exact H1].
    apply wp_bind.
    eapply wp_mono; [apply dsa_cpu_parse_rtables; exact H1|].
    intros err w2 H2. simpl. destruct (decide (err <> 0)); apply wp_ret; exact H2.
  - intros w1 H1. apply wp_ret. exact H1.
Qed.

Lemma dsa_dst_parse_rtables env dst w0 w :
  same_rtables w0 w ->
  wp (dsa_dst_parse env dst) (fun _ w' => same_rtables w0 w') w.
Proof.
  intros Ht. unfold dsa_dst_parse.
  apply (wp_for_each (fun w' => same_rtables w0 w')); [exact Ht| |].
  - intros i w1 _ H1. apply wp_bind, wp_load_dst. intros t _.
    apply wp_bind, wp_array_get. intros slot _.
    destruct slot as [ds|]; [|apply wp_ret; exact H1].
    apply wp_bind.
    eapply wp_mono; [apply dsa_ds_parse_rtables; exact H1|].
    intros err w2 H2. simpl. destruct (decide (err <> 0)); apply wp_ret; exact H2.
  - intros w1 H1. apply wp_bind, wp_load_dst. intros t _.
    destruct (dst_master_netdev t); apply wp_ret; exact H1.
Qed.

Lemma dsa_dst_apply_rtables env dst w0 w :
  same_rtables w0 w ->
  wp (dsa_dst_apply env dst) (fun _ w' => same_rtables w0 w') w.
Proof.
  intros H. eapply wp_mono; [apply dsa_dst_apply_frame|].
  intros r w' [Hsw _]. simpl. intros p. rewrite <- (H p). unfold rtable_of.
  destruct (Hsw p) as [s s' (Hrt & _)|]; simpl; [|reflexivity].
  f_equal. exact Hrt.
Qed.

Lemma unapply_port_rtable env s i :
  ds_rtable (unapply_port env s i) = ds_rtable s.
Proof.
  unfold unapply_port. destruct (ds_ports s !! i) as [port|]; [|reflexivity].
  destruct (classify env port); try reflexivity.
  destruct (port_netdev port); reflexivity.
Qed.

Lemma unapplied_rtable env s : ds_rtable (unapplied env s) = ds_rtable s.
Proof.
  unfold unapplied. generalize (seq 0 (ds_num_ports s)). intros l.
  revert s. induction l as [|i l IH]; intros s; [reflexivity|].
  simpl. rewrite IH. apply unapply_port_rtable.
Qed.

Lemma dsa_dst_unapply_rtables env dst w0 w :
  same_rtables w0 w ->
  wp (dsa_dst_unapply env dst) (fun _ w' => same_rtables w0 w') w.
Proof.
  intros H. unfold dsa_dst_unapply.
  apply wp_bind, wp_load_dst. intros t _.
  destruct (negb (dst_applied t)); [apply wp_ret; exact H|].
  apply wp_bind. unfold set_dsa_ptr.
  apply wp_bind, wp_load_dst. intros t1 _.
  destruct (dst_master_netdev t1) as [nd|]; [|apply wp_fault].
  apply wp_intro. intros u w1 Hrun. injection Hrun as _ <-.
  apply (wp_for_each (fun w' => same_rtables w0 w')); [exact H| |].
  - intros i w2 _ H1. apply wp_bind, wp_load_dst. intros t2 _.
    apply wp_bind, wp_array_get. intros slot _.
    destruct slot as [ds|]; [|apply wp_ret; exact H1].
    apply wp_bind.
    eapply wp_mono; [apply dsa_ds_unapply_wp|].
    intros u2 w3 (s & Hs & ->). simpl. apply wp_ret.
    unfold put_ds. eapply same_rtables_store_ds; [exact Hs| |exact H1].
    apply unapplied_rtable.
  - intros w1 H1. apply wp_bind, wp_load_dst. intros t2 _.
    apply wp_store_dst. intros _ _. exact H1.
Qed.

Lemma dsa_register_finish_rtables env ds dst err w :
  wp (dsa_register_finish env ds dst err)
     (fun _ w' => same_rtables w w') w.
Proof.
  unfold dsa_register_finish.
  destruct (decide (err < 0)).
  { apply keeps_switches_rtables;
      [apply keeps_switches_out_del_dst|apply same_rtables_refl]. }
  destruct (decide (err = 1)).
  { apply keeps_switches_rtables;
      [apply keeps_switches_out|apply same_rtables_refl]. }
  apply wp_bind, wp_load_dst. intros t _.
  destruct (dst_applied t); [apply wp_ret; apply same_rtables_refl|].
  apply wp_bind.
  eapply wp_mono; [apply dsa_dst_parse_rtables; apply same_rtables_refl|].
  intros e w1 H1. simpl.
  destruct (decide (e <> 0)).
  { destruct (decide (e = - EPROBE_DEFER)).
    - apply wp_bind, wp_load_ds. intros s _.
      apply wp_bind.
      eapply wp_mono;
        [apply keeps_switches_rtables; [apply keeps_switches_del_ds|exact H1]|].
      intros u w2 H2. simpl. apply wp_ret. exact H2.
    - apply keeps_switches_rtables;
        [apply keeps_switches_out_del_dst|exact H1]. }
  apply wp_bind.
  eapply wp_mono; [apply dsa_dst_apply_rtables; exact H1|].
  intros e3 w2 H2. simpl.
  destruct (decide (e3 <> 0)).
  { apply wp_bind.
    eapply wp_mono; [apply dsa_dst_unapply_rtables; exact H2|].
    intros u w3 H3. simpl.
    apply keeps_switches_rtables; [apply keeps_switches_out_del_dst|exact H3]. }
  apply wp_bind.
  eapply wp_mono;
    [apply keeps_switches_rtables; [apply keeps_switches_put_dst|exact H2]|].
  intros u w3 H3. simpl. apply wp_ret. exact H3.
Qed.

(** A registration that gets to the resolver is the resolver stage and
    what follows it. *)
Lemma reaches_resolver_run env ds dev dst index w j :
  reaches_resolver env ds dev dst index w j ->
  _dsa_register_switch env ds dev w =
  (err <- dsa_register_resolve env ds dst index (platform_data dev) ;;
   dsa_register_finish env ds dst err) j.
Proof.
  intros (tree & w1 & Hparse & Htree & Hslot).
  unfold _dsa_register_switch.
  rewrite (bind_Some _ _ _ _ _ Hparse). cbv beta iota.
  rewrite (bind_Some _ _ _ _ _ Htree). cbv beta iota.
  unfold slot in Hslot.
  destruct (w_trees j !! dst) as [t|] eqn:Ht; [|discriminate].
  simpl in Hslot. mrun. reflexivity.
Qed.

Lemma dsa_register_finish_incomplete env ds dst w w' :
  dsa_put_dst dst w = Some (tt, w') ->
  dsa_register_finish env ds dst 1 w = Some (0, w').
Proof.
  intros Hput. unfold dsa_register_finish.
  destruct (decide (1 < 0)); [lia|]. destruct (decide (1 = 1)); [|lia].
  unfold out. rewrite (bind_Some _ _ _ _ _ Hput). reflexivity.
Qed.

(** ** Order of registration: whole registrations *)

(** A reference that has its write keeps it when the tree gets more
    members. *)
Lemma link_write_grows w w' dst idx link kv :
  unique_owner w' ->
  (forall i d, slots w dst !! i = Some (Some d) ->
     slots w' dst !! i = Some (Some d) /\
     option_Forall2 same_switch_topology
       (w_switches w !! d) (w_switches w' !! d)) ->
  link_write w dst idx link = Some kv ->
  link_write w' dst idx link = Some kv.
Proof.
  intros Hu Hgrow. unfold link_write.
  destruct (target w dst link) as [d|] eqn:Htg; [|discriminate].
  destruct (w_switches w !! d) as [sd|] eqn:Hsd; [|discriminate].
  intros [= <-].
  destruct (target_Some _ _ _ _ Htg) as (t & i & sd' & Ht & Hi & Hsd' & Hf).
  assert (sd' = sd) by congruence. subst sd'.
  destruct (Hgrow i d) as [Hi' Hsame].
  { unfold slots. rewrite Ht. exact Hi. }
  rewrite Hsd in Hsame. inversion Hsame as [? sd2 [Hp Hx] E1 E2|]; subst.
  symmetry in E2.
  unfold slots in Hi'. destruct (w_trees w' !! dst) as [t'|] eqn:Ht';
    [|rewrite lookup_nil in Hi'; discriminate].
  erewrite (target_member w' dst t' i d sd2 link Hu Ht' Hi' E2).
  - rewrite E2, Hx. reflexivity.
  - unfold dsa_ds_find_port_dn in *. rewrite Hp. exact Hf.
Qed.

Lemma ds_writes_grows env w w' dst s s' kv :
  unique_owner w' ->
  (forall i d, slots w dst !! i = Some (Some d) ->
     slots w' dst !! i = Some (Some d) /\
     option_Forall2 same_switch_topology
       (w_switches w !! d) (w_switches w' !! d)) ->
  ds_ports s' = ds_ports s ->
  kv ∈ ds_writes env w dst s -> kv ∈ ds_writes env w' dst s'.
Proof.
  intros Hu Hgrow Hp. unfold ds_writes, ds_num_ports. rewrite Hp.
  rewrite !list_elem_of_In, !in_flat_map.
  intros (idx & Hidx & Hin). exists idx. split; [exact Hidx|].
  unfold port_part in *. rewrite Hp.
  destruct (ds_ports s !! idx) as [port|]; [|exact Hin].
  destruct (negb (dsa_port_is_valid port)); [exact Hin|].
  destruct (negb (dsa_port_is_dsa env port)); [exact Hin|].
  unfold port_writes in *. rewrite <- list_elem_of_In in *.
  apply list_elem_of_omap in Hin as (link & Hlink & Hlw).
  apply list_elem_of_omap. exists link. split; [exact Hlink|].
  eapply link_write_grows; eassumption.
Qed.

(** A release either frees the tree or lowers its count. *)
Lemma dsa_put_dst_inv dst w u w' :
  dsa_put_dst dst w = Some (u, w') ->
  w_trees w' !! dst = None \/
  exists t, w_trees w !! dst = Some t /\
    w_trees w' = <[dst := dst_with_refcount (dst_refcount t - 1) t]> (w_trees w).
Proof.
  unfold dsa_put_dst, kref_put. intros H.
  apply bind_inv in H as (t & w1 & Hl & H).
  apply load_dst_inv in Hl as [-> Ht].
  apply bind_inv in H as (u1 & w2 & Hst & H).
  apply store_dst_inv in Hst as [_ ->].
  destruct (decide (dst_refcount t - 1 = 0)).
  - left. unfold dsa_free_dst in H.
    apply bind_inv in H as (u2 & w3 & _ & H).
    unfold kfree in H. injection H as _ <-. simpl. apply lookup_delete_eq.
  - right. unfold ret in H. injection H as _ <-. exists t. auto.
Qed.

(** The tree stage of two registrations that start from the same trees
    and get to the same tree leaves the same slots. *)
Lemma dsa_register_tree_slots env tree tree' w1 w2 dst j1 j2 :
  w_trees w2 = w_trees w1 ->
  dsa_register_tree env tree w1 = Some (Some dst, j1) ->
  dsa_register_tree env tree' w2 = Some (Some dst, j2) ->
  slots j2 dst = slots j1 dst.
Proof.
  intros Htr H1 H2.
  destruct (dsa_register_tree_inv _ _ _ _ _ H1) as [(t1 & Ht1 & Hk1)|[Hn1 Hk1]];
    destruct (dsa_register_tree_inv _ _ _ _ _ H2) as [(t2 & Ht2 & Hk2)|[Hn2 Hk2]];
    rewrite Htr in *; try congruence.
  - assert (t2 = t1) by congruence. subst t2.
    unfold slots. rewrite Hk1, Hk2, !lookup_insert_eq. reflexivity.
  - unfold slots. rewrite Hk1, Hk2, !lookup_insert_eq. reflexivity.
Qed.

(** The tree stage of a registration that finds its tree keeps the
    slots. *)
Lemma dsa_register_tree_found env tree w dst j i d :
  dsa_register_tree env tree w = Some (Some dst, j) ->
  slot j dst i = Some (Some d) ->
  slots j dst = slots w dst /\ is_Some (w_trees w !! dst).
Proof.
  intros H Hslot.
  destruct (dsa_register_tree_inv _ _ _ _ _ H) as [(t & Ht & Hk)|[Hn Hk]].
  - unfold slots. rewrite Hk, lookup_insert_eq, Ht. split; [reflexivity|eauto].
  - exfalso. unfold slot in Hslot. rewrite Hk, lookup_insert_eq in Hslot.
    change (replicate DSA_MAX_SWITCHES (@None ptr) !! i = Some (Some d))
      in Hslot.
    apply lookup_replicate in Hslot as [Hslot _]. discriminate.
Qed.

(** The resolver gets to members only. *)
Lemma visited_slots_members env w dst sl p :
  p ∈ visited_slots env w dst sl -> p ∈ omap id sl.
Proof.
  induction sl as [|[ds|] sl IH]; simpl; [intros H; exact H| |exact IH].
  destruct (w_switches w !! ds) as [s|].
  - destruct (stuck_port env w dst s).
    + intros H. apply list_elem_of_singleton in H as ->. apply elem_of_cons. auto.
    + intros H. apply elem_of_cons in H as [->|H]; apply elem_of_cons; auto.
  - intros H. apply list_elem_of_singleton in H as ->. apply elem_of_cons. auto.
Qed.

Lemma visited_members env w dst p :
  p ∈ visited env w dst -> p ∈ members w dst.
Proof. apply visited_slots_members. Qed.

(** A resolver run leaves the switches that are not members as they
    are. *)
Lemma dsa_dst_complete_others env w dst r w' p :
  wf_tree w dst = true ->
  dsa_dst_complete env dst w = Some (r, w') ->
  p ∉ members w dst ->
  w_switches w' !! p = w_switches w !! p.
Proof.
  intros Hwf Hrun Hp.
  destruct (wf_tree_inv _ _ Hwf) as (t & Ht & Hlen & _).
  pose proof (wp_elim _ _ _ _ _ (dsa_dst_complete_done env w dst t Ht Hlen)
                Hrun p) as H.
  rewrite bool_decide_eq_false_2 in H; [exact H|].
  intros Hv. apply Hp. eapply visited_members. exact Hv.
Qed.

Lemma dsa_dst_complete_frame env w dst r w' :
  wf_tree w dst = true ->
  dsa_dst_complete env dst w = Some (r, w') ->
  resolver_frame w w' /\
  (r = 0 /\ all_links_resolve env w dst \/
   r = 1 /\ ~ all_links_resolve env w dst).
Proof.
  intros Hwf Hrun.
  destruct (dsa_dst_complete_spec env w dst Hwf) as (r0 & w0 & Hrun0 & H).
  rewrite Hrun in Hrun0. injection Hrun0 as <- <-. exact H.
Qed.

Lemma slot_Some w dst i x : slot w dst i = Some x -> slots w dst !! i = Some x.
Proof.
  unfold slot, slots. destruct (w_trees w !! dst); [|discriminate].
  intros H. exact H.
Qed.

Lemma near_refl env J dst p s : near env J dst p s s.
Proof. repeat split. Qed.

Lemma second_resolver_store env dst X devX iX Y devY iY w jX rX xX wX jXY :
  X <> Y ->
  reaches_resolver env X devX dst iX w jX ->
  can_join jX dst X iX ->
  dsa_register_resolve env X dst iX (platform_data devX) jX = Some (rX, xX) ->
  dsa_put_dst dst xX = Some (tt, wX) ->
  reaches_resolver env Y devY dst iY wX jXY ->
  can_join jXY dst Y iY ->
  slot jXY dst iX = Some (Some X) ->
  unique_owner jXY ->
  exists treeX treeY sX' sY',
    dsa_register_parse env X devX w = Some (inr (treeX, iX), put_ds X sX' w) /\
    dsa_register_tree env treeX (put_ds X sX' w) = Some (Some dst, jX) /\
    dsa_register_parse env Y devY w = Some (inr (treeY, iY), put_ds Y sY' w) /\
    iX <> iY /\
    slots (joined dst Y iY (platform_data devY) jXY) dst =
      <[iY := Some Y]> (<[iX := Some X]> (slots jX dst)) /\
    forall p,
      option_Forall2 (near env (joined dst Y iY (platform_data devY) jXY) dst p)
        (<[X := registered dst iX (platform_data devX) sX']>
           (<[Y := registered dst iY (platform_data devY) sY']>
              (w_switches w)) !! p)
        (w_switches (joined dst Y iY (platform_data devY) jXY) !! p).
Proof.
  intros Hne (treeX & a1 & HpX & HtX & HfreeX) HjX HresX Hput
    (treeY & b1 & HpY & HtY & HfreeY) HjY HslotX Hu.
  set (pdX := platform_data devX) in *. set (pdY := platform_data devY) in *.
  (* the first registration *)
  destruct (can_join_inv _ _ _ _ HjX)
    as (tX & sX' & HtreeX & HslX & HlenX & HiX & HsX' & HrtX).
  pose proof (keeps_switches_elim _ _ _ _ (keeps_switches_register_tree env treeX)
                HtX) as HswjX.
  assert (Ha1X : w_switches a1 !! X = Some sX') by (rewrite <- HswjX; exact HsX').
  destruct (dsa_register_parse_put _ _ _ _ _ _ sX' HpX Ha1X) as [HwX ->].
  set (J1 := joined dst X iX pdX jX).
  rewrite (dsa_register_resolve_run env X dst iX pdX jX sX' tX HsX' HrtX HtreeX)
    in HresX by lia.
  fold J1 in HresX.
  assert (Hwf1 : wf_tree J1 dst = true) by (apply wf_tree_joined; exact HjX).
  assert (Hnd1 : NoDup (members J1 dst)).
  { unfold J1. rewrite members_joined by exact HjX.
    apply NoDup_cons. split; apply HjX. }
  destruct (dsa_dst_complete_frame env J1 dst rX xX Hwf1 HresX) as [Hf1 _].
  pose proof (switches_joined jX dst X iX pdX sX' HjX HsX') as Hsw1.
  fold J1 in Hsw1.
  pose proof (slots_joined jX dst X iX pdX HjX) as Hsl1. fold J1 in Hsl1.
  pose proof (keeps_switches_elim _ _ _ _ (keeps_switches_put_dst dst) Hput)
    as HswX.
  (* the slots when the second switch registers *)
  destruct (dsa_register_tree_found env treeY b1 dst jXY iX X HtY HslotX)
    as [Hslb1 Hisb1].
  pose proof (dsa_register_parse_trees _ _ _ _ _ _ HpY) as Htrb1.
  assert (HslXY : slots jXY dst = slots J1 dst).
  { rewrite Hslb1. unfold slots at 1. rewrite Htrb1.
    destruct (dsa_put_dst_inv _ _ _ _ Hput) as [Hnone|(t & Ht & Htr)].
    - rewrite Htrb1, Hnone in Hisb1. destruct Hisb1; discriminate.
    - rewrite Htr, lookup_insert_eq. simpl.
      destruct Hf1 as (Htrees & _). rewrite Htrees in Ht.
      unfold slots. rewrite Ht. reflexivity. }
  assert (Hmem : members jXY dst = members J1 dst)
    by (unfold members; rewrite HslXY; reflexivity).
  (* the second registration *)
  destruct (can_join_inv _ _ _ _ HjY)
    as (tY & sY' & HtreeY & HslY & HlenY & HiY & HsY' & HrtY).
  pose proof (keeps_switches_elim _ _ _ _ (keeps_switches_register_tree env treeY)
                HtY) as HswjXY.
  assert (Hb1Y : w_switches b1 !! Y = Some sY') by (rewrite <- HswjXY; exact HsY').
  destruct (dsa_register_parse_put _ _ _ _ _ _ sY' HpY Hb1Y) as [HwY ->].
  assert (HYout : Y ∉ members J1 dst) by (rewrite <- Hmem; apply HjY).
  assert (HYsame : w_switches w !! Y = w_switches wX !! Y).
  { rewrite HswX.
    rewrite (dsa_dst_complete_others env J1 dst rX xX Y Hwf1 HresX HYout).
    rewrite Hsw1, lookup_insert_ne by auto. rewrite HswjX. simpl.
    rewrite lookup_insert_ne by auto. reflexivity. }
  pose proof (dsa_register_parse_same env Y devY wX w _ sY' HYsame HwY HpY)
    as HpY0.
  assert (Hii : iX <> iY).
  { intros ->. rewrite HfreeY in HslotX. discriminate. }
  set (J := joined dst Y iY pdY jXY).
  pose proof (slots_joined jXY dst Y iY pdY HjY) as HslJ. fold J in HslJ.
  pose proof (switches_joined jXY dst Y iY pdY sY' HjY HsY') as HswJ.
  fold J in HswJ.
  assert (HJp : forall p, p <> Y -> w_switches J !! p = w_switches xX !! p).
  { intros p Hp. rewrite HswJ, lookup_insert_ne by auto.
    rewrite HswjXY. simpl. rewrite lookup_insert_ne by auto.
    rewrite HswX. reflexivity. }
  assert (HuJ : unique_owner J) by (apply unique_owner_joined; exact Hu).
  assert (Hgrow : forall i d, slots J1 dst !! i = Some (Some d) ->
            slots J dst !! i = Some (Some d) /\
            option_Forall2 same_switch_topology
              (w_switches J1 !! d) (w_switches J !! d)).
  { intros i d Hid. split.
    - rewrite HslJ, HslXY. rewrite list_lookup_insert_ne; [exact Hid|].
      intros <-. destruct HjY as (_ & _ & Hfree & _).
      rewrite HslXY in Hfree. congruence.
    - assert (Hd : d <> Y).
      { intros ->. apply HYout. unfold members.
        apply (list_elem_of_omap id). exists (Some Y).
        split; [|reflexivity]. eapply list_elem_of_lookup_2. exact Hid. }
      rewrite (HJp d Hd).
      apply (resolver_frame_same_topology dst J1 xX Hf1). }
  exists treeX, treeY, sX', sY'.
  split; [exact HpX|]. split; [exact HtX|]. split; [exact HpY0|].
  split; [exact Hii|].
  split; [rewrite HslJ, HslXY, Hsl1; reflexivity|].
  intros p. destruct (decide (p = Y)) as [->|HpY'].
  - rewrite lookup_insert_ne, lookup_insert_eq by auto.
    rewrite HswJ, lookup_insert_eq. constructor. apply near_refl.
  - assert (Hbase : <[X := registered dst iX pdX sX']>
                      (<[Y := registered dst iY pdY sY']> (w_switches w)) !! p
                    = w_switches J1 !! p).
    { rewrite Hsw1, HswjX. simpl. destruct (decide (p = X)) as [->|HpX'].
      - rewrite !lookup_insert_eq. reflexivity.
      - rewrite !lookup_insert_ne by auto. reflexivity. }
    rewrite Hbase, (HJp p HpY').
    destruct (w_switches J1 !! p) as [s|] eqn:Hs.
    + destruct (writes_of_run env J1 dst rX xX Hwf1 Hnd1 HresX p s Hs)
        as (s' & ws & ws' & Hs' & Hws & Hrt & Hnone & _).
      rewrite Hs'. constructor.
      destruct (resolver_frame_lookup _ _ _ _ Hf1 Hs) as (s'' & Hs'' & Hds).
      assert (s'' = s') by congruence. subst s''.
      pose proof (resolver_frame_ds_ports _ _ Hds) as Hports.
      pose proof (resolver_frame_ds_index _ _ Hds) as Hindex.
      split; [split; assumption|].
      split; [rewrite Hrt; apply apply_writes_length|].
      split.
      * intros k Hk. rewrite Hrt. apply apply_writes_outside.
        intros Hin. apply Hk.
        apply list_elem_of_In, in_map_iff in Hin as ([k' v] & Hfst & Hin).
        simpl in Hfst. subst k'.
        apply list_elem_of_In, in_map_iff. exists (k, v).
        split; [reflexivity|]. apply list_elem_of_In.
        apply (ds_writes_grows env J1 J dst s s' (k, v) HuJ Hgrow Hports).
        rewrite Hws. apply elem_of_app. left. apply list_elem_of_In. exact Hin.
      * intros HnJ. rewrite Hrt, Hnone; [reflexivity|].
        intros Hin. apply HnJ. unfold J.
        rewrite members_joined by exact HjY.
        apply elem_of_cons. right. rewrite Hmem. exact Hin.
    + destruct Hf1 as (_ & _ & _ & Hsw). pose proof (Hsw p) as H.
      rewrite Hs in H. inversion H. constructor.
Qed.

Lemma put_ds_inj ds s1 s2 w : put_ds ds s1 w = put_ds ds s2 w -> s1 = s2.
Proof.
  intros H. apply (f_equal (fun w => w_switches w !! ds)) in H.
  rewrite !put_ds_lookup in H. congruence.
Qed.

Lemma resolver_of_second env ds dev dst index w j :
  reaches_resolver env ds dev dst index w j -> can_join j dst ds index ->
  exists r x,
    dsa_register_resolve env ds dst index (platform_data dev) j = Some (r, x) /\
    dsa_dst_complete env dst (joined dst ds index (platform_data dev) j) =
      Some (r, x) /\
    _dsa_register_switch env ds dev w = dsa_register_finish env ds dst r x /\
    forall c y, _dsa_register_switch env ds dev w = Some (c, y) ->
      forall p, rtable_of y p = rtable_of x p.
Proof.
  intros Hreach Hj.
  destruct (can_join_inv _ _ _ _ Hj) as (t & s & Ht & _ & Hlen & Hi & Hs & Hrt).
  destruct (dsa_dst_complete_spec env _ dst (wf_tree_joined j dst ds index
              (platform_data dev) Hj)) as (r & x & Hrun & _).
  assert (Hres : dsa_register_resolve env ds dst index (platform_data dev) j =
                 Some (r, x)).
  { rewrite (dsa_register_resolve_run env ds dst index _ j s t Hs Hrt Ht) by lia.
    exact Hrun. }
  assert (Hwhole : _dsa_register_switch env ds dev w =
                   dsa_register_finish env ds dst r x).
  { rewrite (reaches_resolver_run _ _ _ _ _ _ _ Hreach).
    apply (bind_Some _ _ _ _ _ Hres). }
  exists r, x. split; [exact Hres|]. split; [exact Hrun|].
  split; [exact Hwhole|].
  intros c y Hy. rewrite Hwhole in Hy.
  exact (wp_elim _ _ _ _ _ (dsa_register_finish_rtables env ds dst r x) Hy).
Qed.

(** C5 (as amended): two switches A and B register one after the other
    into the same tree, in either order. In both orders the resolver of
    the first registration returns Incomplete, so that the registration
    returns 0 and leaves the tree pending, and the second registration
    gets to the resolver while the first switch holds its slot; every
    registration finds a well-formed tree that holds each member once,
    with the slot of the registering switch free, and no port node
    belongs to two switches. Then the resolver of the second registration
    returns, with the same verdict in both orders, and if that verdict is
    Complete the routing tables of all switches are the same in both
    orders; what follows the resolver in a registration leaves the
    routing tables as the resolver left them. (While the verdict is
    Incomplete the tables may differ, and if the first registration is
    Complete on its own the verdicts may differ.) *)
Theorem register_order_independent env dst A devA iA B devB iB
    w jA xA wA jAB jB xB wB jBA :
  A <> B ->
  reaches_resolver env A devA dst iA w jA ->
  can_join jA dst A iA ->
  dsa_register_resolve env A dst iA (platform_data devA) jA = Some (1, xA) ->
  dsa_put_dst dst xA = Some (tt, wA) ->
  reaches_resolver env B devB dst iB wA jAB ->
  can_join jAB dst B iB ->
  slot jAB dst iA = Some (Some A) ->
  reaches_resolver env B devB dst iB w jB ->
  can_join jB dst B iB ->
  dsa_register_resolve env B dst iB (platform_data devB) jB = Some (1, xB) ->
  dsa_put_dst dst xB = Some (tt, wB) ->
  reaches_resolver env A devA dst iA wB jBA ->
  can_join jBA dst A iA ->
  slot jBA dst iB = Some (Some B) ->
  ports_disjoint jAB = true ->
  ports_disjoint jBA = true ->
  _dsa_register_switch env A devA w = Some (0, wA) /\
  _dsa_register_switch env B devB w = Some (0, wB) /\
  exists r xAB xBA,
    (r = 0 \/ r = 1) /\
    dsa_register_resolve env B dst iB (platform_data devB) jAB =
      Some (r, xAB) /\
    dsa_register_resolve env A dst iA (platform_data devA) jBA =
      Some (r, xBA) /\
    _dsa_register_switch env B devB wA = dsa_register_finish env B dst r xAB /\
    _dsa_register_switch env A devA wB = dsa_register_finish env A dst r xBA /\
    (r = 0 -> forall p, rtable_of xAB p = rtable_of xBA p) /\
    (forall c wAB, _dsa_register_switch env B devB wA = Some (c, wAB) ->
       forall p, rtable_of wAB p = rtable_of xAB p) /\
    (forall c wBA, _dsa_register_switch env A devA wB = Some (c, wBA) ->
       forall p, rtable_of wBA p = rtable_of xBA p).
Proof.
  intros Hne HrA HjA HresA HputA HrAB HjAB HslA HrB HjB HresB HputB HrBA HjBA
    HslB HdAB HdBA.
  apply ports_disjoint_spec in HdAB, HdBA.
  split.
  { rewrite (reaches_resolver_run _ _ _ _ _ _ _ HrA).
    rewrite (bind_Some _ _ _ _ _ HresA).
    apply dsa_register_finish_incomplete. exact HputA. }
  split.
  { rewrite (reaches_resolver_run _ _ _ _ _ _ _ HrB).
    rewrite (bind_Some _ _ _ _ _ HresB).
    apply dsa_register_finish_incomplete. exact HputB. }
  destruct (second_resolver_store env dst A devA iA B devB iB w jA 1 xA wA jAB
              Hne HrA HjA HresA HputA HrAB HjAB HslA HdAB)
    as (treeA & treeB & sA & sB & HpA & HtA & HpB & Hii & HslAB & HnAB).
  destruct (second_resolver_store env dst B devB iB A devA iA w jB 1 xB wB jBA
              (not_eq_sym Hne) HrB HjB HresB HputB HrBA HjBA HslB HdBA)
    as (treeB' & treeA' & sB' & sA' & HpB' & HtB & HpA' & _ & HslBA & HnBA).
  rewrite HpA in HpA'. rewrite HpB in HpB'.
  assert (sA' = sA) by (apply (put_ds_inj A _ _ w); congruence).
  assert (sB' = sB) by (apply (put_ds_inj B _ _ w); congruence).
  assert (treeB' = treeB) by congruence.
  subst sA' sB' treeB'. clear HpA' HpB'.
  set (pdA := platform_data devA) in *. set (pdB := platform_data devB) in *.
  set (JAB := joined dst B iB pdB jAB) in *.
  set (JBA := joined dst A iA pdA jBA) in *.
  rewrite (insert_insert_ne _ B A) in HnBA by auto.
  set (base := <[A := registered dst iA pdA sA]>
                 (<[B := registered dst iB pdB sB]> (w_switches w))) in *.
  assert (Hsl0 : slots jB dst = slots jA dst).
  { eapply (dsa_register_tree_slots env treeA treeB (put_ds A sA w)
              (put_ds B sB w)); [reflexivity|exact HtA|exact HtB]. }
  assert (Hslots : slots JBA dst = slots JAB dst).
  { rewrite HslBA, HslAB, Hsl0. apply list_insert_insert_ne. auto. }
  assert (Hmem : members JBA dst = members JAB dst)
    by (unfold members; rewrite Hslots; reflexivity).
  assert (HwfAB : wf_tree JAB dst = true) by (apply wf_tree_joined; exact HjAB).
  assert (HwfBA : wf_tree JBA dst = true) by (apply wf_tree_joined; exact HjBA).
  assert (Htop : same_topology dst JAB JBA).
  { split.
    - destruct (wf_tree_inv _ _ HwfAB) as (t1 & Ht1 & _).
      destruct (wf_tree_inv _ _ HwfBA) as (t2 & Ht2 & _).
      unfold slots in Hslots. rewrite Ht1, Ht2 in Hslots.
      rewrite Ht1, Ht2. simpl. congruence.
    - intros p. specialize (HnAB p). specialize (HnBA p).
      destruct (base !! p) as [sb|].
      + inversion HnAB as [? s1 ([Hp1 Hx1] & _)|];
          inversion HnBA as [? s2 ([Hp2 Hx2] & _)|]; subst.
        constructor. split; congruence.
      + inversion HnAB; inversion HnBA. constructor. }
  destruct (resolver_of_second env B devB dst iB wA jAB HrAB HjAB)
    as (r & xAB & HresAB & HrunAB & HwholeAB & HendAB).
  destruct (resolver_of_second env A devA dst iA wB jBA HrBA HjBA)
    as (r' & xBA & HresBA & HrunBA & HwholeBA & HendBA).
  fold pdB in HresAB, HrunAB. fold pdA in HresBA, HrunBA.
  fold JAB in HrunAB. fold JBA in HrunBA.
  destruct (dsa_dst_complete_frame env JAB dst r xAB HwfAB HrunAB)
    as [HfAB HvAB].
  destruct (dsa_dst_complete_frame env JBA dst r' xBA HwfBA HrunBA)
    as [HfBA HvBA].
  assert (r' = r).
  { destruct HvAB as [[-> H]|[-> H]], HvBA as [[-> H']|[-> H']];
      try reflexivity; exfalso.
    - apply H'. apply (all_links_resolve_same_topology env dst JAB JBA);
        assumption.
    - apply H. apply (all_links_resolve_same_topology env dst JBA JAB);
        [apply same_topology_sym|]; assumption. }
  subst r'.
  exists r, xAB, xBA.
  split; [destruct HvAB as [[-> _]|[-> _]]; auto|].
  split; [exact HresAB|]. split; [exact HresBA|].
  split; [exact HwholeAB|]. split; [exact HwholeBA|].
  split; [|split; assumption].
  intros -> p.
  assert (HndAB : NoDup (members JAB dst)).
  { unfold JAB. rewrite members_joined by exact HjAB.
    apply NoDup_cons. split; apply HjAB. }
  assert (HndBA : NoDup (members JBA dst)).
  { unfold JBA. rewrite members_joined by exact HjBA.
    apply NoDup_cons. split; apply HjBA. }
  unfold rtable_of. specialize (HnAB p). specialize (HnBA p).
  destruct (base !! p) as [sb|].
  - inversion HnAB as [? s1 ([Hp1 Hx1] & Hl1 & Hag1 & Hout1) E1 E2|];
      inversion HnBA as [? s2 ([Hp2 Hx2] & Hl2 & Hag2 & Hout2) E3 E4|]; subst.
    symmetry in E2, E4.
    destruct (writes_of_run env JAB dst 0 xAB HwfAB HndAB HrunAB p s1 E2)
      as (s1' & ws1 & ws1' & Hs1' & Hws1 & Hrt1 & Hnone1 & Hfull1).
    destruct (writes_of_run env JBA dst 0 xBA HwfBA HndBA HrunBA p s2 E4)
      as (s2' & ws2 & ws2' & Hs2' & Hws2 & Hrt2 & Hnone2 & Hfull2).
    rewrite Hs1', Hs2'. simpl. f_equal.
    assert (Hw : ds_writes env JBA dst s2 = ds_writes env JAB dst s1).
    { apply ds_writes_same_topology; [exact Htop|congruence]. }
    destruct (decide (p ∈ members JAB dst)) as [Hin|Hnin].
    + assert (Hin' : p ∈ members JBA dst) by (rewrite Hmem; exact Hin).
      rewrite (Hfull1 eq_refl Hin), app_nil_r in Hws1.
      rewrite (Hfull2 eq_refl Hin'), app_nil_r in Hws2.
      rewrite Hrt1, Hrt2, <- Hws1, <- Hws2, Hw.
      apply apply_writes_agree; [congruence|].
      intros k Hk. rewrite (Hag1 k Hk). symmetry. apply Hag2.
      rewrite Hw. exact Hk.
    + assert (Hnin' : p ∉ members JBA dst) by (rewrite Hmem; exact Hnin).
      rewrite Hrt1, Hrt2, (Hnone1 Hnin), (Hnone2 Hnin'). simpl.
      rewrite (Hout1 Hnin), (Hout2 Hnin'). reflexivity.
  - inversion HnAB as [|E1 E2]; inversion HnBA as [|E3 E4].
    destruct HfAB as (_ & _ & _ & HswAB). pose proof (HswAB p) as H1.
    rewrite <- E2 in H1. inversion H1.
    destruct HfBA as (_ & _ & _ & HswBA). pose proof (HswBA p) as H2.
    rewrite <- E4 in H2. inversion H2. reflexivity.
Qed.

Lemma register_order_independent_witness :
  exists xAB xBA,
    dsa_register_resolve fabric_env 11%nat 50%nat 1 None
      (resolver_store fabric_env 11%nat device_200 1
         (pending_store fabric_env 10%nat device_100 1 0
            (boot_world three_switches))) = Some (0, xAB) /\
    dsa_register_resolve fabric_env 10%nat 50%nat 0 None
      (resolver_store fabric_env 10%nat device_100 1
         (pending_store fabric_env 11%nat device_200 1 1
            (boot_world three_switches))) = Some (0, xBA) /\
    forall p, rtable_of xAB p = rtable_of xBA p.
Proof.
  assert (Hreach : forall ds dev index w,
            dsa_register_parse fabric_env ds dev w =
              Some (inr (1%nat, index),
                    world_after (dsa_register_parse fabric_env ds dev) w) ->
            dsa_register_tree fabric_env 1
              (world_after (dsa_register_parse fabric_env ds dev) w) =
              Some (Some 50%nat, resolver_store fabric_env ds dev 1 w) ->
            slot (resolver_store fabric_env ds dev 1 w) 50%nat index =
              Some None ->
            reaches_resolver fabric_env ds dev 50%nat index w
              (resolver_store fabric_env ds dev 1 w)).
  { intros ds dev index w H1 H2 H3. eexists _, _. eauto. }
  assert (Hjoin : forall w ds i,
            wf_tree w 50%nat = true ->
            bool_decide (NoDup (members w 50%nat)) = true ->
            slots w 50%nat !! i = Some None ->
            bool_decide (ds ∉ members w 50%nat) = true ->
            (exists s, w_switches w !! ds = Some s /\
                       length (ds_rtable s) = DSA_MAX_SWITCHES) ->
            can_join w 50%nat ds i).
  { intros w ds i H1 H2 H3 H4 H5. split; [exact H1|].
    split; [apply bool_decide_eq_true in H2; exact H2|]. split; [exact H3|].
    split; [apply bool_decide_eq_true in H4; exact H4|exact H5]. }
  destruct (register_order_independent fabric_env 50%nat
              10%nat device_100 0%nat 11%nat device_200 1%nat
              (boot_world three_switches)
              (resolver_store fabric_env 10%nat device_100 1
                 (boot_world three_switches))
              (resolved_store fabric_env 10%nat device_100 1 0
                 (boot_world three_switches))
              (pending_store fabric_env 10%nat device_100 1 0
                 (boot_world three_switches))
              (resolver_store fabric_env 11%nat device_200 1
                 (pending_store fabric_env 10%nat device_100 1 0
                    (boot_world three_switches)))
              (resolver_store fabric_env 11%nat device_200 1
                 (boot_world three_switches))
              (resolved_store fabric_env 11%nat device_200 1 1
                 (boot_world three_switches))
              (pending_store fabric_env 11%nat device_200 1 1
                 (boot_world three_switches))
              (resolver_store fabric_env 10%nat device_100 1
                 (pending_store fabric_env 11%nat device_200 1 1
                    (boot_world three_switches))))
    as (_ & _ & r & xAB & xBA & _ & HAB & HBA & _ & _ & Heq & _).
  - discriminate.
  - apply Hreach; vm_compute; reflexivity.
  - apply Hjoin; [vm_compute; reflexivity..|].
    eexists. split; vm_compute; reflexivity.
  - vm_compute. reflexivity.
  - vm_compute. reflexivity.
  - apply Hreach; vm_compute; reflexivity.
  - apply Hjoin; [vm_compute; reflexivity..|].
    eexists. split; vm_compute; reflexivity.
  - vm_compute. reflexivity.
  - apply Hreach; vm_compute; reflexivity.
  - apply Hjoin; [vm_compute; reflexivity..|].
    eexists. split; vm_compute; reflexivity.
  - vm_compute. reflexivity.
  - vm_compute. reflexivity.
  - apply Hreach; vm_compute; reflexivity.
  - apply Hjoin; [vm_compute; reflexivity..|].
    eexists. split; vm_compute; reflexivity.
  - vm_compute. reflexivity.
  - vm_compute. reflexivity.
  - vm_compute. reflexivity.
  - assert (Hr : r = 0).
    { pose proof HAB as H. vm_compute in H. injection H as H _.
      symmetry. exact H. }
    subst r. exists xAB, xBA. auto.
Defined.

(** C5, the claim as stated fails, for the routing tables and for the
    verdict. With the switch of slot 1 a member in [chain_dt], the
    switches of slots 2 and 0 register in either order and every
    registration returns 0 with the tree incomplete: if slot 2 registers
    first its run resolves the reference of slot 1 and writes the entry;
    if slot 0 registers first every run stops at its unresolved reference
    and the entry is never written. In [spur_dt] the switch of slot 0 is
    complete on its own: if it registers first, its tree has no master
    device, the registration returns -EINVAL and frees the tree, and the
    switch of slot 1 then leaves its tree incomplete; if it registers
    second, the tree is complete and applied, and the switch of slot 1
    has the entry that it lacks in the other order. *)
Lemma register_order_changes_rtable :
  (_dsa_register_switch chain_env 10%nat device_100
     (boot_world three_switches) = Some (0, chain_world) /\
   (_dsa_register_switch chain_env 11%nat device_200 ;;;
    _dsa_register_switch chain_env 12%nat device_300)%dsa chain_world =
     Some (0, chain_world_2_then_0) /\
   (_dsa_register_switch chain_env 12%nat device_300 ;;;
    _dsa_register_switch chain_env 11%nat device_200)%dsa chain_world =
     Some (0, chain_world_0_then_2) /\
   dst_applied <$> w_trees chain_world_2_then_0 !! 50%nat = Some false /\
   dst_applied <$> w_trees chain_world_0_then_2 !! 50%nat = Some false /\
   ds_rtable <$> w_switches chain_world_2_then_0 !! 10%nat =
     Some [-1; -1; 0; -1] /\
   ds_rtable <$> w_switches chain_world_0_then_2 !! 10%nat =
     Some [-1; -1; -1; -1]) /\
  (_dsa_register_switch spur_env 10%nat device_100
     (boot_world three_switches) = Some (- EINVAL, spur_world_0) /\
   w_trees spur_world_0 !! 50%nat = None /\
   _dsa_register_switch spur_env 11%nat device_200 spur_world_0 =
     Some (0, spur_world_0_then_1) /\
   dst_applied <$> w_trees spur_world_0_then_1 !! 50%nat = Some false /\
   slots spur_world_0_then_1 50%nat = [None; Some 11%nat; None; None] /\
   dsa_dst_complete spur_env 50%nat spur_world_0_then_1 =
     Some (1, spur_world_0_then_1) /\
   _dsa_register_switch spur_env 11%nat device_200
     (boot_world three_switches) = Some (0, spur_world_1) /\
   _dsa_register_switch spur_env 10%nat device_100 spur_world_1 =
     Some (0, spur_world_1_then_0) /\
   dst_applied <$> w_trees spur_world_1_then_0 !! 50%nat = Some true /\
   slots spur_world_1_then_0 50%nat =
     [Some 10%nat; Some 11%nat; None; None] /\
   (fst <$> dsa_dst_complete spur_env 50%nat spur_world_1_then_0) = Some 0 /\
   ds_rtable <$> w_switches spur_world_0_then_1 !! 11%nat =
     Some [-1; -1; -1; -1] /\
   ds_rtable <$> w_switches spur_world_1_then_0 !! 11%nat =
     Some [0; -1; -1; -1]).
Proof.
  split.
  - split; [vm_compute; reflexivity|].
    split; [vm_compute; reflexivity|].
    split; [vm_compute; reflexivity|].
    split; [vm_compute; reflexivity|].
    split; [vm_compute; reflexivity|].
    split; vm_compute; reflexivity.
  - repeat (split; [vm_compute; reflexivity|]). vm_compute. reflexivity.
Qed.

(** * Further properties *)

(** ** The registry *)

Lemma registry_chain_functional w : forall l1 l2 pos,
  registry_chain w pos l1 -> registry_chain w pos l2 -> l1 = l2.
Proof.
  induction l1 as [|p l1 IH]; intros [|q l2] pos; simpl.
  - reflexivity.
  - intros -> [H _]. discriminate.
  - intros [-> _] H. discriminate.
  - intros [-> (t & Ht & Hc)] [[= <-] (t' & Ht' & Hc')].
    assert (t' = t) by congruence. subst t'.
    f_equal. eapply IH; eassumption.
Qed.

Lemma registry_chain_suffix w : forall l1 l2 pos,
  registry_chain w pos (l1 ++ l2)%list ->
  exists pos', registry_chain w pos' l2.
Proof.
  induction l1 as [|p l1 IH]; intros l2 pos; simpl.
  - eauto.
  - intros [_ (t & _ & Hc)]. eapply IH. exact Hc.
Qed.

(** A walk that is back at the head has met no tree twice. *)
Lemma registry_chain_NoDup w : forall l pos,
  registry_chain w pos l -> NoDup l.
Proof.
  induction l as [|p l IH]; intros pos; [intros _; apply NoDup_nil_2|].
  simpl. intros [_ (t & Ht & Hc)]. apply NoDup_cons. split.
  - intros Hin. apply list_elem_of_split in Hin as (l1 & l2 & ->).
    destruct (registry_chain_suffix w l1 (p :: l2) _ Hc) as (pos' & Hc').
    simpl in Hc'. destruct Hc' as [_ (t' & Ht' & Hc')].
    assert (t' = t) by congruence. subst t'.
    pose proof (registry_chain_functional w _ _ _ Hc Hc') as Heq.
    apply (f_equal length) in Heq. rewrite length_app in Heq. simpl in Heq.
    lia.
  - eapply IH. exact Hc.
Qed.

Lemma registry_chain_allocated w : forall l pos,
  registry_chain w pos l -> forall p, p ∈ l -> is_Some (w_trees w !! p).
Proof.
  induction l as [|q l IH]; intros pos Hc p Hin; [inversion Hin|].
  simpl in Hc. destruct Hc as [_ (t & Ht & Hc)].
  apply elem_of_cons in Hin as [->|Hin]; [eauto|]. eapply IH; eassumption.
Qed.

Lemma registry_chain_length w l pos :
  registry_chain w pos l -> (length l <= size (w_trees w))%nat.
Proof.
  intros Hc.
  assert (Hsub : l ⊆+ (map_to_list (w_trees w)).*1).
  { apply NoDup_submseteq; [eapply registry_chain_NoDup; exact Hc|].
    intros p Hin.
    destruct (registry_chain_allocated w l pos Hc p Hin) as [t Ht].
    apply list_elem_of_fmap. exists (p, t). split; [reflexivity|].
    apply elem_of_map_to_list. exact Ht. }
  apply submseteq_length in Hsub. rewrite length_fmap in Hsub.
  rewrite length_map_to_list in Hsub. exact Hsub.
Qed.

(** The walk of [dsa_get_dst] over the trees [l], with fuel to spare. *)
Lemma dsa_get_dst_walk_found tree w : forall l fuel pos,
  registry_chain w pos l -> (length l < fuel)%nat ->
  dsa_get_dst_walk fuel pos tree w = Some (found w tree l).
Proof.
  induction l as [|p l IH]; intros fuel pos Hc Hfuel;
    (destruct fuel as [|fuel]; [simpl in Hfuel; lia|]); simpl in Hc.
  - subst pos. reflexivity.
  - destruct Hc as [-> (t & Ht & Hc)]. simpl.
    unfold found. simpl. unfold has_id at 1. rewrite Ht.
    erewrite bind_Some by (apply load_dst_Some; exact Ht).
    destruct (decide (dst_tree t = tree)) as [Hid|Hid].
    + rewrite bool_decide_eq_true_2 by exact Hid.
      erewrite bind_Some by (apply kref_get_Some; exact Ht).
      unfold hold. rewrite Ht. reflexivity.
    + rewrite bool_decide_eq_false_2 by exact Hid.
      apply IH; [exact Hc|simpl in Hfuel; lia].
Qed.

Lemma dsa_get_dst_found tree w l :
  registry w l -> dsa_get_dst tree w = Some (found w tree l).
Proof.
  intros Hr. unfold dsa_get_dst.
  rewrite (bind_Some (load_lh LHead) _ w (dsa_switch_trees w) w eq_refl).
  apply dsa_get_dst_walk_found; [exact Hr|].
  pose proof (registry_chain_length w l _ Hr). lia.
Qed.

(** X1: on a registry whose walk ends, [dsa_get_dst] returns NULL and
    changes nothing if no tree has the id, and otherwise returns the first
    tree with the id, with one more reference and nothing else changed. *)
Theorem dsa_get_dst_lookup tree w l :
  registry w l ->
  ((forall p, p ∈ l -> has_id w tree p = false) ->
   dsa_get_dst tree w = Some (None, w)) /\
  (forall l1 p l2 t,
     l = (l1 ++ p :: l2)%list ->
     (forall q, q ∈ l1 -> has_id w tree q = false) ->
     w_trees w !! p = Some t -> dst_tree t = tree ->
     dsa_get_dst tree w =
     Some (Some p,
           w_with_trees
             (<[p := dst_with_refcount (dst_refcount t + 1) t]> (w_trees w))
             w)).
Proof.
  intros Hr. rewrite (dsa_get_dst_found tree w l Hr). unfold found. split.
  - intros Hnone. rewrite find_all_false by exact Hnone. reflexivity.
  - intros l1 p l2 t -> Hl1 Ht Hid.
    rewrite (find_first _ l1 l2 p Hl1).
    + unfold hold. rewrite Ht. reflexivity.
    + unfold has_id. rewrite Ht. apply bool_decide_eq_true_2. exact Hid.
Qed.

Lemma dsa_get_dst_lookup_witness :
  dsa_get_dst 2 fabric_world_pending = Some (None, fabric_world_pending) /\
  exists t,
    w_trees fabric_world_pending !! 50%nat = Some t /\
    dsa_get_dst 1 fabric_world_pending =
    Some (Some 50%nat,
          w_with_trees
            (<[50%nat := dst_with_refcount (dst_refcount t + 1) t]>
               (w_trees fabric_world_pending)) fabric_world_pending).
Proof.
  assert (Hr : registry fabric_world_pending [50%nat]).
  { split; [reflexivity|]. eexists. split; [vm_compute; reflexivity|].
    reflexivity. }
  destruct (dsa_get_dst_lookup 2 fabric_world_pending [50%nat] Hr)
    as [Hmiss _].
  destruct (dsa_get_dst_lookup 1 fabric_world_pending [50%nat] Hr)
    as [_ Hhit].
  split.
  - apply Hmiss. intros p Hp. apply list_elem_of_singleton in Hp as ->.
    vm_compute. reflexivity.
  - eexists. split; [vm_compute; reflexivity|].
    apply (Hhit [] 50%nat []); [reflexivity| |vm_compute; reflexivity|
                                reflexivity].
    intros q Hq. inversion Hq.
Defined.

(** X2: [dsa_add_dst] links the registry head behind the new tree: the
    new tree (empty, with one reference) is then the only tree the walk
    of [dsa_get_dst] meets, whatever trees were registered before. A
    lookup of its id finds it, a lookup of any other id finds nothing. *)
Theorem dsa_add_dst_alone env tree p w :
  kzalloc env = Some p -> w_trees w !! p = None ->
  exists w' t,
    dsa_add_dst env tree w = Some (Some p, w') /\
    w_trees w' = <[p := t]> (w_trees w) /\
    dst_tree t = tree /\ dst_refcount t = 1 /\ dst_applied t = false /\
    dst_ds t = replicate DSA_MAX_SWITCHES None /\
    registry w' [p] /\
    dsa_get_dst tree w' =
      Some (Some p,
            w_with_trees (<[p := dst_with_refcount 2 t]> (w_trees w')) w') /\
    forall tree', tree' <> tree -> dsa_get_dst tree' w' = Some (None, w').
Proof.
  intros Hk Hfree. eexists _, _.
  split; [apply (dsa_add_dst_Some env tree p w Hk Hfree)|].
  set (t := dst_with_refcount 1
              (dst_with_list {| lh_next := LHead; lh_prev := LHead |}
                 (dst_with_tree tree zero_dst))).
  set (w' := w_with_head _ _).
  assert (Ht : w_trees w' !! p = Some t) by apply lookup_insert_eq.
  assert (Hr : registry w' [p]).
  { split; [reflexivity|]. exists t. split; [exact Ht|reflexivity]. }
  do 5 (split; [reflexivity|]). split; [exact Hr|].
  split.
  - rewrite (dsa_get_dst_found _ w' [p] Hr). unfold found.
    cbn [List.find]. unfold has_id. rewrite Ht.
    rewrite bool_decide_eq_true_2 by reflexivity.
    unfold hold. rewrite Ht. reflexivity.
  - intros tree' Hne. rewrite (dsa_get_dst_found _ w' [p] Hr). unfold found.
    cbn [List.find]. unfold has_id. rewrite Ht.
    rewrite bool_decide_eq_false_2; [reflexivity|]. simpl. auto.
Qed.

Lemma dsa_add_dst_alone_witness :
  (exists w0, dsa_get_dst 1 fabric_world_pending = Some (Some 50%nat, w0)) /\
  exists w',
    dsa_add_dst fabric_env_next 2 fabric_world_pending = Some (Some 51%nat, w') /\
    registry w' [51%nat] /\
    dsa_get_dst 1 w' = Some (None, w').
Proof.
  split; [eexists; vm_compute; reflexivity|].
  destruct (dsa_add_dst_alone fabric_env_next 2 51%nat fabric_world_pending)
    as (w' & t & Hrun & _ & _ & _ & _ & _ & Hr & _ & Hmiss);
    [reflexivity|vm_compute; reflexivity|].
  exists w'. split; [exact Hrun|]. split; [exact Hr|].
  apply Hmiss. discriminate.
Defined.

(** X3: a tree that [dsa_add_dst] made and [dsa_put_dst] releases at once
    is freed: the trees of the store are those from before, and the
    registry is left with no entry (as it was, if it had none). *)
Theorem dsa_add_dst_put_dst env tree p w :
  kzalloc env = Some p -> w_trees w !! p = None ->
  (d <- dsa_add_dst env tree ;;
   match d with
   | Some dst => dsa_put_dst dst
   | None => ret tt
   end)%dsa w = Some (tt, w_with_head empty_head w) /\
  (dsa_switch_trees w = empty_head -> w_with_head empty_head w = w).
Proof.
  intros Hk Hfree. split.
  - erewrite bind_Some by (apply (dsa_add_dst_Some env tree p w Hk Hfree)).
    cbv beta iota. erewrite dsa_put_dst_last;
      [|apply lookup_insert_eq|reflexivity|reflexivity].
    simpl. rewrite delete_insert_id by exact Hfree.
    unfold w_with_head, w_with_trees. simpl. reflexivity.
  - intros Hh. destruct w. simpl in *. rewrite Hh. reflexivity.
Qed.

Lemma dsa_add_dst_put_dst_witness :
  (d <- dsa_add_dst fabric_env 7 ;;
   match d with
   | Some dst => dsa_put_dst dst
   | None => ret tt
   end)%dsa (boot_world three_switches) =
  Some (tt, boot_world three_switches).
Proof.
  destruct (dsa_add_dst_put_dst fabric_env 7 50%nat (boot_world three_switches))
    as [Hrun Hid]; [reflexivity|reflexivity|].
  rewrite Hrun, Hid; reflexivity.
Defined.

(** ** Registration: the early exits *)

Lemma dst_with_refcount_back t :
  dst_with_refcount (dst_refcount t + 1 - 1)
    (dst_with_refcount (dst_refcount t + 1) t) = t.
Proof.
  destruct t. unfold dst_with_refcount. simpl. f_equal. lia.
Qed.

Lemma w_with_trees_id w : w_with_trees (w_trees w) w = w.
Proof. destruct w. reflexivity. Qed.

(** Taking a reference and releasing it leaves the store as it was. *)
Lemma hold_put_dst p t w :
  w_trees w !! p = Some t -> dst_refcount t <> 0 ->
  dsa_put_dst p (hold p w) = Some (tt, w).
Proof.
  intros Ht Hc. unfold hold. rewrite Ht.
  erewrite dsa_put_dst_Some; [|apply lookup_insert_eq|simpl; lia].
  simpl. rewrite insert_insert_eq, dst_with_refcount_back.
  rewrite insert_id by exact Ht.
  rewrite w_with_trees_twice. rewrite w_with_trees_id. reflexivity.
Qed.

(** X4: a registration for a slot that a member holds returns [-EBUSY];
    the reference taken by the lookup is released, and the store is as
    the parsing of the ports left it. *)
Theorem register_busy env ds dev w w1 tree index l dst t other :
  dsa_register_parse env ds dev w = Some (inr (tree, index), w1) ->
  registry w1 l ->
  List.find (has_id w1 tree) l = Some dst ->
  w_trees w1 !! dst = Some t ->
  dst_ds t !! index = Some (Some other) ->
  dst_refcount t <> 0 ->
  _dsa_register_switch env ds dev w = Some (- EBUSY, w1).
Proof.
  intros Hparse Hr Hfind Ht Hslot Hc. unfold _dsa_register_switch.
  rewrite (bind_Some _ _ _ _ _ Hparse). cbv beta iota.
  assert (Hget : dsa_get_dst tree w1 = Some (Some dst, hold dst w1)).
  { rewrite (dsa_get_dst_found tree w1 l Hr). unfold found.
    rewrite Hfind. reflexivity. }
  unfold dsa_register_tree. rewrite bind_assoc.
  rewrite (bind_Some _ _ _ _ _ Hget). cbv beta iota.
  assert (Ht' : w_trees (hold dst w1) !! dst =
                Some (dst_with_refcount (dst_refcount t + 1) t)).
  { unfold hold. rewrite Ht. apply lookup_insert_eq. }
  assert (Hslot' : dst_ds (dst_with_refcount (dst_refcount t + 1) t) !! index
                   = Some (Some other)) by exact Hslot.
  rewrite (bind_Some (ret _) _ _ _ _ eq_refl). cbv beta iota.
  rewrite (bind_Some _ _ _ _ _ (load_dst_Some _ _ _ Ht')).
  rewrite (bind_Some _ _ _ _ _ (array_get_Some _ _ _ _ Hslot')).
  cbv beta iota. unfold out.
  rewrite (bind_Some _ _ _ _ _ (hold_put_dst dst t w1 Ht Hc)). reflexivity.
Qed.

Lemma register_busy_witness :
  _dsa_register_switch fabric_env 11%nat device_100 fabric_world_pending =
  Some (- EBUSY,
        world_after (dsa_register_parse fabric_env 11%nat device_100)
          fabric_world_pending).
Proof.
  eapply (register_busy fabric_env 11%nat device_100 fabric_world_pending
            _ 1%nat 0%nat [50%nat] 50%nat _ 10%nat).
  - vm_compute. reflexivity.
  - split; [reflexivity|]. eexists. split; [vm_compute; reflexivity|].
    reflexivity.
  - vm_compute. reflexivity.
  - vm_compute. reflexivity.
  - vm_compute. reflexivity.
  - vm_compute. discriminate.
Defined.

(** X5: a registration for a tree that is not in the registry, when the
    allocation of a new tree fails, returns [-ENOMEM]; the store is as the
    parsing of the ports left it. *)
Theorem register_no_memory env ds dev w w1 tree index l :
  dsa_register_parse env ds dev w = Some (inr (tree, index), w1) ->
  registry w1 l ->
  (forall p, p ∈ l -> has_id w1 tree p = false) ->
  kzalloc env = None ->
  _dsa_register_switch env ds dev w = Some (- ENOMEM, w1).
Proof.
  intros Hparse Hr Hnone Hk. unfold _dsa_register_switch.
  rewrite (bind_Some _ _ _ _ _ Hparse). cbv beta iota.
  assert (Hget : dsa_get_dst tree w1 = Some (None, w1)).
  { rewrite (dsa_get_dst_found tree w1 l Hr). unfold found.
    rewrite (find_all_false _ _ Hnone). reflexivity. }
  unfold dsa_register_tree. rewrite bind_assoc.
  rewrite (bind_Some _ _ _ _ _ Hget). cbv beta iota.
  unfold dsa_add_dst, kzalloc_dst. rewrite Hk. reflexivity.
Qed.

Lemma register_no_memory_witness :
  _dsa_register_switch fabric_env_oom 10%nat device_100
    (boot_world three_switches) =
  Some (- ENOMEM,
        world_after (dsa_register_parse fabric_env_oom 10%nat device_100)
          (boot_world three_switches)).
Proof.
  eapply (register_no_memory fabric_env_oom 10%nat device_100
            (boot_world three_switches) _ 1%nat 0%nat []).
  - vm_compute. reflexivity.
  - reflexivity.
  - intros p Hp. inversion Hp.
  - reflexivity.
Defined.

(** ** Configuration sources *)

(** X6: when [dsa_register_parse] succeeds, the member index it returns
    addresses a slot of the tree, and the pair is the two cells of
    "dsa,member" ((0, 0) without the property, and in the platform-data
    mode). *)
Theorem dsa_register_parse_member env ds dev w tree index w' :
  dsa_register_parse env ds dev w = Some (inr (tree, index), w') ->
  (index < DSA_MAX_SWITCHES)%nat /\
  match of_node dev with
  | Some np =>
      match dn_dsa_member (of_tree env np) with
      | Some cells => cells !! 0%nat = Some tree /\ cells !! 1%nat = Some index
      | None => tree = 0%nat /\ index = 0%nat
      end
  | None => tree = 0%nat /\ index = 0%nat /\ is_Some (platform_data dev)
  end.
Proof.
  unfold dsa_register_parse. destruct (of_node dev) as [np|].
  - unfold dsa_parse_member_dn, of_property_read_u32_index.
    destruct (dn_dsa_member (of_tree env np)) as [[|c0 cells]|].
    + simpl. intros H. discriminate.
    + cbn [lookup list_lookup]. destruct cells as [|c1 cells].
      * simpl. intros H. discriminate.
      * cbn [lookup list_lookup].
        destruct (decide (DSA_MAX_SWITCHES <= c1)%nat) as [Hge|Hlt].
        -- simpl. intros H. discriminate.
        -- destruct (decide (0 <> 0)) as [Hne|_]; [contradiction|].
           destruct (dsa_get_ports env np) as [e|ports]; [discriminate|].
           intros H. apply bind_inv in H as (err & w1 & _ & H).
           destruct (decide (err <> 0)); [discriminate|].
           injection H as <- <- _. split; [lia|]. split; reflexivity.
    + simpl. destruct (dsa_get_ports env np) as [e|ports]; [discriminate|].
      intros H. apply bind_inv in H as (err & w1 & _ & H).
      destruct (decide (err <> 0)); [discriminate|].
      injection H as <- <- _. unfold DSA_MAX_SWITCHES. split; [lia|].
      split; reflexivity.
  - unfold dsa_parse_member. destruct (platform_data dev) as [cd|].
    + simpl. intros H. apply bind_inv in H as (err & w1 & _ & H).
      destruct (decide (err <> 0)); [discriminate|].
      injection H as <- <- _. unfold DSA_MAX_SWITCHES. split; [lia|].
      repeat split; eauto.
    + simpl. intros H. discriminate.
Qed.

Lemma dsa_register_parse_member_witness :
  dsa_register_parse fabric_env 11%nat device_200
    (boot_world three_switches) =
  Some (inr (1%nat, 1%nat),
        world_after (dsa_register_parse fabric_env 11%nat device_200)
          (boot_world three_switches)) /\
  (1 < DSA_MAX_SWITCHES)%nat.
Proof.
  assert (Hrun : dsa_register_parse fabric_env 11%nat device_200
                   (boot_world three_switches) =
                 Some (inr (1%nat, 1%nat),
                       world_after
                         (dsa_register_parse fabric_env 11%nat device_200)
                         (boot_world three_switches)))
    by (vm_compute; reflexivity).
  split; [exact Hrun|].
  apply (proj1 (dsa_register_parse_member _ _ _ _ _ _ _ Hrun)).
Defined.

Lemma record_child_ports_length env s c :
  length (ds_ports (record_child env s c)) = length (ds_ports s).
Proof.
  unfold record_child. destruct (child_reg env c) as [e|reg]; [reflexivity|].
  destruct (ds_ports s !! reg) as [p|]; [|reflexivity].
  destruct (negb _); simpl; apply length_insert.
Qed.

Lemma record_child_frame env s c :
  record_child env s c =
  ds_with_enabled_port_mask (ds_enabled_port_mask (record_child env s c))
    (ds_with_ports (ds_ports (record_child env s c)) s).
Proof.
  unfold record_child. destruct (child_reg env c) as [e|reg];
    [destruct s; reflexivity|].
  destruct (ds_ports s !! reg) as [p|]; [|destruct s; reflexivity].
  destruct (negb _); destruct s; reflexivity.
Qed.

(** One round of the loop of [dsa_parse_ports_dn] on a node that names a
    port of the switch. *)
Lemma dsa_parse_ports_dn_round env ds s c w :
  child_ok env (ds_num_ports s) c ->
  (match child_reg env c with
          | inl err => ret (Some err)
          | inr reg =>
              s <- load_ds ds ;;
              if decide (ds_num_ports s <= reg)%nat
              then ret (Some (- EINVAL))
              else
                p <- array_get (ds_ports s) reg ;;
                ports' <- array_set (ds_ports s) reg
                            (port_with_dn (Some c) p) ;;
                store_ds ds (ds_with_ports ports' s) ;;;
                enable_unless_cpu env ds reg ;;;
                ret None
          end)%dsa (put_ds ds s w) =
  Some (None, put_ds ds (record_child env s c) w).
Proof.
  intros (reg & Hreg & Hlt). unfold record_child. rewrite Hreg.
  unfold ds_num_ports in Hlt.
  pose proof (put_ds_lookup ds s w) as Hs.
  destruct (lookup_lt_is_Some_2 (ds_ports s) reg Hlt) as [p Hp].
  rewrite Hp.
  rewrite (bind_Some _ _ _ _ _ (load_ds_Some _ _ _ Hs)).
  destruct (decide (ds_num_ports s <= reg)%nat) as [Hge|_];
    [unfold ds_num_ports in Hge; lia|].
  rewrite ?bind_assoc.
  rewrite (bind_Some _ _ _ _ _ (array_get_Some _ _ _ _ Hp)).
  rewrite ?bind_assoc.
  rewrite (bind_Some _ _ _ _ _ (array_set_Some _ _ _ _ Hlt)).
  rewrite ?bind_assoc.
  rewrite (bind_Some _ _ _ _ _ (store_ds_Some _ _ _ _ Hs)).
  fold (put_ds ds (ds_with_ports (<[reg := port_with_dn (Some c) p]>
                                     (ds_ports s)) s) (put_ds ds s w)).
  rewrite put_ds_put_ds.
  set (s1 := ds_with_ports _ s).
  pose proof (put_ds_lookup ds s1 w) as Hs1.
  assert (Hp1 : ds_ports s1 !! reg = Some (port_with_dn (Some c) p)).
  { unfold s1. simpl. apply list_lookup_insert_eq. exact Hlt. }
  unfold enable_unless_cpu. rewrite ?bind_assoc.
  rewrite (bind_Some _ _ _ _ _ (load_ds_Some _ _ _ Hs1)).
  rewrite ?bind_assoc.
  rewrite (bind_Some _ _ _ _ _ (array_get_Some _ _ _ _ Hp1)).
  destruct (negb (dsa_port_is_cpu env (port_with_dn (Some c) p))).
  - rewrite (bind_Some _ _ _ _ _ (store_ds_Some _ _ _ _ Hs1)).
    fold (put_ds ds (ds_with_enabled_port_mask
                       (to_u32 (Z.lor (ds_enabled_port_mask s1) (BIT reg)))
                       s1)
            (put_ds ds s1 w)).
    rewrite put_ds_put_ds. reflexivity.
  - reflexivity.
Qed.

(** The loop of [dsa_parse_ports_dn] over nodes that name ports of the
    switch. *)
Lemma dsa_parse_ports_dn_loop env ds (after : M Z) rest : forall l s w,
  Forall (child_ok env (ds_num_ports s)) l ->
  for_each (l ++ rest)%list
    (fun port =>
       match of_property_read_u32_index (dn_reg (of_tree env port)) 0 with
       | inl err => ret (Some err)
       | inr reg =>
           s <- load_ds ds ;;
           if decide (ds_num_ports s <= reg)%nat then ret (Some (- EINVAL))
           else
             p <- array_get (ds_ports s) reg ;;
             ports' <- array_set (ds_ports s) reg (port_with_dn (Some port) p) ;;
             store_ds ds (ds_with_ports ports' s) ;;;
             enable_unless_cpu env ds reg ;;;
             ret None
       end) after (put_ds ds s w) =
  for_each rest
    (fun port =>
       match of_property_read_u32_index (dn_reg (of_tree env port)) 0 with
       | inl err => ret (Some err)
       | inr reg =>
           s <- load_ds ds ;;
           if decide (ds_num_ports s <= reg)%nat then ret (Some (- EINVAL))
           else
             p <- array_get (ds_ports s) reg ;;
             ports' <- array_set (ds_ports s) reg (port_with_dn (Some port) p) ;;
             store_ds ds (ds_with_ports ports' s) ;;;
             enable_unless_cpu env ds reg ;;;
             ret None
       end) after (put_ds ds (foldl (record_child env) s l) w).
Proof.
  induction l as [|c l IH]; intros s w Hok; [reflexivity|].
  apply Forall_cons in Hok as [Hc Hl].
  cbn [app for_each foldl].
  erewrite bind_Some by (apply (dsa_parse_ports_dn_round env ds s c w Hc)).
  cbv beta iota. apply IH.
  unfold ds_num_ports in *. rewrite record_child_ports_length. exact Hl.
Qed.

Lemma record_child_other env s c i :
  child_reg env c <> inr i ->
  ds_ports (record_child env s c) !! i = ds_ports s !! i /\
  Z.testbit (ds_enabled_port_mask (record_child env s c)) (Z.of_nat i) =
  Z.testbit (ds_enabled_port_mask s) (Z.of_nat i).
Proof.
  intros Hne. unfold record_child.
  destruct (child_reg env c) as [e|reg]; [auto|].
  assert (Hri : reg <> i) by congruence.
  destruct (ds_ports s !! reg) as [p|]; [|auto].
  destruct (negb _); simpl.
  - rewrite list_lookup_insert_ne by exact Hri. split; [reflexivity|].
    rewrite set_mask_bit_testbit.
    rewrite (bool_decide_eq_false_2 (reg = i)) by exact Hri.
    apply orb_false_r.
  - rewrite list_lookup_insert_ne by exact Hri. auto.
Qed.

Lemma record_child_at env s c reg p :
  child_reg env c = inr reg -> ds_ports s !! reg = Some p ->
  ds_ports (record_child env s c) !! reg = Some (port_with_dn (Some c) p) /\
  Z.testbit (ds_enabled_port_mask (record_child env s c)) (Z.of_nat reg) =
  Z.testbit (ds_enabled_port_mask s) (Z.of_nat reg) ||
  (negb (dsa_port_is_cpu env (port_with_dn (Some c) p)) &&
   bool_decide (reg < 32)%nat).
Proof.
  intros Hreg Hp. unfold record_child. rewrite Hreg, Hp.
  pose proof (lookup_lt_Some _ _ _ Hp) as Hlt.
  destruct (negb _); simpl.
  - rewrite list_lookup_insert_eq by exact Hlt. split; [reflexivity|].
    rewrite set_mask_bit_testbit.
    rewrite (bool_decide_eq_true_2 (reg = reg)) by reflexivity.
    reflexivity.
  - rewrite list_lookup_insert_eq by exact Hlt. split; [reflexivity|].
    symmetry. apply orb_false_r.
Qed.

Lemma recorded_frame env : forall l s,
  foldl (record_child env) s l =
  ds_with_enabled_port_mask
    (ds_enabled_port_mask (foldl (record_child env) s l))
    (ds_with_ports (ds_ports (foldl (record_child env) s l)) s) /\
  length (ds_ports (foldl (record_child env) s l)) = length (ds_ports s).
Proof.
  induction l as [|c l IH]; intros s; simpl.
  - split; [destruct s; reflexivity|reflexivity].
  - destruct (IH (record_child env s c)) as [Hf Hlen].
    split; [|rewrite Hlen; apply record_child_ports_length].
    rewrite Hf at 1. rewrite (record_child_frame env s c) at 3.
    reflexivity.
Qed.

Lemma recorded_other env i : forall l s,
  i ∉ child_regs env l ->
  ds_ports (foldl (record_child env) s l) !! i = ds_ports s !! i /\
  Z.testbit (ds_enabled_port_mask (foldl (record_child env) s l))
    (Z.of_nat i) =
  Z.testbit (ds_enabled_port_mask s) (Z.of_nat i).
Proof.
  induction l as [|c l IH]; intros s Hout; simpl; [auto|].
  assert (Hc : child_reg env c <> inr i).
  { intros Hreg. apply Hout. unfold child_regs. simpl. rewrite Hreg.
    apply elem_of_cons. auto. }
  assert (Hl : i ∉ child_regs env l).
  { intros Hin. apply Hout. unfold child_regs. simpl.
    destruct (child_reg env c); [exact Hin|].
    apply elem_of_cons. auto. }
  destruct (IH (record_child env s c) Hl) as [Hp Hb].
  destruct (record_child_other env s c i Hc) as [Hp' Hb'].
  split; congruence.
Qed.

Lemma child_regs_elem env l c reg :
  c ∈ l -> child_reg env c = inr reg -> reg ∈ child_regs env l.
Proof.
  intros Hin Hreg. unfold child_regs. apply list_elem_of_omap.
  exists c. rewrite Hreg. auto.
Qed.

Lemma recorded_at env c reg : forall l s p,
  NoDup (child_regs env l) -> c ∈ l -> child_reg env c = inr reg ->
  ds_ports s !! reg = Some p ->
  ds_ports (foldl (record_child env) s l) !! reg =
    Some (port_with_dn (Some c) p) /\
  Z.testbit (ds_enabled_port_mask (foldl (record_child env) s l))
    (Z.of_nat reg) =
  Z.testbit (ds_enabled_port_mask s) (Z.of_nat reg) ||
  (negb (dsa_port_is_cpu env (port_with_dn (Some c) p)) &&
   bool_decide (reg < 32)%nat).
Proof.
  induction l as [|c0 l IH]; intros s p Hnd Hin Hreg Hp; [inversion Hin|].
  simpl. apply elem_of_cons in Hin as [->|Hin].
  - assert (Hout : reg ∉ child_regs env l).
    { unfold child_regs in Hnd. simpl in Hnd. rewrite Hreg in Hnd.
      apply NoDup_cons in Hnd as [Hout _]. exact Hout. }
    destruct (recorded_other env reg l (record_child env s c0) Hout)
      as [Hp1 Hb1].
    destruct (record_child_at env s c0 reg p Hreg Hp) as [Hp2 Hb2].
    split; congruence.
  - pose proof (child_regs_elem env l c reg Hin Hreg) as Hreg_in.
    assert (Hc0 : child_reg env c0 <> inr reg /\ NoDup (child_regs env l)).
    { unfold child_regs in Hnd. simpl in Hnd.
      destruct (child_reg env c0) as [e|r0] eqn:Hr0.
      - split; [discriminate|exact Hnd].
      - apply NoDup_cons in Hnd as [Hout Hnd]. split; [|exact Hnd].
        intros [= ->]. contradiction. }
    destruct Hc0 as [Hc0 Hnd'].
    destruct (record_child_other env s c0 reg Hc0) as [Hp1 Hb1].
    rewrite <- Hp1 in Hp.
    destruct (IH (record_child env s c0) p Hnd' Hin Hreg Hp) as [Hp2 Hb2].
    split; [exact Hp2|]. rewrite Hb2, Hb1. reflexivity.
Qed.

(** X7: [dsa_parse_ports_dn] on port nodes that all have a "reg" below
    [num_ports], no two the same, returns 0; each node is then the [dn] of
    the port its "reg" names, whose bit of the enabled mask is set unless
    the port is a CPU port or its "reg" is 32 or more, where the 32-bit
    mask has no bit; the other ports and bits, and every other field of
    the switch, are as before. *)
Theorem dsa_parse_ports_dn_records env ports ds w s :
  w_switches w !! ds = Some s ->
  Forall (child_ok env (ds_num_ports s)) (dn_children (of_tree env ports)) ->
  NoDup (child_regs env (dn_children (of_tree env ports))) ->
  exists s',
    dsa_parse_ports_dn env ports ds w = Some (0, put_ds ds s' w) /\
    s' = ds_with_enabled_port_mask (ds_enabled_port_mask s')
           (ds_with_ports (ds_ports s') s) /\
    length (ds_ports s') = length (ds_ports s) /\
    (forall c reg,
       c ∈ dn_children (of_tree env ports) -> child_reg env c = inr reg ->
       exists p,
         ds_ports s !! reg = Some p /\
         ds_ports s' !! reg = Some (port_with_dn (Some c) p) /\
         Z.testbit (ds_enabled_port_mask s') (Z.of_nat reg) =
         Z.testbit (ds_enabled_port_mask s) (Z.of_nat reg) ||
         (negb (dsa_port_is_cpu env (port_with_dn (Some c) p)) &&
          bool_decide (reg < 32)%nat)) /\
    (forall i,
       i ∉ child_regs env (dn_children (of_tree env ports)) ->
       ds_ports s' !! i = ds_ports s !! i /\
       Z.testbit (ds_enabled_port_mask s') (Z.of_nat i) =
       Z.testbit (ds_enabled_port_mask s) (Z.of_nat i)).
Proof.
  intros Hs Hok Hnd.
  exists (foldl (record_child env) s (dn_children (of_tree env ports))).
  split.
  { unfold dsa_parse_ports_dn. rewrite <- (put_ds_id ds s w Hs) at 1.
    rewrite <- (app_nil_r (dn_children (of_tree env ports))) at 1.
    rewrite dsa_parse_ports_dn_loop by exact Hok. reflexivity. }
  destruct (recorded_frame env (dn_children (of_tree env ports)) s)
    as [Hf Hlen].
  split; [exact Hf|]. split; [exact Hlen|]. split.
  - intros c reg Hin Hreg.
    rewrite Forall_forall in Hok.
    destruct (Hok c Hin) as (reg' & Hreg' & Hlt).
    assert (reg' = reg) by congruence. subst reg'.
    destruct (lookup_lt_is_Some_2 (ds_ports s) reg Hlt) as [p Hp].
    exists p. split; [exact Hp|].
    apply recorded_at; assumption.
  - intros i Hout. apply recorded_other. exact Hout.
Qed.

Lemma dsa_parse_ports_dn_records_witness :
  exists s',
    dsa_parse_ports_dn fabric_env 201%nat 11%nat (boot_world three_switches) =
      Some (0, put_ds 11%nat s' (boot_world three_switches)) /\
    port_dn <$> ds_ports s' !! 0%nat = Some (Some 203%nat) /\
    port_dn <$> ds_ports s' !! 3%nat = Some (Some 204%nat) /\
    Z.testbit (ds_enabled_port_mask s') 0 = true /\
    Z.testbit (ds_enabled_port_mask s') 3 = false.
Proof.
  destruct (dsa_parse_ports_dn_records fabric_env 201%nat 11%nat
              (boot_world three_switches) (fresh_switch (plain_ops 1) 4))
    as (s' & Hrun & _ & _ & Hat & _).
  - reflexivity.
  - repeat constructor; eexists; (split; [reflexivity|vm_compute; lia]).
  - vm_compute. apply NoDup_cons. split.
    + intros H. apply list_elem_of_singleton in H. discriminate.
    + apply NoDup_singleton.
  - exists s'. split; [exact Hrun|].
    destruct (Hat 203%nat 0%nat) as (p0 & Hp0 & Hp0' & Hb0);
      [vm_compute; apply elem_of_cons; auto|reflexivity|].
    destruct (Hat 204%nat 3%nat) as (p3 & Hp3 & Hp3' & Hb3);
      [vm_compute; apply elem_of_cons; right; apply elem_of_cons; auto
      |reflexivity|].
    rewrite Hp0', Hp3'. split; [reflexivity|]. split; [reflexivity|].
    vm_compute in Hp0, Hp3. injection Hp0 as <-. injection Hp3 as <-.
    split; [exact Hb0|exact Hb3].
Defined.

(** X8: [dsa_parse_ports_dn] stops at the first port node whose "reg"
    cannot be read or is not below [num_ports], with the error of the
    read or [-EINVAL]; the nodes before it stay recorded on the switch. *)
Theorem dsa_parse_ports_dn_rejects env ports ds w s pre c post err :
  w_switches w !! ds = Some s ->
  dn_children (of_tree env ports) = (pre ++ c :: post)%list ->
  Forall (child_ok env (ds_num_ports s)) pre ->
  NoDup (child_regs env pre) ->
  child_reg env c = inl err \/
  (err = - EINVAL /\
   exists reg, child_reg env c = inr reg /\ (ds_num_ports s <= reg)%nat) ->
  exists s',
    dsa_parse_ports_dn env ports ds w = Some (err, put_ds ds s' w) /\
    length (ds_ports s') = length (ds_ports s) /\
    (forall c' reg,
       c' ∈ pre -> child_reg env c' = inr reg ->
       exists p,
         ds_ports s !! reg = Some p /\
         ds_ports s' !! reg = Some (port_with_dn (Some c') p)) /\
    (forall i, i ∉ child_regs env pre -> ds_ports s' !! i = ds_ports s !! i).
Proof.
  intros Hs Hsplit Hok Hnd Hc.
  exists (foldl (record_child env) s pre).
  destruct (recorded_frame env pre s) as [_ Hlen].
  split.
  { unfold dsa_parse_ports_dn. rewrite Hsplit.
    rewrite <- (put_ds_id ds s w Hs) at 1.
    rewrite dsa_parse_ports_dn_loop by exact Hok.
    cbn [for_each]. fold (child_reg env c).
    destruct Hc as [Hc|(-> & reg & Hc & Hge)]; rewrite Hc.
    - reflexivity.
    - rewrite bind_assoc.
      erewrite bind_Some by (apply load_ds_Some, put_ds_lookup).
      unfold ds_num_ports in *. rewrite Hlen.
      destruct (decide (length (ds_ports s) <= reg)%nat); [|lia].
      reflexivity. }
  split; [exact Hlen|]. split.
  - intros c' reg Hin Hreg. rewrite Forall_forall in Hok.
    destruct (Hok c' Hin) as (reg' & Hreg' & Hlt).
    assert (reg' = reg) by congruence. subst reg'.
    destruct (lookup_lt_is_Some_2 (ds_ports s) reg Hlt) as [p Hp].
    exists p. split; [exact Hp|].
    apply (recorded_at env c' reg pre s p Hnd Hin Hreg Hp).
  - intros i Hout. apply recorded_other. exact Hout.
Qed.

Lemma dsa_parse_ports_dn_rejects_witness :
  exists s',
    dsa_parse_ports_dn overrun_env 101%nat 10%nat (boot_world three_switches) =
      Some (- EINVAL, put_ds 10%nat s' (boot_world three_switches)) /\
    port_dn <$> ds_ports s' !! 0%nat = Some (Some 102%nat).
Proof.
  destruct (dsa_parse_ports_dn_rejects overrun_env 101%nat 10%nat
              (boot_world three_switches) (fresh_switch (plain_ops 1) 4)
              [102%nat] 103%nat [] (- EINVAL))
    as (s' & Hrun & _ & Hat & _).
  - reflexivity.
  - reflexivity.
  - repeat constructor. eexists. split; [reflexivity|vm_compute; lia].
  - vm_compute. apply NoDup_singleton.
  - right. split; [reflexivity|]. exists 7%nat.
    split; [reflexivity|vm_compute; lia].
  - exists s'. split; [exact Hrun|].
    destruct (Hat 102%nat 0%nat) as (p & _ & Hp);
      [apply list_elem_of_singleton; reflexivity|reflexivity|].
    rewrite Hp. reflexivity.
Defined.

(** The loop of [dsa_parse_ports] over indices without a name. *)
Lemma dsa_parse_ports_loop_unnamed env cd ds : forall l b w,
  Forall (fun i => cd_port_names cd !! i = Some None) l ->
  dsa_parse_ports_loop env cd ds l b w = Some (b, w).
Proof.
  induction l as [|i l IH]; intros b w Hl; [reflexivity|].
  apply Forall_cons in Hl as [Hi Hl]. simpl.
  rewrite (bind_Some _ _ _ _ _ (array_get_Some _ _ _ _ Hi)).
  apply IH. exact Hl.
Qed.

(** X9: platform data that names none of the [DSA_MAX_PORTS] ports is
    refused with [-EINVAL], and nothing is written. *)
Theorem dsa_parse_ports_no_names env cd ds w :
  (forall i, (i < DSA_MAX_PORTS)%nat -> cd_port_names cd !! i = Some None) ->
  dsa_parse_ports env (Some cd) ds w = Some (- EINVAL, w).
Proof.
  intros Hnone. unfold dsa_parse_ports.
  erewrite bind_Some.
  2:{ apply dsa_parse_ports_loop_unnamed. apply Forall_forall.
      intros i Hi. apply Hnone. apply elem_of_seq in Hi. lia. }
  reflexivity.
Qed.

Lemma dsa_parse_ports_no_names_witness :
  dsa_parse_ports fabric_env (Some unnamed_cd) 10%nat
    (boot_world three_switches) =
  Some (- EINVAL, boot_world three_switches).
Proof.
  apply dsa_parse_ports_no_names. intros i Hi.
  apply lookup_replicate_2. exact Hi.
Defined.

(** The loop of [dsa_parse_ports] writes [ds->ports[i]] without a look
    at [num_ports]. *)
Lemma dsa_parse_ports_loop_overrun env cd ds i name :
  cd_port_names cd !! i = Some (Some name) ->
  forall l b w s,
    w_switches w !! ds = Some s -> (ds_num_ports s <= i)%nat -> i ∈ l ->
    dsa_parse_ports_loop env cd ds l b w = None.
Proof.
  intros Hname. induction l as [|j l IH]; intros b w s Hs Hge Hin;
    [inversion Hin|].
  simpl. unfold bind at 1, array_get at 1.
  destruct (decide (j = i)) as [->|Hne].
  - rewrite Hname. simpl. unfold bind at 1, load_ds at 1. rewrite Hs.
    unfold bind at 1, array_get at 1.
    rewrite lookup_ge_None_2 by exact Hge. reflexivity.
  - apply elem_of_cons in Hin as [->|Hin]; [contradiction|].
    destruct (cd_port_names cd !! j) as [[n|]|]; simpl; [|eauto|reflexivity].
    unfold bind at 1, load_ds at 1. rewrite Hs.
    unfold bind at 1, array_get at 1.
    destruct (ds_ports s !! j) as [p|] eqn:Hp; [|reflexivity]. simpl.
    pose proof (lookup_lt_Some _ _ _ Hp) as Hlt.
    rewrite (bind_Some _ _ _ _ _ (array_set_Some _ _ _ _ Hlt)).
    rewrite ?bind_assoc.
    rewrite (bind_Some _ _ _ _ _ (store_ds_Some _ _ _ _ Hs)).
    fold (put_ds ds (ds_with_ports (<[j := port_with_name (Some n) p]>
                                       (ds_ports s)) s) w).
    set (s1 := ds_with_ports _ s).
    pose proof (put_ds_lookup ds s1 w) as Hs1.
    assert (Hp1 : ds_ports s1 !! j = Some (port_with_name (Some n) p)).
    { unfold s1. simpl. apply list_lookup_insert_eq. exact Hlt. }
    assert (Hn1 : (ds_num_ports s1 <= i)%nat).
    { unfold s1, ds_num_ports in *. simpl. rewrite length_insert. exact Hge. }
    unfold enable_unless_cpu. rewrite ?bind_assoc.
    rewrite (bind_Some _ _ _ _ _ (load_ds_Some _ _ _ Hs1)).
    rewrite ?bind_assoc.
    rewrite (bind_Some _ _ _ _ _ (array_get_Some _ _ _ _ Hp1)).
    destruct (negb (dsa_port_is_cpu env (port_with_name (Some n) p))).
    + rewrite (bind_Some _ _ _ _ _ (store_ds_Some _ _ _ _ Hs1)).
      eapply IH; [apply lookup_insert_eq| |exact Hin]. exact Hn1.
    + rewrite (bind_Some (ret _) _ _ _ _ eq_refl).
      eapply IH; [exact Hs1|exact Hn1|exact Hin].
Qed.

(** X10: [dsa_parse_ports] has no bound check of its own: with a name
    for a port index at or above [num_ports] it indexes [ds->ports] out
    of range (whereas [dsa_parse_ports_dn] returns [-EINVAL] for such a
    "reg"). *)
Theorem dsa_parse_ports_overrun env cd ds w s i name :
  w_switches w !! ds = Some s ->
  (i < DSA_MAX_PORTS)%nat ->
  cd_port_names cd !! i = Some (Some name) ->
  (ds_num_ports s <= i)%nat ->
  dsa_parse_ports env (Some cd) ds w = None.
Proof.
  intros Hs Hi Hname Hge. unfold dsa_parse_ports.
  unfold bind at 1.
  rewrite (dsa_parse_ports_loop_overrun env cd ds i name Hname
             (seq 0 DSA_MAX_PORTS) false w s Hs Hge);
    [reflexivity|].
  apply elem_of_seq. lia.
Qed.

Lemma dsa_parse_ports_overrun_witness :
  dsa_parse_ports fabric_env (Some overrun_cd) 10%nat
    (boot_world three_switches) = None.
Proof.
  apply (dsa_parse_ports_overrun fabric_env overrun_cd 10%nat
           (boot_world three_switches) (fresh_switch (plain_ops 1) 4)
           5%nat "lan").
  - reflexivity.
  - vm_compute. lia.
  - reflexivity.
  - vm_compute. lia.
Defined.

(** ** The resolver: what it writes *)

Lemma apply_writes_snoc ws k v rt :
  apply_writes (ws ++ [(k, v)])%list rt = <[k := v]> (apply_writes ws rt).
Proof. rewrite apply_writes_app. reflexivity. Qed.

(** An entry that a sequence of writes changes holds the value of one of
    them. *)
Lemma apply_writes_changed ws rt k :
  apply_writes ws rt !! k <> rt !! k ->
  exists v, (k, v) ∈ ws /\ apply_writes ws rt !! k = Some v.
Proof.
  induction ws as [|[j v] ws IH] using rev_ind; [intros H; contradiction|].
  rewrite apply_writes_snoc. intros Hne.
  destruct (decide (j = k)) as [->|Hjk].
  - destruct (decide (k < length (apply_writes ws rt))%nat) as [Hlt|Hge].
    + exists v. split; [apply elem_of_app; right;
                        apply list_elem_of_singleton; reflexivity|].
      apply list_lookup_insert_eq. exact Hlt.
    + rewrite list_insert_ge in Hne |- * by lia.
      destruct (IH Hne) as (v' & Hin & Hv). exists v'.
      split; [apply elem_of_app; auto|exact Hv].
  - rewrite list_lookup_insert_ne in Hne |- * by exact Hjk.
    destruct (IH Hne) as (v' & Hin & Hv). exists v'.
    split; [apply elem_of_app; auto|exact Hv].
Qed.

(** An entry within the table that a sequence of writes addresses holds
    the value of one of them. *)
Lemma apply_writes_set ws rt k :
  k ∈ map fst ws -> (k < length rt)%nat ->
  exists v, (k, v) ∈ ws /\ apply_writes ws rt !! k = Some v.
Proof.
  induction ws as [|[j v] ws IH] using rev_ind; [intros H; inversion H|].
  rewrite apply_writes_snoc, map_app. simpl. intros Hin Hlt.
  assert (Hlen : (k < length (apply_writes ws rt))%nat)
    by (rewrite apply_writes_length; exact Hlt).
  destruct (decide (j = k)) as [->|Hjk].
  - exists v. split; [apply elem_of_app; right;
                      apply list_elem_of_singleton; reflexivity|].
    apply list_lookup_insert_eq. exact Hlen.
  - rewrite list_lookup_insert_ne by exact Hjk.
    apply elem_of_app in Hin as [Hin|Hin].
    + destruct (IH Hin Hlt) as (v' & Hin' & Hv). exists v'.
      split; [apply elem_of_app; auto|exact Hv].
    + apply list_elem_of_singleton in Hin. congruence.
Qed.

(** The writes of a switch are those of its DSA ports. *)
Lemma ds_writes_routes env w dst s k v :
  (k, v) ∈ ds_writes env w dst s <->
  exists idx, v = to_s8 (Z.of_nat idx) /\ routes env w dst s k idx.
Proof.
  unfold ds_writes. rewrite list_elem_of_In, in_flat_map. split.
  - intros (idx & _ & Hin). exists idx. unfold port_part in Hin.
    destruct (ds_ports s !! idx) as [port|] eqn:Hport; [|inversion Hin].
    destruct (negb (dsa_port_is_valid port)) eqn:Hv; [inversion Hin|].
    destruct (negb (dsa_port_is_dsa env port)) eqn:Hd; [inversion Hin|].
    apply list_elem_of_In, list_elem_of_omap in Hin as (link & Hlink & Hlw).
    unfold link_write in Hlw.
    destruct (target w dst link) as [d|] eqn:Htg; [|discriminate].
    destruct (w_switches w !! d) as [sd|] eqn:Hsd; [|discriminate].
    injection Hlw as <- <-. split; [reflexivity|].
    exists port, link, d, sd. split; [exact Hport|].
    split; [|auto].
    apply classify_DsaLink. apply negb_false_iff in Hv, Hd. auto.
  - intros (idx & -> & port & link & d & sd & Hport & Hc & Hlink & Htg
            & Hsd & <-).
    exists idx. split.
    { apply in_seq. pose proof (lookup_lt_Some _ _ _ Hport).
      unfold ds_num_ports. lia. }
    unfold port_part. rewrite Hport.
    apply classify_DsaLink in Hc as [Hv Hd]. rewrite Hv, Hd. simpl.
    apply list_elem_of_In, list_elem_of_omap. exists link.
    split; [exact Hlink|]. unfold link_write. rewrite Htg, Hsd. reflexivity.
Qed.

(** X11: a resolver run changes an entry of a routing table only on a
    member, and only the entry of a member index that one of the DSA
    ports of the switch has a reference to; the entry then is the index
    of such a port, as an [s8] holds it (the index itself up to 127). *)
Theorem dsa_dst_complete_entries env dst w r w' p s s' k :
  wf_tree w dst = true -> NoDup (members w dst) ->
  dsa_dst_complete env dst w = Some (r, w') ->
  w_switches w !! p = Some s -> w_switches w' !! p = Some s' ->
  ds_rtable s' !! k <> ds_rtable s !! k ->
  p ∈ members w dst /\
  exists idx, ds_rtable s' !! k = Some (to_s8 (Z.of_nat idx)) /\
              routes env w dst s k idx.
Proof.
  intros Hwf Hnd Hrun Hs Hs' Hne.
  destruct (writes_of_run env w dst r w' Hwf Hnd Hrun p s Hs)
    as (s0 & ws & ws' & Hs0 & Hws & Hrt & Hnone & _).
  assert (s0 = s') by congruence. subst s0. rewrite Hrt in Hne |- *.
  split.
  - destruct (decide (p ∈ members w dst)) as [Hin|Hout]; [exact Hin|].
    rewrite (Hnone Hout) in Hne. contradiction.
  - destruct (apply_writes_changed ws (ds_rtable s) k Hne) as (v & Hin & Hv).
    assert (Hin' : (k, v) ∈ ds_writes env w dst s)
      by (rewrite Hws; apply elem_of_app; auto).
    apply ds_writes_routes in Hin' as (idx & -> & Hroute).
    exists idx. auto.
Qed.

Lemma dsa_dst_complete_entries_witness :
  10%nat ∈ members partial_world 50%nat /\
  exists idx,
    [-1; 0; -1; -1] !! 1%nat = Some (to_s8 (Z.of_nat idx)) /\
    routes partial_env partial_world 50%nat
      (member_switch 0 [102%nat; 103%nat]) 1 idx.
Proof.
  apply (dsa_dst_complete_entries partial_env 50%nat partial_world 1
           (world_after (dsa_dst_complete partial_env 50%nat) partial_world)
           10%nat (member_switch 0 [102%nat; 103%nat])
           (ds_with_dsa_port_mask (to_u32 1)
              (ds_with_rtable [-1; 0; -1; -1]
                 (member_switch 0 [102%nat; 103%nat])))
           1%nat).
  - vm_compute. reflexivity.
  - vm_compute. apply NoDup_cons. split.
    + intros H. apply list_elem_of_singleton in H. discriminate.
    + apply NoDup_singleton.
  - vm_compute. reflexivity.
  - reflexivity.
  - vm_compute. reflexivity.
  - vm_compute. discriminate.
Defined.

Lemma routes_index env w dst s k idx :
  wf_tree w dst = true -> routes env w dst s k idx ->
  (k < DSA_MAX_SWITCHES)%nat.
Proof.
  intros Hwf (port & link & d & sd & _ & _ & _ & Htg & Hsd & <-).
  destruct (target_Some _ _ _ _ Htg) as (t & i & sd' & Ht & Hi & Hsd' & _).
  destruct (wf_tree_inv _ _ Hwf) as (t' & Ht' & _ & Hok).
  assert (t' = t) by congruence. subst t'.
  destruct (Hok i d Hi) as (sd'' & Hsd'' & Hidx & _).
  assert (sd'' = sd) by congruence. subst. exact Hidx.
Qed.

(** X12: after a run that returns Complete, the routing table of each
    member has, for every member index that a DSA port of the switch has
    a reference to, the index of a port of the switch with a reference to
    that member, as an [s8] holds it (the index itself up to 127). *)
Theorem dsa_dst_complete_routes env dst w w' i p s k idx :
  wf_tree w dst = true -> NoDup (members w dst) ->
  dsa_dst_complete env dst w = Some (0, w') ->
  member_at w dst i p s ->
  routes env w dst s k idx ->
  exists s' idx',
    w_switches w' !! p = Some s' /\
    ds_rtable s' !! k = Some (to_s8 (Z.of_nat idx')) /\
    routes env w dst s k idx'.
Proof.
  intros Hwf Hnd Hrun (t & Ht & Hi & Hs) Hroute.
  destruct (writes_of_run env w dst 0 w' Hwf Hnd Hrun p s Hs)
    as (s' & ws & ws' & Hs' & Hws & Hrt & _ & Hfull).
  assert (Hmem : p ∈ members w dst).
  { unfold members, slots. rewrite Ht. apply (list_elem_of_omap id).
    exists (Some p). split; [|reflexivity].
    eapply list_elem_of_lookup_2. exact Hi. }
  rewrite (Hfull eq_refl Hmem), app_nil_r in Hws.
  destruct (wf_tree_inv _ _ Hwf) as (t' & Ht' & _ & Hok).
  assert (t' = t) by congruence. subst t'.
  destruct (Hok i p Hi) as (s0 & Hs0 & _ & Hlen).
  assert (s0 = s) by congruence. subst s0.
  destruct (apply_writes_set ws (ds_rtable s) k) as (v & Hin & Hv).
  - apply list_elem_of_In, in_map_iff. exists (k, to_s8 (Z.of_nat idx)).
    split; [reflexivity|]. apply list_elem_of_In. rewrite <- Hws.
    apply ds_writes_routes. eauto.
  - rewrite Hlen. eapply routes_index; eassumption.
  - rewrite <- Hws in Hin.
    apply ds_writes_routes in Hin as (idx' & -> & Hroute').
    exists s', idx'. rewrite Hrt. auto.
Qed.


Lemma dsa_dst_complete_routes_witness :
  exists s s' idx',
    w_switches dual_cpu_world_joined !! 10%nat = Some s /\
    w_switches dual_cpu_world_resolved !! 10%nat = Some s' /\
    ds_rtable s' !! 1%nat = Some (to_s8 (Z.of_nat idx')) /\
    routes dual_cpu_env dual_cpu_world_joined 50%nat s 1 idx'.
Proof.
  destruct (w_switches dual_cpu_world_joined !! 10%nat) as [s|] eqn:Hs;
    [|vm_compute in Hs; discriminate].
  assert (Hs' := Hs). vm_compute in Hs'. injection Hs' as Hs'.
  destruct (dsa_dst_complete_routes dual_cpu_env 50%nat dual_cpu_world_joined
              dual_cpu_world_resolved 0%nat 10%nat s 1%nat 1%nat)
    as (s' & idx' & Hs1 & Hrt & Hroute).
  - vm_compute. reflexivity.
  - vm_compute. apply NoDup_cons. split.
    + intros H. apply list_elem_of_singleton in H. discriminate.
    + apply NoDup_singleton.
  - vm_compute. reflexivity.
  - eexists. split; [vm_compute; reflexivity|].
    split; [vm_compute; reflexivity|exact Hs].
  - rewrite <- Hs'. eexists _, 204%nat, 11%nat, _.
    split; [reflexivity|]. split; [vm_compute; reflexivity|].
    split; [apply list_elem_of_singleton; reflexivity|].
    split; [vm_compute; reflexivity|].
    split; [vm_compute; reflexivity|reflexivity].
  - exists s, s', idx'. auto.
Defined.

(** X13: once the resolver has returned Complete, another run returns
    Complete again and leaves every routing table as it is. *)
Theorem dsa_dst_complete_again env dst w w1 :
  wf_tree w dst = true -> NoDup (members w dst) ->
  dsa_dst_complete env dst w = Some (0, w1) ->
  exists w2,
    dsa_dst_complete env dst w1 = Some (0, w2) /\
    forall p, ds_rtable <$> w_switches w2 !! p =
              ds_rtable <$> w_switches w1 !! p.
Proof.
  intros Hwf Hnd Hrun.
  destruct (dsa_dst_complete_spec env w dst Hwf)
    as (r & w1' & Hrun' & Hf & Hv).
  rewrite Hrun in Hrun'. injection Hrun' as <- <-.
  destruct Hv as [[_ Hall]|[Hr _]]; [|discriminate].
  pose proof (wf_tree_frame _ _ _ Hf Hwf) as Hwf1.
  pose proof (resolver_frame_same_topology dst _ _ Hf) as Htop.
  destruct (dsa_dst_complete_spec env w1 dst Hwf1)
    as (r2 & w2 & Hrun2 & Hf2 & Hv2).
  assert (r2 = 0).
  { destruct Hv2 as [[-> _]|[_ Hn]]; [reflexivity|]. exfalso. apply Hn.
    eapply all_links_resolve_same_topology; eassumption. }
  subst r2. exists w2. split; [exact Hrun2|].
  assert (Hmem : members w1 dst = members w dst).
  { unfold members. rewrite (slots_same_topology dst w w1 Htop).
    reflexivity. }
  assert (Hnd1 : NoDup (members w1 dst)) by (rewrite Hmem; exact Hnd).
  intros p. destruct (w_switches w1 !! p) as [s1|] eqn:Hs1.
  - destruct (resolver_frame_lookup_inv _ _ _ _ Hf Hs1) as (s & Hs & Hss).
    destruct (writes_of_run env w dst 0 w1 Hwf Hnd Hrun p s Hs)
      as (s1' & ws & ws' & Hs1' & Hws & Hrt & Hnone & Hfull).
    assert (s1' = s1) by congruence. subst s1'.
    destruct (writes_of_run env w1 dst 0 w2 Hwf1 Hnd1 Hrun2 p s1 Hs1)
      as (s2 & vs & vs' & Hs2 & Hvs & Hrt2 & Hnone2 & Hfull2).
    rewrite Hs2. simpl. f_equal. rewrite Hrt2.
    destruct (decide (p ∈ members w dst)) as [Hin|Hout].
    + rewrite (Hfull eq_refl Hin), app_nil_r in Hws.
      rewrite Hmem in Hfull2.
      rewrite (Hfull2 eq_refl Hin), app_nil_r in Hvs.
      rewrite (ds_writes_same_topology env dst w w1 s s1 Htop
                 (resolver_frame_ds_ports _ _ Hss)) in Hvs.
      rewrite <- Hvs, Hws, Hrt. apply apply_writes_idem.
    + rewrite Hmem in Hnone2. rewrite (Hnone2 Hout). reflexivity.
  - destruct Hf2 as (_ & _ & _ & Hsw). pose proof (Hsw p) as H.
    rewrite Hs1 in H. inversion H. reflexivity.
Qed.

Lemma dsa_dst_complete_again_witness :
  exists w2,
    dsa_dst_complete dual_cpu_env 50%nat dual_cpu_world_resolved =
      Some (0, w2) /\
    forall p, ds_rtable <$> w_switches w2 !! p =
              ds_rtable <$> w_switches dual_cpu_world_resolved !! p.
Proof.
  apply (dsa_dst_complete_again dual_cpu_env 50%nat dual_cpu_world_joined).
  - vm_compute. reflexivity.
  - vm_compute. apply NoDup_cons. split.
    + intros H. apply list_elem_of_singleton in H. discriminate.
    + apply NoDup_singleton.
  - vm_compute. reflexivity.
Defined.

Lemma head_omap_first {A B} (f : A -> option B) (l : list A) y :
  head (omap f l) = Some y ->
  exists i x, l !! i = Some x /\ f x = Some y /\
    forall j x', (j < i)%nat -> l !! j = Some x' -> f x' = None.
Proof.
  induction l as [|a l IH]; [discriminate|]. simpl.
  destruct (f a) as [b|] eqn:Hfa.
  - simpl. intros [= ->]. exists 0%nat, a. split; [reflexivity|].
    split; [exact Hfa|]. intros j x' Hj. lia.
  - intros H. destruct (IH H) as (i & x & Hi & Hfx & Hbefore).
    exists (S i), x. split; [exact Hi|]. split; [exact Hfx|].
    intros [|j] x' Hj Hx'.
    + injection Hx' as <-. exact Hfa.
    + apply (Hbefore j x'); [lia|exact Hx'].
Qed.

Lemma head_omap_none {A B} (f : A -> option B) (l : list A) :
  head (omap f l) = None -> forall x, x ∈ l -> f x = None.
Proof.
  intros H x Hx. apply head_None in H.
  destruct (f x) as [y|] eqn:Hfx; [|reflexivity].
  assert (Hin : y ∈ omap f l) by (apply list_elem_of_omap; eauto).
  rewrite H in Hin. inversion Hin.
Qed.

(** X14: [dsa_dst_find_port_dn] changes nothing and returns the member of
    the lowest slot that has a port with the node; it returns NULL only
    if no member has one. *)
Theorem dsa_dst_find_port_dn_first w dst link :
  wf_tree w dst = true ->
  exists r,
    dsa_dst_find_port_dn dst (Some link) w = Some (r, w) /\
    match r with
    | Some d =>
        exists i s,
          slots w dst !! i = Some (Some d) /\
          w_switches w !! d = Some s /\
          dsa_ds_find_port_dn s (Some link) = true /\
          forall j d' s',
            (j < i)%nat -> slots w dst !! j = Some (Some d') ->
            w_switches w !! d' = Some s' ->
            dsa_ds_find_port_dn s' (Some link) = false
    | None =>
        forall i d s,
          slots w dst !! i = Some (Some d) -> w_switches w !! d = Some s ->
          dsa_ds_find_port_dn s (Some link) = false
    end.
Proof.
  intros Hwf.
  destruct (dsa_dst_find_port_dn_spec w dst link Hwf) as (r & Hrun & _).
  destruct (wf_tree_inv _ _ Hwf) as (t & Ht & Hlen & _).
  destruct (wp_elim _ _ _ _ _
              (dsa_dst_find_port_dn_target w dst link t Ht Hlen) Hrun)
    as [_ Hr].
  exists r. split; [exact Hrun|]. unfold slots. rewrite Ht.
  unfold target in Hr. rewrite Ht in Hr. symmetry in Hr.
  destruct r as [d|].
  - destruct (head_omap_first _ _ _ Hr) as (i & slot & Hi & Ho & Hbefore).
    apply owner_Some in Ho as (-> & s & Hs & Hf).
    exists i, s. repeat split; try assumption.
    intros j d' s' Hj Hslot Hs'.
    pose proof (Hbefore j (Some d') Hj Hslot) as Hnone.
    unfold owner in Hnone. rewrite Hs' in Hnone.
    destruct (dsa_ds_find_port_dn s' (Some link)); [discriminate|reflexivity].
  - intros i d s Hi Hs.
    pose proof (head_omap_none _ _ Hr (Some d)
                  (list_elem_of_lookup_2 _ _ _ Hi)) as Hnone.
    unfold owner in Hnone. rewrite Hs in Hnone.
    destruct (dsa_ds_find_port_dn s (Some link)); [discriminate|reflexivity].
Qed.

Lemma dsa_dst_find_port_dn_first_witness :
  dsa_dst_find_port_dn 50%nat (Some 203%nat) partial_world =
    Some (Some 11%nat, partial_world) /\
  dsa_dst_find_port_dn 50%nat (Some 302%nat) partial_world =
    Some (None, partial_world).
Proof.
  destruct (dsa_dst_find_port_dn_first partial_world 50%nat 203%nat)
    as (r & Hrun & _); [vm_compute; reflexivity|].
  destruct (dsa_dst_find_port_dn_first partial_world 50%nat 302%nat)
    as (r' & Hrun' & _); [vm_compute; reflexivity|].
  assert (Hr : r = Some 11%nat).
  { assert (E := Hrun). vm_compute in E. injection E as <-. reflexivity. }
  assert (Hr' : r' = None).
  { assert (E := Hrun'). vm_compute in E. injection E as <-. reflexivity. }
  subst. split; assumption.
Defined.

(** ** The negotiator without a CPU port *)

Lemma dsa_ds_parse_no_cpu env dst ds w s :
  w_switches w !! ds = Some s ->
  (forall port, port ∈ ds_ports s -> dsa_port_is_valid port = true ->
                dsa_port_is_cpu env port = false) ->
  dsa_ds_parse env dst ds w = Some (0, w).
Proof.
  intros Hs Hno. unfold dsa_ds_parse.
  rewrite (bind_Some _ _ _ _ _ (load_ds_Some _ _ _ Hs)).
  destruct (for_each_hoare
    (fun _ w' => w' = w) (fun r w' => r = 0 /\ w' = w)
    (seq 0 (ds_num_ports s))
    (fun index =>
       s <- load_ds ds ;;
       port <- array_get (ds_ports s) index ;;
       if negb (dsa_port_is_valid port) then ret None
       else if dsa_port_is_cpu env port then
         err <- dsa_cpu_parse env port index dst ds ;;
         if decide (err <> 0) then ret (Some err) else ret None
       else ret None)
    (ret 0)) with (w := w) as (v & w' & Hrun & -> & ->).
  - intros pre i post w1 Hsplit ->.
    destruct (seq_split _ _ _ _ Hsplit) as [_ Hlt].
    destruct (lookup_lt_is_Some_2 (ds_ports s) i Hlt) as [port Hport].
    exists None, w. split; [|reflexivity].
    rewrite (bind_Some _ _ _ _ _ (load_ds_Some _ _ _ Hs)).
    rewrite (bind_Some _ _ _ _ _ (array_get_Some _ _ _ _ Hport)).
    destruct (dsa_port_is_valid port) eqn:Hv; [|reflexivity]. simpl.
    rewrite (Hno port (list_elem_of_lookup_2 _ _ _ Hport) Hv). reflexivity.
  - intros w1 ->. exists 0, w. auto.
  - reflexivity.
  - exact Hrun.
Qed.

(** A loop all of whose rounds go on without a change is its tail. *)
Lemma for_each_skip {I R} (l : list I) (body : I -> M (option R))
  (after : M R) w :
  (forall i, i ∈ l -> body i w = Some (None, w)) ->
  for_each l body after w = after w.
Proof.
  induction l as [|i l IH]; intros H; [reflexivity|]. simpl.
  rewrite (bind_Some _ _ _ _ _ (H i (list_elem_of_here _ _))).
  apply IH. intros j Hj. apply H. apply elem_of_cons. auto.
Qed.

(** A round of the loop of [dsa_dst_parse] on such a tree. *)
Lemma dsa_dst_parse_round_no_cpu env dst w t i :
  wf_tree w dst = true ->
  w_trees w !! dst = Some t ->
  (forall i ds s port,
     member_at w dst i ds s -> port ∈ ds_ports s ->
     dsa_port_is_valid port = true -> dsa_port_is_cpu env port = false) ->
  i ∈ seq 0 DSA_MAX_SWITCHES ->
  (t <- load_dst dst ;;
   slot <- array_get (dst_ds t) i ;;
   match slot with
   | None => ret None
   | Some ds =>
       err <- dsa_ds_parse env dst ds ;;
       if decide (err <> 0) then ret (Some err) else ret (@None Z)
   end)%dsa w = Some (None, w).
Proof.
  intros Hwf Ht Hno Hi.
  destruct (wf_tree_inv _ _ Hwf) as (t' & Ht' & Hlen & Hok).
  assert (t' = t) by congruence. subst t'.
  apply elem_of_seq in Hi.
  destruct (lookup_lt_is_Some_2 (dst_ds t) i) as [slot Hslot]; [lia|].
  rewrite (bind_Some _ _ _ _ _ (load_dst_Some _ _ _ Ht)).
  rewrite (bind_Some _ _ _ _ _ (array_get_Some _ _ _ _ Hslot)).
  destruct slot as [ds|]; [|reflexivity].
  destruct (Hok i ds Hslot) as (s & Hs & _).
  rewrite (bind_Some _ _ _ _ _ (dsa_ds_parse_no_cpu env dst ds w s Hs
             (fun port => Hno i ds s port
                            (ex_intro _ t (conj Ht (conj Hslot Hs)))))).
  reflexivity.
Qed.

(** X15: on a tree none of whose members has a CPU port among its valid
    ports, [dsa_dst_parse] writes nothing; it returns [-EINVAL] unless the
    tree has a master device already. *)
Theorem dsa_dst_parse_no_cpu env dst w t :
  wf_tree w dst = true ->
  w_trees w !! dst = Some t ->
  (forall i ds s port,
     member_at w dst i ds s -> port ∈ ds_ports s ->
     dsa_port_is_valid port = true -> dsa_port_is_cpu env port = false) ->
  dsa_dst_parse env dst w =
  Some (match dst_master_netdev t with
        | None => - EINVAL
        | Some _ => 0
        end, w).
Proof.
  intros Hwf Ht Hno. unfold dsa_dst_parse.
  rewrite for_each_skip.
  - rewrite (bind_Some _ _ _ _ _ (load_dst_Some _ _ _ Ht)).
    destruct (dst_master_netdev t); reflexivity.
  - intros i Hi.
    apply (dsa_dst_parse_round_no_cpu env dst w t i Hwf Ht Hno Hi).
Qed.

Lemma dsa_dst_parse_no_cpu_witness :
  dsa_dst_parse partial_env 50%nat partial_world =
  Some (- EINVAL, partial_world).
Proof.
  apply (dsa_dst_parse_no_cpu partial_env 50%nat partial_world
           (member_tree 0 3 [Some 10%nat; Some 11%nat; None; None])).
  - vm_compute. reflexivity.
  - reflexivity.
  - intros i ds s port (t & Ht & Hi & Hs) Hport _.
    injection Ht as <-.
    destruct i as [|[|[|[|i]]]]; simpl in Hi; try discriminate;
      injection Hi as <-; vm_compute in Hs; injection Hs as <-;
      simpl in Hport;
      repeat (apply elem_of_cons in Hport as [->|Hport];
              [vm_compute; reflexivity|]);
      inversion Hport.
Defined.

(** ** The activator: a failed apply *)

Lemma set_port_netdev_keeps ds index nd w0 w :
  keeps_trees w0 w ->
  wp (set_port_netdev ds index nd) (fun _ w' => keeps_trees w0 w') w.
Proof. intros H. unfold set_port_netdev. wp_steps. exact H. Qed.

Lemma dsa_user_port_apply_keeps env port index ds w0 w :
  keeps_trees w0 w ->
  wp (dsa_user_port_apply env port index ds)
     (fun _ w' => keeps_trees w0 w') w.
Proof.
  intros H. unfold dsa_user_port_apply.
  destruct (dsa_slave_create env ds index _) as [err|dev].
  - destruct (decide (err <> 0)); [|apply wp_ret; exact H].
    apply wp_bind. eapply wp_mono; [apply set_port_netdev_keeps; exact H|].
    intros u w1 H1. apply wp_ret. exact H1.
  - apply wp_bind. eapply wp_mono; [apply set_port_netdev_keeps; exact H|].
    intros u w1 H1. apply wp_ret. exact H1.
Qed.

Lemma dsa_cpu_port_apply_keeps env port index ds w0 w :
  keeps_trees w0 w ->
  wp (dsa_cpu_port_apply env port index ds)
     (fun _ w' => keeps_trees w0 w') w.
Proof. intros H. unfold dsa_cpu_port_apply. wp_steps; exact H. Qed.

Lemma dsa_ds_apply_ports_keeps env ds w0 w :
  keeps_trees w0 w ->
  wp (dsa_ds_apply_ports env ds) (fun _ w' => keeps_trees w0 w') w.
Proof.
  intros H. unfold dsa_ds_apply_ports. wp_steps.
  apply (wp_for_each (fun w' => keeps_trees w0 w')); [exact H| |].
  - intros i w1 _ H1. apply wp_bind, wp_load_ds. intros sa Hsa.
    apply wp_bind, wp_array_get. intros port Hport.
    destruct (negb (dsa_port_is_valid port)); [apply wp_ret; exact H1|].
    destruct (dsa_port_is_dsa env port).
    { unfold dsa_dsa_port_apply. wp_steps; exact H1. }
    destruct (dsa_port_is_cpu env port).
    { apply wp_bind.
      eapply wp_mono; [apply dsa_cpu_port_apply_keeps; exact H1|].
      intros err w2 H2. simpl. wp_steps; exact H2. }
    apply wp_bind.
    eapply wp_mono; [apply dsa_user_port_apply_keeps; exact H1|].
    intros err w2 H2. apply wp_ret. exact H2.
  - intros w1 H1. apply wp_ret. exact H1.
Qed.

Lemma dsa_ds_apply_keeps env dst ds w0 w :
  keeps_trees w0 w ->
  wp (dsa_ds_apply env dst ds) (fun _ w' => keeps_trees w0 w') w.
Proof.
  intros H. unfold dsa_ds_apply. apply wp_bind.
  apply (wp_mono _ (fun _ w' => keeps_trees w0 w')).
  - unfold dsa_ds_apply_setup, dsa_ds_apply_mii_bus. wp_steps; exact H.
  - intros err w1 H1. simpl.
    destruct (decide (err <> 0)); [apply wp_ret; exact H1|].
    apply dsa_ds_apply_ports_keeps. exact H1.
Qed.

(** An apply that fails has left the trees and the [dsa_ptr] fields
    alone. *)
Lemma dsa_dst_apply_keeps env dst w :
  wp (dsa_dst_apply env dst)
     (fun err w' => err <> 0 -> keeps_trees w w') w.
Proof.
  unfold dsa_dst_apply.
  apply (wp_for_each (fun w' => keeps_trees w w')); [split; reflexivity| |].
  - intros i w1 _ H1. apply wp_bind, wp_load_dst. intros t Ht.
    apply wp_bind, wp_array_get. intros slot Hslot.
    destruct slot as [ds|]; [|apply wp_ret; exact H1].
    apply wp_bind.
    eapply wp_mono; [apply dsa_ds_apply_keeps; exact H1|].
    intros err w2 H2. simpl.
    destruct (decide (err <> 0)); apply wp_ret; [intros _|]; exact H2.
  - intros w1 H1. apply wp_bind, wp_load_dst. intros t Ht.
    destruct (decide _) as [Hne|Heq]; [apply wp_ret; intros _; exact H1|].
    apply wp_bind. apply wp_intro. intros u w2 _.
    apply wp_bind, wp_load_dst. intros t2 Ht2.
    apply wp_bind, wp_store_dst. intros _ _. apply wp_ret.
    intros H. contradiction.
Qed.

(** X16: when [dsa_dst_apply] fails on a tree that is not applied, the
    tree is still not applied, so the [dsa_dst_unapply] that
    [_dsa_register_switch] calls next returns at once: what the apply did
    to the switches before it failed is not undone. *)
Theorem dsa_dst_apply_failed env dst w t err w1 :
  w_trees w !! dst = Some t -> dst_applied t = false ->
  dsa_dst_apply env dst w = Some (err, w1) -> err <> 0 ->
  w_trees w1 = w_trees w /\ w_dsa_ptr w1 = w_dsa_ptr w /\
  dsa_dst_unapply env dst w1 = Some (tt, w1).
Proof.
  intros Ht Ha Hrun Herr.
  destruct (wp_elim _ _ _ _ _ (dsa_dst_apply_keeps env dst w) Hrun Herr)
    as [Htr Hptr].
  split; [exact Htr|]. split; [exact Hptr|].
  apply (dsa_dst_unapply_not_applied env dst w1 t); [|exact Ha].
  rewrite Htr. exact Ht.
Qed.

Lemma dsa_dst_apply_failed_witness :
  exists w1,
    dsa_dst_apply mixed_env_uplink 50%nat mixed_world = Some (- EINVAL, w1) /\
    dsa_dst_unapply mixed_env_uplink 50%nat w1 = Some (tt, w1) /\
    (exists s port,
       w_switches w1 !! 10%nat = Some s /\ ds_ports s !! 0%nat = Some port /\
       is_Some (port_netdev port)).
Proof.
  exists (world_after (dsa_dst_apply mixed_env_uplink 50%nat) mixed_world).
  assert (Hrun : dsa_dst_apply mixed_env_uplink 50%nat mixed_world =
                 Some (- EINVAL,
                       world_after (dsa_dst_apply mixed_env_uplink 50%nat)
                         mixed_world)) by (vm_compute; reflexivity).
  split; [exact Hrun|]. split.
  - eapply (dsa_dst_apply_failed mixed_env_uplink 50%nat mixed_world _
              (- EINVAL)); [reflexivity|reflexivity|exact Hrun|].
    vm_compute. discriminate.
  - eexists _, _. split; [vm_compute; reflexivity|].
    split; [reflexivity|]. eexists. reflexivity.
Defined.

(** ** Unregistration *)

Lemma unapply_port_index env s i :
  ds_index (unapply_port env s i) = ds_index s.
Proof.
  unfold unapply_port. destruct (ds_ports s !! i) as [port|]; [|reflexivity].
  destruct (classify env port); try reflexivity.
  destruct (port_netdev port); reflexivity.
Qed.

Lemma unapplied_index env s : ds_index (unapplied env s) = ds_index s.
Proof.
  unfold unapplied. generalize (seq 0 (ds_num_ports s)). intros l.
  revert s. induction l as [|i l IH]; intros s; [reflexivity|].
  simpl. rewrite IH. apply unapply_port_index.
Qed.

Lemma dst_with_applied_id t : dst_with_applied (dst_applied t) t = t.
Proof. destruct t. reflexivity. Qed.

(** [dsa_dst_unapply] returns on a well-formed tree (whose master device
    is set if it is applied). *)
Lemma dsa_dst_unapply_total env dst w t :
  wf_tree w dst = true -> w_trees w !! dst = Some t ->
  (dst_applied t = true -> is_Some (dst_master_netdev t)) ->
  exists w', dsa_dst_unapply env dst w = Some (tt, w').
Proof.
  intros Hwf Ht Hmaster.
  destruct (wf_tree_inv _ _ Hwf) as (t' & Ht' & Hlen & Hok).
  assert (t' = t) by congruence. subst t'.
  unfold dsa_dst_unapply.
  rewrite (bind_Some _ _ _ _ _ (load_dst_Some _ _ _ Ht)).
  destruct (dst_applied t) eqn:Ha; [|eexists; reflexivity]. cbn [negb].
  destruct (Hmaster eq_refl) as [nd Hnd].
  unfold set_dsa_ptr at 1. rewrite bind_assoc.
  rewrite (bind_Some _ _ _ _ _ (load_dst_Some _ _ _ Ht)). rewrite Hnd.
  unfold bind at 1.
  set (w0 := w_with_dsa_ptr _ w).
  destruct (for_each_hoare
    (fun _ w' =>
       w_trees w' = w_trees w /\
       forall p, is_Some (w_switches w !! p) -> is_Some (w_switches w' !! p))
    (fun (_ : unit) _ => True)
    (seq 0 DSA_MAX_SWITCHES)
    (fun index =>
       t <- load_dst dst ;;
       slot <- array_get (dst_ds t) index ;;
       match slot with
       | None => ret None
       | Some ds => dsa_ds_unapply env dst ds ;;; ret None
       end)
    (t' <- load_dst dst ;;
     store_dst dst (dst_with_applied false t'))) with (w := w0)
    as (v & w' & Hrun & _).
  - intros pre i post w1 Hsplit [Htr Hsw].
    destruct (seq_split _ _ _ _ Hsplit) as [_ Hlt].
    destruct (lookup_lt_is_Some_2 (dst_ds t) i) as [slot Hslot]; [lia|].
    assert (Ht1 : w_trees w1 !! dst = Some t) by (rewrite Htr; exact Ht).
    rewrite (bind_Some _ _ _ _ _ (load_dst_Some _ _ _ Ht1)).
    rewrite (bind_Some _ _ _ _ _ (array_get_Some _ _ _ _ Hslot)).
    destruct slot as [ds|]; [|exists None, w1; split; [reflexivity|auto]].
    destruct (Hok i ds Hslot) as (s & Hs & _).
    destruct (Hsw ds (mk_is_Some _ _ Hs)) as [s1 Hs1].
    rewrite (bind_Some _ _ _ _ _ (dsa_ds_unapply_run env dst ds s1 w1 Hs1)).
    eexists None, _. split; [reflexivity|]. split; [exact Htr|].
    intros p Hp. simpl. destruct (decide (p = ds)) as [->|Hne].
    + rewrite lookup_insert_eq. eauto.
    + rewrite lookup_insert_ne by auto. apply Hsw. exact Hp.
  - intros w1 [Htr _].
    assert (Ht1 : w_trees w1 !! dst = Some t) by (rewrite Htr; exact Ht).
    rewrite (bind_Some _ _ _ _ _ (load_dst_Some _ _ _ Ht1)).
    rewrite (store_dst_Some _ _ _ _ Ht1). eexists tt, _. auto.
  - split; [reflexivity|]. auto.
  - destruct v. exists w'. exact Hrun.
Qed.

(** X17: unregistering a member unapplies the whole tree if it is
    applied (every member goes through [dsa_ds_unapply], not the leaving
    one alone), vacates the slot of the member and drops its reference;
    with another reference left, the tree stays in the store. *)
Theorem unregister_member env ds w s dst t :
  w_switches w !! ds = Some s -> ds_dst s = Some dst ->
  w_trees w !! dst = Some t ->
  wf_tree w dst = true -> NoDup (members w dst) ->
  (ds_index s < DSA_MAX_SWITCHES)%nat ->
  (dst_applied t = true -> is_Some (dst_master_netdev t)) ->
  dst_refcount t <> 1 ->
  exists w',
    _dsa_unregister_switch env ds w = Some (tt, w') /\
    w_trees w' =
      <[dst := dst_with_refcount (dst_refcount t - 1)
                 (dst_with_ds (<[ds_index s := None]> (dst_ds t))
                    (dst_with_applied false t))]> (w_trees w) /\
    forall p,
      w_switches w' !! p =
      if dst_applied t && bool_decide (p ∈ members w dst)
      then unapplied env <$> w_switches w !! p
      else w_switches w !! p.
Proof.
  intros Hs Hdst Ht Hwf Hnd Hidx Hmaster Hrc.
  destruct (wf_tree_inv _ _ Hwf) as (t' & Ht' & Hlen & _).
  assert (t' = t) by congruence. subst t'.
  unfold _dsa_unregister_switch.
  rewrite (bind_Some _ _ _ _ _ (load_ds_Some _ _ _ Hs)). rewrite Hdst.
  destruct (dst_applied t) eqn:Ha.
  - destruct (dsa_dst_unapply_total env dst w t Hwf Ht)
      as (w1 & Hrun); [rewrite Ha; exact Hmaster|].
    assert (Hnd' : NoDup (omap id (dst_ds t))).
    { unfold members, slots in Hnd. rewrite Ht in Hnd. exact Hnd. }
    destruct (wp_elim _ _ _ _ _
                (dsa_dst_unapply_spec env dst w t Ht Ha Hlen Hnd') Hrun)
      as [Htr Hsw].
    rewrite (bind_Some _ _ _ _ _ Hrun).
    assert (Hs1 : exists s1, w_switches w1 !! ds = Some s1 /\
                             ds_index s1 = ds_index s).
    { rewrite Hsw. destruct (bool_decide _).
      - rewrite Hs. simpl. eexists. split; [reflexivity|].
        apply unapplied_index.
      - eauto. }
    destruct Hs1 as (s1 & Hs1 & Hi1).
    rewrite (bind_Some _ _ _ _ _ (load_ds_Some _ _ _ Hs1)). rewrite Hi1.
    assert (Ht1 : w_trees w1 !! dst = Some (dst_with_applied false t)).
    { rewrite Htr. apply lookup_insert_eq. }
    rewrite (dsa_dst_del_ds_Some dst ds (ds_index s) _ w1 Ht1);
      [|simpl; lia|simpl; lia].
    eexists. split; [reflexivity|]. simpl. split.
    + rewrite Htr, insert_insert_eq. reflexivity.
    + intros p. rewrite Hsw. unfold members, slots. rewrite Ht. reflexivity.
  - rewrite (bind_Some _ _ _ _ _
               (dsa_dst_unapply_not_applied env dst w t Ht Ha)).
    rewrite (bind_Some _ _ _ _ _ (load_ds_Some _ _ _ Hs)).
    rewrite (dsa_dst_del_ds_Some dst ds (ds_index s) t w Ht);
      [|lia|lia].
    eexists. split; [reflexivity|]. simpl. split; [|reflexivity].
    replace (dst_with_applied false t) with t; [reflexivity|].
    rewrite <- Ha. symmetry. apply dst_with_applied_id.
Qed.

Lemma unregister_member_witness :
  exists w' t',
    _dsa_unregister_switch mixed_plain_env 10%nat mixed_world_applied =
      Some (tt, w') /\
    w_trees w' !! 50%nat = Some t' /\
    dst_applied t' = false /\ dst_ds t' = [None; None; None; None] /\
    dst_refcount t' = 1.
Proof.
  destruct (w_switches mixed_world_applied !! 10%nat) as [s|] eqn:Hs;
    [|vm_compute in Hs; discriminate].
  destruct (w_trees mixed_world_applied !! 50%nat) as [t|] eqn:Ht;
    [|vm_compute in Ht; discriminate].
  assert (Hs' := Hs). vm_compute in Hs'. injection Hs' as Hs'.
  assert (Ht' := Ht). vm_compute in Ht'. injection Ht' as Ht'.
  destruct (unregister_member mixed_plain_env 10%nat mixed_world_applied
              s 50%nat t Hs) as (w' & Hrun & Htr & _).
  - rewrite <- Hs'. reflexivity.
  - exact Ht.
  - vm_compute. reflexivity.
  - vm_compute. apply NoDup_singleton.
  - rewrite <- Hs'. vm_compute. lia.
  - intros _. rewrite <- Ht'. eexists. reflexivity.
  - rewrite <- Ht'. vm_compute. discriminate.
  - exists w'. eexists. split; [exact Hrun|].
    split; [rewrite Htr; apply lookup_insert_eq|].
    rewrite <- Hs', <- Ht'. vm_compute. auto.
Defined.

(** ** Freeing a tree *)

(** X18: releasing the last reference of a tree (whose list entry is as
    [dsa_add_dst] left it, linked to the registry head on both sides)
    frees it and leaves the registry head pointing to itself: no tree is
    found by [dsa_get_dst] afterwards, also not the trees that are still
    allocated. *)
Theorem dsa_put_dst_empties_registry p t w :
  w_trees w !! p = Some t ->
  dst_refcount t = 1 ->
  dst_list t = empty_head ->
  exists w',
    dsa_put_dst p w = Some (tt, w') /\
    w_trees w' = delete p (w_trees w) /\
    w_switches w' = w_switches w /\
    registry w' [] /\
    forall tree, dsa_get_dst tree w' = Some (None, w').
Proof.
  intros Hp Hc Hl. eexists.
  split; [apply (dsa_put_dst_last p t w Hp Hc Hl)|].
  set (w' := w_with_head _ _).
  assert (Hr : registry w' []) by reflexivity.
  do 2 (split; [reflexivity|]). split; [exact Hr|].
  intros tree. rewrite (dsa_get_dst_found tree w' [] Hr). reflexivity.
Qed.

Lemma dsa_put_dst_empties_registry_witness :
  (exists w0, dsa_get_dst 2 fabric_world_second = Some (Some 51%nat, w0)) /\
  exists w',
    dsa_put_dst 50%nat fabric_world_second = Some (tt, w') /\
    is_Some (w_trees w' !! 51%nat) /\
    dsa_get_dst 2 w' = Some (None, w').
Proof.
  split; [eexists; vm_compute; reflexivity|].
  destruct (w_trees fabric_world_second !! 50%nat) as [t|] eqn:Ht;
    [|vm_compute in Ht; discriminate].
  assert (Ht' := Ht). vm_compute in Ht'. injection Ht' as Ht'.
  destruct (dsa_put_dst_empties_registry 50%nat t fabric_world_second Ht)
    as (w' & Hrun & Htr & _ & _ & Hget).
  - rewrite <- Ht'. reflexivity.
  - rewrite <- Ht'. reflexivity.
  - exists w'. split; [exact Hrun|]. split; [|apply Hget].
    rewrite Htr. vm_compute. eexists. reflexivity.
Defined.

(** ** Registration: the exit through [out_del_dst] *)



(** ** Registration: configuration errors *)

(** X20: a registration whose configuration is unusable returns before
    it touches the store: [-ENODEV] without device node and platform
    data, [-EINVAL] for a "dsa,member" index at or above
    [DSA_MAX_SWITCHES], and [-EINVAL] when the member parses but the
    node has no "ports" child. *)
Theorem register_config_errors env ds dev w :
  (of_node dev = None -> platform_data dev = None ->
   _dsa_register_switch env ds dev w = Some (- ENODEV, w)) /\
  (forall np tree index cells,
     of_node dev = Some np ->
     dn_dsa_member (of_tree env np) = Some (tree :: index :: cells) ->
     (DSA_MAX_SWITCHES <= index)%nat ->
     _dsa_register_switch env ds dev w = Some (- EINVAL, w)) /\
  (forall np,
     of_node dev = Some np ->
     fst (dsa_parse_member_dn env np) = 0 ->
     dn_ports (of_tree env np) = None ->
     _dsa_register_switch env ds dev w = Some (- EINVAL, w)).
Proof.
  unfold _dsa_register_switch, dsa_register_parse.
  split; [|split].
  - intros -> ->. reflexivity.
  - intros np tree index cells -> Hm Hge.
    unfold dsa_parse_member_dn, of_property_read_u32_index. rewrite Hm.
    cbn [lookup list_lookup].
    destruct (decide (DSA_MAX_SWITCHES <= index)%nat); [|lia]. reflexivity.
  - intros np -> Hmember Hports. unfold dsa_get_ports. rewrite Hports.
    destruct (dsa_parse_member_dn env np) as [err member].
    simpl in Hmember. subst err.
    destruct (decide (0 <> 0)); [contradiction|]. reflexivity.
Qed.

Lemma register_config_errors_witness :
  _dsa_register_switch fabric_env 10%nat bare_device
    (boot_world three_switches) =
    Some (- ENODEV, boot_world three_switches) /\
  _dsa_register_switch
    (plain_env far_member_dt (fun _ => false) (Some 50%nat))
    10%nat device_100 (boot_world three_switches) =
    Some (- EINVAL, boot_world three_switches) /\
  _dsa_register_switch
    (plain_env no_ports_dt (fun _ => false) (Some 50%nat))
    10%nat device_100 (boot_world three_switches) =
    Some (- EINVAL, boot_world three_switches).
Proof.
  split; [|split].
  - apply (proj1 (register_config_errors fabric_env 10%nat bare_device
                    (boot_world three_switches))); reflexivity.
  - apply (proj1 (proj2 (register_config_errors
                           (plain_env far_member_dt (fun _ => false)
                              (Some 50%nat))
                           10%nat device_100 (boot_world three_switches)))
             100%nat 0%nat 9%nat []);
      [reflexivity|reflexivity|vm_compute; lia].
  - apply (proj2 (proj2 (register_config_errors
                           (plain_env no_ports_dt (fun _ => false)
                              (Some 50%nat))
                           10%nat device_100 (boot_world three_switches)))
             100%nat); reflexivity.
Defined.

(** ** Publication of an applied tree *)

(** An apply that succeeds has set the [dsa_ptr] of the master device to
    the tree and marked the tree applied, and has left the other trees
    and [dsa_ptr] fields alone. *)
Lemma dsa_dst_apply_publishes env dst w t :
  w_trees w !! dst = Some t ->
  wp (dsa_dst_apply env dst)
     (fun r w' => r = 0 ->
        exists nd, dst_master_netdev t = Some nd /\
          w_trees w' = <[dst := dst_with_applied true t]> (w_trees w) /\
          w_dsa_ptr w' = <[nd := dst]> (w_dsa_ptr w)) w.
Proof.
  intros Ht. unfold dsa_dst_apply.
  apply (wp_for_each (fun w' => keeps_trees w w')); [split; reflexivity| |].
  - intros i w1 _ H1. apply wp_bind, wp_load_dst. intros t1 Ht1.
    apply wp_bind, wp_array_get. intros slot Hslot.
    destruct slot as [ds|]; [|apply wp_ret; exact H1].
    apply wp_bind.
    eapply wp_mono; [apply dsa_ds_apply_keeps; exact H1|].
    intros err w2 H2. simpl.
    destruct (decide (err <> 0)); apply wp_ret; [|exact H2].
    intros H. contradiction.
  - intros w1 [Htr Hptr]. apply wp_bind, wp_load_dst. intros t1 Ht1.
    rewrite Htr, Ht in Ht1. injection Ht1 as <-.
    destruct (decide _) as [Hne|Heq]; [apply wp_ret; intros H; contradiction|].
    apply wp_bind. unfold set_dsa_ptr.
    apply wp_bind, wp_load_dst. intros t2 Ht2.
    rewrite Htr, Ht in Ht2. injection Ht2 as <-.
    destruct (dst_master_netdev t) as [nd|]; [|apply wp_fault].
    apply wp_intro. intros u w2 Hrun. injection Hrun as <- <-.
    apply wp_bind, wp_load_dst. intros t3 Ht3. simpl in Ht3.
    rewrite Htr, Ht in Ht3. injection Ht3 as <-.
    apply wp_bind, wp_store_dst. intros _ _. apply wp_ret. intros _.
    exists nd. split; [reflexivity|]. simpl. rewrite Htr, Hptr.
    split; reflexivity.
Qed.

(** An unapply of an applied tree has cleared the [dsa_ptr] of the master
    device and the applied mark, and has left the other trees and
    [dsa_ptr] fields alone. *)
Lemma dsa_dst_unapply_withdraws env dst w t nd :
  w_trees w !! dst = Some t -> dst_applied t = true ->
  dst_master_netdev t = Some nd ->
  wp (dsa_dst_unapply env dst)
     (fun _ w' =>
        w_trees w' = <[dst := dst_with_applied false t]> (w_trees w) /\
        w_dsa_ptr w' = delete nd (w_dsa_ptr w)) w.
Proof.
  intros Ht Ha Hnd. unfold dsa_dst_unapply.
  apply wp_bind, wp_load_dst. intros t1 Ht1.
  rewrite Ht in Ht1. injection Ht1 as <-. rewrite Ha. cbn [negb].
  apply wp_bind. unfold set_dsa_ptr.
  apply wp_bind, wp_load_dst. intros t2 Ht2.
  rewrite Ht in Ht2. injection Ht2 as <-. rewrite Hnd.
  apply wp_intro. intros u w0 Hrun. injection Hrun as <- <-.
  apply (wp_for_each
    (fun w' => w_trees w' = w_trees w /\
               w_dsa_ptr w' = delete nd (w_dsa_ptr w))).
  - split; reflexivity.
  - intros i w1 _ [Htr Hptr]. apply wp_bind, wp_load_dst. intros t3 Ht3.
    apply wp_bind, wp_array_get. intros slot Hslot.
    destruct slot as [ds|]; [|apply wp_ret; split; assumption].
    apply wp_bind. eapply wp_mono; [apply dsa_ds_unapply_wp|].
    intros u w2 (s & Hs & ->). apply wp_ret. split; assumption.
  - intros w1 [Htr Hptr]. apply wp_bind, wp_load_dst. intros t3 Ht3.
    rewrite Htr, Ht in Ht3. injection Ht3 as <-.
    apply wp_store_dst. intros _ _. simpl. rewrite Htr. split; [reflexivity|].
    exact Hptr.
Qed.

(** X21: an apply that succeeds publishes the tree: the tree has a master
    device, whose [dsa_ptr] now is the tree, and is marked applied; no
    other tree and no other [dsa_ptr] changes. The unapply that follows
    withdraws it: the master device is left without [dsa_ptr], also when
    it had one before the apply, and the tree is as it was before the
    apply but for the mark, which is clear. *)
Theorem apply_publishes_tree env dst w w1 w2 t :
  w_trees w !! dst = Some t ->
  dsa_dst_apply env dst w = Some (0, w1) ->
  dsa_dst_unapply env dst w1 = Some (tt, w2) ->
  exists nd,
    dst_master_netdev t = Some nd /\
    w_trees w1 = <[dst := dst_with_applied true t]> (w_trees w) /\
    w_dsa_ptr w1 = <[nd := dst]> (w_dsa_ptr w) /\
    w_trees w2 = <[dst := dst_with_applied false t]> (w_trees w) /\
    w_dsa_ptr w2 = delete nd (w_dsa_ptr w).
Proof.
  intros Ht Happly Hunapply.
  destruct (wp_elim _ _ _ _ _ (dsa_dst_apply_publishes env dst w t Ht)
              Happly eq_refl) as (nd & Hnd & Htr1 & Hptr1).
  assert (Ht1 : w_trees w1 !! dst = Some (dst_with_applied true t)).
  { rewrite Htr1. apply lookup_insert_eq. }
  destruct (wp_elim _ _ _ _ _
              (dsa_dst_unapply_withdraws env dst w1 _ nd Ht1 eq_refl Hnd)
              Hunapply) as [Htr2 Hptr2].
  exists nd. split; [exact Hnd|]. split; [exact Htr1|].
  split; [exact Hptr1|]. split.
  - rewrite Htr2, Htr1. apply insert_insert_eq.
  - rewrite Hptr2, Hptr1. apply delete_insert_eq.
Qed.

Lemma apply_publishes_tree_witness :
  exists nd,
    dst_master_netdev
      (dst_with_master_netdev (Some 900%nat)
         (dst_with_cpu (Some 10%nat) 2
            (member_tree 0 2 [Some 10%nat; None; None; None]))) = Some nd /\
    w_dsa_ptr mixed_world_applied = <[nd := 50%nat]> (w_dsa_ptr mixed_world) /\
    w_dsa_ptr mixed_world_unapplied = delete nd (w_dsa_ptr mixed_world).
Proof.
  destruct (apply_publishes_tree mixed_plain_env 50%nat mixed_world
              mixed_world_applied mixed_world_unapplied
              (dst_with_master_netdev (Some 900%nat)
                 (dst_with_cpu (Some 10%nat) 2
                    (member_tree 0 2 [Some 10%nat; None; None; None])))
              ltac:(vm_compute; reflexivity)
              ltac:(vm_compute; reflexivity)
              ltac:(vm_compute; reflexivity))
    as (nd & Hnd & _ & Hp1 & _ & Hp2).
  exists nd. split; [exact Hnd|]. split; [exact Hp1|exact Hp2].
Defined.

(** ** Registry: the references of whole registrations *)

















(** ** PHY mask of an applied switch *)

(** Closes a goal on the masks of the switch a store has just
    replaced. *)
Ltac masks_stored :=
  repeat match goal with
         | H : w_switches _ !! _ = Some _, H' : w_switches _ !! _ = Some _
           |- _ => rewrite H in H'; injection H' as <-
         end;
  eexists; split; [simpl; apply lookup_insert_eq|]; simpl; auto.

Lemma set_port_netdev_masks ds index nd m w :
  (exists s, w_switches w !! ds = Some s /\
             ds_phys_mii_mask s = m /\ ds_enabled_port_mask s = m) ->
  wp (set_port_netdev ds index nd)
     (fun _ w' => exists s, w_switches w' !! ds = Some s /\
                  ds_phys_mii_mask s = m /\ ds_enabled_port_mask s = m) w.
Proof.
  intros (s & Hs & Hp & He). unfold set_port_netdev. wp_steps. masks_stored.
Qed.

Lemma dsa_ds_apply_ports_masks env ds m w :
  (exists s, w_switches w !! ds = Some s /\
             ds_phys_mii_mask s = m /\ ds_enabled_port_mask s = m) ->
  wp (dsa_ds_apply_ports env ds)
     (fun _ w' => exists s, w_switches w' !! ds = Some s /\
                  ds_phys_mii_mask s = m /\ ds_enabled_port_mask s = m) w.
Proof.
  intros H. unfold dsa_ds_apply_ports.
  apply wp_bind, wp_load_ds. intros s0 Hs0.
  apply (wp_for_each
    (fun w' => exists s, w_switches w' !! ds = Some s /\
               ds_phys_mii_mask s = m /\ ds_enabled_port_mask s = m));
    [exact H| |].
  - intros i w1 _ H1. apply wp_bind, wp_load_ds. intros sa Hsa.
    apply wp_bind, wp_array_get. intros port Hport.
    destruct (negb (dsa_port_is_valid port)); [apply wp_ret; exact H1|].
    destruct (dsa_port_is_dsa env port).
    { unfold dsa_dsa_port_apply. wp_steps; exact H1. }
    destruct (dsa_port_is_cpu env port).
    { apply wp_bind. unfold dsa_cpu_port_apply.
      destruct (decide (dsa_cpu_dsa_setup env ds i <> 0)).
      - wp_steps; exact H1.
      - destruct H1 as (s & Hs & Hp & He).
        apply wp_bind, wp_load_ds. intros sb Hsb.
        apply wp_bind, wp_store_ds. intros sc Hsc.
        wp_steps; masks_stored. }
    apply wp_bind. unfold dsa_user_port_apply.
    destruct (dsa_slave_create env ds i _) as [err|dev].
    + destruct (decide (err <> 0)); [|wp_steps; exact H1].
      apply wp_bind.
      eapply wp_mono; [apply set_port_netdev_masks; exact H1|].
      intros u w2 H2. wp_steps. exact H2.
    + apply wp_bind.
      eapply wp_mono; [apply set_port_netdev_masks; exact H1|].
      intros u w2 H2. wp_steps. exact H2.
  - intros w1 H1. apply wp_ret. exact H1.
Qed.

(** X22: whatever [dsa_ds_apply] returns, it leaves the PHY mask of the
    switch equal to the enabled mask the switch had when it was called,
    which still is its enabled mask: the mask is set before any step that
    can fail, and no later step of the apply writes either mask. *)
Theorem dsa_ds_apply_phys_mii_mask env dst ds w s r w' :
  w_switches w !! ds = Some s ->
  dsa_ds_apply env dst ds w = Some (r, w') ->
  exists s',
    w_switches w' !! ds = Some s' /\
    ds_phys_mii_mask s' = ds_enabled_port_mask s /\
    ds_enabled_port_mask s' = ds_enabled_port_mask s.
Proof.
  intros Hs Hrun.
  refine (wp_elim _
            (fun _ w1 => exists s1, w_switches w1 !! ds = Some s1 /\
               ds_phys_mii_mask s1 = ds_enabled_port_mask s /\
               ds_enabled_port_mask s1 = ds_enabled_port_mask s)
            _ _ _ _ Hrun).
  unfold dsa_ds_apply. apply wp_bind.
  apply (wp_mono _
    (fun _ w1 => exists s1, w_switches w1 !! ds = Some s1 /\
       ds_phys_mii_mask s1 = ds_enabled_port_mask s /\
       ds_enabled_port_mask s1 = ds_enabled_port_mask s)).
  - unfold dsa_ds_apply_setup.
    apply wp_bind, wp_load_ds. intros s0 Hs0.
    rewrite Hs in Hs0. injection Hs0 as <-.
    apply wp_bind, wp_store_ds. intros s1 _.
    assert (Hset : exists s1,
              w_switches
                (w_with_switches
                   (<[ds := ds_with_phys_mii_mask (ds_enabled_port_mask s) s]>
                      (w_switches w)) w) !! ds = Some s1 /\
              ds_phys_mii_mask s1 = ds_enabled_port_mask s /\
              ds_enabled_port_mask s1 = ds_enabled_port_mask s).
    { eexists. split; [simpl; apply lookup_insert_eq|]. simpl. auto. }
    destruct (decide (ops_setup (ds_ops s) < 0)); [apply wp_ret; exact Hset|].
    destruct (decide (dsa_switch_register_notifier env ds <> 0));
      [apply wp_ret; exact Hset|].
    apply wp_bind.
    apply (wp_mono _
      (fun _ w1 => exists s1, w_switches w1 !! ds = Some s1 /\
         ds_phys_mii_mask s1 = ds_enabled_port_mask s /\
         ds_enabled_port_mask s1 = ds_enabled_port_mask s)).
    { destruct (ops_set_addr (ds_ops s)); wp_steps; exact Hset. }
    intros err w1 H1. simpl.
    destruct (decide (err < 0)); [apply wp_ret; exact H1|].
    unfold dsa_ds_apply_mii_bus.
    destruct H1 as (s2 & Hs2 & Hp2 & He2).
    apply wp_bind, wp_load_ds. intros s3 Hs3.
    destruct (_ && _).
    + apply wp_bind, wp_store_ds. intros s4 Hs4.
      destruct (devm_mdiobus_alloc env (ds_dev s3)); wp_steps; masks_stored.
    + apply wp_ret. eauto.
  - intros err w1 H1. simpl.
    destruct (decide (err <> 0)); [apply wp_ret; exact H1|].
    apply dsa_ds_apply_ports_masks. exact H1.
Qed.

Lemma dsa_ds_apply_phys_mii_mask_witness :
  exists s',
    w_switches
      (world_after (dsa_ds_apply mixed_plain_env 50%nat 10%nat) mixed_world)
      !! 10%nat = Some s' /\
    ds_phys_mii_mask s' = to_u32 11 /\ ds_enabled_port_mask s' = to_u32 11.
Proof.
  exact (dsa_ds_apply_phys_mii_mask mixed_plain_env 50%nat 10%nat mixed_world
           (ds_with_enabled_port_mask (to_u32 11)
              (member_switch 0 [102%nat; 103%nat; 104%nat; 105%nat]))
           0
           (world_after (dsa_ds_apply mixed_plain_env 50%nat 10%nat)
              mixed_world)
           ltac:(vm_compute; reflexivity) ltac:(vm_compute; reflexivity)).
Defined.
